(* ===== verification/_CoqProject ===== *)
-Q . S2P
Prelude.v
GoText.v
GoNet.v
Core.v
CoreChecks.v
CoreProofs.v
CatalogState.v
CatalogChecks.v
Catalog.v
Resources.v
Lifecycle.v
Generations.v
Snapshots.v
Runs.v
CatalogSpec.v
AttachmentSpec.v
Settled.v
Transactions.v
ResourceProofs.v
CopyProofs.v
LifecycleProofs.v
ReservationProofs.v
SnapshotProofs.v
Store.v
ContractProofs.v
Scenario.v
Findings.v
StoreProperties.v
LifecycleProperties.v
Policy.v
PolicyProofs.v
PolicyProperties.v
CapabilityService.v
ServiceProofs.v
ServiceProperties.v
Approvals.v
ApprovalProperties.v
Frames.v
FramedConn.v
FramedProperties.v
ProcessSession.v
ProcessProofs.v
ProcessProperties.v
GoStrings.v
GoURL.v
GoNetProofs.v
Egress.v
EgressProofs.v
NetworkAuthority.v
NetworkAuthorityProofs.v
NetworkService.v
NetworkProofs.v
NetworkInvariant.v
NetworkScenario.v
NetworkProperties.v
GitProtocol.v
GitAgent.v
GitAgentProofs.v
GoDigest.v
GitRegistry.v
GitRecords.v
GitRegistryProofs.v
GitSystem.v
GitProperties.v
WorkspaceModel.v
WorkspaceService.v
WorkspaceAccess.v
WorkspaceProtocol.v
WorkspaceProofs.v
WorkspaceLifecycle.v
WorkspaceFrames.v
WorkspaceStore.v
WorkspaceSystem.v
WorkspaceScenario.v
WorkspaceProperties.v
