(* ===== verification/Prelude.v ===== *)
(** * Hacocoon: verification development

    Hacocoon runs development tools in isolated Environments, keeps project
    files in Workspaces and mediates access to credentials and services.  This
    library models the parts of it that decide: the catalog every lifecycle
    operation goes through, the policy and capability service that authorize
    access, the approval queue, the network sessions opened under them, the
    Workspace service that creates, uses and deletes Environments, the registry
    of Git repositories and the trusted agent that runs Git for it, and the
    byte protocols that carry streams and processes between the client, the
    controller and an Environment.

    ** How the parts interact

    Services create, copy and delete native objects (virtual machines, volumes)
    through adapters, and record every intention and every result in one JSON
    catalog ([src/internal/state]).  The Workspace service
    ([src/internal/workspace]) is the one that owns Environments: under a lock
    per name it reserves a lease, has the runtime created, records its receipt,
    publishes the Environment, and undoes all of it when a step fails.  Each
    operation locks the catalog, reads and validates it, changes a value, and
    commits it with a temporary file and a rename.  A capability request
    ([src/internal/policy]) asks the catalog for the identity of its
    Environment, evaluates the policy file, may wait for a person in the
    approval queue, may save the choice in the policy file, evaluates again and
    only then calls a provider, with an audit record at each step.  A network
    connection ([src/internal/network]) is such a request for a resolved target;
    its session is verified again before and after the dial and while it
    lives.  Git sources and the Workspaces copied from them are records of a
    registry ([src/internal/git]) that owns their native volumes; the Git
    commands themselves run in a trusted agent ([src/internal/adapters/git])
    that executes one operation at a time.  Streams run over framed pipes
    ([src/internal/streamio]) and process sessions over the control transport
    ([src/internal/controller/transport]).

    ** Files

    Go itself: [Prelude] (errors, the error monad, loops over slices and maps,
    tactics and rewrite databases), [GoText] (bytes, runes, UTF-8, regular
    expressions by derivatives, [strings], [path], [encoding/hex]), [GoNet]
    ([net/netip]).

    Records and checks: [Core] ([src/internal/core]: the structs, one record
    each), [CoreChecks] (their validators), [CoreProofs].

    Catalog: [CatalogState] ([environmentFileState] and the small checks),
    [CatalogChecks] (the validators), [Catalog] (migration, the file, the commit
    as a list of system calls, transactions), and the operations in [Resources],
    [Lifecycle], [Generations], [Snapshots], [Runs], one definition per Go method
    with a [_change] for its closure.  [CatalogSpec] and [AttachmentSpec] state
    what the validators mean, [Settled] the fixed points of reading,
    [Transactions] the commit; [ResourceProofs], [CopyProofs], [LifecycleProofs],
    [ReservationProofs], [SnapshotProofs] show that each operation keeps the
    catalog readable.  [Store] collects all operations, their callers' promises
    and the reachable disks; [ContractProofs] shows that the promises are also
    necessary; [Scenario] is a concrete history, [Findings] ways to lose the
    catalog, [StoreProperties] and [LifecycleProperties] the theorems.

    Policy: [Policy] (rules, evaluation, saved choices, the update of the file),
    [PolicyProofs], [PolicyProperties].  [CapabilityService] (the service in a
    monad that records every call of a collaborator), [ServiceProofs],
    [ServiceProperties].  [Approvals] (the queue, with entries as heap cells),
    [ApprovalProperties].

    Network: [Egress] (host names, the egress broker and provider),
    [NetworkAuthority] (specifications, targets, the capability request and its
    provider, the configured targets), [NetworkService] (the session service:
    [Open], [finish], the monitor and the binding of a client as programs over
    their effects, and the interleaving of all sessions), with their proofs in
    [EgressProofs], [NetworkAuthorityProofs], [NetworkProofs] and
    [NetworkInvariant]; [NetworkScenario] runs a schedule, [NetworkProperties]
    holds the theorems.  [GoStrings] and [GoNetProofs] model the library
    functions they use.

    Workspace service: [WorkspaceModel] (its data, its effects and the programs
    over them), [WorkspaceService] (creation, cleanup and deletion),
    [WorkspaceAccess] (start, stop, execution, client access, data areas,
    images, snapshots, listing).  [WorkspaceProtocol] is the abstract contract: the
    entry of a name (lease, Environment, runtimes, and a log of the runtimes that
    something other than a deletion of the service removed), what each call may do
    to it and when it may be made, and a program logic for it; [WorkspaceProofs],
    [WorkspaceLifecycle] and [WorkspaceFrames] prove every method against it.
    [WorkspaceStore] proves that the catalog operations implement the store's
    side of the contract, [WorkspaceSystem] composes the service, the catalog
    and the runtimes with any number of concurrent calls and crashes,
    [WorkspaceScenario] runs it, [WorkspaceProperties] holds the theorems.

    Git: [GoURL] ([net/url] and more of [strings]), [GoDigest] (SHA-256),
    [GitProtocol] (identifiers, branches, object names, remotes, heads, the
    messages), [GitAgent] (the operations of the agent as programs over the
    commands they run), [GitAgentProofs]; [GitRegistry] (the methods of
    [RepositoryService] as programs over their calls of the backend, the snapshot
    catalog and the directory), [GitRecords] (what keeps a record valid),
    [GitRegistryProofs] (the world of records and volumes with a step per call,
    a program logic and every method), [GitSystem] (any number of calls under the
    mutex, with crashes), [GitProperties].

    Streams: [Frames] (both framings), [FramedConn], [FramedProperties];
    [ProcessSession] (client, server and operation as interleaved steps),
    [ProcessProofs], [ProcessProperties].

    ** What the theorems show

    - Every disk reachable by operations whose callers keep [caller_contract],
      by failures and by power losses reads back as a valid catalog, and the
      contract is exactly what this needs: a successful operation that breaks it
      leaves a catalog the reader refuses.  An operation that fails changes
      nothing, a power loss during a commit leaves the new catalog or what one
      before it could have left, a commit whose directory was synced is durable.
    - In a reachable catalog Workspaces have one writer or readers only, store
      resources and data areas one owner, a copy in flight has a source that is
      there and that nobody but a publishing Environment holds, Environments have
      a lease that binds them; operations keep identities.
    - However calls of the Workspace service interleave and wherever it dies, no
      runtime is without a lease that accounts for it; a creation publishes or
      restores, a deletion removes or restores, unless it says that recovery is
      required; every other use leaves the entry and the runtimes alone; no call
      panics; and every call of the store refines the abstract entries this is
      proved on.
    - A provider runs only after a recorded decision, an approval where needed,
      a second evaluation and a second identity check, and the outcome reported
      is the truth.  Evaluation takes the most restrictive applicable rule; a
      saved choice covers what it was made for and takes effect.
    - The approval queue is bounded, never blocks under its lock, and takes one
      decision per request.
    - A connection is dialed only to an address that was resolved, authorized and
      verified; a finished session leaves one record and no socket; the table is
      bounded; requests, targets and host names are exactly the canonical ones.
    - A pair of framed connections is a byte stream under partial writes, cuts
      and deadlines, and drains.  The two ends of a process session never accuse
      each other, a receipt vouches for all output, the window holds against any
      peer, and the session can always complete.
    - However calls of the Git registry interleave and fail, and wherever the
      controller stops, every native volume is named by a complete record, every
      complete record is valid and is read back exactly when it is within the
      limit of the reader, a record is removed only when nothing uses it, and a
      call that returns success told the truth.
    - The agent pushes exactly the update it was asked for, once, after checking
      it, with the command written out in the theorem, and reports success only
      when the report of Git has one line about a ref, which is that update;
      nothing from a request or a remote becomes an option of Git.
    - [identity_strands_restores], [truncated_record_is_permanent] and
      [cut_frame_is_overwritten] record defects found on the way.

    ** Modelling choices

    Strings are byte strings; int is Z where it is only compared, uint64 wraps
    where it is incremented.  Time is Z nanoseconds, zero the zero time.  Go maps
    are [gmap], iteration order is [map_to_list] and the theorems hold for it
    because the loops only fail or accumulate order-independent facts. nil
    slices and empty slices are identified; pointers to optional structs are
    [option].  A JSON file is the value it decodes to, or [Undecodable]; of a Git
    record the length of its text is modelled too, for the limit of its
    reader.  Wrapped errors are their sentinel.  Random identifiers are made of
    bytes given as arguments.  Fuel: [data_loop] takes the length of its data and
    every round but the last sends a positive number of bytes, so it never runs
    out; all other loops are structural.  Collaborators of the capability service
    (evaluator, approver, provider, audit sink, identity resolver) are functions
    on an arbitrary world.

    The collaborators of the Workspace service other than the store (runtime,
    resource manager, Workspace provider, snapshot backend) answer anything that
    [slot_step] allows: a runtime is created only under the reference reported
    through the callback or returned, a creation that fails without asking for
    recovery and without a recorded reference left no runtime ([return_contract];
    the creation from a base of the Incus adapter does not always say so when its
    first command fails), a deletion that reports completion left none.  A runtime
    that disappears otherwise is entered in the log of losses of its entry.
    [WorkspaceScenario] has a concrete instance.
    The theorems assume that the store offers [ResourcesIdle], as the catalog does
    ([st_has_resources_idle]); locks of names are advisory file locks that all
    callers take.

    The registry's backend and file system answer anything that [gstep] allows:
    a call that creates or deletes a volume may fail before or after it took
    effect (a creation that a native task may still finish counts as done), a
    record is replaced atomically or not at all, its first creation may leave a
    truncated file, an inspection passes only on a volume that exists, a planned
    volume has a name.  The answers of Git to the agent are arbitrary and may
    depend on everything done before.

    Concurrency: the catalog lock makes operations atomic, so a reachable disk is
    a sequence of them.  Queue, framed connection and process session are step
    relations cut at every lock and wait; a network session is cut at every call
    of a collaborator and every lock.  In the session theorems [whole] says
    that no frame of the server failed half-way; [cut_frame_is_overwritten] shows
    why it is needed.

    ** Not modelled

    Adapters (Incus, OCI, cloud), the Git broker with its sockets and bindings,
    the transfer of packs and the helper in the guest, the command line and
    desktop clients, Windows code, the control transport below process sessions,
    terminal handling, the relay of network sockets and logging: input and
    output, system calls and library calls with little logic of their own.  Of
    the Workspace component the path provider, the import of input and the
    command line workflows; the services above it (environments, storage) are
    not modelled.  File locks, file permissions and the JSON syntax itself are
    outside the model.
*)

From stdpp Require Export base gmap strings list fin_maps sorting.
From Stdlib Require Export ZArith Lia.

(** ** Errors *)

(** The sentinel errors of [src/internal/core/errors.go].  Wrapping with
    [fmt.Errorf("...: %w", e)] keeps the sentinel; the text is not modelled.
    [ErrContext] to [ErrMessage] stand for errors that wrap no sentinel:
    [context.Canceled], [context.DeadlineExceeded], an input/output failure, one
    that [os.IsNotExist] recognizes, bytes that [encoding/json] rejects, and a message of the program itself
    ([fmt.Errorf] without a wrapped error).  The last seven are those that
    [src/internal/network/service.go] tells apart: its own [errDNSResolution] and
    [errPolicyChanged], the system's refused and unreachable connections, a
    [net.DNSError], and other [net.Error]s whose [Timeout()] is false or true. *)
Inductive error :=
| ErrNotFound
| ErrAlreadyExists
| ErrInvalidArgument
| ErrUnsupported
| ErrUnsafeShrink
| ErrRuntimeUnavailable
| ErrStorageUnavailable
| ErrStorageBusy
| ErrWorkspaceBusy
| ErrPolicyDenied
| ErrApprovalDenied
| ErrAuditIncomplete
| ErrIncompatibleState
| ErrRecoveryRequired
| ErrCapabilityStale
| ErrSourceGenerationStale
| ErrContext
| ErrDeadlineExceeded
| ErrIO
| ErrNotExist
| ErrDecode
| ErrMessage
| ErrDNSResolution
| ErrPolicyChanged
| ErrConnectionRefused
| ErrUnreachable
| ErrDNS
| ErrNetwork
| ErrTimeout.

#[export] Instance error_eq_dec : EqDecision error.
Proof. solve_decision. Defined.

(** A Go call that returns [(value, error)].  The value that a Go function
    returns beside a non-nil error is not modelled. *)
Inductive result (A : Type) :=
| Ok (a : A)
| Err (e : error).

Arguments Ok {A} a.
Arguments Err {A} e.

#[export] Instance result_ret : MRet result := fun A a => Ok a.
#[export] Instance result_bind : MBind result := fun A B f m =>
  match m with
  | Ok a => f a
  | Err e => Err e
  end.

#[export] Instance result_eq_dec A `{EqDecision A} : EqDecision (result A).
Proof. solve_decision. Defined.

(** Go comparisons and the [if err { return e }] form. *)
Declare Scope go_scope.
Delimit Scope go_scope with go.
Notation "x == y" := (bool_decide (x = y)) (at level 35, no associativity) : go_scope.
Notation "x != y" := (negb (bool_decide (x = y))) (at level 35, no associativity) : go_scope.
Notation "'reject' b 'with' e ;; k" := (if b then Err e else k)
  (at level 10, b at level 100, e at level 99, k at level 200,
   format "'reject'  b  'with'  e  ;; '//' k") : go_scope.
Open Scope go_scope.

Definition is_ok {A} (r : result A) : bool :=
  match r with Ok _ => true | Err _ => false end.

(** ** Loops over slices and maps *)

(** [for _, x := range l { ... }] with loop state [s] and early error return. *)
Fixpoint range_loop {A S} (body : A -> S -> result S) (l : list A) (s : S) : result S :=
  match l with
  | [] => Ok s
  | x :: l => match body x s with
              | Ok s' => range_loop body l s'
              | Err e => Err e
              end
  end.

(** The same loop without state. *)
Fixpoint range_check {A} (body : A -> result unit) (l : list A) : result unit :=
  match l with
  | [] => Ok tt
  | x :: l => match body x with
              | Ok _ => range_check body l
              | Err e => Err e
              end
  end.

(** [for k, v := range m]: Go leaves the order unspecified, the model takes the
    enumeration order of [map_to_list].  The lemmas below are stated on
    lookups only, so nothing proved with them depends on that order. *)
Definition range_map {V} (body : string -> V -> result unit) (m : gmap string V) : result unit :=
  range_check (fun kv => body kv.1 kv.2) (map_to_list m).

Definition map_any {V} (p : string -> V -> bool) (m : gmap string V) : bool :=
  existsb (fun kv => p kv.1 kv.2) (map_to_list m).

(** The value of a Go map read [m[k]]: the zero value when the key is absent. *)
Definition read_or {V} (zero : V) (m : gmap string V) (k : string) : V :=
  default zero (m !! k).

Definition has_key {V} (m : gmap string V) (k : string) : bool :=
  match m !! k with Some _ => true | None => false end.

(** ** Lemmas on results, loops and maps *)

Lemma range_check_ok {A} (body : A -> result unit) l :
  range_check body l = Ok tt <-> (forall x, x ∈ l -> body x = Ok tt).
Proof.
  induction l as [|x l IH]; simpl.
  - split; [|done]. intros _ y Hy. by apply not_elem_of_nil in Hy.
  - destruct (body x) as [[]|e] eqn:E.
    + rewrite IH. split; intros H y; [rewrite elem_of_cons; intros [->|]; auto|].
      intros Hy. apply H. by apply elem_of_cons; right.
    + split; [done|]. intros H. rewrite H in E; [done|]. apply elem_of_cons; by left.
Qed.

Lemma range_map_ok {V} (body : string -> V -> result unit) m :
  range_map body m = Ok tt <-> (forall k v, m !! k = Some v -> body k v = Ok tt).
Proof.
  unfold range_map. rewrite range_check_ok. split.
  - intros H k v Hk. apply (H (k, v)). by apply elem_of_map_to_list.
  - intros H [k v] Hk. apply H. by apply elem_of_map_to_list.
Qed.

Lemma map_any_true {V} (p : string -> V -> bool) m :
  map_any p m = true <-> exists k v, m !! k = Some v /\ p k v = true.
Proof.
  unfold map_any. rewrite existsb_exists. split.
  - intros ([k v] & Hin & Hp). exists k, v. split; [|done].
    apply elem_of_map_to_list. by apply list_elem_of_In.
  - intros (k & v & Hk & Hp). exists (k, v). split; [|done].
    apply list_elem_of_In. by apply elem_of_map_to_list.
Qed.

Lemma map_any_false {V} (p : string -> V -> bool) m :
  map_any p m = false <-> (forall k v, m !! k = Some v -> p k v = false).
Proof.
  rewrite <- not_true_iff_false, map_any_true. split.
  - intros H k v Hk. apply not_true_iff_false. intros Hp. apply H. eauto.
  - intros H (k & v & Hk & Hp). by rewrite (H k v) in Hp.
Qed.

Lemma has_key_true {V} (m : gmap string V) k : has_key m k = true <-> is_Some (m !! k).
Proof. unfold has_key. destruct (m !! k) eqn:E; split; intros H; try done; by destruct H. Qed.

Lemma has_key_false {V} (m : gmap string V) k : has_key m k = false <-> m !! k = None.
Proof. unfold has_key. by destruct (m !! k). Qed.

Lemma range_check_err {A} (body : A -> result unit) l e :
  range_check body l = Err e -> exists x, x ∈ l /\ body x = Err e.
Proof.
  induction l as [|x l IH]; simpl; [done|].
  destruct (body x) eqn:E; intros H.
  - destruct (IH H) as (y & Hy & Hb). exists y. split; [by apply elem_of_cons; right|done].
  - exists x. simplify_eq. split; [by apply elem_of_cons; left|done].
Qed.

(** A loop that ends without error ran its body without error on every element. *)
Lemma range_loop_each {A S} (body : A -> S -> result S) l s s' x :
  range_loop body l s = Ok s' -> x ∈ l -> exists s1 s2, body x s1 = Ok s2.
Proof.
  revert s; induction l as [|y l IH]; intros s H Hx; [by apply not_elem_of_nil in Hx|]. simpl in H.
  destruct (body y s) as [s1|] eqn:E; [|done]. apply elem_of_cons in Hx as [->|Hx]; eauto.
Qed.

(** A loop whose body rejects with one fixed error. *)
Lemma range_map_total {V} (body : string -> V -> result unit) m e :
  (forall k v e', body k v = Err e' -> e' = e) ->
  range_map body m = Ok tt \/ range_map body m = Err e.
Proof.
  intros He. destruct (range_map body m) as [[]|e'] eqn:E; [by left|].
  apply range_check_err in E as ([k v] & _ & Hb). apply He in Hb. subst. by right.
Qed.

Lemma read_or_insert {V} (z : V) m k v k' :
  read_or z (<[k:=v]> m) k' = if decide (k = k') then v else read_or z m k'.
Proof. unfold read_or. rewrite lookup_insert. by case_decide. Qed.

Lemma read_or_empty {V} (z : V) k : read_or z ∅ k = z.
Proof. unfold read_or. by rewrite lookup_empty. Qed.

(** A loop that records the keys of its elements and rejects a key seen
    before: it succeeds exactly when every element passes its own check and no
    key occurs twice.  [mem] reads the recorded keys back from the loop state. *)
Section keyed_loop.
Context {A S K : Type} (body : A -> S -> result S).
Context (ok : A -> Prop) (keys : A -> list K) (mem : K -> S -> Prop) (upd : A -> S -> S).
Context (body_spec : forall x s s', body x s = Ok s' <->
  ok x /\ NoDup (keys x) /\ (forall k, k ∈ keys x -> ~ mem k s) /\ s' = upd x s).
Context (upd_spec : forall x s k, ok x -> mem k (upd x s) <-> k ∈ keys x \/ mem k s).

Lemma range_loop_keys l s s' :
  range_loop body l s = Ok s' <->
  (forall x, x ∈ l -> ok x) /\ NoDup (l ≫= keys) /\ (forall k, k ∈ l ≫= keys -> ~ mem k s) /\
  s' = foldl (fun s x => upd x s) s l.
Proof.
  revert s; induction l as [|x l IH]; intros s; simpl.
  - split.
    + intros [= ->]. split_and!; [|constructor| |done]; intros ? H; by apply not_elem_of_nil in H.
    + by intros (_ & _ & _ & ->).
  - transitivity (exists s1, body x s = Ok s1 /\ range_loop body l s1 = Ok s').
    { destruct (body x s) as [s1|e]; split; [eauto|by intros (? & [= ->] & ?)|done|by intros (? & ? & _)]. }
    split.
    + intros (s1 & Hb & Hl). apply body_spec in Hb as (Hok & Hnd & Hfresh & ->).
      apply IH in Hl as (Hoks & Hnds & Hfs & ->). split_and!; [| | |done].
      * intros y [->|Hy]%elem_of_cons; auto.
      * apply NoDup_app. split_and!; [done| |done].
        intros k Hk Hk'. apply (Hfs k Hk'). apply upd_spec; auto.
      * intros k [Hk|Hk]%elem_of_app; [by apply Hfresh|].
        intros Hm. apply (Hfs k Hk). apply upd_spec; auto.
    + intros (Hoks & Hnd & Hfresh & ->). apply NoDup_app in Hnd as (Hnd & Hdisj & Hnds).
      assert (ok x) as Hx by (apply Hoks, elem_of_cons; by left).
      exists (upd x s). split.
      * apply body_spec. split_and!; [done|done| |done]. intros k Hk. apply Hfresh, elem_of_app. by left.
      * apply IH. split_and!; [|done| |done].
        -- intros y Hy. apply Hoks, elem_of_cons. by right.
        -- intros k Hk [Hk'|Hm]%upd_spec; [by apply (Hdisj k)| |done].
           revert Hm. apply Hfresh, elem_of_app. by right.
Qed.
End keyed_loop.

Lemma elem_of_bind_map {V K} (m : gmap string V) (keys : string * V -> list K) k :
  k ∈ map_to_list m ≫= keys <-> exists n v, m !! n = Some v /\ k ∈ keys (n, v).
Proof.
  rewrite list_elem_of_bind. split.
  - intros ([n v] & Hk & Hin). apply elem_of_map_to_list in Hin. eauto.
  - intros (n & v & Hm & Hk). exists (n, v). split; [done|]. by apply elem_of_map_to_list.
Qed.

(** No key twice in the concatenation over a map: pairwise, on lookups. *)
Lemma NoDup_bind_map {V K} (m : gmap string V) (keys : string * V -> list K) :
  NoDup (map_to_list m ≫= keys) <->
  (forall n v, m !! n = Some v -> NoDup (keys (n, v))) /\
  (forall n1 v1 n2 v2 k, m !! n1 = Some v1 -> m !! n2 = Some v2 ->
     k ∈ keys (n1, v1) -> k ∈ keys (n2, v2) -> n1 = n2).
Proof.
  assert (forall l, NoDup l.*1 ->
    NoDup (l ≫= keys) <-> (forall x, x ∈ l -> NoDup (keys x)) /\
    (forall x y k, x ∈ l -> y ∈ l -> k ∈ keys x -> k ∈ keys y -> x.1 = y.1)) as Hgen.
  { induction l as [|x l IH]; intros Hnd; simpl.
    - split; [|constructor]. intros _. split; [intros x H|intros x ? ? H]; by apply not_elem_of_nil in H.
    - apply NoDup_cons in Hnd as [Hx Hnd]. rewrite NoDup_app, (IH Hnd). split.
      + intros (H1 & H2 & H3 & H4). split.
        * intros y [->|Hy]%elem_of_cons; auto.
        * intros y z k [->|Hy]%elem_of_cons [->|Hz]%elem_of_cons Hk Hk'; eauto; exfalso.
          -- apply (H2 k Hk), list_elem_of_bind. eauto.
          -- apply (H2 k Hk'), list_elem_of_bind. eauto.
      + intros [H1 H2]. split_and!.
        * apply H1, elem_of_cons. by left.
        * intros k Hk Hin. apply list_elem_of_bind in Hin as (y & Hk' & Hy). apply Hx.
          rewrite (H2 x y k); [|by apply elem_of_cons; left|by apply elem_of_cons; right|done|done].
          by apply list_elem_of_fmap_2.
        * intros y Hy. apply H1, elem_of_cons. by right.
        * intros y z k Hy Hz. apply H2; apply elem_of_cons; by right. }
  rewrite Hgen; [|apply NoDup_fst_map_to_list]. split.
  - intros [H1 H2]. split.
    + intros n v Hm. apply H1. by apply elem_of_map_to_list.
    + intros n1 v1 n2 v2 k Hm1 Hm2 Hk1 Hk2.
      apply (H2 (n1, v1) (n2, v2) k); try done; by apply elem_of_map_to_list.
  - intros [H1 H2]. split.
    + intros [n v] Hm. apply H1. by apply elem_of_map_to_list.
    + intros [n1 v1] [n2 v2] k Hm1 Hm2 Hk1 Hk2. apply (H2 n1 v1 n2 v2 k); try done; by apply elem_of_map_to_list.
Qed.

(** The keyed loop over a map, from a state that records nothing. *)
Lemma range_loop_map {V S K : Type} (body : string * V -> S -> result S) (ok : string * V -> Prop)
    (keys : string * V -> list K) (mem : K -> S -> Prop) (upd : string * V -> S -> S) m s :
  (forall x s s', body x s = Ok s' <->
     ok x /\ NoDup (keys x) /\ (forall k, k ∈ keys x -> ~ mem k s) /\ s' = upd x s) ->
  (forall x s k, ok x -> mem k (upd x s) <-> k ∈ keys x \/ mem k s) ->
  (forall k, ~ mem k s) ->
  (exists s', range_loop body (map_to_list m) s = Ok s') <->
  (forall n v, m !! n = Some v -> ok (n, v) /\ NoDup (keys (n, v))) /\
  (forall n1 v1 n2 v2 k, m !! n1 = Some v1 -> m !! n2 = Some v2 ->
     k ∈ keys (n1, v1) -> k ∈ keys (n2, v2) -> n1 = n2).
Proof.
  intros Hb Hu Hs. setoid_rewrite (range_loop_keys body ok keys mem upd Hb Hu).
  split.
  - intros (s' & Hok & Hnd & _ & _). apply NoDup_bind_map in Hnd as [Hnd Hk]. split; [|done]. intros n v Hm. split; [|by apply Hnd].
    apply Hok. by apply elem_of_map_to_list.
  - intros [H1 H2]. eexists. split_and!; [| | |reflexivity].
    + intros [n v] Hm. apply H1. by apply elem_of_map_to_list.
    + apply NoDup_bind_map. split; [|done]. intros n v Hm. by apply H1.
    + intros k _. apply Hs.
Qed.

(** ** Automation *)

(** [bool_hyps] turns the boolean equations that guards leave in the context
    into propositions. *)
Ltac bool_hyps :=
  repeat match goal with
  | H : orb _ _ = false |- _ => apply orb_false_iff in H as [? ?]
  | H : andb _ _ = true |- _ => apply andb_true_iff in H as [? ?]
  | H : negb _ = true |- _ => apply negb_true_iff in H
  | H : negb _ = false |- _ => apply negb_false_iff in H
  | H : bool_decide _ = true |- _ => apply bool_decide_eq_true in H
  | H : bool_decide _ = false |- _ => apply bool_decide_eq_false in H
  | H : has_key _ _ = true |- _ => apply has_key_true in H as [? ?]
  | H : has_key _ _ = false |- _ => apply has_key_false in H
  | H : (?a =? ?b)%Z = true |- _ => apply Z.eqb_eq in H
  | H : (?a =? ?b)%Z = false |- _ => apply Z.eqb_neq in H
  | H : (?a <? ?b)%Z = true |- _ => apply Z.ltb_lt in H
  | H : (?a <? ?b)%Z = false |- _ => apply Z.ltb_ge in H
  | H : (?a <=? ?b)%Z = true |- _ => apply Z.leb_le in H
  | H : (?a <=? ?b)%Z = false |- _ => apply Z.leb_gt in H
  | H : Is_true _ |- _ => apply Is_true_true in H
  end.

(** [ok_inv H] walks down [H : ... = Ok _], splitting every guard, match and
    bind on the way and closing the branches that return an error. *)
Ltac ok_step H :=
  match type of H with
  | Ok _ = Ok _ => injection H as H; subst
  | Err _ = _ => discriminate H
  | mbind _ ?m = _ => let E := fresh "Hb" in destruct m eqn:E; simpl in H
  | (if ?b then _ else _) = _ => let E := fresh "Hg" in destruct b eqn:E; simpl in H
  | match ?x with _ => _ end = _ => let E := fresh "Hm" in destruct x eqn:E; simpl in H
  end.
Ltac ok_inv H := repeat (ok_step H; try discriminate H).

Lemma reject_ok {A} (b : bool) e (k : result A) x :
  (if b then Err e else k) = Ok x <-> b = false /\ k = Ok x.
Proof. destruct b; intuition congruence. Qed.

Lemma bind_ok {A B} (m : result A) (f : A -> result B) x :
  m ≫= f = Ok x <-> exists a, m = Ok a /\ f a = Ok x.
Proof.
  destruct m as [a|e]; simpl; split; [eauto|by intros (? & [= ->] & ?)|done|by intros (? & ? & _)].
Qed.

Lemma bind_unit_ok {B} (m : result unit) (f : unit -> result B) x :
  m ≫= f = Ok x <-> m = Ok tt /\ f tt = Ok x.
Proof. rewrite bind_ok. split; [intros ([] & ? & ?); eauto|intros [? ?]; eauto]. Qed.

Lemma ok_inj {A} (a b : A) : @Ok A a = Ok b <-> a = b.
Proof. split; congruence. Qed.

(** [boolprop] states boolean tests as propositions, in goals and hypotheses. *)
Create Rewrite HintDb boolprop.
#[export] Hint Rewrite orb_false_iff orb_true_iff andb_true_iff andb_false_iff negb_true_iff negb_false_iff
  bool_decide_eq_true bool_decide_eq_false Z.eqb_eq Z.eqb_neq Z.ltb_lt Z.ltb_ge Z.leb_le Z.leb_gt
  Nat.eqb_eq Nat.eqb_neq @has_key_false @map_any_false : boolprop.
Ltac bool_prop := autorewrite with boolprop in *.

Create HintDb catalog discriminated.
