(* ===== verification/GoText.v ===== *)
(** * Go text primitives

    What the modelled packages use of Go's [regexp], [strings], [unicode],
    [unicode/utf8], [encoding/hex] and [path] packages.  Strings are byte
    strings ([String.string]); a matcher for the small regular-expression
    subset of the sources is proved against a declarative language. *)

From S2P Require Import Prelude.
From Stdlib Require Import Ascii String.
Open Scope string_scope.

Definition byte (c : ascii) : N := N_of_ascii c.

Definition in_range (lo hi : ascii) (c : ascii) : bool :=
  (byte lo <=? byte c)%N && (byte c <=? byte hi)%N.

(** ** Regular expressions *)

(** The subset of Go's syntax that the sources use: character classes,
    sequences, optional groups, and counted or starred character classes. *)
Inductive regexp :=
| Void
| Eps
| Cls (p : ascii -> bool)
| Seq (a b : regexp)
| Alt (a b : regexp)
| Rep (p : ascii -> bool) (lo hi : nat)
| Star (p : ascii -> bool).

Definition Opt (r : regexp) : regexp := Alt Eps r.
Definition Plus (p : ascii -> bool) : regexp := Seq (Cls p) (Star p).
Definition Exactly (p : ascii -> bool) (n : nat) : regexp := Rep p n n.

Fixpoint Lit (s : string) : regexp :=
  match s with
  | "" => Eps
  | String c s => Seq (Cls (Ascii.eqb c)) (Lit s)
  end.

Fixpoint all_chars (p : ascii -> bool) (s : string) : bool :=
  match s with
  | "" => true
  | String c s => p c && all_chars p s
  end.

Fixpoint nullable (r : regexp) : bool :=
  match r with
  | Void | Cls _ => false
  | Eps | Star _ => true
  | Seq a b => nullable a && nullable b
  | Alt a b => nullable a || nullable b
  | Rep _ lo _ => (lo =? 0)%nat
  end.

Definition mkSeq (a b : regexp) : regexp :=
  match a with Void => Void | Eps => b | _ => Seq a b end.
Definition mkAlt (a b : regexp) : regexp :=
  match a, b with Void, _ => b | _, Void => a | _, _ => Alt a b end.

Fixpoint deriv (c : ascii) (r : regexp) : regexp :=
  match r with
  | Void | Eps => Void
  | Cls p => if p c then Eps else Void
  | Seq a b => let d := mkSeq (deriv c a) b in if nullable a then mkAlt d (deriv c b) else d
  | Alt a b => mkAlt (deriv c a) (deriv c b)
  | Rep p lo hi => match hi with
                   | O => Void
                   | S hi => if p c then Rep p (Nat.pred lo) hi else Void
                   end
  | Star p => if p c then Star p else Void
  end.

(** [regexp.MustCompile("^r$").MatchString(s)]. *)
Fixpoint MatchString (r : regexp) (s : string) : bool :=
  match s with
  | "" => nullable r
  | String c s => MatchString (deriv c r) s
  end.

(** ** UTF-8 *)

Definition between (lo hi n : N) : bool := (lo <=? n)%N && (n <=? hi)%N.
Definition cont (c : ascii) : bool := between 0x80 0xBF (byte c).
Definition low6 (c : ascii) : N := (byte c mod 64)%N.

(** The accepted second bytes after a first byte, as in Go's [utf8] tables. *)
Definition second_ok3 (a b : ascii) : bool :=
  if (byte a =? 0xE0)%N then between 0xA0 0xBF (byte b)
  else if (byte a =? 0xED)%N then between 0x80 0x9F (byte b)
  else between 0xE1 0xEF (byte a) && cont b.
Definition second_ok4 (a b : ascii) : bool :=
  if (byte a =? 0xF0)%N then between 0x90 0xBF (byte b)
  else if (byte a =? 0xF4)%N then between 0x80 0x8F (byte b)
  else between 0xF1 0xF3 (byte a) && cont b.

(** [for _, r := range s]: [None] is an invalid byte, decoded as U+FFFD with
    width one. *)
Fixpoint runes (s : string) : list (option N) :=
  match s with
  | "" => []
  | String a s1 =>
    if (byte a <? 0x80)%N then Some (byte a) :: runes s1 else
    match s1 with
    | String b s2 =>
      if between 0xC2 0xDF (byte a) && cont b
      then Some ((byte a mod 32) * 64 + low6 b)%N :: runes s2 else
      match s2 with
      | String c s3 =>
        if second_ok3 a b && cont c
        then Some ((byte a mod 16) * 4096 + low6 b * 64 + low6 c)%N :: runes s3 else
        match s3 with
        | String d s4 =>
          if second_ok4 a b && cont c && cont d
          then Some ((byte a mod 8) * 262144 + low6 b * 4096 + low6 c * 64 + low6 d)%N :: runes s4
          else None :: runes s1
        | "" => None :: runes s1
        end
      | "" => None :: runes s1
      end
    | "" => None :: runes s1
    end
  end.

Definition rune_value (r : option N) : N := default 0xFFFD%N r.

(** [utf8.ValidString], [unicode.IsControl], [unicode.IsSpace]. *)
Definition ValidString (s : string) : bool :=
  forallb (fun r => match r with Some _ => true | None => false end) (runes s).
Definition IsControl (r : N) : bool := (r <=? 0x1F)%N || between 0x7F 0x9F r.
Definition IsSpace (r : N) : bool :=
  between 9 13 r || (r =? 32)%N || (r =? 0x85)%N || (r =? 0xA0)%N || (r =? 0x1680)%N ||
  between 0x2000 0x200a r || (r =? 0x2028)%N || (r =? 0x2029)%N || (r =? 0x202f)%N ||
  (r =? 0x205f)%N || (r =? 0x3000)%N.

Definition ContainsControl (s : string) : bool :=
  existsb (fun r => IsControl (rune_value r)) (runes s).

(** The first [n] bytes of [s]. *)
Fixpoint take_chars (n : nat) (s : string) : string :=
  match n, s with
  | S n, String c s => String c (take_chars n s)
  | _, _ => ""
  end.

(** Number of bytes that [utf8.DecodeRuneInString] consumes. *)
Definition rune_width (s : string) : nat :=
  match s with
  | "" => 0
  | String a s1 =>
    if (byte a <? 0x80)%N then 1 else
    match s1 with
    | String b s2 =>
      if between 0xC2 0xDF (byte a) && cont b then 2 else
      match s2 with
      | String c s3 =>
        if second_ok3 a b && cont c then 3 else
        match s3 with
        | String d _ => if second_ok4 a b && cont c && cont d then 4 else 1
        | "" => 1
        end
      | "" => 1
      end
    | "" => 1
    end
  end.

Fixpoint drop_chars (n : nat) (s : string) : string :=
  match n, s with
  | S n, String _ s => drop_chars n s
  | _, _ => s
  end.

(** The string cut into its runes; [fuel] bounds their number. *)
Fixpoint rune_segments (fuel : nat) (s : string) : list string :=
  match fuel with
  | O => []
  | S fuel =>
    match s with
    | "" => []
    | _ => take_chars (rune_width s) s :: rune_segments fuel (drop_chars (rune_width s) s)
    end
  end.

Definition space_segment (seg : string) : bool :=
  match runes seg with
  | [Some r] => IsSpace r
  | _ => false
  end.

Fixpoint drop_segments (l : list string) : list string :=
  match l with
  | [] => []
  | seg :: l' => if space_segment seg then drop_segments l' else l
  end.

(** [strings.TrimSpace]. *)
Definition TrimSpace (s : string) : string :=
  String.concat "" (rev (drop_segments (rev (drop_segments (rune_segments (String.length s) s))))).

(** ** Other string functions *)

(** [len(s)]. *)
Definition len (s : string) : Z := Z.of_nat (String.length s).

Definition HasPrefix (s p : string) : bool := String.prefix p s.

Definition TrimPrefix (s p : string) : string :=
  if HasPrefix s p then drop_chars (String.length p) s else s.

Fixpoint ContainsByte (s : string) (p : ascii -> bool) : bool :=
  match s with
  | "" => false
  | String c s => p c || ContainsByte s p
  end.

Definition NUL : ascii := ascii_of_N 0.
Definition CR : ascii := ascii_of_N 13.
Definition LF : ascii := ascii_of_N 10.
Definition slash : ascii := "/"%char.

(** [strings.ContainsAny(s, "\r\n\x00")]. *)
Definition ContainsLineOrNUL (s : string) : bool :=
  ContainsByte s (fun c => Ascii.eqb CR c || Ascii.eqb LF c || Ascii.eqb NUL c).

Definition hex_digit (n : N) : ascii :=
  if (n <? 10)%N then ascii_of_N (48 + n) else ascii_of_N (87 + n).

(** [hex.EncodeToString] on a byte slice. *)
Fixpoint EncodeToString (l : list ascii) : string :=
  match l with
  | [] => ""
  | c :: l => String (hex_digit (byte c / 16)) (String (hex_digit (byte c mod 16)) (EncodeToString l))
  end.

(** [strings.Split(s, "/")]. *)
Fixpoint split_slash (s : string) : list string :=
  match s with
  | "" => [""]
  | String c s =>
    if Ascii.eqb c slash then "" :: split_slash s else
    match split_slash s with
    | [] => [String c ""]
    | w :: ws => String c w :: ws
    end
  end.

Fixpoint clean_elements (rooted : bool) (stack els : list string) : list string :=
  match els with
  | [] => rev stack
  | e :: els =>
    if bool_decide (e = "") || bool_decide (e = ".") then clean_elements rooted stack els
    else if bool_decide (e = "..") then
      match stack with
      | t :: stack' => if bool_decide (t = "..") then clean_elements rooted (".." :: stack) els
                       else clean_elements rooted stack' els
      | [] => if rooted then clean_elements rooted [] els
              else clean_elements rooted [".."] els
      end
    else clean_elements rooted (e :: stack) els
  end.

(** [path.Clean]. *)
Definition path_Clean (s : string) : string :=
  let rooted := HasPrefix s "/" in
  let out := (if rooted then "/" else "") +:+ String.concat "/" (clean_elements rooted [] (split_slash s)) in
  if bool_decide (out = "") then "." else out.

(** ** Sorting *)

Definition insert_by {A} (key : A -> string) (x : A) : list A -> list A :=
  fix go l := match l with
              | [] => [x]
              | y :: l' => if String.ltb (key y) (key x) then y :: go l' else x :: l
              end.
(** [sort.Slice] by a string key. *)
Definition sort_by {A} (key : A -> string) (l : list A) : list A := foldr (insert_by key) [] l.

(** ** Correctness of the matcher *)

Lemma str_app_nil s : "" +:+ s = s.
Proof. reflexivity. Qed.
Lemma str_app_cons c s t : String c s +:+ t = String c (s +:+ t).
Proof. reflexivity. Qed.
Ltac str_simpl := rewrite ?str_app_cons, ?str_app_nil in *.

(** The language of a regular expression. *)
Fixpoint lang (r : regexp) (s : string) : Prop :=
  match r with
  | Void => False
  | Eps => s = ""
  | Cls p => exists c, s = String c "" /\ p c = true
  | Seq a b => exists s1 s2, s = s1 +:+ s2 /\ lang a s1 /\ lang b s2
  | Alt a b => lang a s \/ lang b s
  | Rep p lo hi => (lo <= String.length s <= hi)%nat /\ all_chars p s = true
  | Star p => all_chars p s = true
  end.

Lemma nullable_lang r : nullable r = true <-> lang r "".
Proof.
  induction r as [| |p|a IHa b IHb|a IHa b IHb|p lo hi|p]; simpl; try done.
  - split; [done|]. by intros (c & ? & _).
  - rewrite andb_true_iff, IHa, IHb. split.
    + intros [? ?]. by exists "", "".
    + intros (s1 & s2 & Heq & ? & ?).
      destruct s1; str_simpl; [by subst|discriminate].
  - by rewrite orb_true_iff, IHa, IHb.
  - rewrite Nat.eqb_eq. split; [intros ->; split; [lia|done]|intros [? _]; lia].
Qed.

Lemma mkSeq_lang a b s : lang (mkSeq a b) s <-> lang (Seq a b) s.
Proof.
  destruct a; simpl; try done.
  - split; [done|]. by intros (? & ? & _ & ? & _).
  - split; [intros; by exists "", s|]. by intros (s1 & s2 & -> & -> & ?).
Qed.

Lemma mkAlt_lang a b s : lang (mkAlt a b) s <-> lang a s \/ lang b s.
Proof. destruct a, b; simpl; tauto. Qed.

Lemma deriv_lang c r s : lang (deriv c r) s <-> lang r (String c s).
Proof.
  revert s; induction r as [| |p|a IHa b IHb|a IHa b IHb|p lo hi|p]; intros s; simpl; try done.
  - destruct (p c) eqn:E; simpl; split.
    + intros ->. by exists c.
    + intros (c' & Heq & Hp). by injection Heq.
    + done.
    + intros (c' & Heq & Hp). injection Heq as -> ->. congruence.
  - transitivity (lang (Seq (deriv c a) b) s \/ (nullable a = true /\ lang (deriv c b) s)).
    { destruct (nullable a); [rewrite mkAlt_lang|]; rewrite mkSeq_lang; intuition congruence. }
    rewrite IHb, nullable_lang. simpl. split.
    + intros [(s1 & s2 & -> & H1 & H2)|[H1 H2]].
      * exists (String c s1), s2. by rewrite <- IHa.
      * by exists "", (String c s).
    + intros (s1 & s2 & Heq & H1 & H2). destruct s1 as [|c' s1]; str_simpl.
      * right. by rewrite Heq.
      * left. simplify_eq. exists s1, s2. by rewrite IHa.
  - rewrite mkAlt_lang, IHa, IHb. done.
  - destruct hi as [|hi]; simpl; [split; [done|intros [? _]; lia]|].
    destruct (p c) eqn:E; simpl.
    + split; intros [? ?]; split; try done; lia.
    + split; [done|]. by intros [_ ?].
  - destruct (p c) eqn:E; simpl; [done|]. done.
Qed.

(** The matcher accepts exactly the language of the pattern. *)
Lemma MatchString_lang r s : MatchString r s = true <-> lang r s.
Proof.
  revert r; induction s as [|c s IH]; intros r; simpl; [apply nullable_lang|].
  by rewrite IH, deriv_lang.
Qed.

Lemma all_chars_app p a b : all_chars p (a +:+ b) = all_chars p a && all_chars p b.
Proof. induction a as [|c a IH]; str_simpl; simpl; [done|]. rewrite IH. by rewrite andb_assoc. Qed.

Lemma length_app_string a b : String.length (a +:+ b) = (String.length a + String.length b)%nat.
Proof. induction a as [|c a IH]; str_simpl; simpl; [done|]. by rewrite IH. Qed.

Lemma Lit_lang l s : lang (Lit l) s <-> s = l.
Proof.
  revert s; induction l as [|c l IH]; intros s; simpl; [done|]. split.
  - intros (s1 & s2 & -> & (c' & -> & Hc) & H2). apply IH in H2. subst.
    apply Ascii.eqb_eq in Hc. by subst.
  - intros ->. exists (String c ""), l. repeat split.
    + exists c. split; [done|apply Ascii.eqb_refl].
    + by apply IH.
Qed.

Lemma Lit_Seq_lang l r s : lang (Seq (Lit l) r) s <-> exists t, s = l +:+ t /\ lang r t.
Proof.
  simpl. split.
  - intros (s1 & s2 & -> & H1 & H2). apply Lit_lang in H1. subst. eauto.
  - intros (t & -> & H). exists l, t. by rewrite Lit_lang.
Qed.

Lemma length_EncodeToString l : String.length (EncodeToString l) = (2 * List.length l)%nat.
Proof. induction l as [|c l IH]; simpl; [done|]. rewrite IH. lia. Qed.
