(* ===== verification/GoNet.v ===== *)
(** * Go network addresses

    What the modelled packages use of Go's [net/netip]: parsing and printing
    of IPv4 and IPv6 addresses, and the address classes the sources refuse. *)

From S2P Require Import Prelude GoText.
From Stdlib Require Import Ascii String.
Open Scope string_scope.

(** [netip.Addr]: four bytes, or eight 16-bit groups and a zone.  A valid
    address is all [ParseAddr] returns, so the zero [Addr] is left out. *)
Inductive Addr :=
| V4 (bytes : list N)
| V6 (groups : list N) (zone : string).

#[export] Instance Addr_eq_dec : EqDecision Addr.
Proof. solve_decision. Defined.

(** ** Parsing *)

Definition dec_value (c : ascii) : option N :=
  if in_range "0" "9" c then Some (byte c - 48)%N else None.
Definition hex_value (c : ascii) : option N :=
  if in_range "0" "9" c then Some (byte c - 48)%N
  else if in_range "a" "f" c then Some (byte c - 87)%N
  else if in_range "A" "F" c then Some (byte c - 55)%N
  else None.

(** [parseIPv4Fields]: the octets before [s], most recent first, and the value
    and number of digits of the current one.  A dot needs a digit before it and
    something after it. *)
Fixpoint parseIPv4Fields (s : string) (fields : list N) (val : N) (digLen : nat) : option (list N) :=
  match s with
  | "" => if (List.length fields =? 3)%nat && (0 <? digLen)%nat then Some (rev (val :: fields)) else None
  | String c s =>
    match dec_value c with
    | Some d =>
      if (digLen =? 1)%nat && (val =? 0)%N then None else
      let val := (val * 10 + d)%N in
      if (255 <? val)%N then None else parseIPv4Fields s fields val (S digLen)
    | None =>
      if negb (Ascii.eqb c ".") || (digLen =? 0)%nat || (s == "") || (List.length fields =? 3)%nat then None
      else parseIPv4Fields s (val :: fields) 0 0
    end
  end.

(** The hexadecimal digits at the head of [s]: value, count and rest. *)
Fixpoint hex_group (s : string) (acc : N) (off : nat) : option (N * nat * string) :=
  match s with
  | "" => Some (acc, off, s)
  | String c s' =>
    match hex_value c with
    | None => Some (acc, off, s)
    | Some d =>
      let acc := (acc * 16 + d)%N in
      if (3 <? off)%nat || (0xFFFF <? acc)%N then None else hex_group s' acc (S off)
    end
  end.

(** The loop of [parseIPv6]: 16-bit groups read so far (most recent first), the
    position of the ellipsis among them, and what is left of the text.  Each
    round reads a group, so eight rounds are enough. *)
Fixpoint ipv6_groups (fuel : nat) (s : string) (groups : list N) (ellipsis : option nat)
  : option (list N * option nat * string) :=
  match fuel with
  | O => Some (groups, ellipsis, s)
  | S fuel =>
    match hex_group s 0 0 with
    | None => None
    | Some (acc, off, rest) =>
      if (off =? 0)%nat then None else
      match rest with
      | "" => Some (acc :: groups, ellipsis, "")
      | String c after =>
        if Ascii.eqb c "." then
          if (match ellipsis with None => negb (List.length groups =? 6)%nat | Some _ => false end) ||
             (6 <? List.length groups)%nat then None else
          match parseIPv4Fields s [] 0 0 with
          | Some [a; b; c; d] => Some ((c * 256 + d)%N :: (a * 256 + b)%N :: groups, ellipsis, "")
          | _ => None
          end
        else if negb (Ascii.eqb c ":") then None else
        match after with
        | "" => None
        | String c' after' =>
          if Ascii.eqb c' ":" then
            match ellipsis with
            | Some _ => None
            | None =>
              let ellipsis := Some (S (List.length groups)) in
              if after' == "" then Some (acc :: groups, ellipsis, "")
              else ipv6_groups fuel after' (acc :: groups) ellipsis
            end
          else ipv6_groups fuel after (acc :: groups) ellipsis
        end
      end
    end
  end.

Definition ipv6_expand (groups : list N) (ellipsis : option nat) : option (list N) :=
  let n := List.length groups in
  if (n <? 8)%nat then
    match ellipsis with
    | None => None
    | Some at_ => Some (take at_ groups ++ repeat 0%N (8 - n) ++ drop at_ groups)%list
    end
  else match ellipsis with None => Some groups | Some _ => None end.

(** The text before and after the first ['%']. *)
Fixpoint split_zone (s : string) : string * option string :=
  match s with
  | "" => ("", None)
  | String c s =>
    if Ascii.eqb c "%" then ("", Some s) else
    let '(a, z) := split_zone s in (String c a, z)
  end.

Definition parseIPv6_body (s : string) : option (list N) :=
  let '(s, ellipsis) := if HasPrefix s "::" then (drop_chars 2 s, Some 0) else (s, None) in
  if (s == "") && (match ellipsis with Some _ => true | None => false end) then Some (repeat 0%N 8) else
  match ipv6_groups 8 s [] ellipsis with
  | Some (groups, ellipsis, "") => ipv6_expand (rev groups) ellipsis
  | _ => None
  end.

Definition parseIPv6 (s : string) : option Addr :=
  match split_zone s with
  | (s, None) => (fun g => V6 g "") <$> parseIPv6_body s
  | (_, Some "") => None
  | (s, Some zone) => (fun g => V6 g zone) <$> parseIPv6_body s
  end.

(** [netip.ParseAddr]: the first dot, colon or percent sign decides. *)
Fixpoint address_family (s : string) : option ascii :=
  match s with
  | "" => None
  | String c s => if Ascii.eqb c "." || Ascii.eqb c ":" || Ascii.eqb c "%" then Some c else address_family s
  end.

Definition ParseAddr (s : string) : option Addr :=
  match address_family s with
  | Some c => if Ascii.eqb c "." then V4 <$> parseIPv4Fields s [] 0 0
              else if Ascii.eqb c ":" then parseIPv6 s else None
  | None => None
  end.

(** ** Printing *)

Definition dec_digit (n : N) : ascii := ascii_of_N (48 + n).

(** Decimal, for values below 1000; hexadecimal without leading zeros, for
    values below 65536. *)
Definition dec_string (n : N) : string :=
  if (n <? 10)%N then String (dec_digit n) ""
  else if (n <? 100)%N then String (dec_digit (n / 10)) (String (dec_digit (n mod 10)) "")
  else String (dec_digit (n / 100)) (String (dec_digit (n / 10 mod 10)) (String (dec_digit (n mod 10)) "")).
Definition hex_string (n : N) : string :=
  let d3 := hex_digit (n mod 16) in
  let d2 := hex_digit (n / 16 mod 16) in
  let d1 := hex_digit (n / 256 mod 16) in
  let d0 := hex_digit (n / 4096) in
  if (n <? 16)%N then String d3 ""
  else if (n <? 256)%N then String d2 (String d3 "")
  else if (n <? 4096)%N then String d1 (String d2 (String d3 ""))
  else String d0 (String d1 (String d2 (String d3 ""))).

Fixpoint zero_run (l : list N) : nat :=
  match l with
  | g :: l => if (g =? 0)%N then S (zero_run l) else 0
  | [] => 0
  end.

(** The first longest run of at least two zero groups: start and length. *)
Fixpoint longest_zeros (i : nat) (l : list N) (best : option (nat * nat)) : option (nat * nat) :=
  match l with
  | [] => best
  | _ :: l' =>
    let n := zero_run l in
    let better := (2 <=? n)%nat && (match best with Some (_, b) => b <? n | None => true end)%nat in
    longest_zeros (S i) l' (if better then Some (i, n) else best)
  end.

Definition string6 (groups : list N) : string :=
  match longest_zeros 0 groups None with
  | None => String.concat ":" (hex_string <$> groups)
  | Some (i, n) => String.concat ":" (hex_string <$> take i groups) +:+ "::" +:+
                   String.concat ":" (hex_string <$> drop (i + n) groups)
  end.

Definition Is4In6 (a : Addr) : bool :=
  match a with
  | V4 _ => false
  | V6 g _ => take 6 g == [0; 0; 0; 0; 0; 0xFFFF]%N
  end.

(** [Addr.String]; an IPv4-mapped address prints its last groups as IPv4. *)
Definition string4 (bytes : list N) : string := String.concat "." (dec_string <$> bytes).
Definition addr_String (a : Addr) : string :=
  match a with
  | V4 b => string4 b
  | V6 g zone =>
    (if Is4In6 a
     then "::ffff:" +:+ string4 (mjoin ((fun w => [w / 256; w mod 256]%N) <$> drop 6 g))
     else string6 g) +:+ (if zone == "" then "" else "%" +:+ zone)
  end.

Definition Zone (a : Addr) : string := match a with V4 _ => "" | V6 _ z => z end.
Definition IsUnspecified (a : Addr) : bool :=
  match a with
  | V4 b => b == [0; 0; 0; 0]%N
  | V6 g z => (g == repeat 0%N 8) && (z == "")
  end.
(** [Addr.Unmap]; the address classes below look at the IPv4 form of an
    IPv4-mapped address. *)
Definition Unmap (a : Addr) : Addr :=
  match a with
  | V4 _ => a
  | V6 g _ => if Is4In6 a then V4 (mjoin ((fun w => [w / 256; w mod 256]%N) <$> drop 6 g)) else a
  end.
Definition first_part (a : Addr) : N := match a with V4 b => List.hd 0%N b | V6 g _ => List.hd 0%N g end.
Definition IsMulticast (a : Addr) : bool :=
  match Unmap a with
  | V4 b => (first_part (V4 b) / 16 =? 0xE)%N
  | V6 g z => (first_part (V6 g z) / 256 =? 0xFF)%N
  end.
Definition IsLinkLocalUnicast (a : Addr) : bool :=
  match Unmap a with
  | V4 b => take 2 b == [169; 254]%N
  | V6 g z => (first_part (V6 g z) / 64 =? 0x3FA)%N
  end.
Definition IsLoopback (a : Addr) : bool :=
  match Unmap a with
  | V4 b => (first_part (V4 b) =? 127)%N
  | V6 g _ => g == [0; 0; 0; 0; 0; 0; 0; 1]%N
  end.
Definition IsGlobalUnicast (a : Addr) : bool :=
  negb (Unmap a == V4 [0; 0; 0; 0]%N) && negb (Unmap a == V4 [255; 255; 255; 255]%N) &&
  negb (Unmap a == V6 (repeat 0%N 8) "") && negb (IsLoopback a) && negb (IsMulticast a) &&
  negb (IsLinkLocalUnicast a).

(** Reading and printing agree on the forms the sources meet. *)
Example parse_v4 : ParseAddr "10.1.2.255" = Some (V4 [10; 1; 2; 255]%N).
Proof. reflexivity. Qed.
Example parse_v6 : (addr_String <$> ParseAddr "2001:DB8:0:0:1::5") = Some "2001:db8::1:0:0:5".
Proof. reflexivity. Qed.
Example parse_mapped : (addr_String <$> ParseAddr "::ffff:1.2.3.4") = Some "::ffff:1.2.3.4".
Proof. reflexivity. Qed.
Example parse_refused :
  ParseAddr <$> ["1.2.3"; "01.2.3.4"; "1.2.3.4."; "256.1.1.1"; "1:2:3:4:5:6:7"; "::1::"; "1:::2"; "fe80::%"; "12345::"; "1:2:3:4:5:6:7:8:9"]
  = repeat None 10.
Proof. reflexivity. Qed.
