(* ===== verification/Core.v ===== *)
(** * Core data

    The records of [src/internal/core] that the catalog stores and the
    operations exchange, with decidable equality (Go's [==] on comparable
    structs, [slices.Equal] and [reflect.DeepEqual] on the others).

    Named string types ([WorkspaceID], [BaseName], the state types) stay
    strings, because the catalog decodes them from JSON without checking them.
    A nil slice or map is an empty one, a nil pointer is [None]; a
    [time.Time] is the number of nanoseconds since the zero time, which is what
    [Equal], [==] and [DeepEqual] compare on the UTC times the program stores. *)

From S2P Require Import Prelude.
Open Scope string_scope.

Abbreviation Time := Z (only parsing).
Definition IsZero (t : Time) : bool := (t =? 0)%Z.

(** ** Resource limits *)

Record ResourceLimit := mkLimit { lim_Mode : string; lim_Value : Z }.

Record ResourceBudget := mkBudget {
  CPU : ResourceLimit;
  MemoryBytes : ResourceLimit;
  PIDs : ResourceLimit;
  RootBytes : ResourceLimit }.

(** ** Workspaces, bases, references *)

Record Workspace := mkWorkspace { ws_ID : string; ws_Path : string }.

Record BaseRef := mkBaseRef { base_Name : string; base_Revision : string }.

Record PersistentResourceRef := mkRef { ref_ID : string; ref_Owner : string }.

Record ResourceGeneration := mkGeneration {
  gen_Name : string;
  gen_Kind : string;
  gen_Compatibility : string;
  gen_Epoch : string;
  gen_Number : Z;
  gen_Current : PersistentResourceRef }.

Record EnvironmentAttachment := mkAttachment {
  att_Key : string;
  att_Target : string;
  att_Resource : PersistentResourceRef;
  att_Origin : ResourceGeneration }.

Record PersistentResource := mkResource {
  res_ImportPending : bool;
  res_PublicationOrigin : ResourceGeneration;
  res_Producer : PersistentResourceRef;
  res_EnvironmentInstance : string;
  res_RestoreSource : string;
  res_SourceOnly : bool;
  res_WorkspaceID : string;
  res_ID : string;
  res_Owner : string;
  res_Kind : string;
  res_NativeRef : string;
  res_State : string;
  res_CreatedAt : Time;
  res_CopySource : PersistentResourceRef;
  res_CopyCompleted : bool;
  res_CopyOperation : string;
  res_CopyCleanup : bool }.

Definition Ref (r : PersistentResource) : PersistentResourceRef := mkRef (res_ID r) (res_Owner r).

Record EnvironmentResourcePlan := mkPlan {
  plan_Attachment : EnvironmentAttachment;
  plan_Resource : PersistentResource }.

(** ** Environments and leases *)

Definition WorkspaceReadOnly := "ro".
Definition WorkspaceReadWrite := "rw".
Definition WorkspaceLeaseAcquiring := "acquiring".
Definition WorkspaceLeaseActive := "active".
Definition WorkspaceLeaseCleanupRequired := "cleanup-required".
Definition EphemeralRunCreating := "creating".
Definition EphemeralRunActive := "active".
Definition EphemeralRunCleanupRequired := "cleanup-required".

Record WorkspaceLease := mkLease {
  lease_Attachments : list EnvironmentAttachment;
  lease_RuntimeAbsent : bool;
  lease_Ephemeral : bool;
  lease_SnapshotSource : string;
  lease_InstanceID : string;
  lease_PersistentResource : PersistentResourceRef;
  lease_WorkspaceID : string;
  lease_SourcePath : string;
  lease_EnvironmentID : string;
  lease_AccessMode : string;
  lease_Owner : string;
  lease_RuntimeRef : string;
  lease_State : string;
  lease_AcquiredAt : Time }.

Record EphemeralRun := mkRun {
  run_InstanceID : string;
  run_TemporaryWorkspace : option Workspace;
  run_EnvironmentID : string;
  run_State : string;
  run_CreatedAt : Time }.

Record Environment := mkEnvironment {
  env_OwnedWorkspace : bool;
  env_Volume : string;
  env_DNSMode : string;
  env_Attachments : list EnvironmentAttachment;
  env_PersistentResource : PersistentResourceRef;
  env_Name : string;
  env_Workspace : Workspace;
  env_AccessMode : string;
  env_Base : option BaseRef;
  env_Resources : ResourceBudget;
  env_RuntimeRef : string;
  env_CreatedAt : Time }.

(** ** Snapshots, restores, base assets *)

Record SnapshotSource := mkSource {
  src_Environment : Environment;
  src_InstanceID : string }.

Record SnapshotComponent := mkComponent {
  comp_Binding : string;
  comp_Role : string;
  comp_NativeRef : string;
  comp_Owner : string;
  comp_State : string }.

Record Snapshot := mkSnapshot {
  snap_Image : option BaseRef;
  snap_CreatedAt : Time;
  snap_ID : string;
  snap_Source : SnapshotSource;
  snap_State : string;
  snap_Components : list SnapshotComponent }.

Record SnapshotRestore := mkRestore {
  rst_ID : string;
  rst_Saved : Snapshot;
  rst_Before : Snapshot;
  rst_Current : SnapshotSource;
  rst_State : string;
  rst_Components : list SnapshotComponent }.

Record BaseAsset := mkAsset {
  asset_ID : string;
  asset_Base : BaseRef;
  asset_Provider : string;
  asset_Scope : string;
  asset_Owner : string;
  asset_NativeRef : string;
  asset_Binding : string;
  asset_State : string }.

(** ** Process requests and stream targets *)

Record ProcessRequest := mkProcessRequest {
  proc_WorkingDirectory : string;
  proc_Argv : list string;
  proc_TTY : bool }.

Record StreamTarget := mkStreamTarget {
  tgt_Environment : string;
  tgt_Instance : string;
  tgt_Workspace : string;
  tgt_AccessMode : string;
  tgt_Service : string;
  tgt_Grant : string }.

(** ** Zero values *)

Definition zeroRef : PersistentResourceRef := mkRef "" "".
Definition zeroGeneration : ResourceGeneration := mkGeneration "" "" "" "" 0 zeroRef.
Definition zeroWorkspace : Workspace := mkWorkspace "" "".
Definition zeroLimit : ResourceLimit := mkLimit "" 0.
Definition zeroBudget : ResourceBudget := mkBudget zeroLimit zeroLimit zeroLimit zeroLimit.
Definition zeroEnvironment : Environment :=
  mkEnvironment false "" "" [] zeroRef "" zeroWorkspace "" None zeroBudget "" 0.
Definition zeroLease : WorkspaceLease :=
  mkLease [] false false "" "" zeroRef "" "" "" "" "" "" "" 0.
Definition zeroResource : PersistentResource :=
  mkResource false zeroGeneration zeroRef "" "" false "" "" "" "" "" "" 0 zeroRef false "" false.
Definition zeroSource : SnapshotSource := mkSource zeroEnvironment "".
Definition zeroSnapshot : Snapshot := mkSnapshot None 0 "" zeroSource "" [].
Definition zeroRun : EphemeralRun := mkRun "" None "" "" 0.

(** ** Equality decisions *)

#[export] Instance ResourceLimit_eq_dec : EqDecision ResourceLimit.
Proof. solve_decision. Defined.
#[export] Instance ResourceBudget_eq_dec : EqDecision ResourceBudget.
Proof. solve_decision. Defined.
#[export] Instance Workspace_eq_dec : EqDecision Workspace.
Proof. solve_decision. Defined.
#[export] Instance BaseRef_eq_dec : EqDecision BaseRef.
Proof. solve_decision. Defined.
#[export] Instance PersistentResourceRef_eq_dec : EqDecision PersistentResourceRef.
Proof. solve_decision. Defined.
#[export] Instance ResourceGeneration_eq_dec : EqDecision ResourceGeneration.
Proof. solve_decision. Defined.
#[export] Instance EnvironmentAttachment_eq_dec : EqDecision EnvironmentAttachment.
Proof. solve_decision. Defined.
#[export] Instance PersistentResource_eq_dec : EqDecision PersistentResource.
Proof. solve_decision. Defined.
#[export] Instance EnvironmentResourcePlan_eq_dec : EqDecision EnvironmentResourcePlan.
Proof. solve_decision. Defined.
#[export] Instance WorkspaceLease_eq_dec : EqDecision WorkspaceLease.
Proof. solve_decision. Defined.
#[export] Instance EphemeralRun_eq_dec : EqDecision EphemeralRun.
Proof. solve_decision. Defined.
#[export] Instance Environment_eq_dec : EqDecision Environment.
Proof. solve_decision. Defined.
#[export] Instance SnapshotSource_eq_dec : EqDecision SnapshotSource.
Proof. solve_decision. Defined.
#[export] Instance SnapshotComponent_eq_dec : EqDecision SnapshotComponent.
Proof. solve_decision. Defined.
#[export] Instance Snapshot_eq_dec : EqDecision Snapshot.
Proof. solve_decision. Defined.
#[export] Instance SnapshotRestore_eq_dec : EqDecision SnapshotRestore.
Proof. solve_decision. Defined.
#[export] Instance BaseAsset_eq_dec : EqDecision BaseAsset.
Proof. solve_decision. Defined.
#[export] Instance StreamTarget_eq_dec : EqDecision StreamTarget.
Proof. solve_decision. Defined.

(** ** Field updates *)

Definition lease_with_State (s : string) (l : WorkspaceLease) : WorkspaceLease :=
  mkLease (lease_Attachments l) (lease_RuntimeAbsent l) (lease_Ephemeral l) (lease_SnapshotSource l)
    (lease_InstanceID l) (lease_PersistentResource l) (lease_WorkspaceID l) (lease_SourcePath l)
    (lease_EnvironmentID l) (lease_AccessMode l) (lease_Owner l) (lease_RuntimeRef l) s (lease_AcquiredAt l).
Definition lease_with_RuntimeRef (s : string) (l : WorkspaceLease) : WorkspaceLease :=
  mkLease (lease_Attachments l) (lease_RuntimeAbsent l) (lease_Ephemeral l) (lease_SnapshotSource l)
    (lease_InstanceID l) (lease_PersistentResource l) (lease_WorkspaceID l) (lease_SourcePath l)
    (lease_EnvironmentID l) (lease_AccessMode l) (lease_Owner l) s (lease_State l) (lease_AcquiredAt l).
Definition lease_with_SnapshotSource (s : string) (l : WorkspaceLease) : WorkspaceLease :=
  mkLease (lease_Attachments l) (lease_RuntimeAbsent l) (lease_Ephemeral l) s
    (lease_InstanceID l) (lease_PersistentResource l) (lease_WorkspaceID l) (lease_SourcePath l)
    (lease_EnvironmentID l) (lease_AccessMode l) (lease_Owner l) (lease_RuntimeRef l) (lease_State l) (lease_AcquiredAt l).
Definition lease_with_InstanceID (s : string) (l : WorkspaceLease) : WorkspaceLease :=
  mkLease (lease_Attachments l) (lease_RuntimeAbsent l) (lease_Ephemeral l) (lease_SnapshotSource l)
    s (lease_PersistentResource l) (lease_WorkspaceID l) (lease_SourcePath l)
    (lease_EnvironmentID l) (lease_AccessMode l) (lease_Owner l) (lease_RuntimeRef l) (lease_State l) (lease_AcquiredAt l).
Definition lease_with_EnvironmentID (s : string) (l : WorkspaceLease) : WorkspaceLease :=
  mkLease (lease_Attachments l) (lease_RuntimeAbsent l) (lease_Ephemeral l) (lease_SnapshotSource l)
    (lease_InstanceID l) (lease_PersistentResource l) (lease_WorkspaceID l) (lease_SourcePath l)
    s (lease_AccessMode l) (lease_Owner l) (lease_RuntimeRef l) (lease_State l) (lease_AcquiredAt l).
Definition lease_with_RuntimeAbsent (b : bool) (l : WorkspaceLease) : WorkspaceLease :=
  mkLease (lease_Attachments l) b (lease_Ephemeral l) (lease_SnapshotSource l)
    (lease_InstanceID l) (lease_PersistentResource l) (lease_WorkspaceID l) (lease_SourcePath l)
    (lease_EnvironmentID l) (lease_AccessMode l) (lease_Owner l) (lease_RuntimeRef l) (lease_State l) (lease_AcquiredAt l).

Definition res_with_State (s : string) (r : PersistentResource) : PersistentResource :=
  mkResource (res_ImportPending r) (res_PublicationOrigin r) (res_Producer r) (res_EnvironmentInstance r)
    (res_RestoreSource r) (res_SourceOnly r) (res_WorkspaceID r) (res_ID r) (res_Owner r) (res_Kind r)
    (res_NativeRef r) s (res_CreatedAt r) (res_CopySource r) (res_CopyCompleted r) (res_CopyOperation r)
    (res_CopyCleanup r).
Definition res_with_CopySource (s : PersistentResourceRef) (r : PersistentResource) : PersistentResource :=
  mkResource (res_ImportPending r) (res_PublicationOrigin r) (res_Producer r) (res_EnvironmentInstance r)
    (res_RestoreSource r) (res_SourceOnly r) (res_WorkspaceID r) (res_ID r) (res_Owner r) (res_Kind r)
    (res_NativeRef r) (res_State r) (res_CreatedAt r) s (res_CopyCompleted r) (res_CopyOperation r)
    (res_CopyCleanup r).
Definition res_with_CopyCompleted (b : bool) (r : PersistentResource) : PersistentResource :=
  mkResource (res_ImportPending r) (res_PublicationOrigin r) (res_Producer r) (res_EnvironmentInstance r)
    (res_RestoreSource r) (res_SourceOnly r) (res_WorkspaceID r) (res_ID r) (res_Owner r) (res_Kind r)
    (res_NativeRef r) (res_State r) (res_CreatedAt r) (res_CopySource r) b (res_CopyOperation r)
    (res_CopyCleanup r).
Definition res_with_CopyOperation (s : string) (r : PersistentResource) : PersistentResource :=
  mkResource (res_ImportPending r) (res_PublicationOrigin r) (res_Producer r) (res_EnvironmentInstance r)
    (res_RestoreSource r) (res_SourceOnly r) (res_WorkspaceID r) (res_ID r) (res_Owner r) (res_Kind r)
    (res_NativeRef r) (res_State r) (res_CreatedAt r) (res_CopySource r) (res_CopyCompleted r) s
    (res_CopyCleanup r).
Definition res_with_CopyCleanup (b : bool) (r : PersistentResource) : PersistentResource :=
  mkResource (res_ImportPending r) (res_PublicationOrigin r) (res_Producer r) (res_EnvironmentInstance r)
    (res_RestoreSource r) (res_SourceOnly r) (res_WorkspaceID r) (res_ID r) (res_Owner r) (res_Kind r)
    (res_NativeRef r) (res_State r) (res_CreatedAt r) (res_CopySource r) (res_CopyCompleted r)
    (res_CopyOperation r) b.
Definition res_with_ImportPending (b : bool) (r : PersistentResource) : PersistentResource :=
  mkResource b (res_PublicationOrigin r) (res_Producer r) (res_EnvironmentInstance r)
    (res_RestoreSource r) (res_SourceOnly r) (res_WorkspaceID r) (res_ID r) (res_Owner r) (res_Kind r)
    (res_NativeRef r) (res_State r) (res_CreatedAt r) (res_CopySource r) (res_CopyCompleted r)
    (res_CopyOperation r) (res_CopyCleanup r).
Definition res_with_RestoreSource (s : string) (r : PersistentResource) : PersistentResource :=
  mkResource (res_ImportPending r) (res_PublicationOrigin r) (res_Producer r) (res_EnvironmentInstance r)
    s (res_SourceOnly r) (res_WorkspaceID r) (res_ID r) (res_Owner r) (res_Kind r)
    (res_NativeRef r) (res_State r) (res_CreatedAt r) (res_CopySource r) (res_CopyCompleted r)
    (res_CopyOperation r) (res_CopyCleanup r).

Definition env_with_Name (s : string) (e : Environment) : Environment :=
  mkEnvironment (env_OwnedWorkspace e) (env_Volume e) (env_DNSMode e) (env_Attachments e)
    (env_PersistentResource e) s (env_Workspace e) (env_AccessMode e) (env_Base e) (env_Resources e)
    (env_RuntimeRef e) (env_CreatedAt e).

Definition run_with_EnvironmentID (s : string) (r : EphemeralRun) : EphemeralRun :=
  mkRun (run_InstanceID r) (run_TemporaryWorkspace r) s (run_State r) (run_CreatedAt r).
Definition run_with_State (s : string) (r : EphemeralRun) : EphemeralRun :=
  mkRun (run_InstanceID r) (run_TemporaryWorkspace r) (run_EnvironmentID r) s (run_CreatedAt r).

Definition comp_with_State (s : string) (c : SnapshotComponent) : SnapshotComponent :=
  mkComponent (comp_Binding c) (comp_Role c) (comp_NativeRef c) (comp_Owner c) s.
Definition snap_with_State (s : string) (x : Snapshot) : Snapshot :=
  mkSnapshot (snap_Image x) (snap_CreatedAt x) (snap_ID x) (snap_Source x) s (snap_Components x).
Definition snap_with_Image (i : option BaseRef) (x : Snapshot) : Snapshot :=
  mkSnapshot i (snap_CreatedAt x) (snap_ID x) (snap_Source x) (snap_State x) (snap_Components x).
Definition snap_with_Components (l : list SnapshotComponent) (x : Snapshot) : Snapshot :=
  mkSnapshot (snap_Image x) (snap_CreatedAt x) (snap_ID x) (snap_Source x) (snap_State x) l.
Definition rst_with_State (s : string) (x : SnapshotRestore) : SnapshotRestore :=
  mkRestore (rst_ID x) (rst_Saved x) (rst_Before x) (rst_Current x) s (rst_Components x).
Definition rst_with_Current (s : SnapshotSource) (x : SnapshotRestore) : SnapshotRestore :=
  mkRestore (rst_ID x) (rst_Saved x) (rst_Before x) s (rst_State x) (rst_Components x).
Definition rst_with_Components (l : list SnapshotComponent) (x : SnapshotRestore) : SnapshotRestore :=
  mkRestore (rst_ID x) (rst_Saved x) (rst_Before x) (rst_Current x) (rst_State x) l.
Definition asset_with_State (s : string) (a : BaseAsset) : BaseAsset :=
  mkAsset (asset_ID a) (asset_Base a) (asset_Provider a) (asset_Scope a) (asset_Owner a)
    (asset_NativeRef a) (asset_Binding a) s.
