(* ===== verification/CoreChecks.v ===== *)
(** * Core checks

    The functions of [src/internal/core]: identity patterns, attachment and
    generation checks, resource budgets, process requests, the lease/Environment
    binding and the classification of provider deletion errors. *)

From S2P Require Import Prelude GoText Core.
From Stdlib Require Import Ascii String.
Open Scope string_scope.

(** ** Character classes and patterns *)

Definition cls_lower : ascii -> bool := in_range "a" "z".
Definition cls_digit : ascii -> bool := in_range "0" "9".
Definition cls_hex (c : ascii) : bool := in_range "a" "f" c || cls_digit c.
Definition cls_alnum (c : ascii) : bool := cls_lower c || cls_digit c.
Definition cls_name (c : ascii) : bool := cls_alnum c || Ascii.eqb c "-".

(** [^env-[a-f0-9]{32}$] *)
Definition environmentInstancePattern : regexp := Seq (Lit "env-") (Exactly cls_hex 32).
(** [^[a-z0-9](?:[a-z0-9-]{0,55}[a-z0-9])?$] *)
Definition environmentNamePattern : regexp :=
  Seq (Cls cls_alnum) (Opt (Seq (Rep cls_name 0 55) (Cls cls_alnum))).
(** [^[a-z][a-z0-9-]{0,23}:[a-z0-9][a-z0-9-]{0,39}$] *)
Definition persistentIDPattern : regexp :=
  Seq (Cls cls_lower) (Seq (Rep cls_name 0 23) (Seq (Lit ":") (Seq (Cls cls_alnum) (Rep cls_name 0 39)))).
(** [^[a-f0-9]{32}$] *)
Definition persistentOwnerPattern : regexp := Exactly cls_hex 32.
(** [^[a-z][a-z0-9-]{0,39}$], [^[a-z][a-z0-9-]{0,63}$], [^[a-f0-9]{64}$] *)
Definition resourceSourceName : regexp := Seq (Cls cls_lower) (Rep cls_name 0 39).
Definition resourceKind : regexp := Seq (Cls cls_lower) (Rep cls_name 0 63).
Definition compatibilityDigest : regexp := Exactly cls_hex 64.
(** [^temporary:[a-f0-9]{32}$] *)
Definition temporaryWorkspacePath : regexp := Seq (Lit "temporary:") (Exactly cls_hex 32).

(** ** Identities *)

(** The sixteen bytes that [crypto/rand.Read] fills are an argument. *)
Definition NewEnvironmentInstanceID (value : list ascii) : string := "env-" +:+ EncodeToString value.
Definition ValidEnvironmentInstanceID (id : string) : bool := MatchString environmentInstancePattern id.

Definition ValidateEnvironmentName (name : string) : result unit :=
  reject negb (MatchString environmentNamePattern name) with ErrInvalidArgument ;;
  Ok tt.

Definition ValidPersistentResourceRef (r : PersistentResourceRef) : bool :=
  MatchString persistentIDPattern (ref_ID r) && MatchString persistentOwnerPattern (ref_Owner r).

Definition ValidEnvironmentResourceRef (ref : PersistentResourceRef) : bool :=
  ValidPersistentResourceRef ref && HasPrefix (ref_ID ref) "env-data:" &&
  MatchString persistentOwnerPattern (TrimPrefix (ref_ID ref) "env-data:").

Definition NewTemporaryWorkspace (nonce : list ascii) : Workspace :=
  let path := "temporary:" +:+ EncodeToString nonce in
  mkWorkspace ("workspace:" +:+ path) path.

Definition ValidTemporaryWorkspace (work : Workspace) : bool :=
  MatchString temporaryWorkspacePath (ws_Path work) && (ws_ID work == ("workspace:" +:+ ws_Path work)).

Definition IsTemporaryWorkspacePath (path : string) : bool := MatchString temporaryWorkspacePath path.

(** ** Resource generations *)

Definition ValidResourceGenerationSpec (name kind compatibility : string) : bool :=
  MatchString resourceSourceName name && MatchString resourceKind kind &&
  MatchString compatibilityDigest compatibility.

Definition ValidGenerationResource (ref : PersistentResourceRef) : bool :=
  ValidPersistentResourceRef ref && HasPrefix (ref_ID ref) "generation:" &&
  MatchString persistentOwnerPattern (TrimPrefix (ref_ID ref) "generation:").

Definition ValidResourceGeneration (g : ResourceGeneration) : bool :=
  if negb (ValidResourceGenerationSpec (gen_Name g) (gen_Kind g) (gen_Compatibility g)) ||
     negb (MatchString persistentOwnerPattern (gen_Epoch g)) then false
  else if (gen_Number g =? 0)%Z then gen_Current g == zeroRef
  else ValidGenerationResource (gen_Current g).

(** ** Attachments *)

Definition MaxEnvironmentAttachments : nat := 32.

Definition ValidEnvironmentDataPath (target : string) : bool :=
  (len target <=? 1024)%Z && ValidString target && HasPrefix target "/" &&
  (target != "/") && (path_Clean target == target) && negb (ContainsControl target).

(** The loop of [ValidEnvironmentAttachments]; [before] is [attachments[:i]]. *)
Fixpoint valid_attachments_loop (previous : string) (refs : gset string)
    (before l : list EnvironmentAttachment) : bool :=
  match l with
  | [] => true
  | a :: l =>
    if negb (MatchString resourceSourceName (att_Key a)) || String.leb (att_Key a) previous ||
       negb (ValidEnvironmentResourceRef (att_Resource a)) ||
       bool_decide (ref_ID (att_Resource a) ∈ refs) ||
       negb (ValidResourceGeneration (att_Origin a)) then false
    else if negb (ValidEnvironmentDataPath (att_Target a)) then false
    else if existsb (fun b => (att_Target b == att_Target a) ||
                              HasPrefix (att_Target b) (att_Target a +:+ "/") ||
                              HasPrefix (att_Target a) (att_Target b +:+ "/")) before then false
    else valid_attachments_loop (att_Key a) ({[ref_ID (att_Resource a)]} ∪ refs) (before ++ [a]) l
  end.

Definition ValidEnvironmentAttachments (attachments : list EnvironmentAttachment) : bool :=
  if (MaxEnvironmentAttachments <? List.length attachments)%nat then false
  else valid_attachments_loop "" ∅ [] attachments.

(** ** Name resolution mode *)

Definition DNSMode_Effective (m : string) : string := if m == "" then "host" else m.
Definition DNSMode_Valid (m : string) : bool :=
  let e := DNSMode_Effective m in (e == "host") || (e == "backend") || (e == "disabled").

(** ** Resource budgets *)

Definition ResourceLimitUnspecified := "".
Definition ResourceLimitUnlimited := "unlimited".
Definition ResourceLimitFinite := "finite".
Definition MaxCPUResourceValue : Z := 4096.
Definition MaxMemoryResourceBytes : Z := 2 ^ 60.
Definition MaxPIDResourceValue : Z := 2 ^ 31 - 1.
Definition MaxRootDiskResourceBytes : Z := 2 ^ 60.

Definition UnlimitedResourceBudget : ResourceBudget :=
  let unlimited := mkLimit ResourceLimitUnlimited 0 in
  mkBudget unlimited unlimited unlimited unlimited.

Definition resolveResourceLimit (input : ResourceLimit) (max : Z) : result ResourceLimit :=
  if lim_Mode input == ResourceLimitUnspecified then
    reject negb (lim_Value input =? 0)%Z with ErrInvalidArgument ;;
    Ok (mkLimit ResourceLimitUnlimited 0)
  else if lim_Mode input == ResourceLimitUnlimited then
    reject negb (lim_Value input =? 0)%Z with ErrInvalidArgument ;;
    Ok input
  else if lim_Mode input == ResourceLimitFinite then
    reject (lim_Value input =? 0)%Z || (max <? lim_Value input)%Z with ErrInvalidArgument ;;
    Ok input
  else Err ErrInvalidArgument.

Definition ResolveResourceBudget (input : ResourceBudget) : result ResourceBudget :=
  cpu ← resolveResourceLimit (CPU input) MaxCPUResourceValue;
  memory ← resolveResourceLimit (MemoryBytes input) MaxMemoryResourceBytes;
  pids ← resolveResourceLimit (PIDs input) MaxPIDResourceValue;
  root ← resolveResourceLimit (RootBytes input) MaxRootDiskResourceBytes;
  Ok (mkBudget cpu memory pids root).

Definition ResourceBudgetHasFinite (budget : ResourceBudget) : bool :=
  (lim_Mode (CPU budget) == ResourceLimitFinite) ||
  (lim_Mode (MemoryBytes budget) == ResourceLimitFinite) ||
  (lim_Mode (PIDs budget) == ResourceLimitFinite) ||
  (lim_Mode (RootBytes budget) == ResourceLimitFinite).

(** ** Process requests and stream targets *)

Fixpoint argv_loop (argv : list string) (size : Z) : result unit :=
  match argv with
  | [] => Ok tt
  | argument :: argv =>
    let size := (size + len argument)%Z in
    reject (32768 <? size)%Z || ContainsByte argument (Ascii.eqb NUL) with ErrInvalidArgument ;;
    argv_loop argv size
  end.

Definition ValidateProcessRequest (request : ProcessRequest) : result unit :=
  reject (List.length (proc_Argv request) =? 0)%nat || (256 <? List.length (proc_Argv request))%nat ||
         (List.hd "" (proc_Argv request) == "") with ErrInvalidArgument ;;
  _ ← argv_loop (proc_Argv request) 0;
  reject (proc_WorkingDirectory request != "") &&
         (negb (HasPrefix (proc_WorkingDirectory request) "/") ||
          ContainsByte (proc_WorkingDirectory request)
            (fun c => Ascii.eqb NUL c || Ascii.eqb CR c || Ascii.eqb LF c)) with ErrInvalidArgument ;;
  Ok tt.

Definition StreamTarget_Valid (t : StreamTarget) : bool :=
  (tgt_Environment t != "") && ValidEnvironmentInstanceID (tgt_Instance t) && (tgt_Workspace t != "") &&
  ((tgt_AccessMode t == WorkspaceReadOnly) || (tgt_AccessMode t == WorkspaceReadWrite)) &&
  (tgt_Service t == "ssh") && (tgt_Grant t != "").

(** ** Lease and Environment *)

Definition MatchesEnvironment (lease : WorkspaceLease) (environment : Environment) : bool :=
  (lease_State lease == WorkspaceLeaseActive) && negb (lease_RuntimeAbsent lease) &&
  (env_Name environment != "") &&
  (lease_Attachments lease == env_Attachments environment) &&
  (lease_EnvironmentID lease == env_Name environment) && (lease_RuntimeRef lease != "") &&
  (lease_RuntimeRef lease == env_RuntimeRef environment) &&
  (lease_WorkspaceID lease == ws_ID (env_Workspace environment)) &&
  (lease_SourcePath lease == ws_Path (env_Workspace environment)) &&
  (lease_AccessMode lease == env_AccessMode environment) &&
  (lease_PersistentResource lease == env_PersistentResource environment).

Definition Environment_Equal (e other : Environment) : bool := e == other.
Definition Lease_Equal (lease other : WorkspaceLease) : bool := lease == other.

(** ** Provider deletion errors *)

(** A Go error value by what [errors] can see of it: a plain error, one that
    unwraps to another ([Unwrap() error]), one that unwraps to several
    ([Unwrap() []error], from [errors.Join] or several [%w] verbs). *)
#[warnings="-register-all"] Inductive goerror :=
| Plain (e : error)
| Wrapped (cause : goerror)
| Joined (causes : list goerror).

Fixpoint onlyEnvironmentNotFound (err : goerror) : bool :=
  match err with
  | Plain e => e == ErrNotFound
  | Joined causes =>
    match causes with
    | [] => false
    | _ => forallb onlyEnvironmentNotFound causes
    end
  | Wrapped cause => onlyEnvironmentNotFound cause
  end.

Definition EnvironmentDeletionComplete (err : option goerror) : bool :=
  match err with
  | None => true
  | Some err => onlyEnvironmentNotFound err
  end.

(** [errors.Is] for a sentinel, [errors.Join] (which drops nil errors). *)
Fixpoint errors_Is (err : goerror) (target : error) : bool :=
  match err with
  | Plain e => e == target
  | Wrapped cause => errors_Is cause target
  | Joined causes => existsb (fun cause => errors_Is cause target) causes
  end.

Definition Join (errs : list (option goerror)) : goerror := Joined (omap id errs).

(** What a Go call returns: a value or an error. *)
Notation answer A := (A + goerror)%type.
