(* ===== verification/CoreProofs.v ===== *)
(** * Properties of the core checks

    What the checks of [CoreChecks] accept, stated without reference to how
    they scan their input. *)

From S2P Require Import Prelude GoText Core CoreChecks.
From Stdlib Require Import Ascii String.
Open Scope string_scope.

(** ** String order *)

Definition str_lt (a b : string) : Prop := String.compare a b = Lt.

Lemma str_lt_trans a b c : str_lt a b -> str_lt b c -> str_lt a c.
Proof.
  unfold str_lt. revert b c. induction a as [|x a IH]; intros [|y b] [|z c]; simpl; try done.
  unfold Ascii.compare.
  destruct (N.compare_spec (N_of_ascii x) (N_of_ascii y)) as [E1|E1|E1]; try done;
    destruct (N.compare_spec (N_of_ascii y) (N_of_ascii z)) as [E2|E2|E2]; try done; intros H1 H2;
    destruct (N.compare_spec (N_of_ascii x) (N_of_ascii z)) as [E3|E3|E3]; try lia; try done.
  by apply (IH b).
Qed.

Lemma str_lt_irrefl a : ~ str_lt a a.
Proof. unfold str_lt. intros H. pose proof (String.compare_antisym a a) as E. rewrite H in E. done. Qed.

Lemma leb_false_lt a b : String.leb a b = false <-> str_lt b a.
Proof.
  unfold String.leb, str_lt. rewrite String.compare_antisym. by destruct (String.compare b a).
Qed.

(** ** Attachments *)

Definition attachment_ok (a : EnvironmentAttachment) : Prop :=
  MatchString resourceSourceName (att_Key a) = true /\ ValidEnvironmentResourceRef (att_Resource a) = true /\
  ValidResourceGeneration (att_Origin a) = true /\ ValidEnvironmentDataPath (att_Target a) = true.

(** Neither mount point is inside the other. *)
Definition targets_disjoint (a b : EnvironmentAttachment) : Prop :=
  att_Target b <> att_Target a /\ HasPrefix (att_Target b) (att_Target a +:+ "/") = false /\
  HasPrefix (att_Target a) (att_Target b +:+ "/") = false.

Lemma attachments_loop_spec previous refs before l :
  valid_attachments_loop previous refs before l = true <->
  Forall attachment_ok l /\ StronglySorted str_lt (previous :: (att_Key <$> l)) /\
  NoDup ((fun a => ref_ID (att_Resource a)) <$> l) /\
  (forall a, a ∈ l -> ref_ID (att_Resource a) ∉ refs) /\
  (forall a b, a ∈ l -> b ∈ before -> targets_disjoint a b) /\
  ForallOrdPairs (fun b a => targets_disjoint a b) l.
Proof.
  revert previous refs before. induction l as [|a l IH]; intros previous refs before.
  - simpl. split; [intros _|done]. split_and!; repeat constructor; set_solver.
  - assert (existsb (fun b => (att_Target b == att_Target a) || HasPrefix (att_Target b) (att_Target a +:+ "/") ||
      HasPrefix (att_Target a) (att_Target b +:+ "/")) before = false <-> (forall b, b ∈ before -> targets_disjoint a b)) as Hd.
    { rewrite <- not_true_iff_false, existsb_exists. unfold targets_disjoint. split.
      - intros H b Hb. rewrite <- bool_decide_eq_false, <- !orb_false_iff. apply not_true_iff_false. intros Ht.
        apply H. exists b. rewrite <- list_elem_of_In. by rewrite <- orb_assoc.
      - intros H (b & Hb & Ht). apply list_elem_of_In in Hb. destruct (H b Hb) as (H1 & H2 & H3).
        rewrite H2, H3, !orb_false_r in Ht. by apply bool_decide_eq_true in Ht. }
    cbn [valid_attachments_loop fmap list_fmap]. destruct (_ || negb (ValidResourceGeneration _)) eqn:E1.
    { split; [done|]. intros (Hok & Hs & _ & Hr & _). exfalso. apply not_false_iff_true in E1. apply E1.
      apply Forall_cons in Hok as [(K1 & K2 & K3 & K4) _]. rewrite K1, K2, K3. cbn.
      rewrite (proj2 (leb_false_lt _ _)), bool_decide_eq_false_2; [done|apply Hr; left|].
      apply StronglySorted_inv in Hs as [_ Hs]. by apply Forall_cons in Hs as [? _]. }
    bool_hyps. destruct (ValidEnvironmentDataPath (att_Target a)) eqn:E2; cbn [negb].
    2:{ split; [done|]. intros (Hok & _). apply Forall_cons in Hok as [(_ & _ & _ & ?) _]. congruence. }
    destruct (existsb _ before) eqn:E3.
    { split; [done|]. intros (_ & _ & _ & _ & Hb & _). assert (true = false); [|done]. apply Hd.
      intros b Hb'. apply Hb; [left|done]. }
    pose proof (proj1 Hd eq_refl) as E3'. clear E3. rename E3' into E3. rewrite IH. clear IH Hd. setoid_rewrite elem_of_app. setoid_rewrite list_elem_of_singleton.
    rewrite leb_false_lt in H3. split.
    + intros (J1 & J2 & J3 & J4 & J5 & J6). split_and!.
      * constructor; [done|done].
      * apply StronglySorted_inv in J2 as J2'. destruct J2' as [_ HF]. constructor; [done|]. constructor; [done|].
        eapply Forall_impl; [done|]. intros k Hk. by apply (str_lt_trans _ (att_Key a)).
      * constructor; [|done]. intros Hin. apply list_elem_of_fmap in Hin as (b & Hb & Hin). apply (J4 b Hin). set_solver.
      * intros b [->|Hb]%elem_of_cons; [done|]. specialize (J4 b Hb). set_solver.
      * intros c b [->|Hc]%elem_of_cons Hb; [by apply E3|]. apply J5; auto.
      * constructor; [|done]. apply Forall_forall. intros c Hc. apply J5; auto.
    + intros (J1 & J2 & J3 & J4 & J5 & J6). apply Forall_cons in J1 as [J1a J1]. apply NoDup_cons in J3 as [J3a J3].
      inversion_clear J6 as [|? ? J6a J6b]. apply StronglySorted_inv in J2 as [J2 _]. split_and!; try done.
      * intros b Hb Hin. apply elem_of_union in Hin as [Hin|Hin].
        -- apply elem_of_singleton in Hin. apply J3a. apply list_elem_of_fmap. exists b. by rewrite Hin.
        -- by apply (J4 b); [right|].
      * intros c b Hc [Hb| ->]; [by apply J5; [right|]|]. rewrite Forall_forall in J6a. by apply J6a.
Qed.

(** The keys of a valid list are strictly ordered, its resources distinct, its
    mount points pairwise disjoint and every attachment valid on its own. *)
Lemma ValidEnvironmentAttachments_spec l :
  ValidEnvironmentAttachments l = true <->
  (List.length l <= 32)%nat /\ Forall attachment_ok l /\ StronglySorted str_lt (att_Key <$> l) /\
  NoDup ((fun a => ref_ID (att_Resource a)) <$> l) /\ ForallOrdPairs (fun b a => targets_disjoint a b) l.
Proof.
  unfold ValidEnvironmentAttachments, MaxEnvironmentAttachments. destruct (Nat.ltb_spec 32 (List.length l)) as [Hl|Hl].
  { split; [done|]. intros (? & _). lia. }
  rewrite attachments_loop_spec. split.
  - intros (H1 & H2 & H3 & _ & _ & H6). apply StronglySorted_inv in H2 as [H2 _]. done.
  - intros (_ & H1 & H2 & H3 & H6). split_and!; try done.
    + constructor; [done|]. apply Forall_fmap, Forall_forall. intros a Ha. rewrite Forall_forall in H1.
      destruct (H1 a Ha) as (Hk & _). simpl. destruct (att_Key a); done.
    + intros a Ha. set_solver.
Qed.

(** ** Hexadecimal text *)

Lemma N16_cases n : (n < 16)%N ->
  n = 0%N \/ n = 1%N \/ n = 2%N \/ n = 3%N \/ n = 4%N \/ n = 5%N \/ n = 6%N \/ n = 7%N \/ n = 8%N \/ n = 9%N \/ n = 10%N \/
  n = 11%N \/ n = 12%N \/ n = 13%N \/ n = 14%N \/ n = 15%N.
Proof. lia. Qed.

Lemma hex_digit_hex n : (n < 16)%N -> cls_hex (hex_digit n) = true.
Proof. intros H. apply N16_cases in H. by repeat destruct H as [->|H]; [..|subst]. Qed.

Lemma hex_digit_inj n m : (n < 16)%N -> (m < 16)%N -> hex_digit n = hex_digit m -> n = m.
Proof.
  intros Hn Hm He. apply (f_equal N_of_ascii) in He. unfold hex_digit in He.
  destruct (N.ltb_spec n 10), (N.ltb_spec m 10); rewrite !N_ascii_embedding in He; lia.
Qed.

Lemma hex_digit_surj c : cls_hex c = true -> exists n, (n < 16)%N /\ c = hex_digit n.
Proof.
  unfold cls_hex, cls_digit, in_range, byte. rewrite orb_true_iff, !andb_true_iff, !N.leb_le. intros Hc.
  rewrite <- (ascii_N_embedding c). set (m := N_of_ascii c) in *.
  change (N_of_ascii "a") with 97%N in Hc. change (N_of_ascii "f") with 102%N in Hc.
  change (N_of_ascii "0") with 48%N in Hc. change (N_of_ascii "9") with 57%N in Hc. unfold hex_digit.
  destruct Hc as [Hc|Hc]; [exists (m - 87)%N|exists (m - 48)%N]; (split; [lia|]).
  - destruct (N.ltb_spec (m - 87) 10); [lia|]. f_equal. lia.
  - destruct (N.ltb_spec (m - 48) 10); [|lia]. f_equal. lia.
Qed.

Lemma byte_bound c : (byte c / 16 < 16 /\ byte c mod 16 < 16)%N.
Proof.
  pose proof (N_ascii_bounded c) as H. unfold byte. split; [apply N.Div0.div_lt_upper_bound; lia|apply N.mod_lt; lia].
Qed.

Lemma EncodeToString_hex l : all_chars cls_hex (EncodeToString l) = true.
Proof.
  induction l as [|c l IH]; simpl; [done|]. destruct (byte_bound c). by rewrite !hex_digit_hex, IH.
Qed.

Lemma EncodeToString_inj l k : EncodeToString l = EncodeToString k -> l = k.
Proof.
  revert k. induction l as [|c l IH]; intros [|b k]; simpl; try done. intros [= H1 H2 H3].
  destruct (byte_bound c), (byte_bound b). apply hex_digit_inj in H1; [|done..]. apply hex_digit_inj in H2; [|done..].
  rewrite (IH k H3). f_equal. rewrite <- (ascii_N_embedding c), <- (ascii_N_embedding b). f_equal. unfold byte in *.
  pose proof (N.div_mod (N_of_ascii c) 16). pose proof (N.div_mod (N_of_ascii b) 16). lia.
Qed.

(** Every even-length hexadecimal text is the encoding of some bytes. *)
Lemma EncodeToString_surj n s :
  String.length s = (2 * n)%nat -> all_chars cls_hex s = true -> exists l, List.length l = n /\ s = EncodeToString l.
Proof.
  revert s. induction n as [|n IH]; intros s Hl Hs.
  - exists []. destruct s; [done|]. discriminate.
  - destruct s as [|c [|b s]]; simpl in Hl, Hs; [lia..|]. apply andb_true_iff in Hs as [Hc Hs].
    apply andb_true_iff in Hs as [Hb Hs]. destruct (IH s) as (l & Hn & ->); [lia|done|].
    apply hex_digit_surj in Hc as (x & Hx & ->). apply hex_digit_surj in Hb as (y & Hy & ->).
    exists (ascii_of_N (x * 16 + y) :: l). split; [simpl; lia|]. simpl. unfold byte. rewrite N_ascii_embedding by lia.
    replace ((x * 16 + y) / 16)%N with x by (rewrite N.div_add_l, N.div_small by lia; lia).
    replace ((x * 16 + y) mod 16)%N with y; [done|]. rewrite N.add_comm, N.Div0.mod_add, N.mod_small; lia.
Qed.

Lemma app_string_inj p a b : p +:+ a = p +:+ b -> a = b.
Proof. induction p as [|c p IH]; str_simpl; [done|]. intros [= H]. auto. Qed.

(** A literal prefix followed by a fixed number of hexadecimal digits. *)
Lemma prefixed_hex_lang p n s :
  MatchString (Seq (Lit p) (Exactly cls_hex (2 * n))) s = true <->
  exists l, List.length l = n /\ s = p +:+ EncodeToString l.
Proof.
  rewrite MatchString_lang, Lit_Seq_lang. split.
  - intros (t & -> & (Hl & Hs)). destruct (EncodeToString_surj n t) as (l & Hn & ->); [lia|done|]. by exists l.
  - intros (l & Hn & ->). exists (EncodeToString l). split; [done|]. simpl. rewrite length_EncodeToString, Hn.
    split; [lia|apply EncodeToString_hex].
Qed.

Lemma new_instance_valid nonce :
  List.length nonce = 16%nat -> ValidEnvironmentInstanceID (NewEnvironmentInstanceID nonce) = true.
Proof. intros H. apply (prefixed_hex_lang "env-" 16). by exists nonce. Qed.

(** ** Sorting *)

Lemma insert_by_perm {A} (key : A -> string) x l : insert_by key x l ≡ₚ x :: l.
Proof.
  induction l as [|y l IH]; simpl; [done|]. destruct (String.ltb (key y) (key x)); [|done].
  rewrite IH. apply Permutation_swap.
Qed.

Lemma sort_by_perm {A} (key : A -> string) l : sort_by key l ≡ₚ l.
Proof. induction l as [|x l IH]; [done|]. simpl. by rewrite insert_by_perm, IH. Qed.

(** Keys that are all different come out strictly increasing. *)
Lemma sort_by_sorted {A} (key : A -> string) l :
  NoDup (key <$> l) -> StronglySorted (fun x y => str_lt (key x) (key y)) (sort_by key l).
Proof.
  induction l as [|x l IH]; intros Hnd; [constructor|]. simpl in *. apply NoDup_cons in Hnd as [Hx Hnd].
  assert (forall y, y ∈ sort_by key l -> key y <> key x) as Hne.
  { intros y Hy E. apply Hx. rewrite <- E. apply list_elem_of_fmap_2. by rewrite sort_by_perm in Hy. }
  specialize (IH Hnd). revert IH Hne. generalize (sort_by key l) as k.
  induction k as [|y k IHk]; intros Hs Hne; simpl; [repeat constructor|].
  apply StronglySorted_inv in Hs as [Hs Hy].
  assert (key y <> key x) as Hyx by (apply Hne, elem_of_cons; by left).
  destruct (String.ltb (key y) (key x)) eqn:E.
  - constructor; [apply IHk; [done|]; intros z Hz; apply Hne, elem_of_cons; by right|].
    rewrite Forall_forall in Hy |- *. intros z Hz. rewrite insert_by_perm in Hz.
    apply elem_of_cons in Hz as [->|Hz]; [|by apply Hy].
    unfold String.ltb in E. unfold str_lt. by destruct (String.compare (key y) (key x)).
  - assert (str_lt (key x) (key y)) as Hlt.
    { unfold String.ltb in E. unfold str_lt. rewrite String.compare_antisym.
      destruct (String.compare (key y) (key x)) eqn:Ec; try done. by apply String.compare_eq_iff in Ec. }
    constructor; [by constructor|]. constructor; [done|]. rewrite Forall_forall in Hy |- *.
    intros z Hz. eapply str_lt_trans; [exact Hlt|]. by apply Hy.
Qed.
