(* ===== verification/CatalogState.v ===== *)
(** * Catalog state

    The durable state of [src/internal/state] ([environmentFileState]) and the
    predicates its validators and operations share: which lease holds a
    resource, which resources are reserved, which snapshots are busy. *)

From S2P Require Import Prelude GoText Core CoreChecks.
From Stdlib Require Import String.
Open Scope string_scope.

Definition environmentStateVersion : Z := 17.
Definition previousEnvironmentStateVersion : Z := 2.

Record snapshotWorkspaceCopy := mkCopy { copy_SnapshotID : string; copy_Owner : string }.

#[export] Instance snapshotWorkspaceCopy_eq_dec : EqDecision snapshotWorkspaceCopy.
Proof. solve_decision. Defined.

Record environmentFileState := mkState {
  OwnedWorkspaceCleanup : gmap string Workspace;
  DefaultImage : string;
  LastOpened : string;
  ResourceGenerations : gmap string ResourceGeneration;
  WorkspaceCopies : gmap string snapshotWorkspaceCopy;
  Restores : gmap string SnapshotRestore;
  BaseAssets : gmap string BaseAsset;
  Snapshots : gmap string Snapshot;
  PersistentResources : gmap string PersistentResource;
  Version : Z;
  Environments : gmap string Environment;
  Leases : gmap string WorkspaceLease;
  EphemeralRuns : gmap string EphemeralRun }.

Definition newEnvironmentFileState : environmentFileState :=
  mkState ∅ "" "" ∅ ∅ ∅ ∅ ∅ ∅ environmentStateVersion ∅ ∅ ∅.

(** ** Field updates *)

Definition with_OwnedWorkspaceCleanup (m : gmap string Workspace) (d : environmentFileState) : environmentFileState :=
  mkState m (DefaultImage d) (LastOpened d) (ResourceGenerations d) (WorkspaceCopies d)
    (Restores d) (BaseAssets d) (Snapshots d) (PersistentResources d) (Version d) (Environments d)
    (Leases d) (EphemeralRuns d).
Definition with_DefaultImage (s : string) (d : environmentFileState) : environmentFileState :=
  mkState (OwnedWorkspaceCleanup d) s (LastOpened d) (ResourceGenerations d) (WorkspaceCopies d)
    (Restores d) (BaseAssets d) (Snapshots d) (PersistentResources d) (Version d) (Environments d)
    (Leases d) (EphemeralRuns d).
Definition with_LastOpened (s : string) (d : environmentFileState) : environmentFileState :=
  mkState (OwnedWorkspaceCleanup d) (DefaultImage d) s (ResourceGenerations d) (WorkspaceCopies d)
    (Restores d) (BaseAssets d) (Snapshots d) (PersistentResources d) (Version d) (Environments d)
    (Leases d) (EphemeralRuns d).
Definition with_ResourceGenerations (m : gmap string ResourceGeneration) (d : environmentFileState) : environmentFileState :=
  mkState (OwnedWorkspaceCleanup d) (DefaultImage d) (LastOpened d) m (WorkspaceCopies d)
    (Restores d) (BaseAssets d) (Snapshots d) (PersistentResources d) (Version d) (Environments d)
    (Leases d) (EphemeralRuns d).
Definition with_WorkspaceCopies (m : gmap string snapshotWorkspaceCopy) (d : environmentFileState) : environmentFileState :=
  mkState (OwnedWorkspaceCleanup d) (DefaultImage d) (LastOpened d) (ResourceGenerations d) m
    (Restores d) (BaseAssets d) (Snapshots d) (PersistentResources d) (Version d) (Environments d)
    (Leases d) (EphemeralRuns d).
Definition with_Restores (m : gmap string SnapshotRestore) (d : environmentFileState) : environmentFileState :=
  mkState (OwnedWorkspaceCleanup d) (DefaultImage d) (LastOpened d) (ResourceGenerations d) (WorkspaceCopies d)
    m (BaseAssets d) (Snapshots d) (PersistentResources d) (Version d) (Environments d)
    (Leases d) (EphemeralRuns d).
Definition with_BaseAssets (m : gmap string BaseAsset) (d : environmentFileState) : environmentFileState :=
  mkState (OwnedWorkspaceCleanup d) (DefaultImage d) (LastOpened d) (ResourceGenerations d) (WorkspaceCopies d)
    (Restores d) m (Snapshots d) (PersistentResources d) (Version d) (Environments d)
    (Leases d) (EphemeralRuns d).
Definition with_Snapshots (m : gmap string Snapshot) (d : environmentFileState) : environmentFileState :=
  mkState (OwnedWorkspaceCleanup d) (DefaultImage d) (LastOpened d) (ResourceGenerations d) (WorkspaceCopies d)
    (Restores d) (BaseAssets d) m (PersistentResources d) (Version d) (Environments d)
    (Leases d) (EphemeralRuns d).
Definition with_PersistentResources (m : gmap string PersistentResource) (d : environmentFileState) : environmentFileState :=
  mkState (OwnedWorkspaceCleanup d) (DefaultImage d) (LastOpened d) (ResourceGenerations d) (WorkspaceCopies d)
    (Restores d) (BaseAssets d) (Snapshots d) m (Version d) (Environments d)
    (Leases d) (EphemeralRuns d).
Definition with_Version (v : Z) (d : environmentFileState) : environmentFileState :=
  mkState (OwnedWorkspaceCleanup d) (DefaultImage d) (LastOpened d) (ResourceGenerations d) (WorkspaceCopies d)
    (Restores d) (BaseAssets d) (Snapshots d) (PersistentResources d) v (Environments d)
    (Leases d) (EphemeralRuns d).
Definition with_Environments (m : gmap string Environment) (d : environmentFileState) : environmentFileState :=
  mkState (OwnedWorkspaceCleanup d) (DefaultImage d) (LastOpened d) (ResourceGenerations d) (WorkspaceCopies d)
    (Restores d) (BaseAssets d) (Snapshots d) (PersistentResources d) (Version d) m
    (Leases d) (EphemeralRuns d).
Definition with_Leases (m : gmap string WorkspaceLease) (d : environmentFileState) : environmentFileState :=
  mkState (OwnedWorkspaceCleanup d) (DefaultImage d) (LastOpened d) (ResourceGenerations d) (WorkspaceCopies d)
    (Restores d) (BaseAssets d) (Snapshots d) (PersistentResources d) (Version d) (Environments d)
    m (EphemeralRuns d).
Definition with_EphemeralRuns (m : gmap string EphemeralRun) (d : environmentFileState) : environmentFileState :=
  mkState (OwnedWorkspaceCleanup d) (DefaultImage d) (LastOpened d) (ResourceGenerations d) (WorkspaceCopies d)
    (Restores d) (BaseAssets d) (Snapshots d) (PersistentResources d) (Version d) (Environments d)
    (Leases d) m.

(** ** Shared predicates *)

Definition supportedEnvironmentStateVersion (version : Z) : bool :=
  (version =? 0)%Z ||
  ((previousEnvironmentStateVersion <=? version)%Z && (version <=? 8)%Z) ||
  ((10 <=? version)%Z && (version <=? 12)%Z) || (version =? 16)%Z || (version =? environmentStateVersion)%Z.

Definition environmentSupportsLease (environment : Environment) : bool :=
  (ws_ID (env_Workspace environment) != "") && (ws_Path (env_Workspace environment) != "") &&
  (env_AccessMode environment != "") && (env_RuntimeRef environment != "").

Definition leaseHasResource (lease : WorkspaceLease) (id : string) : bool :=
  (ref_ID (lease_PersistentResource lease) == id) ||
  existsb (fun a => ref_ID (att_Resource a) == id) (lease_Attachments lease).

Definition persistentCopyReserved (d : environmentFileState) (id : string) : bool :=
  map_any (fun _ r => ref_ID (res_CopySource r) == id) (PersistentResources d).

Definition generationReferences (data : environmentFileState) (id : string) : bool :=
  map_any (fun _ source => ref_ID (gen_Current source) == id) (ResourceGenerations data).

Definition restoreUsesSnapshot (data : environmentFileState) (id : string) : bool :=
  map_any (fun _ op => (snap_ID (rst_Saved op) == id) || (snap_ID (rst_Before op) == id)) (Restores data).

Definition snapshotBusy (data : environmentFileState) (name : string) : bool :=
  map_any (fun _ op => env_Name (src_Environment (rst_Current op)) == name) (Restores data) ||
  map_any (fun _ s => (env_Name (src_Environment (snap_Source s)) == name) && (snap_State s != "ready"))
    (Snapshots data).

(** The lease that owns a disposable Environment resource.  At most one lease
    can match in a catalog that passes [validateEnvironmentResources]. *)
Definition environmentResourceLease (data : environmentFileState) (resource : PersistentResource)
    : option WorkspaceLease :=
  if res_EnvironmentInstance resource == "" then None
  else List.find (fun lease => (lease_InstanceID lease == res_EnvironmentInstance resource) &&
                               existsb (fun a => att_Resource a == Ref resource) (lease_Attachments lease))
         (snd <$> map_to_list (Leases data)).

Definition environmentGenerationCopy (data : environmentFileState) (source target : PersistentResource)
    (lease : WorkspaceLease) : bool :=
  if negb (ValidEnvironmentInstanceID (res_EnvironmentInstance source)) ||
     negb (ValidEnvironmentResourceRef (Ref source)) || res_SourceOnly source ||
     (res_WorkspaceID source != "") || (res_State source != "ready") ||
     (res_EnvironmentInstance source != lease_InstanceID lease) ||
     (lease_State lease != WorkspaceLeaseActive) || lease_RuntimeAbsent lease ||
     negb (MatchesEnvironment lease (read_or zeroEnvironment (Environments data) (lease_EnvironmentID lease)))
  then false
  else if negb (ValidGenerationResource (Ref target)) || negb (res_SourceOnly target) ||
     (res_EnvironmentInstance target != "") || (res_WorkspaceID target != "") ||
     (res_RestoreSource target != "") ||
     ((res_State target != "creating") && ((res_State target != "deleting") || negb (res_CopyCleanup target))) ||
     (res_CopySource target != Ref source) || (res_Kind target != res_Kind source)
  then false
  else existsb (fun area => (att_Resource area == Ref source) &&
                            (gen_Kind (att_Origin area) == res_Kind source) &&
                            (res_PublicationOrigin target == att_Origin area) &&
                            (res_Producer target == Ref source)) (lease_Attachments lease).

Definition environmentResourcesBusy (data : environmentFileState) (name : string) : bool :=
  existsb (fun area =>
             (res_State (read_or zeroResource (PersistentResources data) (ref_ID (att_Resource area))) == "clearing") ||
             persistentCopyReserved data (ref_ID (att_Resource area)))
    (lease_Attachments (read_or zeroLease (Leases data) name)).

Definition validCacheCopyReceipt (r : PersistentResource) : bool :=
  ValidGenerationResource (Ref r) && res_SourceOnly r && (res_EnvironmentInstance r == "") &&
  (res_WorkspaceID r == "") && (res_RestoreSource r == "") &&
  ValidResourceGeneration (res_PublicationOrigin r) && (res_Kind r == "build-cache") &&
  (gen_Kind (res_PublicationOrigin r) == res_Kind r) && ValidEnvironmentResourceRef (res_Producer r) &&
  (res_CopySource r == res_Producer r) && (res_CopyOperation r != "") &&
  (len (res_CopyOperation r) <=? 256)%Z &&
  ((res_State r == "creating") || ((res_State r == "deleting") && res_CopyCleanup r)).

Definition validateEphemeralRun (run : EphemeralRun) : result unit :=
  reject negb (ValidEnvironmentInstanceID (run_InstanceID run)) with ErrInvalidArgument ;;
  reject (match run_TemporaryWorkspace run with
          | Some work => negb (ValidTemporaryWorkspace work)
          | None => false
          end) with ErrInvalidArgument ;;
  reject (run_EnvironmentID run == "") || IsZero (run_CreatedAt run) with ErrInvalidArgument ;;
  reject negb ((run_State run == EphemeralRunCreating) || (run_State run == EphemeralRunActive) ||
               (run_State run == EphemeralRunCleanupRequired)) with ErrInvalidArgument ;;
  Ok tt.

Definition resourceMaintenanceLease (data : environmentFileState) (lease : WorkspaceLease) : bool :=
  let work := mkWorkspace (lease_WorkspaceID lease) (lease_SourcePath lease) in
  if (lease_AccessMode lease != WorkspaceReadWrite) || negb (ValidTemporaryWorkspace work) then false
  else match EphemeralRuns data !! lease_EnvironmentID lease with
       | None => false
       | Some run =>
         is_ok (validateEphemeralRun run) && (run_EnvironmentID run == lease_EnvironmentID lease) &&
         (run_TemporaryWorkspace run == Some work)
       end.

Definition resourceMaintenanceReservation (data : environmentFileState) (lease : WorkspaceLease) : bool :=
  resourceMaintenanceLease data lease &&
  (run_State (read_or zeroRun (EphemeralRuns data) (lease_EnvironmentID lease)) == EphemeralRunCreating).

Definition matchesSavedEnvironmentResource (data : environmentFileState) (lease : WorkspaceLease)
    (a : EnvironmentAttachment) (r : PersistentResource) : bool :=
  match Snapshots data !! res_RestoreSource r with
  | None => false
  | Some saved =>
    if (snap_State saved != "ready") || (res_RestoreSource r != lease_SnapshotSource lease) ||
       (res_CopySource r != zeroRef) || res_CopyCompleted r then false
    else existsb (fun source => (att_Key source == att_Key a) && (att_Target source == att_Target a) &&
                                (att_Origin source == att_Origin a) &&
                                (att_Resource source != att_Resource a) &&
                                (ref_Owner (att_Resource source) != res_Owner r))
           (env_Attachments (src_Environment (snap_Source saved)))
  end.

Definition validSavedEnvironmentLease (data : environmentFileState) (lease : WorkspaceLease) : bool :=
  match Snapshots data !! lease_SnapshotSource lease with
  | None => false
  | Some saved =>
    let originals := env_Attachments (src_Environment (snap_Source saved)) in
    if (snap_State saved != "ready") || (lease_InstanceID lease == src_InstanceID (snap_Source saved)) ||
       negb (List.length (lease_Attachments lease) =? List.length originals)%nat ||
       ((lease_State lease != WorkspaceLeaseAcquiring) && (lease_State lease != WorkspaceLeaseCleanupRequired))
    then false
    else forallb (fun p => negb ((att_Key p.2 != att_Key p.1) || (att_Target p.2 != att_Target p.1) ||
                                 (att_Origin p.2 != att_Origin p.1) ||
                                 (att_Resource p.2 == att_Resource p.1) ||
                                 (ref_Owner (att_Resource p.2) == ref_Owner (att_Resource p.1))))
           (zip (lease_Attachments lease) originals)
  end.

Definition validateEnvironmentCreateCommit (environment : Environment) (lease : WorkspaceLease) : result unit :=
  reject negb (DNSMode_Valid (env_DNSMode environment)) with ErrInvalidArgument ;;
  reject env_PersistentResource environment != lease_PersistentResource lease with ErrIncompatibleState ;;
  reject (env_Name environment == "") || (env_RuntimeRef environment == "") ||
         (ws_ID (env_Workspace environment) == "") || (ws_Path (env_Workspace environment) == "") ||
         IsZero (env_CreatedAt environment) with ErrInvalidArgument ;;
  reject negb (MatchesEnvironment lease environment) with ErrIncompatibleState ;;
  Ok tt.
