(* ===== verification/CatalogChecks.v ===== *)
(** * Catalog validators

    The consistency checks of [src/internal/state]: one definition per Go
    validator, loops included.  [writeEnvironments] runs four of them before
    every commit and [normalizeEnvironmentState] runs all of them after every
    read. *)

From S2P Require Import Prelude GoText Core CoreChecks CatalogState.
From Stdlib Require Import String.
Open Scope string_scope.

(** ** Owned Workspace cleanup *)

Definition owned_cleanup_body (data : environmentFileState) (kv : string * Workspace) (seen : gset string)
    : result (gset string) :=
  let '(name, work) := kv in
  reject negb (is_ok (ValidateEnvironmentName name)) || negb (HasPrefix (ws_ID work) "workspace:managed:") ||
         negb (HasPrefix (ws_Path work) "managed:") || bool_decide (ws_ID work ∈ seen) with ErrIncompatibleState ;;
  reject has_key (Environments data) name with ErrIncompatibleState ;;
  reject has_key (Leases data) name with ErrIncompatibleState ;;
  reject map_any (fun _ lease => (lease_WorkspaceID lease == ws_ID work) || (lease_SourcePath lease == ws_Path work))
           (Leases data) with ErrIncompatibleState ;;
  Ok ({[ws_ID work]} ∪ seen).

Definition validateOwnedWorkspaceCleanup (data : environmentFileState) : result unit :=
  _ ← range_loop (owned_cleanup_body data) (map_to_list (OwnedWorkspaceCleanup data)) ∅;
  Ok tt.

(** ** Environment resources *)

Definition env_resource_attachment (data : environmentFileState) (lease : WorkspaceLease)
    (a : EnvironmentAttachment) (held : gmap string string) : result (gmap string string) :=
  reject negb (ValidEnvironmentResourceRef (att_Resource a)) ||
         (read_or "" held (ref_ID (att_Resource a)) != "") ||
         (ref_ID (lease_PersistentResource lease) == ref_ID (att_Resource a)) with ErrIncompatibleState ;;
  let held := <[ref_ID (att_Resource a) := lease_InstanceID lease]> held in
  match PersistentResources data !! ref_ID (att_Resource a) with
  | None => if lease_RuntimeAbsent lease then Ok held else Err ErrIncompatibleState
  | Some r =>
    reject (Ref r != att_Resource a) || (res_EnvironmentInstance r != lease_InstanceID lease) ||
           (res_Kind r != gen_Kind (att_Origin a)) with ErrIncompatibleState ;;
    reject ((res_State r == "planned") || (res_State r == "creating")) && (res_RestoreSource r == "") &&
           (res_CopySource r != gen_Current (att_Origin a)) with ErrIncompatibleState ;;
    reject ((res_State r == "planned") && res_CopyCompleted r) ||
           ((res_State r == "created") && (res_RestoreSource r == "") &&
            (gen_Current (att_Origin a) != zeroRef)) with ErrIncompatibleState ;;
    reject (res_RestoreSource r != "") && negb (matchesSavedEnvironmentResource data lease a r)
           with ErrIncompatibleState ;;
    reject (lease_State lease == WorkspaceLeaseActive) && (res_State r != "ready") &&
           (res_State r != "clearing") with ErrIncompatibleState ;;
    reject (res_State r == "clearing") &&
           ((lease_State lease != WorkspaceLeaseActive) || lease_RuntimeAbsent lease ||
            (res_CopySource r != zeroRef) || res_CopyCompleted r || res_ImportPending r ||
            (res_RestoreSource r != "")) with ErrIncompatibleState ;;
    reject (res_State r == "deleting") && negb (lease_RuntimeAbsent lease) with ErrIncompatibleState ;;
    Ok held
  end.

Definition env_resource_lease (data : environmentFileState) (kv : string * WorkspaceLease)
    (held : gmap string string) : result (gmap string string) :=
  let '(name, lease) := kv in
  if (List.length (lease_Attachments lease) =? 0)%nat && negb (lease_RuntimeAbsent lease) then Ok held else
  reject (Version data <? 16)%Z || (environmentStateVersion <? Version data)%Z ||
         (name != lease_EnvironmentID lease) || negb (ValidEnvironmentInstanceID (lease_InstanceID lease)) ||
         negb (ValidEnvironmentAttachments (lease_Attachments lease)) with ErrIncompatibleState ;;
  reject (lease_State lease != WorkspaceLeaseAcquiring) && (lease_State lease != WorkspaceLeaseActive) &&
         (lease_State lease != WorkspaceLeaseCleanupRequired) with ErrIncompatibleState ;;
  reject lease_RuntimeAbsent lease &&
         ((List.length (lease_Attachments lease) =? 0)%nat || (lease_State lease != WorkspaceLeaseCleanupRequired))
         with ErrIncompatibleState ;;
  reject (lease_SnapshotSource lease != "") && negb (validSavedEnvironmentLease data lease)
         with ErrIncompatibleState ;;
  reject (lease_WorkspaceID lease == "") || (lease_SourcePath lease == "") || (lease_Owner lease == "") ||
         IsZero (lease_AcquiredAt lease) ||
         ((lease_AccessMode lease != WorkspaceReadOnly) && (lease_AccessMode lease != WorkspaceReadWrite))
         with ErrIncompatibleState ;;
  reject map_any (fun otherName other => (otherName != name) && (lease_InstanceID other == lease_InstanceID lease))
           (Leases data) with ErrIncompatibleState ;;
  reject (lease_State lease == WorkspaceLeaseActive) &&
         match Environments data !! name with
         | Some env => negb (MatchesEnvironment lease env)
         | None => true
         end with ErrIncompatibleState ;;
  range_loop (env_resource_attachment data lease) (lease_Attachments lease) held.

Definition env_resource_binding (data : environmentFileState) (name : string) (env : Environment) : result unit :=
  let leased := Leases data !! name in
  let lease := default zeroLease leased in
  if (List.length (env_Attachments env) =? 0)%nat && (List.length (lease_Attachments lease) =? 0)%nat then Ok tt else
  let binding := lease_with_RuntimeAbsent false (lease_with_State WorkspaceLeaseActive lease) in
  reject (Version data <? 16)%Z || (match leased with Some _ => false | None => true end) ||
         (lease_State lease == WorkspaceLeaseAcquiring) || negb (MatchesEnvironment binding env) ||
         (env_Attachments env != lease_Attachments lease) with ErrIncompatibleState ;;
  Ok tt.

Definition env_resource_record (data : environmentFileState) (held : gmap string string)
    (id : string) (r : PersistentResource) : result unit :=
  if res_EnvironmentInstance r == "" then
    reject HasPrefix id "env-data:" with ErrIncompatibleState ;;
    Ok tt
  else
    reject (Version data <? 16)%Z || (environmentStateVersion <? Version data)%Z ||
           negb (ValidEnvironmentInstanceID (res_EnvironmentInstance r)) ||
           negb (ValidEnvironmentResourceRef (Ref r)) ||
           (read_or "" held id != res_EnvironmentInstance r) || res_SourceOnly r ||
           (res_WorkspaceID r != "") with ErrIncompatibleState ;;
    reject map_any (fun otherID other => (id != otherID) &&
                      ((res_Owner r == res_Owner other) || (res_NativeRef r == res_NativeRef other)))
             (PersistentResources data) with ErrIncompatibleState ;;
    Ok tt.

Definition validateEnvironmentResources (data : environmentFileState) : result unit :=
  _ ← range_map (fun _ environment =>
        reject negb (DNSMode_Valid (env_DNSMode environment)) with ErrIncompatibleState ;; Ok tt) (Environments data);
  _ ← range_map (fun _ saved =>
        reject negb (DNSMode_Valid (env_DNSMode (src_Environment (snap_Source saved)))) with ErrIncompatibleState ;;
        Ok tt) (Snapshots data);
  held ← range_loop (env_resource_lease data) (map_to_list (Leases data)) ∅;
  _ ← range_map (env_resource_binding data) (Environments data);
  range_map (env_resource_record data held) (PersistentResources data).

(** ** Resource generations *)

Definition generation_receipt_body (_ : string) (r : PersistentResource) : result unit :=
  if (res_PublicationOrigin r != zeroGeneration) || (res_Producer r != zeroRef) then
    reject negb (ValidResourceGeneration (res_PublicationOrigin r)) ||
           negb (ValidEnvironmentResourceRef (res_Producer r)) ||
           negb (ValidGenerationResource (Ref r)) || negb (res_SourceOnly r) ||
           (res_EnvironmentInstance r != "") || (res_WorkspaceID r != "") ||
           (res_Kind r != gen_Kind (res_PublicationOrigin r)) || (res_RestoreSource r != "") ||
           ((res_CopySource r != zeroRef) && (res_CopySource r != res_Producer r)) with ErrIncompatibleState ;;
    Ok tt
  else Ok tt.

Definition generation_source_body (data : environmentFileState) (kv : string * ResourceGeneration)
    (held : gset string) : result (gset string) :=
  let '(name, source) := kv in
  reject (name != gen_Name source) || negb (ValidResourceGeneration source) with ErrIncompatibleState ;;
  if (gen_Number source =? 0)%Z then Ok held else
  match PersistentResources data !! ref_ID (gen_Current source) with
  | None => Err ErrIncompatibleState
  | Some resource =>
    reject (Ref resource != gen_Current source) || (res_State resource != "ready") ||
           negb (res_SourceOnly resource) || (res_Kind resource != gen_Kind source) ||
           bool_decide (res_ID resource ∈ held) with ErrIncompatibleState ;;
    Ok ({[res_ID resource]} ∪ held)
  end.

Definition validateResourceGenerations (data : environmentFileState) : result unit :=
  _ ← range_map generation_receipt_body (PersistentResources data);
  reject negb (size (ResourceGenerations data) =? 0)%nat &&
         ((Version data <? 15)%Z || (environmentStateVersion <? Version data)%Z) with ErrIncompatibleState ;;
  _ ← range_loop (generation_source_body data) (map_to_list (ResourceGenerations data)) ∅;
  Ok tt.

(** ** Ephemeral runs *)

Definition ephemeral_run_body (data : environmentFileState) (kv : string * EphemeralRun) (seen : gset string)
    : result (gset string) :=
  let '(name, run) := kv in
  reject (name != run_EnvironmentID run) || negb (is_ok (validateEphemeralRun run)) with ErrIncompatibleState ;;
  reject bool_decide (run_InstanceID run ∈ seen) with ErrIncompatibleState ;;
  let seen := {[run_InstanceID run]} ∪ seen in
  reject match Leases data !! name with
         | Some lease => negb (lease_Ephemeral lease) || (lease_InstanceID lease != run_InstanceID run)
         | None => false
         end with ErrIncompatibleState ;;
  reject match Leases data !! name, run_TemporaryWorkspace run with
         | Some lease, Some work => (lease_WorkspaceID lease != ws_ID work) || (lease_SourcePath lease != ws_Path work)
         | _, _ => false
         end with ErrIncompatibleState ;;
  Ok seen.

Definition ephemeral_lease_body (data : environmentFileState) (name : string) (lease : WorkspaceLease) : result unit :=
  if lease_Ephemeral lease then
    match EphemeralRuns data !! name with
    | None => Err ErrIncompatibleState
    | Some run =>
      reject negb (ValidEnvironmentInstanceID (lease_InstanceID lease)) ||
             (run_InstanceID run != lease_InstanceID lease) with ErrIncompatibleState ;;
      Ok tt
    end
  else Ok tt.

Definition validateEphemeralIdentities (data : environmentFileState) : result unit :=
  _ ← range_loop (ephemeral_run_body data) (map_to_list (EphemeralRuns data)) ∅;
  range_map (ephemeral_lease_body data) (Leases data).

(** ** Persistent resources *)

Definition resource_record_body (id : string) (r : PersistentResource) : result unit :=
  reject res_ImportPending r &&
         ((res_EnvironmentInstance r == "") || negb (ValidEnvironmentResourceRef (Ref r)) || res_SourceOnly r ||
          (res_WorkspaceID r != "") || (res_RestoreSource r != "") || (res_CopySource r != zeroRef) ||
          res_CopyCompleted r || (res_State r == "ready")) with ErrIncompatibleState ;;
  reject (res_SourceOnly r && (res_WorkspaceID r != "")) || (id != res_ID r) ||
         negb (ValidPersistentResourceRef (Ref r)) || (res_Kind r == "") || (res_NativeRef r == "") ||
         IsZero (res_CreatedAt r) ||
         ((res_State r != "creating") && (res_State r != "created") && (res_State r != "ready") &&
          (res_State r != "deleting") &&
          (((res_State r != "planned") && (res_State r != "clearing")) || (res_EnvironmentInstance r == "")))
         with ErrIncompatibleState ;;
  Ok tt.

Definition resource_copy_body (data : environmentFileState) (_ : string) (r : PersistentResource) : result unit :=
  reject ((res_State r == "created") || (res_RestoreSource r != "")) &&
         negb (Version data =? 11)%Z && negb (Version data =? 12)%Z &&
         ((Version data <? 13)%Z || (environmentStateVersion <? Version data)%Z) with ErrIncompatibleState ;;
  reject (res_State r == "created") &&
         (((res_RestoreSource r == "") && (res_EnvironmentInstance r == "")) || res_SourceOnly r ||
          (res_CopySource r != zeroRef)) with ErrIncompatibleState ;;
  reject (res_RestoreSource r != "") &&
         match Snapshots data !! res_RestoreSource r with
         | None => true
         | Some saved => (snap_State saved != "ready") || (res_State r == "ready") || res_SourceOnly r ||
                         (res_CopySource r != zeroRef)
         end with ErrIncompatibleState ;;
  reject ((res_CopyOperation r != "") || res_CopyCleanup r) &&
         (negb (validCacheCopyReceipt r) || (res_CopyCleanup r && res_CopyCompleted r)) with ErrIncompatibleState ;;
  if res_CopySource r == zeroRef then
    reject res_CopyCompleted r with ErrIncompatibleState ;;
    Ok tt
  else
    match PersistentResources data !! ref_ID (res_CopySource r) with
    | None => Err ErrIncompatibleState
    | Some source =>
      reject ((res_State r != "creating") &&
              ((res_State r != "deleting") || negb (res_CopyCleanup r)) &&
              ((res_State r != "planned") || (res_EnvironmentInstance r == ""))) ||
             (res_State source != "ready") || (Ref source != res_CopySource r) ||
             (res_Kind source != res_Kind r) || (res_ID source == res_ID r) ||
             (res_Owner source == res_Owner r) || (res_NativeRef source == res_NativeRef r)
             with ErrIncompatibleState ;;
      range_map (fun _ lease =>
        reject leaseHasResource lease (res_ID source) && negb (environmentGenerationCopy data source r lease)
               with ErrIncompatibleState ;;
        Ok tt) (Leases data)
    end.

Definition resource_lease_body (data : environmentFileState) (kv : string * WorkspaceLease)
    (held : gmap string string) : result (gmap string string) :=
  let '(environmentID, lease) := kv in
  let ref := lease_PersistentResource lease in
  if ref == zeroRef then Ok held else
  match PersistentResources data !! ref_ID ref with
  | None => Err ErrIncompatibleState
  | Some resource =>
    reject (Ref resource != ref) || (res_State resource != "ready") || res_SourceOnly resource ||
           (res_EnvironmentInstance resource != "") ||
           ((res_WorkspaceID resource != "") && (res_WorkspaceID resource != lease_WorkspaceID lease) &&
            negb (resourceMaintenanceLease data lease)) with ErrIncompatibleState ;;
    reject has_key held (ref_ID ref) with ErrIncompatibleState ;;
    Ok (<[ref_ID ref := environmentID]> held)
  end.

Definition resource_environment_body (data : environmentFileState) (name : string) (environment : Environment)
    : result unit :=
  if env_PersistentResource environment != zeroRef then
    match Leases data !! name with
    | None => Err ErrIncompatibleState
    | Some lease =>
      reject lease_PersistentResource lease != env_PersistentResource environment with ErrIncompatibleState ;;
      Ok tt
    end
  else Ok tt.

Definition validatePersistentResourceState (data : environmentFileState) : result unit :=
  _ ← range_map resource_record_body (PersistentResources data);
  _ ← range_map (resource_copy_body data) (PersistentResources data);
  _ ← range_loop (resource_lease_body data) (map_to_list (Leases data)) ∅;
  range_map (resource_environment_body data) (Environments data).

(** ** Snapshots *)

(** [^[a-z0-9](?:[a-z0-9-]{0,39}[a-z0-9])?$], [^sha256:[a-f0-9]{64}$],
    [^[a-f0-9]{32}$], [^[a-z0-9][a-z0-9-]{0,47}$], [^restore-[a-f0-9]{32}$] *)
Definition snapshotIDPattern : regexp :=
  Seq (Cls cls_alnum) (Opt (Seq (Rep cls_name 0 39) (Cls cls_alnum))).
Definition snapshotImageRevisionPattern : regexp := Seq (Lit "sha256:") (Exactly cls_hex 64).
Definition snapshotOwnerPattern : regexp := Exactly cls_hex 32.
Definition snapshotWorkspaceID : regexp := Seq (Cls cls_alnum) (Rep cls_name 0 47).
Definition restoreIDPattern : regexp := Seq (Lit "restore-") (Exactly cls_hex 32).

(** The local variables of the component loop of [validateSnapshot]. *)
Record snapshot_scan := mkScan {
  scan_refs : gset string;
  scan_roles : gset string;
  scan_expectedData : gset string;
  scan_root : nat;
  scan_work : nat;
  scan_oci : nat;
  scan_base : nat }.

Definition snapshot_component_body (s : Snapshot) (c : SnapshotComponent) (st : snapshot_scan)
    : result snapshot_scan :=
  reject (16384 <? len (comp_Binding c))%Z || negb (ValidString (comp_Binding c)) ||
         (comp_NativeRef c == "") || (1024 <? len (comp_NativeRef c))%Z ||
         (1024 <? len (comp_Role c))%Z || negb (MatchString snapshotOwnerPattern (comp_Owner c)) ||
         bool_decide (comp_NativeRef c ∈ scan_refs st) || bool_decide (comp_Role c ∈ scan_roles st)
         with ErrInvalidArgument ;;
  reject ContainsControl (comp_NativeRef c +:+ comp_Role c) with ErrInvalidArgument ;;
  let refs := {[comp_NativeRef c]} ∪ scan_refs st in
  let roles := {[comp_Role c]} ∪ scan_roles st in
  let '(mkScan _ _ expectedData root work oci base) := st in
  counted ←
    (if comp_Role c == "image" then Ok (mkScan refs roles expectedData root work oci base)
     else if comp_Role c == "base" then Ok (mkScan refs roles expectedData root work oci (S base))
     else if comp_Role c == "rootfs" then Ok (mkScan refs roles expectedData (S root) work oci base)
     else if comp_Role c == "oci" then Ok (mkScan refs roles expectedData root work (S oci) base)
     else if bool_decide (comp_Role c ∈ expectedData) then
       Ok (mkScan refs roles (expectedData ∖ {[comp_Role c]}) root work oci base)
     else if HasPrefix (comp_Role c) "workspace:" && (10 <? len (comp_Role c))%Z then
       Ok (mkScan refs roles expectedData root (S work) oci base)
     else Err ErrInvalidArgument);
  reject (comp_State c != "planned") && (comp_State c != "created") && (comp_State c != "verified") &&
         (comp_State c != "absent") with ErrInvalidArgument ;;
  reject (snap_State s == "ready") && (comp_State c != "verified") with ErrInvalidArgument ;;
  reject (comp_State c == "absent") && (snap_State s != "deleting") with ErrInvalidArgument ;;
  Ok counted.

Definition validateSnapshot (s : Snapshot) : result unit :=
  let environment := src_Environment (snap_Source s) in
  reject negb (ValidEnvironmentAttachments (env_Attachments environment)) with ErrInvalidArgument ;;
  reject negb (MatchString snapshotIDPattern (snap_ID s)) ||
         negb (ValidEnvironmentInstanceID (src_InstanceID (snap_Source s))) ||
         (env_Name environment == "") || (env_RuntimeRef environment == "") ||
         (ws_ID (env_Workspace environment) == "") ||
         negb (HasPrefix (ws_Path (env_Workspace environment)) "managed:") ||
         (List.length (snap_Components s) <? 2)%nat ||
         (256 + MaxEnvironmentAttachments <? List.length (snap_Components s))%nat with ErrInvalidArgument ;;
  reject (snap_State s != "capturing") && (snap_State s != "ready") && (snap_State s != "recovery-required") &&
         (snap_State s != "deleting") with ErrInvalidArgument ;;
  let expectedData := list_to_set ((fun a => "data:" +:+ att_Key a) <$> env_Attachments environment) in
  scan ← range_loop (snapshot_component_body s) (snap_Components s) (mkScan ∅ ∅ expectedData 0 0 0 0);
  reject negb (size (scan_expectedData scan) =? 0)%nat || negb (scan_root scan =? 1)%nat ||
         (scan_work scan =? 0)%nat || (1 <? scan_base scan)%nat ||
         (negb (scan_base scan =? 0)%nat &&
          match env_Base environment with
          | None => true
          | Some b => (base_Name b == "") || (base_Revision b == "")
          end) with ErrInvalidArgument ;;
  reject match snap_Image s with
         | Some image => negb (bool_decide ("image" ∈ scan_roles scan)) || (base_Name image != snap_ID s) ||
                         negb (MatchString snapshotImageRevisionPattern (base_Revision image))
         | None => false
         end with ErrInvalidArgument ;;
  reject bool_decide ("image" ∈ scan_roles scan) && (snap_State s == "ready") &&
         match snap_Image s with None => true | Some _ => false end with ErrInvalidArgument ;;
  let hasOCI := env_PersistentResource environment != zeroRef in
  reject (hasOCI && (negb (scan_oci scan =? 1)%nat ||
                     negb (ValidPersistentResourceRef (env_PersistentResource environment)))) ||
         (negb hasOCI && negb (scan_oci scan =? 0)%nat) with ErrInvalidArgument ;;
  Ok tt.

Definition validSnapshotWorkspaceCopy (id : string) (copy : snapshotWorkspaceCopy) : bool :=
  MatchString snapshotWorkspaceID id && MatchString snapshotIDPattern (copy_SnapshotID copy) &&
  ValidPersistentResourceRef (mkRef "oci:check" (copy_Owner copy)).

(** ** Legacy restores *)

Definition restore_saved_body (c : SnapshotComponent) (st : gset string * gset string)
    : result (gset string * gset string) :=
  reject comp_Binding c == "" with ErrUnsupported ;;
  Ok ({[comp_NativeRef c]} ∪ st.1, {[comp_Owner c]} ∪ st.2).

Definition restore_component_body (roles refs : gset string) (c : SnapshotComponent) (owners : gset string)
    : result (gset string) :=
  reject negb (bool_decide (comp_Role c ∈ roles)) || (comp_Binding c == "") ||
         bool_decide (comp_NativeRef c ∈ refs) || bool_decide (comp_Owner c ∈ owners) with ErrInvalidArgument ;;
  Ok ({[comp_Owner c]} ∪ owners).

Definition validateRestore (op : SnapshotRestore) : result unit :=
  let saved := rst_Saved op in
  let before := rst_Before op in
  reject negb (MatchString restoreIDPattern (rst_ID op)) || negb (is_ok (validateSnapshot saved)) ||
         (snap_State saved != "ready") with ErrInvalidArgument ;;
  reject negb (ValidEnvironmentInstanceID (src_InstanceID (rst_Current op))) ||
         (env_Name (src_Environment (rst_Current op)) == "") ||
         (ws_ID (env_Workspace (src_Environment (rst_Current op))) == "") with ErrInvalidArgument ;;
  reject (snap_ID before == "") && (before != zeroSnapshot) with ErrInvalidArgument ;;
  reject (snap_ID before != "") &&
         (negb (is_ok (validateSnapshot before)) || (snap_State before != "ready") ||
          (snap_ID before == snap_ID saved) || (snap_Source before != rst_Current op)) with ErrInvalidArgument ;;
  reject (rst_State op != "preparing") && (rst_State op != "prepared") && (rst_State op != "recovery-required") &&
         (rst_State op != "deleting") with ErrInvalidArgument ;;
  let shapeState := if rst_State op == "deleting" then "deleting"
                    else if rst_State op == "prepared" then "ready" else "capturing" in
  let shape := mkSnapshot None 0 ("snap-" +:+ TrimPrefix (rst_ID op) "restore-") (snap_Source saved)
                 shapeState (rst_Components op) in
  reject negb (is_ok (validateSnapshot shape)) with ErrInvalidArgument ;;
  st ← range_loop restore_saved_body (snap_Components saved ++ snap_Components before) (∅, ∅);
  let roles : gset string :=
    list_to_set (comp_Role <$> List.filter (fun c => (comp_Role c != "base") || (snap_ID before != ""))
                   (snap_Components saved)) in
  reject negb (List.length (rst_Components op) =? size roles)%nat with ErrInvalidArgument ;;
  _ ← range_loop (restore_component_body roles st.1) (rst_Components op) st.2;
  Ok tt.

(** ** Base assets *)

(** [^[a-f0-9]{32}$] *)
Definition baseAssetOwnerPattern : regexp := Exactly cls_hex 32.

Definition validateBaseAsset (a : BaseAsset) : result unit :=
  reject negb (HasPrefix (asset_ID a) "base-") ||
         negb (MatchString baseAssetOwnerPattern (TrimPrefix (asset_ID a) "base-")) ||
         negb (MatchString baseAssetOwnerPattern (asset_Owner a)) with ErrInvalidArgument ;;
  _ ← range_check (fun v =>
        reject (v == "") || (1024 <? len v)%Z || negb (ValidString v) || (TrimSpace v != v)
               with ErrInvalidArgument ;;
        reject ContainsControl v with ErrInvalidArgument ;;
        Ok tt)
      [base_Name (asset_Base a); base_Revision (asset_Base a); asset_Provider a; asset_Scope a; asset_NativeRef a];
  reject (asset_Binding a == "") || (16384 <? len (asset_Binding a))%Z ||
         negb (ValidString (asset_Binding a)) with ErrInvalidArgument ;;
  reject (asset_State a != "planned") && (asset_State a != "created") && (asset_State a != "ready")
         with ErrInvalidArgument ;;
  Ok tt.

(** Two assets that may not coexist: same provider, and the same base in the
    same scope or the same native object. *)
Definition assets_conflict (a b : BaseAsset) : bool :=
  (asset_Provider a == asset_Provider b) &&
  (((asset_Scope a == asset_Scope b) && (asset_Base a == asset_Base b)) ||
   (asset_NativeRef a == asset_NativeRef b)).
