(* ===== verification/Catalog.v ===== *)
(** * Catalog file

    Reading, migrating and committing the catalog
    ([environment_jsonstore.go], [environment_migration.go]) and the two
    transaction forms every operation of the store uses
    ([catalog_transaction.go], [resourceTransaction]).

    The catalog file is modelled by the value [encoding/json] decodes it to
    (maps that are absent from the file are empty), so a commit stores a state
    and a read returns it.  Every fallible system call of a commit is a step
    that may fail or be followed by a crash. *)

From S2P Require Import Prelude GoText Core CoreChecks CatalogState CatalogChecks.
From Stdlib Require Import String.
Open Scope string_scope.

(** ** Migration and validation of a decoded catalog *)

Definition version_in (l : list Z) (v : Z) : bool := existsb (fun x => (v =? x)%Z) l.

Definition workspace_copy_body (data : environmentFileState) (id : string) (copy : snapshotWorkspaceCopy)
    : result unit :=
  reject negb (Version data =? environmentStateVersion)%Z || negb (validSnapshotWorkspaceCopy id copy) ||
         match Snapshots data !! copy_SnapshotID copy with
         | None => true
         | Some saved => snap_State saved != "ready"
         end with ErrIncompatibleState ;;
  Ok tt.

Definition base_asset_body (data : environmentFileState) (id : string) (a : BaseAsset) : result unit :=
  reject negb (version_in [7; 8; 10; 11; 12; environmentStateVersion]%Z (Version data)) ||
         (id != asset_ID a) || negb (is_ok (validateBaseAsset a)) with ErrIncompatibleState ;;
  reject map_any (fun otherID b => (otherID != id) && assets_conflict a b) (BaseAssets data)
         with ErrIncompatibleState ;;
  Ok tt.

Definition snapshot_body (data : environmentFileState) (id : string) (snapshot : Snapshot) : result unit :=
  reject (Version data =? 5)%Z &&
         existsb (fun component => (comp_Binding component != "") || (comp_Role component == "base"))
           (snap_Components snapshot) with ErrIncompatibleState ;;
  reject negb (version_in [5; 6; 7; 8; 10; 11; 12; environmentStateVersion]%Z (Version data)) ||
         (id != snap_ID snapshot) || negb (is_ok (validateSnapshot snapshot)) with ErrIncompatibleState ;;
  Ok tt.

(** Schema 8 restores carry the current target in [Before] only. *)
Definition migrate_restores (data : environmentFileState) : result environmentFileState :=
  if (Version data =? 8)%Z then
    _ ← range_map (fun _ op =>
          reject (env_Name (src_Environment (rst_Current op)) != "") || (snap_ID (rst_Before op) == "")
                 with ErrIncompatibleState ;; Ok tt) (Restores data);
    Ok (with_Restores ((fun op => rst_with_Current (snap_Source (rst_Before op)) op) <$> Restores data) data)
  else Ok data.

Definition components_overlap (l k : list SnapshotComponent) : bool :=
  existsb (fun a => existsb (fun b => (comp_NativeRef a == comp_NativeRef b) || (comp_Owner a == comp_Owner b)) k) l.

Definition restore_body (data : environmentFileState) (id : string) (op : SnapshotRestore) : result unit :=
  reject negb (version_in [8; 10; 11; 12; environmentStateVersion]%Z (Version data)) || (id != rst_ID op) ||
         negb (is_ok (validateRestore op)) ||
         (read_or zeroSnapshot (Snapshots data) (snap_ID (rst_Saved op)) != rst_Saved op) ||
         ((snap_ID (rst_Before op) != "") &&
          (read_or zeroSnapshot (Snapshots data) (snap_ID (rst_Before op)) != rst_Before op))
         with ErrIncompatibleState ;;
  let before := rst_Current op in
  let name := env_Name (src_Environment before) in
  let lease := read_or zeroLease (Leases data) name in
  reject (read_or zeroEnvironment (Environments data) name != src_Environment before) ||
         (lease_InstanceID lease != src_InstanceID before) || (lease_State lease != WorkspaceLeaseActive) ||
         negb (is_ok (validateEnvironmentCreateCommit (src_Environment before) lease)) with ErrIncompatibleState ;;
  _ ← range_check (fun c =>
        reject map_any (fun _ env => comp_NativeRef c == env_RuntimeRef env) (Environments data)
               with ErrIncompatibleState ;;
        reject map_any (fun _ snap => components_overlap [c] (snap_Components snap)) (Snapshots data)
               with ErrIncompatibleState ;;
        reject map_any (fun _ a => (comp_NativeRef c == asset_NativeRef a) || (comp_Owner c == asset_Owner a))
                 (BaseAssets data) with ErrIncompatibleState ;;
        Ok tt) (rst_Components op);
  range_map (fun otherID other =>
    if otherID == id then Ok tt else
    reject name == env_Name (src_Environment (rst_Current other)) with ErrIncompatibleState ;;
    reject components_overlap (rst_Components op) (rst_Components other) with ErrIncompatibleState ;;
    Ok tt) (Restores data).

Definition normal_environment (name : string) (environment : Environment) : Environment :=
  if env_Name environment == "" then env_with_Name name environment else environment.

(** The lease a legacy Environment without one receives. *)
Definition synthesized_lease (name : string) (environment : Environment) : WorkspaceLease :=
  mkLease [] false false "" "" (env_PersistentResource environment) (ws_ID (env_Workspace environment))
    (ws_Path (env_Workspace environment)) name (env_AccessMode environment) name (env_RuntimeRef environment)
    WorkspaceLeaseActive (env_CreatedAt environment).

(** Each iteration of the Go loop writes only its own key of both maps. *)
Definition normalize_environments (data : environmentFileState) : environmentFileState :=
  let envs := map_imap (fun name environment => Some (normal_environment name environment)) (Environments data) in
  let legacy := map_imap (fun name environment =>
                  if environmentSupportsLease environment then Some (synthesized_lease name environment)
                  else None) envs in
  with_Leases (Leases data ∪ legacy) (with_Environments envs data).

Definition lease_source_body (data : environmentFileState) (_ : string) (lease : WorkspaceLease) : result unit :=
  if lease_SnapshotSource lease != "" then
    reject negb (version_in [12; environmentStateVersion]%Z (Version data)) ||
           negb (MatchString snapshotIDPattern (lease_SnapshotSource lease)) ||
           match Snapshots data !! lease_SnapshotSource lease with
           | None => true
           | Some saved => (snap_State saved != "ready") ||
                           negb (ValidEnvironmentInstanceID (lease_InstanceID lease)) ||
                           (lease_InstanceID lease == src_InstanceID (snap_Source saved)) ||
                           ((lease_State lease != WorkspaceLeaseAcquiring) &&
                            (lease_State lease != WorkspaceLeaseCleanupRequired))
           end with ErrIncompatibleState ;;
    Ok tt
  else Ok tt.

Definition normal_lease (data : environmentFileState) (environmentID : string) (lease : WorkspaceLease)
    : WorkspaceLease :=
  let lease := if lease_EnvironmentID lease == "" then lease_with_EnvironmentID environmentID lease else lease in
  let lease := if lease_State lease == "" then lease_with_State WorkspaceLeaseActive lease else lease in
  if lease_RuntimeRef lease == "" then
    match Environments data !! environmentID with
    | Some environment => lease_with_RuntimeRef (env_RuntimeRef environment) lease
    | None => lease
    end
  else lease.

Definition normal_run (environmentID : string) (run : EphemeralRun) : EphemeralRun :=
  let run := if run_EnvironmentID run == "" then run_with_EnvironmentID environmentID run else run in
  if run_State run == "" then run_with_State EphemeralRunCleanupRequired run else run.

Definition normalizeEnvironmentState (data : environmentFileState) : result environmentFileState :=
  _ ← validateOwnedWorkspaceCleanup data;
  let data := if (Version data =? 16)%Z then with_Version environmentStateVersion data else data in
  reject negb (supportedEnvironmentStateVersion (Version data)) with ErrIncompatibleState ;;
  _ ← validateEnvironmentResources data;
  _ ← range_map (workspace_copy_body data) (WorkspaceCopies data);
  _ ← range_map (base_asset_body data) (BaseAssets data);
  _ ← range_map (snapshot_body data) (Snapshots data);
  data ← migrate_restores data;
  _ ← range_map (restore_body data) (Restores data);
  let data := normalize_environments data in
  _ ← range_map (lease_source_body data) (Leases data);
  let data := with_Leases (map_imap (fun id lease => Some (normal_lease data id lease)) (Leases data)) data in
  let data := with_EphemeralRuns (map_imap (fun id run => Some (normal_run id run)) (EphemeralRuns data)) data in
  _ ← validateEphemeralIdentities data;
  _ ← validatePersistentResourceState data;
  _ ← validateResourceGenerations data;
  Ok (with_Version environmentStateVersion data).

Definition validateLeaseCompatibleState (data : environmentFileState) : result unit :=
  range_map (fun _ environment =>
    reject negb (environmentSupportsLease environment) with ErrIncompatibleState ;; Ok tt) (Environments data).

(** ** The file *)

(** What [os.ReadFile] and [json.Unmarshal] make of the catalog path. *)
Inductive file :=
| NoFile
| Unreadable
| Undecodable
| Contents (d : environmentFileState).

(** The catalog path, whether its content is on stable storage, what the
    directory may still name on stable storage because a rename was not synced,
    and the temporary file of the commit in progress. *)
Record disk := mkDisk {
  committed : file;
  committed_synced : bool;
  stale : list (file * bool);
  temporary : option (file * bool) }.

Definition emptyDisk : disk := mkDisk NoFile true [] None.

Definition readEnvironments (k : disk) : result environmentFileState :=
  match committed k with
  | NoFile => Ok newEnvironmentFileState
  | Unreadable => Err ErrIO
  | Undecodable => Err ErrDecode
  | Contents data => normalizeEnvironmentState data
  end.

(** The system calls of [writeEnvironments], in order. *)
Inductive write_step :=
| MkdirAll
| MarshalIndent
| CreateTemp
| Chmod
| Write
| Sync
| Close
| Rename
| SyncDir.

#[export] Instance write_step_eq_dec : EqDecision write_step.
Proof. solve_decision. Defined.

(** The steps whose failure makes the commit fail. *)
Definition write_steps : list write_step :=
  [MkdirAll; MarshalIndent; CreateTemp; Chmod; Write; Sync; Close; Rename].

(** The effect of a system call that succeeds.  A rename is visible at once
    and durable when the directory is synced. *)
Definition write_exec (data : environmentFileState) (s : write_step) (k : disk) : disk :=
  match s with
  | MkdirAll | MarshalIndent | Chmod | Close => k
  | CreateTemp => mkDisk (committed k) (committed_synced k) (stale k) (Some (Undecodable, false))
  | Write => mkDisk (committed k) (committed_synced k) (stale k) (Some (Contents data, false))
  | Sync => mkDisk (committed k) (committed_synced k) (stale k) ((fun t => (t.1, true)) <$> temporary k)
  | Rename => match temporary k with
              | Some (content, synced) =>
                  mkDisk content synced ((committed k, committed_synced k) :: stale k) None
              | None => k
              end
  | SyncDir => mkDisk (committed k) (committed_synced k) [] (temporary k)
  end.

(** [os.Remove] of the temporary file on every error path. *)
Definition remove_temporary (k : disk) : disk := mkDisk (committed k) (committed_synced k) (stale k) None.

Fixpoint write_loop (fault : option write_step) (data : environmentFileState) (steps : list write_step) (k : disk)
    : disk * result unit :=
  match steps with
  | [] => (k, Ok tt)
  | s :: steps =>
    if bool_decide (fault = Some s) then (remove_temporary k, Err ErrIO)
    else write_loop fault data steps (write_exec data s k)
  end.

(** The directory sync, whose failure is ignored. *)
Definition sync_directory (fault : option write_step) (data : environmentFileState) (k : disk) : disk :=
  if bool_decide (fault = Some SyncDir) then k else write_exec data SyncDir k.

(** The four validators that guard a commit. *)
Definition validateCommit (data : environmentFileState) : result unit :=
  _ ← validateOwnedWorkspaceCleanup data;
  _ ← validateEnvironmentResources data;
  _ ← validateResourceGenerations data;
  validateEphemeralIdentities data.

Definition writeEnvironments (fault : option write_step) (data : environmentFileState) (k : disk)
    : disk * result unit :=
  match validateCommit data with
  | Err e => (k, Err e)
  | Ok _ =>
    let data := with_Version environmentStateVersion data in
    match write_loop fault data write_steps k with
    | (k', Ok _) => (sync_directory fault data k', Ok tt)
    | (k', Err e) => (k', Err e)
    end
  end.

(** Power loss: the temporary file is gone, content that was not synced is
    lost, and the directory names the current file or, when [i] selects one,
    a file whose replacement was not synced. *)
Definition crash (i : nat) (k : disk) : disk :=
  let '(content, synced) := default (committed k, committed_synced k) (stale k !! i) in
  mkDisk (if synced then content else Undecodable) true [] None.

(** ** Transactions *)

(** What the surroundings of one call do: cancel its context before the lock
    or before the commit, refuse the lock, or fail one system call of the
    commit. *)
Record faults := mkFaults {
  ctx_before : bool;
  lock_fails : bool;
  ctx_after : bool;
  write_fault : option write_step }.

Definition noFaults : faults := mkFaults false false false None.

(** A closure run under the catalog lock: the new state, whether it is dirty,
    and the value the operation returns. *)
Definition change (A : Type) : Type := environmentFileState -> result (environmentFileState * bool * A).

Definition operation (A : Type) : Type := faults -> disk -> disk * result A.

Definition refuse {A} (e : error) : operation A := fun _ k => (k, Err e).

Definition commit {A} (flt : faults) (data : environmentFileState) (a : A) (k : disk) : disk * result A :=
  match writeEnvironments (write_fault flt) data k with
  | (k', Ok _) => (k', Ok a)
  | (k', Err e) => (k', Err e)
  end.

(** [catalogTransaction]. *)
Definition catalogTransaction {A} (fn : change A) : operation A := fun flt k =>
  if ctx_before flt then (k, Err ErrContext) else
  if lock_fails flt then (k, Err ErrIO) else
  match readEnvironments k with
  | Err e => (k, Err e)
  | Ok data =>
    match fn data with
    | Err e => (k, Err e)
    | Ok (data', dirty, a) =>
      if negb dirty then (k, Ok a) else
      if ctx_after flt then (k, Err ErrContext) else
      commit flt data' a k
    end
  end.

(** The lock, read, change and commit sequence that [environment_lifecycle.go]
    and [ephemeral_run.go] write out, with no context check. *)
Definition lockedTransaction {A} (fn : change A) : operation A := fun flt k =>
  if lock_fails flt then (k, Err ErrIO) else
  match readEnvironments k with
  | Err e => (k, Err e)
  | Ok data =>
    match fn data with
    | Err e => (k, Err e)
    | Ok (data', dirty, a) => if negb dirty then (k, Ok a) else commit flt data' a k
    end
  end.

(** [resourceTransaction]: every successful closure commits. *)
Definition resourceTransaction {A} (fn : environmentFileState -> result (environmentFileState * A)) : operation A :=
  lockedTransaction (fun data => r ← fn data; Ok (r.1, true, r.2)).
