(* ===== verification/Resources.v ===== *)
(** * Persistent and Environment resources

    The operations of [persistent_resource.go], [persistent_restore.go],
    [environment_resource.go], [environment_resource_clear.go],
    [environment_generation.go] and [cache_copy_cleanup.go].  Each operation is
    its argument check followed by a closure ([..._change]) run in a catalog
    transaction. *)

From S2P Require Import Prelude GoText Core CoreChecks CatalogState CatalogChecks Catalog.
From Stdlib Require Import String.
Open Scope string_scope.

(** ** Reservations *)

Definition reservePersistentResourceCopy (data : environmentFileState) (source target : PersistentResource)
    : result environmentFileState :=
  reject negb (ValidPersistentResourceRef (Ref target)) || (res_ID target == res_ID source) ||
         (res_Owner target == res_Owner source) || (res_Kind target != res_Kind source) ||
         (res_NativeRef target == "") || (res_NativeRef target == res_NativeRef source) ||
         ((res_State target != "creating") &&
          ((res_State target != "planned") || (res_EnvironmentInstance target == ""))) ||
         IsZero (res_CreatedAt target) || (res_CopySource target != Ref source) || res_CopyCompleted target ||
         res_CopyCleanup target || (res_CopyOperation target != "") with ErrInvalidArgument ;;
  reject has_key (PersistentResources data) (res_ID target) with ErrAlreadyExists ;;
  reject match PersistentResources data !! res_ID source with
         | None => true
         | Some current => (current != source) || (res_State current != "ready")
         end with ErrIncompatibleState ;;
  reject persistentCopyReserved data (res_ID source) with ErrStorageBusy ;;
  reject map_any (fun _ lease => leaseHasResource lease (res_ID source) &&
                                 negb (environmentGenerationCopy data source target lease)) (Leases data)
         with ErrStorageBusy ;;
  reject map_any (fun _ env =>
           (ref_ID (env_PersistentResource env) == res_ID source) ||
           existsb (fun a => (ref_ID (att_Resource a) == res_ID source) &&
                             negb (environmentGenerationCopy data source target
                                     (read_or zeroLease (Leases data) (env_Name env)))) (env_Attachments env))
         (Environments data) with ErrStorageBusy ;;
  Ok (with_PersistentResources (<[res_ID target := target]> (PersistentResources data)) data).

Definition reserve_plan (lease : WorkspaceLease) (p : EnvironmentResourcePlan * EnvironmentAttachment)
    (data : environmentFileState) : result environmentFileState :=
  let a := plan_Attachment p.1 in
  let r := plan_Resource p.1 in
  reject (a != p.2) || negb (ValidEnvironmentResourceRef (Ref r)) || (Ref r != att_Resource a) ||
         (res_EnvironmentInstance r != lease_InstanceID lease) || (res_State r != "planned") || res_SourceOnly r ||
         (res_WorkspaceID r != "") || res_CopyCompleted r || (res_Kind r != gen_Kind (att_Origin a)) ||
         (res_NativeRef r == "") || IsZero (res_CreatedAt r) with ErrInvalidArgument ;;
  _ ← (if res_RestoreSource r != "" then
         reject negb (matchesSavedEnvironmentResource data lease a r) with ErrCapabilityStale ;;
         Ok tt
       else match ResourceGenerations data !! gen_Name (att_Origin a) with
            | None => Err ErrSourceGenerationStale
            | Some current => reject current != att_Origin a with ErrSourceGenerationStale ;; Ok tt
            end);
  reject (res_RestoreSource r == "") && (res_CopySource r != gen_Current (att_Origin a)) with ErrInvalidArgument ;;
  reject has_key (PersistentResources data) (res_ID r) with ErrAlreadyExists ;;
  reject map_any (fun _ other => (res_NativeRef other == res_NativeRef r) || (res_Owner other == res_Owner r))
           (PersistentResources data) with ErrIncompatibleState ;;
  if res_CopySource r != zeroRef then
    match PersistentResources data !! ref_ID (res_CopySource r) with
    | None => Err ErrIncompatibleState
    | Some source =>
      reject (Ref source != res_CopySource r) || negb (res_SourceOnly source) with ErrIncompatibleState ;;
      reservePersistentResourceCopy data source r
    end
  else Ok (with_PersistentResources (<[res_ID r := r]> (PersistentResources data)) data).

Definition reserveEnvironmentResources (data : environmentFileState) (lease : WorkspaceLease)
    (plans : list EnvironmentResourcePlan) : result environmentFileState :=
  reject negb (List.length plans =? List.length (lease_Attachments lease))%nat with ErrInvalidArgument ;;
  range_loop (reserve_plan lease) (zip plans (lease_Attachments lease)) data.

Definition put_resource (r : PersistentResource) (d : environmentFileState) : environmentFileState :=
  with_PersistentResources (<[res_ID r := r]> (PersistentResources d)) d.

(** [existing, ok := d.PersistentResources[r.ID]; !ok || existing != r]. *)
Definition resource_differs (d : environmentFileState) (r : PersistentResource) : bool :=
  PersistentResources d !! res_ID r != Some r.

(** ** Retained resources *)

Definition BeginPersistentResourceCreate_change (r : PersistentResource) (d : environmentFileState)
    : result (environmentFileState * unit) :=
  reject has_key (PersistentResources d) (res_ID r) with ErrAlreadyExists ;;
  Ok (put_resource r d, tt).

Definition BeginPersistentResourceCreate (r : PersistentResource) : operation unit :=
  if (res_PublicationOrigin r != zeroGeneration) || (res_Producer r != zeroRef) ||
     (res_EnvironmentInstance r != "") || ValidEnvironmentResourceRef (Ref r) ||
     negb (ValidPersistentResourceRef (Ref r)) || (res_Kind r == "") || (res_NativeRef r == "") ||
     (res_State r != "creating") || IsZero (res_CreatedAt r) || (res_RestoreSource r != "") ||
     ((res_CopySource r != zeroRef) || res_CopyCompleted r)
  then refuse ErrInvalidArgument
  else resourceTransaction (BeginPersistentResourceCreate_change r).

Definition MarkPersistentResourceCopyCompleted_change (r : PersistentResource) (d : environmentFileState)
    : result (environmentFileState * unit) :=
  reject resource_differs d r with ErrIncompatibleState ;;
  Ok (put_resource (res_with_CopyCompleted true r) d, tt).

Definition MarkPersistentResourceCopyCompleted (r : PersistentResource) : operation unit :=
  if (res_State r != "creating") || (res_CopySource r == zeroRef) || res_CopyCompleted r || res_CopyCleanup r
  then refuse ErrInvalidArgument
  else resourceTransaction (MarkPersistentResourceCopyCompleted_change r).

(** The record a creation publishes: ready, with every in-flight receipt cleared. *)
Definition published_resource (r : PersistentResource) : PersistentResource :=
  res_with_CopyOperation "" (res_with_CopyCompleted false (res_with_CopySource zeroRef
    (res_with_RestoreSource "" (res_with_ImportPending false (res_with_State "ready" r))))).

Definition CommitPersistentResourceCreate_change (r : PersistentResource) (d : environmentFileState)
    : result (environmentFileState * unit) :=
  reject resource_differs d r || res_CopyCleanup r || ((res_State r != "creating") && (res_State r != "created"))
         with ErrIncompatibleState ;;
  reject (res_EnvironmentInstance r != "") && (res_CopySource r == zeroRef) && (res_State r != "created")
         with ErrRecoveryRequired ;;
  reject (res_RestoreSource r != "") && (res_State r != "created") with ErrRecoveryRequired ;;
  reject (res_CopySource r != zeroRef) && negb (res_CopyCompleted r) with ErrRecoveryRequired ;;
  Ok (put_resource (published_resource r) d, tt).

Definition CommitPersistentResourceCreate (r : PersistentResource) : operation unit :=
  resourceTransaction (CommitPersistentResourceCreate_change r).

Definition BeginPersistentResourceCopy (source target : PersistentResource) : operation unit :=
  if (res_PublicationOrigin target != zeroGeneration) || (res_Producer target != zeroRef) ||
     (res_EnvironmentInstance source != "") || (res_EnvironmentInstance target != "") ||
     ValidEnvironmentResourceRef (Ref target) || (res_State target != "creating")
  then refuse ErrInvalidArgument
  else resourceTransaction (fun d => d' ← reservePersistentResourceCopy d source target; Ok (d', tt)).

(** ** Deletion *)

Record persistentResourceDeletion := mkDeletion {
  del_Workspace : string;
  del_Identity : PersistentResourceRef;
  del_StoppedCopy : PersistentResource;
  del_Reviewed : bool;
  del_EnvironmentInstance : string }.

Definition noDeletion : persistentResourceDeletion := mkDeletion "" zeroRef zeroResource false "".

Definition beginPersistentResourceDelete_change (id : string) (request : persistentResourceDeletion)
    (d : environmentFileState) : result (environmentFileState * PersistentResource) :=
  let expected := del_Workspace request in
  let owner := ref_Owner (del_Identity request) in
  let reviewed := del_Reviewed request in
  let instance := del_EnvironmentInstance request in
  match PersistentResources d !! id with
  | None => Err ErrNotFound
  | Some r =>
    reject (del_Identity request != zeroRef) && (Ref r != del_Identity request) with ErrCapabilityStale ;;
    _ ← (if (res_EnvironmentInstance r != "") || (instance != "") then
           reject (res_EnvironmentInstance r != instance) ||
                  match environmentResourceLease d r with
                  | None => true
                  | Some lease => negb (lease_RuntimeAbsent lease) ||
                                  (lease_State lease != WorkspaceLeaseCleanupRequired)
                  end with ErrStorageBusy ;;
           reject res_State r == "creating" with ErrRecoveryRequired ;;
           Ok tt
         else Ok tt);
    reject generationReferences d id with ErrStorageBusy ;;
    reject ValidGenerationResource (Ref r) && negb (res_SourceOnly r) with ErrIncompatibleState ;;
    reject reviewed && (res_SourceOnly r || ((res_State r != "ready") && (res_State r != "deleting")))
           with ErrRecoveryRequired ;;
    reject (res_RestoreSource r != "") && (res_State r != "deleting") && (owner == "") with ErrRecoveryRequired ;;
    reject (expected != "") && ((res_WorkspaceID r != expected) || res_SourceOnly r) with ErrIncompatibleState ;;
    let r := if (res_State r == "planned") && (instance != "") then res_with_CopySource zeroRef r else r in
    let stoppedCopy := (del_StoppedCopy request == r) && res_CopyCleanup r && validCacheCopyReceipt r in
    reject ((res_CopySource r != zeroRef) || (res_SourceOnly r && (res_State r == "creating"))) &&
           negb stoppedCopy with ErrRecoveryRequired ;;
    reject persistentCopyReserved d id with ErrStorageBusy ;;
    reject map_any (fun _ e => ref_ID (env_PersistentResource e) == id) (Environments d) with ErrStorageBusy ;;
    reject map_any (fun _ l => leaseHasResource l id &&
                               ((instance == "") || (lease_InstanceID l != instance) ||
                                negb (lease_RuntimeAbsent l))) (Leases d) with ErrStorageBusy ;;
    reject (res_State r != "ready") && (res_State r != "creating") && (res_State r != "created") &&
           (res_State r != "deleting") && ((res_State r != "planned") || (instance == "")) with ErrRecoveryRequired ;;
    let r := res_with_State "deleting" r in
    Ok (with_PersistentResources (<[id := r]> (PersistentResources d)) d, r)
  end.

Definition beginPersistentResourceDelete (id : string) (request : persistentResourceDeletion)
    : operation PersistentResource :=
  resourceTransaction (beginPersistentResourceDelete_change id request).

Definition BeginPersistentResourceDeleteReviewed (ref : PersistentResourceRef) : operation PersistentResource :=
  if negb (ValidPersistentResourceRef ref) then refuse ErrInvalidArgument
  else beginPersistentResourceDelete (ref_ID ref) (mkDeletion "" ref zeroResource true "").

Definition BeginPersistentResourceDelete (id : string) : operation PersistentResource :=
  beginPersistentResourceDelete id noDeletion.

Definition BeginWorkspaceResourceDelete (id work : string) : operation PersistentResource :=
  if work == "" then refuse ErrInvalidArgument
  else beginPersistentResourceDelete id (mkDeletion work zeroRef zeroResource false "").

Definition BeginPersistentResourceDeleteOwned (r : PersistentResource) : operation PersistentResource :=
  if negb (ValidPersistentResourceRef (Ref r)) then refuse ErrInvalidArgument
  else beginPersistentResourceDelete (res_ID r) (mkDeletion "" (Ref r) zeroResource false "").

Definition BeginEnvironmentResourceDelete (instance : string) (ref : PersistentResourceRef)
    : operation PersistentResource :=
  if negb (ValidEnvironmentInstanceID instance) || negb (ValidEnvironmentResourceRef ref)
  then refuse ErrInvalidArgument
  else beginPersistentResourceDelete (ref_ID ref) (mkDeletion "" ref zeroResource false instance).

Definition BeginGenerationResourceDelete (ref : PersistentResourceRef) : operation PersistentResource :=
  if negb (ValidGenerationResource ref) then refuse ErrInvalidArgument
  else beginPersistentResourceDelete (ref_ID ref) (mkDeletion "" ref zeroResource false "").

Definition BeginStoppedCacheCopyDelete (r : PersistentResource) : operation PersistentResource :=
  if negb (validCacheCopyReceipt r) || negb (res_CopyCleanup r) || res_CopyCompleted r
  then refuse ErrRecoveryRequired
  else beginPersistentResourceDelete (res_ID r) (mkDeletion "" (Ref r) r false "").

Definition FinalizePersistentResourceDelete_change (r : PersistentResource) (d : environmentFileState)
    : result (environmentFileState * unit) :=
  reject generationReferences d (res_ID r) with ErrStorageBusy ;;
  reject resource_differs d r || (res_State r != "deleting") with ErrIncompatibleState ;;
  reject map_any (fun _ l => leaseHasResource l (res_ID r) &&
                             ((res_EnvironmentInstance r == "") ||
                              (lease_InstanceID l != res_EnvironmentInstance r) ||
                              negb (lease_RuntimeAbsent l))) (Leases d) with ErrStorageBusy ;;
  Ok (with_PersistentResources (delete (res_ID r) (PersistentResources d)) d, tt).

Definition FinalizePersistentResourceDelete (r : PersistentResource) : operation unit :=
  resourceTransaction (FinalizePersistentResourceDelete_change r).

(** ** Restores from snapshots *)

Definition BeginSnapshotResourceRestore_change (saved : Snapshot) (r : PersistentResource)
    (d : environmentFileState) : result (environmentFileState * unit) :=
  reject Snapshots d !! snap_ID saved != Some saved with ErrCapabilityStale ;;
  reject has_key (PersistentResources d) (res_ID r) with ErrAlreadyExists ;;
  Ok (put_resource r d, tt).

Definition BeginSnapshotResourceRestore (saved : Snapshot) (r : PersistentResource) : operation unit :=
  if negb (ValidPersistentResourceRef (Ref r)) || (res_Kind r == "") || (res_NativeRef r == "") ||
     (res_State r != "creating") || IsZero (res_CreatedAt r) || res_SourceOnly r || res_CopyCompleted r ||
     (res_CopySource r != zeroRef) || (res_RestoreSource r != snap_ID saved) || (snap_State saved != "ready")
  then refuse ErrInvalidArgument
  else resourceTransaction (BeginSnapshotResourceRestore_change saved r).

Definition RecordPersistentResourceCreated_change (r : PersistentResource) (d : environmentFileState)
    : result (environmentFileState * unit) :=
  reject resource_differs d r with ErrCapabilityStale ;;
  Ok (put_resource (res_with_State "created" r) d, tt).

Definition RecordPersistentResourceCreated (r : PersistentResource) : operation unit :=
  if (res_State r != "creating") || (res_RestoreSource r == "") then refuse ErrInvalidArgument
  else resourceTransaction (RecordPersistentResourceCreated_change r).

(** ** Disposable Environment resources *)

(** [parent, bound := environmentResourceLease(d, r)] with [!bound || !parent.Equal(lease)]. *)
Definition parent_differs (d : environmentFileState) (r : PersistentResource) (lease : WorkspaceLease) : bool :=
  match environmentResourceLease d r with
  | None => true
  | Some parent => negb (Lease_Equal parent lease)
  end.

Definition beginEnvironmentResourceMaterialization_change (expected : WorkspaceLease) (ref : PersistentResourceRef)
    (importing : bool) : change PersistentResource := fun data =>
  match Leases data !! lease_EnvironmentID expected with
  | None => Err ErrCapabilityStale
  | Some lease =>
    reject negb (Lease_Equal lease expected) || (lease_State lease != WorkspaceLeaseAcquiring) ||
           lease_RuntimeAbsent lease || (lease_RuntimeRef lease != "") with ErrCapabilityStale ;;
    match PersistentResources data !! ref_ID ref with
    | None => Err ErrIncompatibleState
    | Some r =>
      reject (Ref r != ref) || parent_differs data r lease with ErrIncompatibleState ;;
      reject (res_State r != "planned") || (res_ImportPending r != importing) with ErrRecoveryRequired ;;
      let r := res_with_State "creating" r in
      Ok (put_resource r data, true, r)
    end
  end.

Definition beginEnvironmentResourceMaterialization (expected : WorkspaceLease) (ref : PersistentResourceRef)
    (importing : bool) : operation PersistentResource :=
  if negb (ValidEnvironmentResourceRef ref) then refuse ErrInvalidArgument
  else catalogTransaction (beginEnvironmentResourceMaterialization_change expected ref importing).

Definition BeginEnvironmentResourceMaterialization (expected : WorkspaceLease) (ref : PersistentResourceRef)
    : operation PersistentResource :=
  beginEnvironmentResourceMaterialization expected ref false.

Definition BeginEnvironmentResourceImport (expected : WorkspaceLease) (ref : PersistentResourceRef)
    : operation PersistentResource :=
  beginEnvironmentResourceMaterialization expected ref true.

Definition RecordEnvironmentResourceCreated_change (expected : PersistentResource) : change PersistentResource :=
  fun data =>
  match PersistentResources data !! res_ID expected with
  | None => Err ErrCapabilityStale
  | Some r =>
    reject (r != expected) ||
           match environmentResourceLease data r with
           | None => true
           | Some lease => (lease_State lease != WorkspaceLeaseAcquiring) || lease_RuntimeAbsent lease
           end with ErrCapabilityStale ;;
    let r := res_with_State "created" r in
    Ok (put_resource r data, true, r)
  end.

Definition RecordEnvironmentResourceCreated (expected : PersistentResource) : operation PersistentResource :=
  if (res_EnvironmentInstance expected == "") || (res_State expected != "creating") ||
     (res_CopySource expected != zeroRef) then refuse ErrInvalidArgument
  else catalogTransaction (RecordEnvironmentResourceCreated_change expected).

Definition PrepareEnvironmentResourceDeletion_change (expected : WorkspaceLease) : change WorkspaceLease :=
  fun data =>
  match Leases data !! lease_EnvironmentID expected with
  | None => Err ErrCapabilityStale
  | Some lease =>
    reject negb (Lease_Equal lease expected) with ErrCapabilityStale ;;
    reject snapshotBusy data (lease_EnvironmentID lease) || environmentResourcesBusy data (lease_EnvironmentID lease)
           with ErrRecoveryRequired ;;
    if lease_RuntimeAbsent lease then Ok (data, false, lease) else
    let lease := lease_with_State WorkspaceLeaseCleanupRequired (lease_with_RuntimeAbsent true lease) in
    Ok (with_Leases (<[lease_EnvironmentID lease := lease]> (Leases data)) data, true, lease)
  end.

Definition PrepareEnvironmentResourceDeletion (expected : WorkspaceLease) : operation WorkspaceLease :=
  if (List.length (lease_Attachments expected) =? 0)%nat ||
     negb (ValidEnvironmentInstanceID (lease_InstanceID expected)) then refuse ErrInvalidArgument
  else catalogTransaction (PrepareEnvironmentResourceDeletion_change expected).

Definition BeginEnvironmentResourceClear_change (expected : WorkspaceLease) (ref : PersistentResourceRef)
    : change PersistentResource := fun data =>
  match Leases data !! lease_EnvironmentID expected with
  | None => Err ErrCapabilityStale
  | Some lease =>
    reject negb (Lease_Equal lease expected) || (lease_State lease != WorkspaceLeaseActive) ||
           lease_RuntimeAbsent lease || (lease_AccessMode lease != WorkspaceReadWrite) ||
           negb (MatchesEnvironment lease (read_or zeroEnvironment (Environments data) (lease_EnvironmentID lease)))
           with ErrCapabilityStale ;;
    match PersistentResources data !! ref_ID ref with
    | None => Err ErrCapabilityStale
    | Some r =>
      reject (Ref r != ref) || parent_differs data r lease with ErrCapabilityStale ;;
      reject snapshotBusy data (lease_EnvironmentID lease) with ErrRecoveryRequired ;;
      reject existsb (fun a =>
               persistentCopyReserved data (ref_ID (att_Resource a)) ||
               ((att_Resource a != ref) &&
                (res_State (read_or zeroResource (PersistentResources data) (ref_ID (att_Resource a))) == "clearing")))
             (lease_Attachments lease) with ErrRecoveryRequired ;;
      reject (res_State r != "ready") && (res_State r != "clearing") with ErrRecoveryRequired ;;
      if res_State r == "clearing" then Ok (data, false, r) else
      let r := res_with_State "clearing" r in
      Ok (put_resource r data, true, r)
    end
  end.

Definition BeginEnvironmentResourceClear (expected : WorkspaceLease) (ref : PersistentResourceRef)
    : operation PersistentResource :=
  if negb (ValidEnvironmentResourceRef ref) then refuse ErrInvalidArgument
  else catalogTransaction (BeginEnvironmentResourceClear_change expected ref).

Definition CommitEnvironmentResourceClear_change (expected : WorkspaceLease) (resource : PersistentResource)
    : change unit := fun data =>
  match Leases data !! lease_EnvironmentID expected with
  | None => Err ErrCapabilityStale
  | Some lease =>
    reject negb (Lease_Equal lease expected) || (lease_State lease != WorkspaceLeaseActive) ||
           lease_RuntimeAbsent lease ||
           (read_or zeroResource (PersistentResources data) (res_ID resource) != resource) with ErrCapabilityStale ;;
    reject parent_differs data resource lease with ErrCapabilityStale ;;
    Ok (put_resource (res_with_State "ready" resource) data, true, tt)
  end.

Definition CommitEnvironmentResourceClear (expected : WorkspaceLease) (resource : PersistentResource)
    : operation unit :=
  if (res_State resource != "clearing") || negb (ValidEnvironmentResourceRef (Ref resource))
  then refuse ErrInvalidArgument
  else catalogTransaction (CommitEnvironmentResourceClear_change expected resource).

(** ** Publication of a generation from an Environment resource *)

Definition BeginEnvironmentGenerationCopy_change (expected : WorkspaceLease) (source target : PersistentResource)
    : change unit := fun data =>
  match Leases data !! lease_EnvironmentID expected with
  | None => Err ErrCapabilityStale
  | Some lease =>
    reject negb (Lease_Equal lease expected) || negb (environmentGenerationCopy data source target lease)
           with ErrCapabilityStale ;;
    reject snapshotBusy data (lease_EnvironmentID lease) || environmentResourcesBusy data (lease_EnvironmentID lease)
           with ErrRecoveryRequired ;;
    data' ← reservePersistentResourceCopy data source target;
    Ok (data', true, tt)
  end.

Definition BeginEnvironmentGenerationCopy (expected : WorkspaceLease) (source target : PersistentResource)
    : operation unit :=
  catalogTransaction (BeginEnvironmentGenerationCopy_change expected source target).

Definition CheckEnvironmentResourcesIdle (name : string) : operation unit :=
  catalogTransaction (fun data =>
    reject environmentResourcesBusy data name with ErrRecoveryRequired ;;
    Ok (data, false, tt)).

(** ** Cache copy receipts *)

Definition replace_resource_change (r updated : PersistentResource) (d : environmentFileState)
    : result (environmentFileState * PersistentResource) :=
  reject read_or zeroResource (PersistentResources d) (res_ID r) != r with ErrCapabilityStale ;;
  Ok (with_PersistentResources (<[res_ID r := updated]> (PersistentResources d)) d, updated).

Definition RecordCacheCopyOperation (r : PersistentResource) (op : string) : operation PersistentResource :=
  let updated := res_with_CopyOperation op r in
  if (res_CopyOperation r != "") || res_CopyCompleted r || res_CopyCleanup r || negb (validCacheCopyReceipt updated)
  then refuse ErrInvalidArgument
  else resourceTransaction (replace_resource_change r updated).

Definition MarkCacheCopyCleanup (r : PersistentResource) : operation PersistentResource :=
  if negb (validCacheCopyReceipt r) || res_CopyCompleted r then refuse ErrRecoveryRequired
  else resourceTransaction (replace_resource_change r (res_with_CopyCleanup true r)).

(** ** Observations *)

Definition ListPersistentResources : operation (list PersistentResource) :=
  lockedTransaction (fun data =>
    Ok (data, false, sort_by res_ID (snd <$> map_to_list (PersistentResources data)))).

Definition GetPersistentResource (id : string) : operation PersistentResource := fun flt k =>
  match ListPersistentResources flt k with
  | (k', Err e) => (k', Err e)
  | (k', Ok l) => (k', match List.find (fun r => res_ID r == id) l with
                       | Some r => Ok r
                       | None => Err ErrNotFound
                       end)
  end.
