(* ===== verification/Lifecycle.v ===== *)
(** * Environment lifecycle

    The operations of [environment_lifecycle.go], [environment_identity.go],
    [environment_status.go], [environment_list.go],
    [environment_observation.go], [workspace_lease.go] and
    [saved_environment_resources.go]: reservation, runtime record, commit,
    recovery mark and final deletion of an Environment and its Workspace
    lease. *)

From S2P Require Import Prelude GoText Core CoreChecks CatalogState CatalogChecks Catalog Resources.
From Stdlib Require Import Ascii String.
Open Scope string_scope.

(** ** Argument checks *)

Definition validateEnvironmentCreateReservation (lease : WorkspaceLease) : result unit :=
  reject lease_RuntimeAbsent lease || negb (ValidEnvironmentAttachments (lease_Attachments lease)) ||
         (negb (List.length (lease_Attachments lease) =? 0)%nat &&
          negb (ValidEnvironmentInstanceID (lease_InstanceID lease))) with ErrInvalidArgument ;;
  reject lease_Ephemeral lease && negb (ValidEnvironmentInstanceID (lease_InstanceID lease)) with ErrInvalidArgument ;;
  reject (lease_InstanceID lease != "") && negb (ValidEnvironmentInstanceID (lease_InstanceID lease))
         with ErrInvalidArgument ;;
  reject (lease_PersistentResource lease != zeroRef) &&
         negb (ValidPersistentResourceRef (lease_PersistentResource lease)) with ErrInvalidArgument ;;
  reject (lease_EnvironmentID lease == "") || (lease_WorkspaceID lease == "") || (lease_SourcePath lease == "") ||
         (lease_Owner lease == "") || (lease_RuntimeRef lease != "") ||
         (lease_State lease != WorkspaceLeaseAcquiring) || IsZero (lease_AcquiredAt lease) with ErrInvalidArgument ;;
  if (lease_AccessMode lease == WorkspaceReadOnly) || (lease_AccessMode lease == WorkspaceReadWrite)
  then Ok tt else Err ErrInvalidArgument.

Definition validateEnvironmentRuntimeReservation (lease : WorkspaceLease) : result unit :=
  _ ← validateEnvironmentCreateReservation
        (mkLease (lease_Attachments lease) (lease_RuntimeAbsent lease) (lease_Ephemeral lease) ""
           (lease_InstanceID lease) (lease_PersistentResource lease) (lease_WorkspaceID lease)
           (lease_SourcePath lease) (lease_EnvironmentID lease) (lease_AccessMode lease) (lease_Owner lease) ""
           (lease_State lease) (lease_AcquiredAt lease));
  reject lease_RuntimeRef lease == "" with ErrInvalidArgument ;;
  Ok tt.

Definition publishedLease (lease : WorkspaceLease) : WorkspaceLease := lease_with_SnapshotSource "" lease.

Definition validateSameLeaseReservation (existing next : WorkspaceLease) : result unit :=
  reject (lease_Attachments existing != lease_Attachments next) ||
         (lease_RuntimeAbsent existing != lease_RuntimeAbsent next) with ErrCapabilityStale ;;
  reject lease_SnapshotSource existing != lease_SnapshotSource next with ErrCapabilityStale ;;
  reject lease_PersistentResource existing != lease_PersistentResource next with ErrIncompatibleState ;;
  reject (lease_Ephemeral existing != lease_Ephemeral next) ||
         (lease_InstanceID existing != lease_InstanceID next) ||
         (lease_EnvironmentID existing != lease_EnvironmentID next) ||
         (lease_WorkspaceID existing != lease_WorkspaceID next) ||
         (lease_SourcePath existing != lease_SourcePath next) ||
         (lease_AccessMode existing != lease_AccessMode next) || (lease_Owner existing != lease_Owner next) ||
         (lease_AcquiredAt existing != lease_AcquiredAt next) with ErrIncompatibleState ;;
  Ok tt.

Definition put_lease (lease : WorkspaceLease) (d : environmentFileState) : environmentFileState :=
  with_Leases (<[lease_EnvironmentID lease := lease]> (Leases d)) d.

(** ** Reservation *)

(** Two leases of the same Workspace conflict unless both are read-only. *)
Definition workspace_conflict (existing lease : WorkspaceLease) : bool :=
  (lease_WorkspaceID existing == lease_WorkspaceID lease) &&
  ((lease_AccessMode existing == WorkspaceReadWrite) || (lease_AccessMode lease == WorkspaceReadWrite)).

Definition beginEnvironmentCreate_change (lease : WorkspaceLease) (saved : option Snapshot)
    (plans : list EnvironmentResourcePlan) : change unit := fun data =>
  _ ← validateLeaseCompatibleState data;
  reject match saved with
         | Some saved => read_or zeroSnapshot (Snapshots data) (snap_ID saved) != saved
         | None => false
         end with ErrCapabilityStale ;;
  reject map_any (fun name work => (name == lease_EnvironmentID lease) || (ws_ID work == lease_WorkspaceID lease) ||
                                   (ws_Path work == lease_SourcePath lease)) (OwnedWorkspaceCleanup data)
         with ErrRecoveryRequired ;;
  reject has_key (Environments data) (lease_EnvironmentID lease) with ErrAlreadyExists ;;
  reject has_key (Leases data) (lease_EnvironmentID lease) with ErrAlreadyExists ;;
  _ ← (match EphemeralRuns data !! lease_EnvironmentID lease with
       | held =>
         if lease_Ephemeral lease then
           match held with
           | None => Err ErrIncompatibleState
           | Some run =>
             reject (run_State run != EphemeralRunCreating) || (run_InstanceID run != lease_InstanceID lease) ||
                    negb (ValidEnvironmentInstanceID (run_InstanceID run)) with ErrIncompatibleState ;;
             Ok tt
           end
         else match held with Some _ => Err ErrRecoveryRequired | None => Ok tt end
       end);
  _ ← (if lease_PersistentResource lease != zeroRef then
         match PersistentResources data !! ref_ID (lease_PersistentResource lease) with
         | None => Err ErrIncompatibleState
         | Some resource =>
           reject (Ref resource != lease_PersistentResource lease) || (res_State resource != "ready") ||
                  res_SourceOnly resource || (res_EnvironmentInstance resource != "") ||
                  ((res_WorkspaceID resource != "") && (res_WorkspaceID resource != lease_WorkspaceID lease) &&
                   negb (resourceMaintenanceReservation data lease)) with ErrIncompatibleState ;;
           reject persistentCopyReserved data (res_ID resource) with ErrStorageBusy ;;
           reject map_any (fun _ held => ref_ID (lease_PersistentResource held) == res_ID resource) (Leases data)
                  with ErrStorageBusy ;;
           Ok tt
         end
       else Ok tt);
  reject map_any (fun _ existing => workspace_conflict existing lease) (Leases data) with ErrWorkspaceBusy ;;
  data ← reserveEnvironmentResources data lease plans;
  Ok (put_lease lease data, true, tt).

Definition beginEnvironmentCreate (lease : WorkspaceLease) (saved : option Snapshot)
    (plans : list EnvironmentResourcePlan) : operation unit :=
  match validateEnvironmentCreateReservation lease with
  | Err e => refuse e
  | Ok _ => lockedTransaction (beginEnvironmentCreate_change lease saved plans)
  end.

Definition BeginEnvironmentCreate (lease : WorkspaceLease) : operation unit :=
  if (lease_SnapshotSource lease != "") || negb (List.length (lease_Attachments lease) =? 0)%nat
  then refuse ErrInvalidArgument
  else beginEnvironmentCreate lease None [].

Definition BeginEnvironmentCreateFromSnapshot (lease : WorkspaceLease) (saved : Snapshot) : operation unit :=
  if negb (List.length (env_Attachments (src_Environment (snap_Source saved))) =? 0)%nat ||
     negb (List.length (lease_Attachments lease) =? 0)%nat || negb (is_ok (validateSnapshot saved)) ||
     (snap_State saved != "ready") || (lease_SnapshotSource lease != snap_ID saved) ||
     negb (ValidEnvironmentInstanceID (lease_InstanceID lease)) ||
     (lease_InstanceID lease == src_InstanceID (snap_Source saved))
  then refuse ErrInvalidArgument
  else beginEnvironmentCreate lease (Some saved) [].

Definition BeginEnvironmentCreateWithResources (lease : WorkspaceLease) (plans : list EnvironmentResourcePlan)
    : operation unit :=
  if (lease_SnapshotSource lease != "") || (List.length plans =? 0)%nat then refuse ErrInvalidArgument
  else beginEnvironmentCreate lease None plans.

Definition BeginEnvironmentCreateFromSnapshotWithResources (lease : WorkspaceLease) (saved : Snapshot)
    (plans : list EnvironmentResourcePlan) : operation unit :=
  if (List.length plans =? 0)%nat || negb (is_ok (validateSnapshot saved)) || (snap_State saved != "ready") ||
     (lease_SnapshotSource lease != snap_ID saved) || negb (ValidEnvironmentInstanceID (lease_InstanceID lease)) ||
     (lease_InstanceID lease == src_InstanceID (snap_Source saved)) ||
     negb (List.length plans =? List.length (env_Attachments (src_Environment (snap_Source saved))))%nat
  then refuse ErrInvalidArgument
  else if existsb (fun plan => res_RestoreSource (plan_Resource plan) != snap_ID saved) plans
  then refuse ErrInvalidArgument
  else beginEnvironmentCreate lease (Some saved) plans.

(** ** Runtime record, commit, recovery, deletion *)

Definition RecordEnvironmentRuntime_change (lease : WorkspaceLease) : change unit := fun data =>
  reject has_key (Environments data) (lease_EnvironmentID lease) with ErrIncompatibleState ;;
  match Leases data !! lease_EnvironmentID lease with
  | None => Err ErrNotFound
  | Some existing =>
    _ ← validateSameLeaseReservation existing lease;
    reject (lease_RuntimeRef existing != "") && (lease_RuntimeRef existing != lease_RuntimeRef lease)
           with ErrIncompatibleState ;;
    Ok (put_lease lease data, true, tt)
  end.

Definition RecordEnvironmentRuntime (lease : WorkspaceLease) : operation unit :=
  match validateEnvironmentRuntimeReservation lease with
  | Err e => refuse e
  | Ok _ => lockedTransaction (RecordEnvironmentRuntime_change lease)
  end.

Definition CommitEnvironmentCreate_change (environment : Environment) (lease : WorkspaceLease) : change unit :=
  fun data =>
  match Environments data !! env_Name environment with
  | Some existingEnvironment =>
    match Leases data !! env_Name environment with
    | Some existingLease =>
      if Environment_Equal existingEnvironment environment && Lease_Equal existingLease (publishedLease lease)
      then Ok (data, false, tt) else Err ErrIncompatibleState
    | None => Err ErrIncompatibleState
    end
  | None =>
    match Leases data !! env_Name environment with
    | None => Err ErrNotFound
    | Some existingLease =>
      _ ← validateSameLeaseReservation existingLease lease;
      reject lease_State existingLease != WorkspaceLeaseAcquiring with ErrIncompatibleState ;;
      reject (lease_RuntimeRef existingLease == "") || (lease_RuntimeRef existingLease != env_RuntimeRef environment) ||
             (lease_RuntimeRef existingLease != lease_RuntimeRef lease) with ErrIncompatibleState ;;
      _ ← range_check (fun attachment =>
            reject match PersistentResources data !! ref_ID (att_Resource attachment) with
                   | None => true
                   | Some r => (Ref r != att_Resource attachment) || (res_State r != "ready") ||
                               (res_EnvironmentInstance r != lease_InstanceID lease)
                   end with ErrRecoveryRequired ;;
            Ok tt) (lease_Attachments lease);
      Ok (with_Leases (<[env_Name environment := publishedLease lease]> (Leases data))
            (with_Environments (<[env_Name environment := environment]> (Environments data)) data), true, tt)
    end
  end.

Definition CommitEnvironmentCreate (environment : Environment) (lease : WorkspaceLease) : operation unit :=
  match validateEnvironmentCreateCommit environment lease with
  | Err e => refuse e
  | Ok _ => lockedTransaction (CommitEnvironmentCreate_change environment lease)
  end.

Definition MarkEnvironmentRecoveryRequired_change (lease : WorkspaceLease) : change unit := fun data =>
  match Leases data !! lease_EnvironmentID lease with
  | None => Err ErrNotFound
  | Some existing =>
    _ ← validateSameLeaseReservation existing lease;
    let lease := if (lease_RuntimeRef existing != "") && (lease_RuntimeRef lease == "")
                 then lease_with_RuntimeRef (lease_RuntimeRef existing) lease else lease in
    reject (lease_RuntimeRef existing != "") && (lease_RuntimeRef lease != lease_RuntimeRef existing)
           with ErrIncompatibleState ;;
    Ok (put_lease lease data, true, tt)
  end.

Definition MarkEnvironmentRecoveryRequired (lease : WorkspaceLease) : operation unit :=
  if (lease_EnvironmentID lease == "") || (lease_State lease != WorkspaceLeaseCleanupRequired)
  then refuse ErrInvalidArgument
  else lockedTransaction (MarkEnvironmentRecoveryRequired_change lease).

Definition FinalizeEnvironmentDelete_change (environmentID : string) : change unit := fun data =>
  reject snapshotBusy data environmentID with ErrRecoveryRequired ;;
  if negb (has_key (Environments data) environmentID) && negb (has_key (Leases data) environmentID)
  then Ok (data, false, tt) else
  _ ← (match Leases data !! environmentID with
       | Some lease =>
         if negb (List.length (lease_Attachments lease) =? 0)%nat then
           reject negb (lease_RuntimeAbsent lease) || (lease_State lease != WorkspaceLeaseCleanupRequired)
                  with ErrRecoveryRequired ;;
           range_check (fun a =>
             reject has_key (PersistentResources data) (ref_ID (att_Resource a)) with ErrRecoveryRequired ;;
             Ok tt) (lease_Attachments lease)
         else Ok tt
       | None => Ok tt
       end);
  let data := if LastOpened data == environmentID then with_LastOpened "" data else data in
  let data := match Environments data !! environmentID with
              | Some env => if env_OwnedWorkspace env
                            then with_OwnedWorkspaceCleanup
                                   (<[environmentID := env_Workspace env]> (OwnedWorkspaceCleanup data)) data
                            else data
              | None => data
              end in
  Ok (with_Leases (delete environmentID (Leases data))
        (with_Environments (delete environmentID (Environments data)) data), true, tt).

Definition FinalizeEnvironmentDelete (environmentID : string) : operation unit :=
  if environmentID == "" then refuse ErrInvalidArgument
  else lockedTransaction (FinalizeEnvironmentDelete_change environmentID).

(** ** Durable identity *)

(** [EnvironmentInstance] reads the file without migration; [nonce] are the
    random bytes of a newly assigned identity. *)
Definition EnvironmentInstance (expected : Environment) (nonce : list ascii) : operation string := fun flt k =>
  if lock_fails flt then (k, Err ErrIO) else
  match committed k with
  | NoFile | Unreadable => (k, Err ErrIO)
  | Undecodable => (k, Err ErrDecode)
  | Contents data =>
    if negb (supportedEnvironmentStateVersion (Version data)) then (k, Err ErrIncompatibleState) else
    match (_ ← validateResourceGenerations data;
           _ ← validateEnvironmentResources data;
           _ ← validateEphemeralIdentities data;
           match Environments data !! env_Name expected with
           | None => Err ErrNotFound
           | Some current =>
             reject current != expected with ErrCapabilityStale ;;
             match Leases data !! env_Name expected with
             | None => Err ErrIncompatibleState
             | Some lease =>
               reject (lease_SnapshotSource lease != "") || (lease_Owner lease == "") ||
                      IsZero (lease_AcquiredAt lease) with ErrIncompatibleState ;;
               _ ← validateEnvironmentCreateCommit current lease;
               Ok lease
             end
           end) with
    | Err e => (k, Err e)
    | Ok lease =>
      let '(k', lease', written) :=
        if lease_InstanceID lease == "" then
          let lease' := lease_with_InstanceID (NewEnvironmentInstanceID nonce) lease in
          if ctx_before flt then (k, lease', Err ErrContext) else
          let '(k', r) := writeEnvironments (write_fault flt)
                            (with_Leases (<[env_Name expected := lease']> (Leases data)) data) k in
          (k', lease', r)
        else (k, lease, Ok tt) in
      match written with
      | Err e => (k', Err e)
      | Ok _ => if negb (ValidEnvironmentInstanceID (lease_InstanceID lease'))
                then (k', Err ErrIncompatibleState) else (k', Ok (lease_InstanceID lease'))
      end
    end
  end.

(** ** Observations *)

Definition GetReadyEnvironment (name : string) : operation Environment :=
  catalogTransaction (fun data =>
    match Environments data !! name with
    | None => match Leases data !! name with
              | Some _ => Err ErrRecoveryRequired
              | None => Err ErrNotFound
              end
    | Some current =>
      match Leases data !! name with
      | None => Err ErrRecoveryRequired
      | Some lease =>
        reject (env_Name current != name) || negb (MatchesEnvironment lease current) with ErrRecoveryRequired ;;
        Ok (data, false, current)
      end
    end).

Definition GetEnvironment (name : string) : operation Environment :=
  lockedTransaction (fun data =>
    match Environments data !! name with
    | None => Err ErrNotFound
    | Some environment => Ok (data, false, environment)
    end).

Definition ListEnvironments : operation (list Environment) :=
  lockedTransaction (fun data => Ok (data, false, sort_by env_Name (snd <$> map_to_list (Environments data)))).

Definition GetWorkspaceLease (environmentID : string) : operation WorkspaceLease :=
  lockedTransaction (fun data =>
    match Leases data !! environmentID with
    | None => Err ErrNotFound
    | Some lease => Ok (data, false, lease)
    end).

(** The order of the result is unspecified. *)
Definition ListWorkspaceLeases : operation (list WorkspaceLease) :=
  lockedTransaction (fun data => Ok (data, false, snd <$> map_to_list (Leases data))).
