(* ===== verification/Generations.v ===== *)
(** * Resource generations

    The operations of [resource_generation.go]: a named source moves through
    numbered generations inside an epoch; a reset starts a new epoch. *)

From S2P Require Import Prelude GoText Core CoreChecks CatalogState CatalogChecks Catalog Resources.
From Stdlib Require Import Ascii String.
Open Scope string_scope.

Definition maxUint64 : Z := 2 ^ 64 - 1.
Definition uint64_succ (n : Z) : Z := ((n + 1) mod 2 ^ 64)%Z.

(** [generationEpoch]: the sixteen bytes of [crypto/rand] are an argument. *)
Definition generationEpoch (nonce : list ascii) : string := EncodeToString nonce.

Definition put_generation (g : ResourceGeneration) (d : environmentFileState) : environmentFileState :=
  with_ResourceGenerations (<[gen_Name g := g]> (ResourceGenerations d)) d.

Definition EnsureResourceGeneration_change (name kind compatibility : string) (nonce : list ascii)
    : change ResourceGeneration := fun data =>
  match ResourceGenerations data !! name with
  | Some current =>
    reject (gen_Kind current != kind) || (gen_Compatibility current != compatibility) with ErrIncompatibleState ;;
    Ok (data, false, current)
  | None =>
    let result := mkGeneration name kind compatibility (generationEpoch nonce) 0 zeroRef in
    Ok (with_ResourceGenerations (<[name := result]> (ResourceGenerations data)) data, true, result)
  end.

Definition EnsureResourceGeneration (name kind compatibility : string) (nonce : list ascii)
    : operation ResourceGeneration :=
  if negb (ValidResourceGenerationSpec name kind compatibility) then refuse ErrInvalidArgument
  else catalogTransaction (EnsureResourceGeneration_change name kind compatibility nonce).

Definition GetResourceGeneration (name : string) : operation ResourceGeneration :=
  catalogTransaction (fun data =>
    match ResourceGenerations data !! name with
    | None => Err ErrNotFound
    | Some g => Ok (data, false, g)
    end).

Definition ListResourceGenerations : operation (list ResourceGeneration) :=
  catalogTransaction (fun data =>
    Ok (data, false, sort_by gen_Name (snd <$> map_to_list (ResourceGenerations data)))).

Definition AdvanceResourceGeneration_change (expected : ResourceGeneration) (candidate : PersistentResourceRef)
    : change ResourceGeneration := fun data =>
  match ResourceGenerations data !! gen_Name expected with
  | None => Err ErrSourceGenerationStale
  | Some current =>
    reject current != expected with ErrSourceGenerationStale ;;
    reject (gen_Number current =? maxUint64)%Z || (gen_Current current == candidate) with ErrInvalidArgument ;;
    match PersistentResources data !! ref_ID candidate with
    | None => Err ErrIncompatibleState
    | Some resource =>
      reject (Ref resource != candidate) || negb (res_SourceOnly resource) || (res_State resource != "ready") ||
             (res_Kind resource != gen_Kind current) with ErrIncompatibleState ;;
      reject map_any (fun _ source => ref_ID (gen_Current source) == ref_ID candidate) (ResourceGenerations data)
             with ErrStorageBusy ;;
      let current := mkGeneration (gen_Name current) (gen_Kind current) (gen_Compatibility current)
                       (gen_Epoch current) (uint64_succ (gen_Number current)) candidate in
      Ok (put_generation current data, true, current)
    end
  end.

Definition AdvanceResourceGeneration (expected : ResourceGeneration) (candidate : PersistentResourceRef)
    : operation ResourceGeneration :=
  if negb (ValidResourceGeneration expected) || negb (ValidGenerationResource candidate)
  then refuse ErrInvalidArgument
  else catalogTransaction (AdvanceResourceGeneration_change expected candidate).

Definition ResetResourceGeneration_change (expected : ResourceGeneration) (compatibility : string)
    (nonce : list ascii) : change ResourceGeneration := fun data =>
  reject match ResourceGenerations data !! gen_Name expected with
         | None => true
         | Some current => current != expected
         end with ErrSourceGenerationStale ;;
  let epoch := generationEpoch nonce in
  reject epoch == gen_Epoch expected with ErrIncompatibleState ;;
  let result := mkGeneration (gen_Name expected) (gen_Kind expected) compatibility epoch 0 zeroRef in
  Ok (put_generation result data, true, result).

Definition ResetResourceGeneration (expected : ResourceGeneration) (compatibility : string) (nonce : list ascii)
    : operation ResourceGeneration :=
  if negb (ValidResourceGeneration expected) ||
     negb (ValidResourceGenerationSpec (gen_Name expected) (gen_Kind expected) compatibility)
  then refuse ErrInvalidArgument
  else catalogTransaction (ResetResourceGeneration_change expected compatibility nonce).
