(* ===== verification/Snapshots.v ===== *)
(** * Snapshots, restores, Workspace copies and base assets

    The operations of [snapshot.go], [snapshot_restore.go],
    [snapshot_workspace_copy.go] and [base_asset.go]. *)

From S2P Require Import Prelude GoText Core CoreChecks CatalogState CatalogChecks Catalog Resources.
From Stdlib Require Import String.
Open Scope string_scope.

Definition put_snapshot (id : string) (s : Snapshot) (d : environmentFileState) : environmentFileState :=
  with_Snapshots (<[id := s]> (Snapshots d)) d.

(** ** Capture *)

Definition CheckSnapshotIdle (name : string) : operation unit :=
  catalogTransaction (fun data =>
    reject snapshotBusy data name with ErrRecoveryRequired ;;
    Ok (data, false, tt)).

Definition BeginSnapshot_change (snapshot : Snapshot) : change unit := fun data =>
  reject has_key (Snapshots data) (snap_ID snapshot) with ErrAlreadyExists ;;
  let source := snap_Source snapshot in
  let name := env_Name (src_Environment source) in
  let lease := read_or zeroLease (Leases data) name in
  match Environments data !! name with
  | None => Err ErrCapabilityStale
  | Some current =>
    reject (current != src_Environment source) || (lease_InstanceID lease != src_InstanceID source) ||
           (lease_State lease != WorkspaceLeaseActive) ||
           negb (is_ok (validateEnvironmentCreateCommit current lease)) with ErrCapabilityStale ;;
    reject environmentResourcesBusy data (env_Name current) with ErrRecoveryRequired ;;
    reject snapshotBusy data (env_Name current) with ErrStorageBusy ;;
    reject map_any (fun _ existing =>
             existsb (fun a => existsb (fun b => comp_NativeRef a == comp_NativeRef b) (snap_Components snapshot))
               (snap_Components existing)) (Snapshots data) with ErrAlreadyExists ;;
    Ok (put_snapshot (snap_ID snapshot) snapshot data, true, tt)
  end.

Definition BeginSnapshot (snapshot : Snapshot) : operation unit :=
  if negb (is_ok (validateSnapshot snapshot)) || (snap_State snapshot != "capturing")
  then refuse ErrInvalidArgument
  else if existsb (fun c => comp_State c != "planned") (snap_Components snapshot)
  then refuse ErrInvalidArgument
  else catalogTransaction (BeginSnapshot_change snapshot).

Definition GetSnapshot (id : string) : operation Snapshot :=
  catalogTransaction (fun data =>
    match Snapshots data !! id with
    | None => Err ErrNotFound
    | Some value => Ok (data, false, value)
    end).

Definition mutateSnapshot_change (id : string) (fn : Snapshot -> result Snapshot) : change unit := fun data =>
  match Snapshots data !! id with
  | None => Err ErrNotFound
  | Some value =>
    value ← fn value;
    _ ← validateSnapshot value;
    Ok (put_snapshot id value data, true, tt)
  end.

Definition mutateSnapshot (id : string) (fn : Snapshot -> result Snapshot) : operation unit :=
  catalogTransaction (mutateSnapshot_change id fn).

(** The component transition both captures and restores allow; [busy] are the
    states in which components are produced. *)
Definition component_transition (busy : bool) (state : string) (c : SnapshotComponent) (next : string) : bool :=
  (busy && (((comp_State c == "planned") && (next == "created")) ||
            ((comp_State c == "created") && (next == "verified")))) ||
  ((state == "deleting") && (next == "absent")).

(** [for i, c := range components]: the first component with the expected role
    is the one that is compared and changed. *)
Fixpoint record_component (busy : bool) (state : string) (expected : SnapshotComponent) (next : string)
    (l : list SnapshotComponent) : result (list SnapshotComponent) :=
  match l with
  | [] => Err ErrNotFound
  | c :: l =>
    if comp_Role c != comp_Role expected then
      l' ← record_component busy state expected next l;
      Ok (c :: l')
    else
      reject c != expected with ErrCapabilityStale ;;
      reject negb (component_transition busy state c next) with ErrIncompatibleState ;;
      Ok (comp_with_State next c :: l)
  end.

Definition RecordSnapshotComponent_fn (expected : SnapshotComponent) (next : string) (value : Snapshot)
    : result Snapshot :=
  let busy := (snap_State value == "capturing") || (snap_State value == "recovery-required") in
  l ← record_component busy (snap_State value) expected next (snap_Components value);
  Ok (snap_with_Components l value).

Definition RecordSnapshotComponent (id : string) (expected : SnapshotComponent) (next : string) : operation unit :=
  mutateSnapshot id (RecordSnapshotComponent_fn expected next).

Definition CommitSnapshot_fn (value : Snapshot) : result Snapshot :=
  reject (snap_State value != "capturing") && (snap_State value != "recovery-required") with ErrIncompatibleState ;;
  reject existsb (fun c => comp_State c != "verified") (snap_Components value) with ErrRecoveryRequired ;;
  Ok (snap_with_State "ready" value).

Definition CommitSnapshot (id : string) : operation unit := mutateSnapshot id CommitSnapshot_fn.

Definition RecordSnapshotImage_fn (image : BaseRef) (value : Snapshot) : result Snapshot :=
  reject (snap_State value != "capturing") || (base_Name image == "") || (base_Revision image == "")
         with ErrIncompatibleState ;;
  Ok (snap_with_Image (Some image) value).

Definition RecordSnapshotImage (id : string) (image : BaseRef) : operation unit :=
  mutateSnapshot id (RecordSnapshotImage_fn image).

Definition MarkSnapshotRecovery_fn (value : Snapshot) : result Snapshot :=
  reject (snap_State value != "capturing") && (snap_State value != "recovery-required") with ErrIncompatibleState ;;
  Ok (snap_with_State "recovery-required" value).

Definition MarkSnapshotRecovery (id : string) : operation unit := mutateSnapshot id MarkSnapshotRecovery_fn.

(** ** Deletion *)

Definition BeginSnapshotDelete_change (id : string) : change unit := fun d =>
  reject map_any (fun _ copy => copy_SnapshotID copy == id) (WorkspaceCopies d) with ErrStorageBusy ;;
  reject map_any (fun _ r => res_RestoreSource r == id) (PersistentResources d) with ErrStorageBusy ;;
  reject map_any (fun _ lease => lease_SnapshotSource lease == id) (Leases d) with ErrStorageBusy ;;
  reject restoreUsesSnapshot d id with ErrStorageBusy ;;
  match Snapshots d !! id with
  | None => Err ErrNotFound
  | Some value => Ok (put_snapshot id (snap_with_State "deleting" value) d, true, tt)
  end.

Definition BeginSnapshotDelete (id : string) : operation unit := catalogTransaction (BeginSnapshotDelete_change id).

Definition FinalizeSnapshotDelete_change (id : string) : change unit := fun data =>
  match Snapshots data !! id with
  | None => Err ErrNotFound
  | Some value =>
    reject snap_State value != "deleting" with ErrIncompatibleState ;;
    reject existsb (fun c => comp_State c != "absent") (snap_Components value) with ErrRecoveryRequired ;;
    Ok (with_Snapshots (delete id (Snapshots data)) data, true, tt)
  end.

Definition FinalizeSnapshotDelete (id : string) : operation unit :=
  catalogTransaction (FinalizeSnapshotDelete_change id).

Definition insert_snapshot (x : Snapshot) : list Snapshot -> list Snapshot :=
  let name s := env_Name (src_Environment (snap_Source s)) in
  let less a b := if name a != name b then String.ltb (name a) (name b) else String.ltb (snap_ID a) (snap_ID b) in
  fix go l := match l with
              | [] => [x]
              | y :: l' => if less y x then y :: go l' else x :: l
              end.

Definition ListSnapshots : operation (list Snapshot) :=
  catalogTransaction (fun d =>
    Ok (d, false, foldr insert_snapshot [] (snd <$> map_to_list (Snapshots d)))).

(** ** Legacy restores *)

Definition GetSnapshotRestore (id : string) : operation SnapshotRestore :=
  catalogTransaction (fun d =>
    match Restores d !! id with
    | None => Err ErrNotFound
    | Some op => Ok (d, false, op)
    end).

Definition mutateRestore_change (id : string) (fn : SnapshotRestore -> result SnapshotRestore) : change unit :=
  fun d =>
  match Restores d !! id with
  | None => Err ErrNotFound
  | Some op =>
    op ← fn op;
    _ ← validateRestore op;
    Ok (with_Restores (<[id := op]> (Restores d)) d, true, tt)
  end.

Definition mutateRestore (id : string) (fn : SnapshotRestore -> result SnapshotRestore) : operation unit :=
  catalogTransaction (mutateRestore_change id fn).

Definition RecordRestoreComponent_fn (expected : SnapshotComponent) (next : string) (op : SnapshotRestore)
    : result SnapshotRestore :=
  let busy := (rst_State op == "preparing") || (rst_State op == "recovery-required") in
  l ← record_component busy (rst_State op) expected next (rst_Components op);
  Ok (rst_with_Components l op).

Definition RecordRestoreComponent (id : string) (expected : SnapshotComponent) (next : string) : operation unit :=
  mutateRestore id (RecordRestoreComponent_fn expected next).

Definition BeginRestoreCleanup (id : string) : operation unit :=
  mutateRestore id (fun op => Ok (rst_with_State "deleting" op)).

Definition FinalizeRestoreCleanup_change (id : string) : change unit := fun d =>
  match Restores d !! id with
  | None => Err ErrNotFound
  | Some op =>
    reject rst_State op != "deleting" with ErrIncompatibleState ;;
    reject existsb (fun c => comp_State c != "absent") (rst_Components op) with ErrRecoveryRequired ;;
    Ok (with_Restores (delete id (Restores d)) d, true, tt)
  end.

Definition FinalizeRestoreCleanup (id : string) : operation unit :=
  catalogTransaction (FinalizeRestoreCleanup_change id).

(** ** Workspace copies *)

Definition BeginSnapshotWorkspaceCopy_change (saved : Snapshot) (id : string) (copy : snapshotWorkspaceCopy)
    : change unit := fun d =>
  reject Snapshots d !! snap_ID saved != Some saved with ErrCapabilityStale ;;
  reject has_key (WorkspaceCopies d) id with ErrAlreadyExists ;;
  Ok (with_WorkspaceCopies (<[id := copy]> (WorkspaceCopies d)) d, true, tt).

Definition BeginSnapshotWorkspaceCopy (saved : Snapshot) (id owner : string) : operation unit :=
  let copy := mkCopy (snap_ID saved) owner in
  if negb (validSnapshotWorkspaceCopy id copy) || (snap_State saved != "ready") then refuse ErrInvalidArgument
  else catalogTransaction (BeginSnapshotWorkspaceCopy_change saved id copy).

Definition FinishSnapshotWorkspaceCopy_change (id : string) (expected : snapshotWorkspaceCopy) : change unit :=
  fun d =>
  match WorkspaceCopies d !! id with
  | None => Err ErrNotFound
  | Some current =>
    reject current != expected with ErrCapabilityStale ;;
    Ok (with_WorkspaceCopies (delete id (WorkspaceCopies d)) d, true, tt)
  end.

Definition FinishSnapshotWorkspaceCopy (savedID id owner : string) : operation unit :=
  let expected := mkCopy savedID owner in
  if negb (validSnapshotWorkspaceCopy id expected) then refuse ErrInvalidArgument
  else catalogTransaction (FinishSnapshotWorkspaceCopy_change id expected).

(** ** Base assets *)

Definition FindBaseAsset (base : BaseRef) (provider scope : string) : operation BaseAsset :=
  catalogTransaction (fun d =>
    match List.find (fun a => (asset_Base a == base) && (asset_Provider a == provider) && (asset_Scope a == scope))
            (snd <$> map_to_list (BaseAssets d)) with
    | Some a => Ok (d, false, a)
    | None => Err ErrNotFound
    end).

Definition BeginBaseAsset_change (a : BaseAsset) : change unit := fun d =>
  reject map_any (fun _ old => (asset_ID old == asset_ID a) || assets_conflict old a) (BaseAssets d)
         with ErrAlreadyExists ;;
  Ok (with_BaseAssets (<[asset_ID a := a]> (BaseAssets d)) d, true, tt).

Definition BeginBaseAsset (a : BaseAsset) : operation unit :=
  if negb (is_ok (validateBaseAsset a)) || (asset_State a != "planned") then refuse ErrInvalidArgument
  else catalogTransaction (BeginBaseAsset_change a).

Definition RecordBaseAsset_change (expected : BaseAsset) (next : string) : change unit := fun d =>
  reject BaseAssets d !! asset_ID expected != Some expected with ErrCapabilityStale ;;
  reject negb (((asset_State expected == "planned") && (next == "created")) ||
               ((asset_State expected == "created") && (next == "ready"))) with ErrIncompatibleState ;;
  Ok (with_BaseAssets (<[asset_ID expected := asset_with_State next expected]> (BaseAssets d)) d, true, tt).

Definition RecordBaseAsset (expected : BaseAsset) (next : string) : operation unit :=
  if negb (is_ok (validateBaseAsset expected)) then refuse ErrInvalidArgument
  else catalogTransaction (RecordBaseAsset_change expected next).
