(* ===== verification/Runs.v ===== *)
(** * Ephemeral runs, owned Workspaces and preferences

    The operations of [ephemeral_run.go], [owned_workspace_cleanup.go] and
    [preferences.go]. *)

From S2P Require Import Prelude GoText Core CoreChecks CatalogState CatalogChecks Catalog.
From Stdlib Require Import String.
Open Scope string_scope.

(** ** Ephemeral runs *)

Definition PutEphemeralRun_change (run : EphemeralRun) : change unit := fun data =>
  _ ← (match EphemeralRuns data !! run_EnvironmentID run with
       | Some previous =>
         reject (run_InstanceID previous != run_InstanceID run) || (run_CreatedAt previous != run_CreatedAt run) ||
                (run_TemporaryWorkspace previous != run_TemporaryWorkspace run) with ErrIncompatibleState ;;
         Ok tt
       | None =>
         reject has_key (Leases data) (run_EnvironmentID run) with ErrIncompatibleState ;;
         reject has_key (Environments data) (run_EnvironmentID run) with ErrIncompatibleState ;;
         Ok tt
       end);
  let data := with_EphemeralRuns (<[run_EnvironmentID run := run]> (EphemeralRuns data)) data in
  _ ← validatePersistentResourceState data;
  Ok (data, true, tt).

Definition PutEphemeralRun (run : EphemeralRun) : operation unit :=
  match validateEphemeralRun run with
  | Err e => refuse e
  | Ok _ => lockedTransaction (PutEphemeralRun_change run)
  end.

Definition DeleteEphemeralRun_change (environmentID : string) : change unit := fun data =>
  if negb (has_key (EphemeralRuns data) environmentID) then Ok (data, false, tt) else
  reject has_key (Leases data) environmentID with ErrIncompatibleState ;;
  reject has_key (Environments data) environmentID with ErrIncompatibleState ;;
  let data := with_EphemeralRuns (delete environmentID (EphemeralRuns data)) data in
  _ ← validatePersistentResourceState data;
  Ok (data, true, tt).

Definition DeleteEphemeralRun (environmentID : string) : operation unit :=
  if environmentID == "" then refuse ErrInvalidArgument
  else lockedTransaction (DeleteEphemeralRun_change environmentID).

(** The order of the result is unspecified. *)
Definition ListEphemeralRuns : operation (list EphemeralRun) :=
  lockedTransaction (fun data => Ok (data, false, snd <$> map_to_list (EphemeralRuns data))).

(** ** Owned Workspace cleanup *)

Definition OwnedWorkspaceCleanup_op (name : string) : operation Workspace :=
  catalogTransaction (fun data =>
    match OwnedWorkspaceCleanup data !! name with
    | None => Err ErrNotFound
    | Some work => Ok (data, false, work)
    end).

Definition FinalizeOwnedWorkspaceCleanup_change (name : string) (work : Workspace) : change unit := fun data =>
  match OwnedWorkspaceCleanup data !! name with
  | None => Ok (data, false, tt)
  | Some current =>
    reject current != work with ErrCapabilityStale ;;
    Ok (with_OwnedWorkspaceCleanup (delete name (OwnedWorkspaceCleanup data)) data, true, tt)
  end.

Definition FinalizeOwnedWorkspaceCleanup (name : string) (work : Workspace) : operation unit :=
  catalogTransaction (FinalizeOwnedWorkspaceCleanup_change name work).

(** ** Preferences *)

Definition DefaultImage_op : operation string :=
  catalogTransaction (fun data => Ok (data, false, DefaultImage data)).

Definition SetDefaultImage_change (image : string) (initial : bool) : change unit := fun data =>
  if initial && (DefaultImage data != "") then Ok (data, false, tt)
  else Ok (with_DefaultImage image data, true, tt).

Definition SetDefaultImage (image : string) (initial : bool) : operation unit :=
  if image == "" then refuse ErrInvalidArgument
  else catalogTransaction (SetDefaultImage_change image initial).

Definition LastOpened_op : operation string :=
  catalogTransaction (fun data => Ok (data, false, LastOpened data)).

Definition RememberOpened_change (expected : Environment) : change unit := fun data =>
  match Environments data !! env_Name expected with
  | None => Err ErrCapabilityStale
  | Some current =>
    reject (env_RuntimeRef current != env_RuntimeRef expected) || (env_Workspace current != env_Workspace expected) ||
           (env_CreatedAt current != env_CreatedAt expected) with ErrCapabilityStale ;;
    Ok (with_LastOpened (env_Name expected) data, true, tt)
  end.

Definition RememberOpened (expected : Environment) : operation unit :=
  catalogTransaction (RememberOpened_change expected).
