(* ===== verification/CatalogSpec.v ===== *)
(** * What the validators mean

    Each validator of [CatalogChecks] restated as a proposition on lookups, so
    that nothing proved from it depends on the order in which Go enumerates a
    map, together with the frame lemmas the preservation proofs use. *)

From S2P Require Import Prelude GoText Core CoreChecks CatalogState CatalogChecks Catalog.
From Stdlib Require Import String.
Open Scope string_scope.

Lemma is_ok_true (r : result unit) : is_ok r = true <-> r = Ok tt.
Proof. destruct r as [[]|]; simpl; intuition congruence. Qed.

Lemma set_no_mem (k : string) : ~ (k ∈ (∅ : gset string)).
Proof. set_solver. Qed.

(** ** Ephemeral identities *)

Definition run_ok (d : environmentFileState) (name : string) (run : EphemeralRun) : Prop :=
  name = run_EnvironmentID run /\ validateEphemeralRun run = Ok tt /\
  (forall lease, Leases d !! name = Some lease ->
     lease_Ephemeral lease = true /\ lease_InstanceID lease = run_InstanceID run /\
     (forall work, run_TemporaryWorkspace run = Some work ->
        lease_WorkspaceID lease = ws_ID work /\ lease_SourcePath lease = ws_Path work)).

Lemma ephemeral_run_body_ok d name run (seen seen' : gset string) :
  ephemeral_run_body d (name, run) seen = Ok seen' <->
  run_ok d name run /\ (run_InstanceID run ∉ seen) /\ seen' = {[run_InstanceID run]} ∪ seen.
Proof.
  unfold ephemeral_run_body, run_ok. rewrite !reject_ok, ok_inj. bool_prop.
  rewrite is_ok_true. destruct (Leases d !! name) as [lease|].
  - destruct (run_TemporaryWorkspace run) as [work|]; bool_prop; naive_solver.
  - naive_solver.
Qed.

Lemma validateEphemeralIdentities_ok d :
  validateEphemeralIdentities d = Ok tt <->
  (forall name run, EphemeralRuns d !! name = Some run -> run_ok d name run) /\
  (forall n1 n2 r1 r2, EphemeralRuns d !! n1 = Some r1 -> EphemeralRuns d !! n2 = Some r2 ->
     run_InstanceID r1 = run_InstanceID r2 -> n1 = n2) /\
  (forall name lease, Leases d !! name = Some lease -> ephemeral_lease_body d name lease = Ok tt).
Proof.
  unfold validateEphemeralIdentities.
  transitivity ((exists s, range_loop (ephemeral_run_body d) (map_to_list (EphemeralRuns d)) ∅ = Ok s) /\
                range_map (ephemeral_lease_body d) (Leases d) = Ok tt).
  { rewrite bind_ok. naive_solver. }
  rewrite (range_loop_map _ (fun kv => run_ok d kv.1 kv.2) (fun kv => [run_InstanceID kv.2])
    (fun k s => k ∈ s) (fun kv s => {[run_InstanceID kv.2]} ∪ s)), range_map_ok.
  - setoid_rewrite list_elem_of_singleton. simpl. split.
    + intros [[H1 H2] H3]. split_and!; [|naive_solver|done]. intros ? ? ?. by apply H1.
    + intros (H1 & H2 & H3). split_and!; [|naive_solver|done]. intros. split; [by apply H1|]. apply NoDup_singleton.
  - intros [name run] s s'. rewrite ephemeral_run_body_ok. simpl. setoid_rewrite list_elem_of_singleton.
    split; [|naive_solver]. intros (? & ? & ?). split_and!; try done; [apply NoDup_singleton|naive_solver].
  - intros [name run] s k _. set_solver.
  - apply set_no_mem.
Qed.

(** ** Persistent resources *)

(** The part of the copy check that reads only the record. *)
Definition copy_local (r : PersistentResource) : Prop :=
  (res_State r = "created" ->
     (res_RestoreSource r <> "" \/ res_EnvironmentInstance r <> "") /\ res_SourceOnly r = false /\
     res_CopySource r = zeroRef) /\
  (res_RestoreSource r <> "" ->
     res_State r <> "ready" /\ res_SourceOnly r = false /\ res_CopySource r = zeroRef) /\
  (res_CopyOperation r <> "" \/ res_CopyCleanup r = true ->
     validCacheCopyReceipt r = true /\ (res_CopyCleanup r = true -> res_CopyCompleted r = false)) /\
  (res_CopySource r = zeroRef -> res_CopyCompleted r = false).

(** A copy in flight and its source. *)
Definition copy_pair (source r : PersistentResource) : Prop :=
  (res_State r = "creating" \/ (res_State r = "deleting" /\ res_CopyCleanup r = true) \/
   (res_State r = "planned" /\ res_EnvironmentInstance r <> "")) /\
  res_State source = "ready" /\ Ref source = res_CopySource r /\ res_Kind source = res_Kind r /\
  res_ID source <> res_ID r /\ res_Owner source <> res_Owner r /\ res_NativeRef source <> res_NativeRef r.

(** The source of a copy is held by no lease, except the lease of the stopped
    Environment whose data is being published. *)
Definition copy_fence (d : environmentFileState) (source r : PersistentResource) : Prop :=
  forall n l, Leases d !! n = Some l -> leaseHasResource l (res_ID source) = true ->
    environmentGenerationCopy d source r l = true.

Definition snapshot_ready (d : environmentFileState) (id : string) : Prop :=
  exists saved, Snapshots d !! id = Some saved /\ snap_State saved = "ready".

Definition copy_ok (d : environmentFileState) (r : PersistentResource) : Prop :=
  copy_local r /\
  (res_RestoreSource r <> "" -> snapshot_ready d (res_RestoreSource r)) /\
  (res_CopySource r <> zeroRef -> exists source,
     PersistentResources d !! ref_ID (res_CopySource r) = Some source /\ copy_pair source r /\ copy_fence d source r).

Lemma copy_fence_ok d source r :
  range_map (fun _ lease =>
    reject leaseHasResource lease (res_ID source) && negb (environmentGenerationCopy d source r lease)
           with ErrIncompatibleState ;;
    Ok tt) (Leases d) = Ok tt <-> copy_fence d source r.
Proof.
  rewrite range_map_ok. unfold copy_fence. split; intros H n l Hl; specialize (H n l Hl).
  - apply reject_ok in H as [H _]. bool_prop. intuition congruence.
  - apply reject_ok. split; [|done]. bool_prop.
    destruct (leaseHasResource l (res_ID source)); intuition.
Qed.

(** One lemma per guard of [resource_copy_body], in the order of the code. *)
Lemma copy_guard_created r :
  (res_State r == "created") &&
    (((res_RestoreSource r == "") && (res_EnvironmentInstance r == "")) || res_SourceOnly r ||
     (res_CopySource r != zeroRef)) = false <->
  (res_State r = "created" ->
     (res_RestoreSource r <> "" \/ res_EnvironmentInstance r <> "") /\ res_SourceOnly r = false /\
     res_CopySource r = zeroRef).
Proof. repeat case_bool_decide; destruct (res_SourceOnly r); simpl; naive_solver. Qed.

Lemma copy_guard_restore d r :
  (res_RestoreSource r != "") &&
    match Snapshots d !! res_RestoreSource r with
    | None => true
    | Some saved => (snap_State saved != "ready") || (res_State r == "ready") || res_SourceOnly r ||
                    (res_CopySource r != zeroRef)
    end = false <->
  (res_RestoreSource r <> "" -> res_State r <> "ready" /\ res_SourceOnly r = false /\ res_CopySource r = zeroRef) /\
  (res_RestoreSource r <> "" -> snapshot_ready d (res_RestoreSource r)).
Proof.
  unfold snapshot_ready. case_bool_decide; simpl; [naive_solver|].
  destruct (Snapshots d !! res_RestoreSource r) as [saved|]; [|naive_solver].
  repeat case_bool_decide; destruct (res_SourceOnly r); simpl; naive_solver.
Qed.

Lemma copy_guard_receipt r :
  ((res_CopyOperation r != "") || res_CopyCleanup r) &&
    (negb (validCacheCopyReceipt r) || (res_CopyCleanup r && res_CopyCompleted r)) = false <->
  (res_CopyOperation r <> "" \/ res_CopyCleanup r = true ->
     validCacheCopyReceipt r = true /\ (res_CopyCleanup r = true -> res_CopyCompleted r = false)).
Proof.
  case_bool_decide; destruct (res_CopyCleanup r), (validCacheCopyReceipt r), (res_CopyCompleted r); simpl;
    intuition congruence.
Qed.

Lemma copy_guard_source d r :
  (if res_CopySource r == zeroRef then
     reject res_CopyCompleted r with ErrIncompatibleState ;; Ok tt
   else
     match PersistentResources d !! ref_ID (res_CopySource r) with
     | None => Err ErrIncompatibleState
     | Some source =>
       reject ((res_State r != "creating") &&
               ((res_State r != "deleting") || negb (res_CopyCleanup r)) &&
               ((res_State r != "planned") || (res_EnvironmentInstance r == ""))) ||
              (res_State source != "ready") || (Ref source != res_CopySource r) ||
              (res_Kind source != res_Kind r) || (res_ID source == res_ID r) ||
              (res_Owner source == res_Owner r) || (res_NativeRef source == res_NativeRef r)
              with ErrIncompatibleState ;;
       range_map (fun _ lease =>
         reject leaseHasResource lease (res_ID source) && negb (environmentGenerationCopy d source r lease)
                with ErrIncompatibleState ;; Ok tt) (Leases d)
     end) = Ok tt <->
  (res_CopySource r = zeroRef -> res_CopyCompleted r = false) /\
  (res_CopySource r <> zeroRef -> exists source,
     PersistentResources d !! ref_ID (res_CopySource r) = Some source /\ copy_pair source r /\
     copy_fence d source r).
Proof.
  case_bool_decide as Hz; [rewrite reject_ok; naive_solver|].
  destruct (PersistentResources d !! ref_ID (res_CopySource r)) as [source|]; [|naive_solver].
  rewrite reject_ok, copy_fence_ok. unfold copy_pair. bool_prop.
  split; [|naive_solver]. intros [H ?]. split; [done|]. intros _. exists source.
  split_and!; naive_solver.
Qed.

Lemma resource_copy_body_ok d id r :
  Version d = environmentStateVersion -> resource_copy_body d id r = Ok tt <-> copy_ok d r.
Proof.
  intros HV. unfold resource_copy_body, copy_ok, copy_local. rewrite HV, !reject_ok.
  replace ((environmentStateVersion <? 13)%Z || (environmentStateVersion <? environmentStateVersion)%Z)
    with false by reflexivity. rewrite andb_false_r.
  rewrite copy_guard_created, copy_guard_restore, copy_guard_receipt, copy_guard_source. tauto.
Qed.

(** The record check, as the facts it establishes. *)
Definition record_ok (id : string) (r : PersistentResource) : Prop :=
  (res_ImportPending r = true ->
     res_EnvironmentInstance r <> "" /\ ValidEnvironmentResourceRef (Ref r) = true /\ res_SourceOnly r = false /\
     res_WorkspaceID r = "" /\ res_RestoreSource r = "" /\ res_CopySource r = zeroRef /\
     res_CopyCompleted r = false /\ res_State r <> "ready") /\
  (res_SourceOnly r = true -> res_WorkspaceID r = "") /\
  id = res_ID r /\ ValidPersistentResourceRef (Ref r) = true /\ res_Kind r <> "" /\ res_NativeRef r <> "" /\
  IsZero (res_CreatedAt r) = false /\
  (res_State r = "creating" \/ res_State r = "created" \/ res_State r = "ready" \/ res_State r = "deleting" \/
   ((res_State r = "planned" \/ res_State r = "clearing") /\ res_EnvironmentInstance r <> "")).

Lemma record_state_guard (a b c d e f g : bool) :
  a && b && c && d && ((e && f) || g) = false <->
  a = false \/ b = false \/ c = false \/ d = false \/ ((e = false \/ f = false) /\ g = false).
Proof. destruct a, b, c, d, e, f, g; simpl; intuition congruence. Qed.

Lemma imp_guard (a b : bool) : a && b = false <-> (a = true -> b = false).
Proof. destruct a, b; intuition congruence. Qed.

Lemma resource_record_body_ok id r : resource_record_body id r = Ok tt <-> record_ok id r.
Proof.
  unfold resource_record_body, record_ok. rewrite !reject_ok, imp_guard, !orb_false_iff, record_state_guard, imp_guard.
  rewrite !negb_false_iff, !bool_decide_eq_true, !bool_decide_eq_false. tauto.
Qed.

(** The store resource of a lease. *)
Definition lease_ref_ok (d : environmentFileState) (l : WorkspaceLease) : Prop :=
  lease_PersistentResource l <> zeroRef -> exists r,
    PersistentResources d !! ref_ID (lease_PersistentResource l) = Some r /\
    Ref r = lease_PersistentResource l /\ res_State r = "ready" /\ res_SourceOnly r = false /\
    res_EnvironmentInstance r = "" /\
    (res_WorkspaceID r <> "" -> res_WorkspaceID r <> lease_WorkspaceID l -> resourceMaintenanceLease d l = true).

(** No store resource is bound to two leases. *)
Definition lease_refs_unique (d : environmentFileState) : Prop :=
  forall n1 n2 l1 l2, Leases d !! n1 = Some l1 -> Leases d !! n2 = Some l2 ->
    lease_PersistentResource l1 <> zeroRef -> lease_PersistentResource l2 <> zeroRef ->
    ref_ID (lease_PersistentResource l1) = ref_ID (lease_PersistentResource l2) -> n1 = n2.

Lemma resource_lease_body_ok d name l (held held' : gmap string string) :
  resource_lease_body d (name, l) held = Ok held' <->
  lease_ref_ok d l /\
  (lease_PersistentResource l <> zeroRef -> held !! ref_ID (lease_PersistentResource l) = None) /\
  held' = if decide (lease_PersistentResource l = zeroRef) then held
          else <[ref_ID (lease_PersistentResource l) := name]> held.
Proof.
  unfold resource_lease_body, lease_ref_ok. case_bool_decide as Hz; [rewrite ok_inj, decide_True by done; naive_solver|].
  rewrite decide_False by done.
  destruct (PersistentResources d !! ref_ID (lease_PersistentResource l)) as [r|]; [|naive_solver].
  rewrite !reject_ok, ok_inj, has_key_false, !orb_false_iff, <- andb_assoc, !imp_guard, !negb_false_iff,
    !negb_true_iff, !bool_decide_eq_true, !bool_decide_eq_false.
  split.
  - intros (H & Hn & <-). split_and!; try done. intros _. exists r. naive_solver.
  - intros (H & Hn & ->). destruct (H Hz) as (r' & [= <-] & H'). naive_solver.
Qed.

Lemma resource_leases_ok d :
  (exists held, range_loop (resource_lease_body d) (map_to_list (Leases d)) ∅ = Ok held) <->
  (forall n l, Leases d !! n = Some l -> lease_ref_ok d l) /\ lease_refs_unique d.
Proof.
  set (keys := fun kv : string * WorkspaceLease =>
    if decide (lease_PersistentResource kv.2 = zeroRef) then [] else [ref_ID (lease_PersistentResource kv.2)]).
  rewrite (range_loop_map _ (fun kv => lease_ref_ok d kv.2) keys (fun k s => s !! k <> None)
    (fun kv s => if decide (lease_PersistentResource kv.2 = zeroRef) then s
                 else <[ref_ID (lease_PersistentResource kv.2) := kv.1]> s)).
  - unfold keys, lease_refs_unique. simpl. split.
    + intros [H1 H2]. split; [intros; by eapply H1|]. intros n1 n2 l1 l2 Hl1 Hl2 Hz1 Hz2 He.
      apply (H2 n1 l1 n2 l2 (ref_ID (lease_PersistentResource l1)) Hl1 Hl2);
        rewrite decide_False by done; apply list_elem_of_singleton; congruence.
    + intros [H1 H2]. split.
      * intros n l Hl. split; [by apply (H1 n)|]. case_decide; [constructor|apply NoDup_singleton].
      * intros n1 l1 n2 l2 k Hl1 Hl2. do 2 case_decide; rewrite ?elem_of_nil, ?list_elem_of_singleton; try done.
        intros -> ?. by eapply H2.
  - intros [n l] s s'. rewrite resource_lease_body_ok. unfold keys. simpl. case_decide.
    + setoid_rewrite elem_of_nil. pose proof (NoDup_nil_2 (A:=string)). naive_solver.
    + setoid_rewrite list_elem_of_singleton. pose proof (NoDup_singleton (ref_ID (lease_PersistentResource l))).
      destruct (s !! ref_ID (lease_PersistentResource l)) eqn:E; naive_solver.
  - intros [n l] s k _. unfold keys. simpl. case_decide; [rewrite elem_of_nil; tauto|].
    rewrite list_elem_of_singleton, lookup_insert. case_decide; naive_solver.
  - intros k Hk. by apply Hk, lookup_empty.
Qed.

Definition env_ref_ok (d : environmentFileState) (name : string) (e : Environment) : Prop :=
  env_PersistentResource e <> zeroRef -> exists l,
    Leases d !! name = Some l /\ lease_PersistentResource l = env_PersistentResource e.

Lemma resource_environment_body_ok d name e : resource_environment_body d name e = Ok tt <-> env_ref_ok d name e.
Proof.
  unfold resource_environment_body, env_ref_ok. case_bool_decide; simpl; [naive_solver|].
  destruct (Leases d !! name) as [l|]; [|naive_solver]. rewrite reject_ok. bool_prop. naive_solver.
Qed.

Lemma validatePersistentResourceState_ok d :
  Version d = environmentStateVersion ->
  validatePersistentResourceState d = Ok tt <->
  (forall id r, PersistentResources d !! id = Some r -> record_ok id r /\ copy_ok d r) /\
  (forall n l, Leases d !! n = Some l -> lease_ref_ok d l) /\ lease_refs_unique d /\
  (forall n e, Environments d !! n = Some e -> env_ref_ok d n e).
Proof.
  intros HV. unfold validatePersistentResourceState.
  rewrite !bind_unit_ok, bind_ok, !(range_map_ok (V:=PersistentResource)).
  assert (forall P, (exists a, range_loop (resource_lease_body d) (map_to_list (Leases d)) ∅ = Ok a /\ P) <->
    (exists held, range_loop (resource_lease_body d) (map_to_list (Leases d)) ∅ = Ok held) /\ P) as -> by naive_solver.
  rewrite resource_leases_ok, range_map_ok.
  setoid_rewrite resource_record_body_ok. setoid_rewrite (fun id r => resource_copy_body_ok d id r HV).
  setoid_rewrite resource_environment_body_ok. naive_solver.
Qed.
