(* ===== verification/AttachmentSpec.v ===== *)
(** * Who owns Environment data

    What [validateEnvironmentResources] establishes about data areas: every
    area belongs to one lease, and the record behind it to the Environment
    instance of that lease. *)

From S2P Require Import Prelude GoText Core CoreChecks CatalogState CatalogChecks Catalog CatalogSpec.
From Stdlib Require Import String.
Open Scope string_scope.

Definition area_id (a : EnvironmentAttachment) : string := ref_ID (att_Resource a).

(** The record behind an attached area, when it exists. *)
Definition area_record (d : environmentFileState) (l : WorkspaceLease) (a : EnvironmentAttachment) : Prop :=
  match PersistentResources d !! area_id a with
  | None => lease_RuntimeAbsent l = true
  | Some r => Ref r = att_Resource a /\ res_EnvironmentInstance r = lease_InstanceID l /\
              (lease_State l = WorkspaceLeaseActive -> res_State r = "ready" \/ res_State r = "clearing") /\
              (res_State r = "deleting" -> lease_RuntimeAbsent l = true)
  end.

Lemma attachment_step d l a (held held' : gmap string string) :
  env_resource_attachment d l a held = Ok held' ->
  read_or "" held (area_id a) = "" /\ held' = <[area_id a := lease_InstanceID l]> held /\ area_record d l a.
Proof.
  unfold env_resource_attachment, area_record. rewrite reject_ok. intros [H1 H2].
  apply orb_false_iff in H1 as [H1 _]. apply orb_false_iff in H1 as [_ H1]. apply negb_false_iff, bool_decide_eq_true in H1.
  split; [done|]. fold (area_id a) in H2.
  destruct (PersistentResources d !! area_id a) as [r|]; [|destruct (lease_RuntimeAbsent l); [by injection H2 as <-|done]].
  rewrite !reject_ok in H2. destruct H2 as (G1 & _ & _ & _ & G2 & _ & G3 & [= <-]). split; [done|].
  rewrite <- andb_assoc, !imp_guard, negb_true_iff, negb_false_iff, !bool_decide_eq_true, bool_decide_eq_false in G2.
  rewrite imp_guard, bool_decide_eq_true, negb_false_iff in G3. bool_hyps. split_and!; try done.
  intros Ha. destruct (decide (res_State r = "ready")) as [|Hn]; [by left|right; auto].
Qed.

(** A loop that records owners never forgets one. *)
Definition remembers (held held' : gmap string string) : Prop :=
  forall id, read_or "" held id <> "" -> read_or "" held' id = read_or "" held id.

(** Everything a loop recorded comes from one of the areas it visited. *)
Definition recorded_from (areas : EnvironmentAttachment -> Prop) (held held' : gmap string string) : Prop :=
  forall id, read_or "" held' id <> "" -> read_or "" held id <> "" \/ exists a, areas a /\ area_id a = id.

Lemma attachments_step d l atts (held held' : gmap string string) :
  lease_InstanceID l <> "" -> range_loop (env_resource_attachment d l) atts held = Ok held' ->
  remembers held held' /\ recorded_from (fun a => a ∈ atts) held held' /\
  forall a, a ∈ atts -> read_or "" held' (area_id a) = lease_InstanceID l /\ area_record d l a.
Proof.
  intros Hi. revert held. induction atts as [|a atts IH]; intros held; simpl.
  - intros [= <-]. split_and!; [done|by left|]. intros a Ha. by apply not_elem_of_nil in Ha.
  - destruct (env_resource_attachment d l a held) as [held1|] eqn:E; [|done].
    apply attachment_step in E as (Hfree & -> & Hrec). intros H. destruct (IH _ H) as (Hm & Hfrom & Ha).
    assert (remembers held (<[area_id a := lease_InstanceID l]> held)) as Hm1.
    { intros id Hid. rewrite read_or_insert. case_decide; [congruence|done]. }
    split_and!.
    + intros id Hid. rewrite Hm; [by apply Hm1|]. by rewrite Hm1.
    + intros id Hid. destruct (Hfrom id Hid) as [Hid'|(b & Hb & Hid')]; [|right; exists b; split; [by right|done]].
      rewrite read_or_insert in Hid'. case_decide; [|by left]. right. exists a. split; [left|done].
    + intros b [->|Hb]%elem_of_cons; [|by apply Ha]. split; [|done].
      rewrite Hm; rewrite read_or_insert, decide_True; done.
Qed.

Definition lease_attached (l : WorkspaceLease) : Prop := lease_Attachments l <> [] \/ lease_RuntimeAbsent l = true.

Lemma lease_step d n l (held held' : gmap string string) :
  env_resource_lease d (n, l) held = Ok held' ->
  remembers held held' /\ recorded_from (fun a => a ∈ lease_Attachments l) held held' /\
  (lease_attached l -> ValidEnvironmentInstanceID (lease_InstanceID l) = true /\
     ValidEnvironmentAttachments (lease_Attachments l) = true /\
     (lease_RuntimeAbsent l = true -> lease_State l = WorkspaceLeaseCleanupRequired) /\
     (forall k other, Leases d !! k = Some other -> lease_InstanceID other = lease_InstanceID l -> k = n)) /\
  forall a, a ∈ lease_Attachments l -> read_or "" held' (area_id a) = lease_InstanceID l /\ area_record d l a.
Proof.
  unfold env_resource_lease, lease_attached. destruct (_ && _) eqn:E.
  { intros [= <-]. bool_hyps. apply Nat.eqb_eq, length_zero_iff_nil in H. split_and!; [done|by left|intuition congruence|].
    rewrite H. intros a Ha. by apply not_elem_of_nil in Ha. }
  rewrite !reject_ok. intros (G1 & _ & G2 & _ & _ & G3 & _ & H). bool_hyps.
  assert (lease_InstanceID l <> "") as Hi by (intros Hi; by rewrite Hi in *).
  destruct (attachments_step d l _ held held' Hi H) as (Hm & Hfrom & Ha). split_and!; try done. intros _. split_and!; try done.
  - intros Hab. rewrite Hab in G2. simpl in G2. apply orb_false_iff in G2 as [_ G2]. by apply negb_false_iff, bool_decide_eq_true in G2.
  - intros k other Hk Ho. rewrite map_any_false in G3. specialize (G3 k other Hk).
    rewrite (bool_decide_eq_true_2 _ Ho), andb_true_r in G3. by apply negb_false_iff, bool_decide_eq_true in G3.
Qed.

Lemma leases_step d ls (held held' : gmap string string) :
  range_loop (env_resource_lease d) ls held = Ok held' ->
  remembers held held' /\ recorded_from (fun a => exists n l, (n, l) ∈ ls /\ a ∈ lease_Attachments l) held held' /\
  forall n l, (n, l) ∈ ls ->
    (lease_attached l -> ValidEnvironmentInstanceID (lease_InstanceID l) = true /\
       ValidEnvironmentAttachments (lease_Attachments l) = true /\
       (lease_RuntimeAbsent l = true -> lease_State l = WorkspaceLeaseCleanupRequired) /\
       (forall k other, Leases d !! k = Some other -> lease_InstanceID other = lease_InstanceID l -> k = n)) /\
    forall a, a ∈ lease_Attachments l -> read_or "" held' (area_id a) = lease_InstanceID l /\ area_record d l a.
Proof.
  revert held. induction ls as [|[n l] ls IH]; intros held; cbn [range_loop].
  - intros [= <-]. split_and!; [done|by left|]. intros n l H. by apply not_elem_of_nil in H.
  - destruct (env_resource_lease d (n, l) held) as [held1|] eqn:E; [|done]. apply lease_step in E as (Hm & Hf & Hl & Ha). intros H. destruct (IH _ H) as (Hm' & Hf' & Hls).
    split_and!; [intros id Hid; rewrite Hm'; [by apply Hm|by rewrite Hm]| |].
    { intros id Hid. destruct (Hf' id Hid) as [Hid'|(a & (n' & l' & Hin & Hat) & Ha')]; [destruct (Hf id Hid') as [?|(a & Hat & Ha')]|].
      - by left.
      - right. exists a. split; [|done]. exists n, l. split; [left|done].
      - right. exists a. split; [|done]. exists n', l'. split; [by right|done]. }
    intros n' l' [Hin|Hin]%elem_of_cons; [|by apply Hls]. simplify_eq. split; [done|]. intros a Hin. destruct (Ha a Hin) as [Hr ?].
    split; [|done]. rewrite Hm'; [done|]. rewrite Hr. intros Hi. destruct Hl as (Hv & _); [|by rewrite Hi in Hv].
    left. intros E. rewrite E in Hin. by apply not_elem_of_nil in Hin.
Qed.

(** ** The areas of a valid catalog *)

Lemma envres_areas d :
  validateEnvironmentResources d = Ok tt -> exists held : gmap string string,
  (forall n l, Leases d !! n = Some l ->
    (lease_attached l -> ValidEnvironmentInstanceID (lease_InstanceID l) = true /\
       ValidEnvironmentAttachments (lease_Attachments l) = true /\
       (lease_RuntimeAbsent l = true -> lease_State l = WorkspaceLeaseCleanupRequired) /\
       (forall k other, Leases d !! k = Some other -> lease_InstanceID other = lease_InstanceID l -> k = n)) /\
    forall a, a ∈ lease_Attachments l -> read_or "" held (area_id a) = lease_InstanceID l /\ area_record d l a) /\
  (forall id r, PersistentResources d !! id = Some r -> res_EnvironmentInstance r <> "" ->
     exists n l a, Leases d !! n = Some l /\ a ∈ lease_Attachments l /\ area_id a = id /\
       lease_InstanceID l = res_EnvironmentInstance r).
Proof.
  unfold validateEnvironmentResources. rewrite !bind_unit_ok, bind_ok. intros (_ & _ & held & Hh & H).
  rewrite bind_unit_ok, !range_map_ok in H. destruct H as [_ H]. apply leases_step in Hh as (_ & Hfrom & Hh).
  assert (forall n l, Leases d !! n = Some l -> (n, l) ∈ map_to_list (Leases d)) as Hin by (intros; by apply elem_of_map_to_list).
  exists held. split; [intros n l Hl; by apply Hh, Hin|].
  intros id r Hr Hi. specialize (H id r Hr). unfold env_resource_record in H. rewrite bool_decide_eq_false_2 in H by done.
  apply reject_ok in H as [H _]. bool_hyps.
  destruct (Hfrom id) as [Hid|(a & (n & l & Hnl & Ha) & <-)]; [congruence|by rewrite read_or_empty in Hid|].
  exists n, l, a. apply elem_of_map_to_list in Hnl as Hl. split_and!; try done.
  destruct (Hh n l Hnl) as [_ Hat]. destruct (Hat a Ha) as [Hat' _]. congruence.
Qed.

(** No data area is attached to two leases. *)
Lemma areas_exclusive d n1 n2 l1 l2 a1 a2 :
  validateEnvironmentResources d = Ok tt -> Leases d !! n1 = Some l1 -> Leases d !! n2 = Some l2 ->
  a1 ∈ lease_Attachments l1 -> a2 ∈ lease_Attachments l2 -> area_id a1 = area_id a2 -> n1 = n2.
Proof.
  intros H Hl1 Hl2 Ha1 Ha2 He. apply envres_areas in H as (held & Hh & _).
  destruct (Hh n1 l1 Hl1) as [_ H1]. destruct (Hh n2 l2 Hl2) as [H2' H2].
  destruct (H1 a1 Ha1) as [E1 _]. destruct (H2 a2 Ha2) as [E2 _]. destruct H2' as (_ & _ & _ & Hu).
  { left. intros E. rewrite E in Ha2. by apply not_elem_of_nil in Ha2. }
  apply (Hu n1 l1 Hl1). congruence.
Qed.
