(* ===== verification/Settled.v ===== *)
(** * The catalog invariant

    [Settled d] says that [d] is a state the store itself writes: current
    schema, accepted by every validator, every Environment bound to its lease
    and every Workspace held by at most one writer.  A settled catalog is a
    fixed point of [normalizeEnvironmentState], so what was committed is what
    the next read returns.  [Evolves d d'] says what one operation may change
    in records that already exist. *)

From S2P Require Import Prelude GoText Core CoreChecks CatalogState CatalogChecks Catalog CatalogSpec.
From Stdlib Require Import String.
Open Scope string_scope.

(** ** Records *)

(** Facts about a resource record that the operations maintain and no
    validator checks. *)
Definition record_extra (r : PersistentResource) : Prop :=
  (res_State r = "planned" -> res_CopyCompleted r = false) /\
  (res_State r = "clearing" -> res_ImportPending r = false /\ res_RestoreSource r = "").

Definition resource_wf (d : environmentFileState) (id : string) (r : PersistentResource) : Prop :=
  record_ok id r /\ record_extra r /\ copy_ok d r.

Definition resources_ok (d : environmentFileState) : Prop :=
  (forall id r, PersistentResources d !! id = Some r -> resource_wf d id r) /\
  (forall n l, Leases d !! n = Some l -> lease_ref_ok d l) /\
  lease_refs_unique d.

(** The lease as [validateEnvironmentResources] compares it with a published
    Environment. *)
Definition lease_binding (l : WorkspaceLease) : WorkspaceLease :=
  lease_with_RuntimeAbsent false (lease_with_State WorkspaceLeaseActive l).

Definition lease_wf (d : environmentFileState) (n : string) (l : WorkspaceLease) : Prop :=
  lease_EnvironmentID l = n /\ n <> "" /\
  (lease_AccessMode l = WorkspaceReadOnly \/ lease_AccessMode l = WorkspaceReadWrite) /\
  (lease_WorkspaceID l <> "" /\ lease_SourcePath l <> "" /\ lease_Owner l <> "" /\ IsZero (lease_AcquiredAt l) = false) /\
  (lease_State l = WorkspaceLeaseAcquiring \/ lease_State l = WorkspaceLeaseActive \/
   lease_State l = WorkspaceLeaseCleanupRequired) /\
  (lease_State l = WorkspaceLeaseAcquiring -> Environments d !! n = None) /\
  (lease_State l = WorkspaceLeaseActive -> lease_RuntimeAbsent l = false /\ is_Some (Environments d !! n)) /\
  lease_source_body d n l = Ok tt.

Definition env_wf (d : environmentFileState) (n : string) (e : Environment) : Prop :=
  env_Name e = n /\ exists l, Leases d !! n = Some l /\ MatchesEnvironment (lease_binding l) e = true.

(** Two leases of one Workspace are both read-only. *)
Definition workspaces_exclusive (d : environmentFileState) : Prop :=
  forall n1 n2 l1 l2, Leases d !! n1 = Some l1 -> Leases d !! n2 = Some l2 -> n1 <> n2 ->
    lease_WorkspaceID l1 = lease_WorkspaceID l2 -> lease_AccessMode l1 = WorkspaceReadOnly.

Record Settled (d : environmentFileState) : Prop := {
  settled_version : Version d = environmentStateVersion;
  settled_commit : validateCommit d = Ok tt;
  settled_copies : range_map (workspace_copy_body d) (WorkspaceCopies d) = Ok tt;
  settled_assets : range_map (base_asset_body d) (BaseAssets d) = Ok tt;
  settled_snapshots : range_map (snapshot_body d) (Snapshots d) = Ok tt;
  settled_restores : Restores d = ∅;
  settled_numbers : forall n g, ResourceGenerations d !! n = Some g -> (0 <= gen_Number g < 2 ^ 64)%Z;
  settled_envs : forall n e, Environments d !! n = Some e -> env_wf d n e;
  settled_leases : forall n l, Leases d !! n = Some l -> lease_wf d n l;
  settled_resources : resources_ok d;
  settled_exclusive : workspaces_exclusive d }.

(** ** What an operation may change *)

Definition same_identity (r r' : PersistentResource) : Prop :=
  Ref r' = Ref r /\ res_Kind r' = res_Kind r /\ res_NativeRef r' = res_NativeRef r /\
  res_SourceOnly r' = res_SourceOnly r /\ res_EnvironmentInstance r' = res_EnvironmentInstance r /\
  res_WorkspaceID r' = res_WorkspaceID r /\ res_PublicationOrigin r' = res_PublicationOrigin r /\
  res_Producer r' = res_Producer r /\ res_CreatedAt r' = res_CreatedAt r.

Definition lease_same (l l' : WorkspaceLease) : Prop :=
  lease_Attachments l' = lease_Attachments l /\ lease_Ephemeral l' = lease_Ephemeral l /\
  lease_PersistentResource l' = lease_PersistentResource l /\
  lease_WorkspaceID l' = lease_WorkspaceID l /\ lease_SourcePath l' = lease_SourcePath l /\
  lease_EnvironmentID l' = lease_EnvironmentID l /\ lease_AccessMode l' = lease_AccessMode l /\
  lease_Owner l' = lease_Owner l /\ lease_AcquiredAt l' = lease_AcquiredAt l.

Definition lease_evolves (l l' : WorkspaceLease) : Prop :=
  lease_same l l' /\
  (lease_InstanceID l <> "" -> lease_InstanceID l' = lease_InstanceID l) /\
  (lease_RuntimeRef l <> "" -> lease_RuntimeRef l' = lease_RuntimeRef l).

Definition gen_evolves (g g' : ResourceGeneration) : Prop :=
  g' = g \/
  (gen_Name g' = gen_Name g /\ gen_Kind g' = gen_Kind g /\
   ((gen_Epoch g' = gen_Epoch g /\ gen_Compatibility g' = gen_Compatibility g /\
     gen_Number g' = (gen_Number g + 1)%Z /\ gen_Current g' <> gen_Current g) \/
    (gen_Epoch g' <> gen_Epoch g /\ gen_Number g' = 0%Z /\ gen_Current g' = zeroRef))).

Definition snap_evolves (s s' : Snapshot) : Prop :=
  snap_ID s' = snap_ID s /\ snap_Source s' = snap_Source s /\
  (snap_State s = "ready" -> s' = s \/ s' = snap_with_State "deleting" s).

Record Evolves (d d' : environmentFileState) : Prop := {
  evolves_envs : forall n e l', Environments d !! n = Some e -> Leases d' !! n = Some l' ->
    Environments d' !! n = Some e;
  evolves_leases : forall n l l', Leases d !! n = Some l -> Leases d' !! n = Some l' -> lease_evolves l l';
  evolves_resources : forall id r r', PersistentResources d !! id = Some r ->
    PersistentResources d' !! id = Some r' -> same_identity r r';
  evolves_generations : forall n g g', ResourceGenerations d !! n = Some g ->
    ResourceGenerations d' !! n = Some g' -> gen_evolves g g';
  evolves_snapshots : forall id s s', Snapshots d !! id = Some s -> Snapshots d' !! id = Some s' ->
    snap_evolves s s' }.

Lemma same_identity_refl r : same_identity r r.
Proof. done. Qed.
Lemma lease_evolves_refl l : lease_evolves l l.
Proof. done. Qed.
Lemma gen_evolves_refl g : gen_evolves g g.
Proof. by left. Qed.
Lemma snap_evolves_refl s : snap_evolves s s.
Proof. repeat split; auto. Qed.
#[export] Hint Resolve same_identity_refl lease_evolves_refl gen_evolves_refl snap_evolves_refl : catalog.

(** A relation between the values of two maps that agree outside one key. *)
Lemma related_at {V} (R : V -> V -> Prop) (m m' : gmap string V) id :
  (forall v, R v v) -> (forall k, k <> id -> m' !! k = m !! k) ->
  (forall v v', m !! id = Some v -> m' !! id = Some v' -> R v v') ->
  forall k v v', m !! k = Some v -> m' !! k = Some v' -> R v v'.
Proof.
  intros Hrefl Hne Hid k v v' Hv Hv'. destruct (decide (k = id)) as [->|Hk]; [by apply Hid|].
  rewrite (Hne k Hk) in Hv'. simplify_eq. apply Hrefl.
Qed.

Lemma related_refl {V} (R : V -> V -> Prop) (m : gmap string V) :
  (forall v, R v v) -> forall (k : string) v v', m !! k = Some v -> m !! k = Some v' -> R v v'.
Proof. intros HR k v v' H1 H2. simplify_eq. apply HR. Qed.

(** [evolves] closes the clauses of [Evolves] about maps that did not change. *)
Ltac evolves := constructor; simpl; try (apply related_refl; auto with catalog); try (by eauto).

Lemma Evolves_refl d : Evolves d d.
Proof. evolves. Qed.
#[export] Hint Resolve Evolves_refl : catalog.

(** ** A settled catalog reads back unchanged *)

Lemma matches_fields l e :
  MatchesEnvironment l e = true <->
  lease_State l = WorkspaceLeaseActive /\ lease_RuntimeAbsent l = false /\ env_Name e <> "" /\
  lease_Attachments l = env_Attachments e /\ lease_EnvironmentID l = env_Name e /\ lease_RuntimeRef l <> "" /\
  lease_RuntimeRef l = env_RuntimeRef e /\ lease_WorkspaceID l = ws_ID (env_Workspace e) /\
  lease_SourcePath l = ws_Path (env_Workspace e) /\ lease_AccessMode l = env_AccessMode e /\
  lease_PersistentResource l = env_PersistentResource e.
Proof. unfold MatchesEnvironment. rewrite !andb_true_iff, !negb_true_iff, !bool_decide_eq_true, !bool_decide_eq_false. tauto. Qed.

Lemma validateCommit_ok d :
  validateCommit d = Ok tt <->
  validateOwnedWorkspaceCleanup d = Ok tt /\ validateEnvironmentResources d = Ok tt /\
  validateResourceGenerations d = Ok tt /\ validateEphemeralIdentities d = Ok tt.
Proof. unfold validateCommit. by rewrite !bind_unit_ok. Qed.

Lemma with_Version_same d : Version d = environmentStateVersion -> with_Version environmentStateVersion d = d.
Proof. intros H. destruct d. simpl in *. by subst. Qed.

Lemma map_imap_same {V} (f : string -> V -> V) (m : gmap string V) :
  (forall k v, m !! k = Some v -> f k v = v) -> map_imap (fun k v => Some (f k v)) m = m.
Proof.
  intros H. apply map_eq. intros k. rewrite map_lookup_imap. destruct (m !! k) eqn:E; simpl; [|done].
  by rewrite H.
Qed.

Lemma settled_matches d n e :
  Settled d -> Environments d !! n = Some e ->
  exists l, Leases d !! n = Some l /\ MatchesEnvironment (lease_binding l) e = true.
Proof. intros H He. by apply (settled_envs d H) in He as [_ ?]. Qed.

Lemma settled_normal_environments d : Settled d -> normalize_environments d = d.
Proof.
  intros H. unfold normalize_environments. rewrite map_imap_same.
  - assert (Leases d ∪ map_imap (fun name environment =>
      if environmentSupportsLease environment then Some (synthesized_lease name environment) else None)
      (Environments d) = Leases d) as ->.
    { apply map_eq. intros k. rewrite lookup_union, map_lookup_imap.
      destruct (Environments d !! k) as [e|] eqn:He; simpl; [|by rewrite (right_id_L None _)].
      destruct (settled_matches d k e H He) as (l & -> & _). by destruct (environmentSupportsLease e). }
    by destruct d.
  - intros k e He. apply (settled_envs d H) in He as (Hn & l & _ & Hm). apply matches_fields in Hm as (_ & _ & Hne & _).
    unfold normal_environment. by rewrite bool_decide_eq_false_2.
Qed.

Lemma settled_normal_lease d n l : Settled d -> Leases d !! n = Some l -> normal_lease d n l = l.
Proof.
  intros H Hl. pose proof (settled_leases d H n l Hl) as (Hid & Hne & _ & _ & Hst & _). unfold normal_lease.
  rewrite (bool_decide_eq_false_2 (lease_EnvironmentID l = "")) by congruence.
  rewrite (bool_decide_eq_false_2 (lease_State l = "")) by (destruct Hst as [->|[->| ->]]; done).
  case_bool_decide as Hr; [|done]. destruct (Environments d !! n) as [e|] eqn:He; [|done].
  destruct (settled_matches d n e H He) as (l' & Hl' & Hm). simplify_eq. by apply matches_fields in Hm as (_ & _ & _ & _ & _ & ? & _).
Qed.

Lemma valid_run_normal n run : validateEphemeralRun run = Ok tt -> normal_run n run = run.
Proof.
  unfold validateEphemeralRun. rewrite !reject_ok, orb_false_iff, bool_decide_eq_false. intros (_ & _ & (Hid & _) & Hst & _).
  unfold normal_run. rewrite (bool_decide_eq_false_2 (run_EnvironmentID run = "")) by done. simpl.
  destruct (decide (run_State run = "")) as [Hs|Hs]; [rewrite Hs in Hst; by vm_compute in Hst|by rewrite bool_decide_eq_false_2].
Qed.

Lemma settled_env_ref d n e : Settled d -> Environments d !! n = Some e -> env_ref_ok d n e.
Proof.
  intros H He _. destruct (settled_matches d n e H He) as (l & Hl & Hm). apply matches_fields in Hm.
  exists l. split; [done|]. by destruct_and!.
Qed.

Lemma settled_resource_state d : Settled d -> validatePersistentResourceState d = Ok tt.
Proof.
  intros H. apply validatePersistentResourceState_ok; [apply H|].
  destruct (settled_resources d H) as (H1 & H2 & H3). split_and!; try done.
  - intros id r Hr. by destruct (H1 id r Hr) as (? & _ & ?).
  - intros n e. by apply settled_env_ref.
Qed.

Lemma lease_wf_source d n l : lease_wf d n l -> lease_source_body d n l = Ok tt.
Proof. intros H. apply H. Qed.

Ltac ok_bind H := rewrite H; cbn [mbind result_bind].

Lemma settled_normal d : Settled d -> normalizeEnvironmentState d = Ok d.
Proof.
  intros H. pose proof (settled_version d H) as HV.
  pose proof (settled_commit d H) as Hc. apply validateCommit_ok in Hc as (H1 & H2 & H3 & H4).
  unfold normalizeEnvironmentState, migrate_restores. ok_bind H1. rewrite HV.
  replace (environmentStateVersion =? 16)%Z with false by reflexivity. rewrite HV.
  replace (supportedEnvironmentStateVersion environmentStateVersion) with true by reflexivity.
  replace (environmentStateVersion =? 8)%Z with false by reflexivity. cbn [negb]. ok_bind H2.
  ok_bind (settled_copies d H). ok_bind (settled_assets d H). ok_bind (settled_snapshots d H).
  rewrite (settled_restores d H). ok_bind (eq_refl : range_map (restore_body d) ∅ = Ok tt).
  rewrite settled_normal_environments by done.
  ok_bind (proj2 (range_map_ok (lease_source_body d) (Leases d)) (fun n l Hl => lease_wf_source d n l (settled_leases d H n l Hl))).
  rewrite (map_imap_same (normal_lease d)) by (intros; by apply settled_normal_lease).
  pose proof (proj1 (validateEphemeralIdentities_ok d) H4) as (Hr & _).
  replace (with_EphemeralRuns (map_imap (fun id run => Some (normal_run id run)) (EphemeralRuns (with_Leases (Leases d) d)))
    (with_Leases (Leases d) d)) with d.
  2:{ rewrite (map_imap_same normal_run); [by destruct d|]. intros n run Hrun. apply valid_run_normal.
      by apply Hr in Hrun as (_ & ? & _). }
  ok_bind H4. ok_bind (settled_resource_state d H). ok_bind H3. by rewrite with_Version_same.
Qed.

(** ** Frame lemmas for the resource part *)

(** Nothing names [id]: no copy in flight reads it and no lease holds it. *)
Definition unreferenced (d : environmentFileState) (id : string) : Prop :=
  (forall k r, PersistentResources d !! k = Some r -> res_CopySource r <> zeroRef -> ref_ID (res_CopySource r) <> id) /\
  (forall n l, Leases d !! n = Some l -> lease_PersistentResource l <> zeroRef ->
     ref_ID (lease_PersistentResource l) <> id).

(** A record that is absent or not ready is never referenced. *)
Lemma not_ready_unreferenced d id :
  resources_ok d -> (forall r, PersistentResources d !! id = Some r -> res_State r <> "ready") -> unreferenced d id.
Proof.
  intros (Hres & Hleases & _) Hnr. split.
  - intros k r Hr Hz <-. destruct (Hres k r Hr) as (_ & _ & _ & _ & Hc).
    destruct (Hc Hz) as (source & Hs & (_ & Hready & _) & _). by apply (Hnr source).
  - intros n l Hl Hz <-. destruct (Hleases n l Hl Hz) as (r & Hr & _ & Hready & _). by apply (Hnr r).
Qed.

(** A copy whose source lives under another key than the changed one. *)
Definition copy_from (d : environmentFileState) (id : string) (r : PersistentResource) : Prop :=
  res_CopySource r <> zeroRef -> exists source,
    PersistentResources d !! ref_ID (res_CopySource r) = Some source /\ ref_ID (res_CopySource r) <> id /\
    copy_pair source r /\ copy_fence d source r.

Lemma resource_wf_frame d m id k r :
  (forall k, k <> id -> m !! k = PersistentResources d !! k) ->
  (res_CopySource r <> zeroRef -> ref_ID (res_CopySource r) <> id) ->
  resource_wf d k r -> resource_wf (with_PersistentResources m d) k r.
Proof.
  intros Hm Hne (H1 & H2 & H3 & H4 & H5). split_and!; [done..|]. split_and!; [done..|].
  intros Hz. destruct (H5 Hz) as (source & Hs & Hp & Hf). exists source. split; [|done].
  cbn. by rewrite Hm by auto.
Qed.

Lemma resources_ok_update d m id :
  resources_ok d -> unreferenced d id -> (forall k, k <> id -> m !! k = PersistentResources d !! k) ->
  (forall r, m !! id = Some r -> record_ok id r /\ record_extra r /\ copy_local r /\
     (res_RestoreSource r <> "" -> snapshot_ready d (res_RestoreSource r)) /\ copy_from d id r) ->
  resources_ok (with_PersistentResources m d).
Proof.
  intros (Hres & Hleases & Huniq) [Hu1 Hu2] Hm Hid. split_and!; [| |done].
  - intros k r Hr. cbn in Hr. destruct (decide (k = id)) as [->|Hk].
    + destruct (Hid r Hr) as (H1 & H2 & H3 & H4 & H5). split_and!; [done..|]. split_and!; [done..|].
      intros Hz. destruct (H5 Hz) as (source & Hs & Hne & Hp & Hf). exists source. split; [|done].
      cbn. by rewrite Hm.
    + rewrite Hm in Hr by done. apply (resource_wf_frame d m id); eauto.
  - intros n l Hl Hz. destruct (Hleases n l Hl Hz) as (r & Hr & ?). exists r. split; [|done].
    cbn. rewrite Hm; [done|]. by eapply Hu2.
Qed.

(** The lease is bound to no source of a copy in flight. *)
Definition lease_quiet (d : environmentFileState) (l : WorkspaceLease) : Prop :=
  forall k r source, PersistentResources d !! k = Some r -> res_CopySource r <> zeroRef ->
    PersistentResources d !! ref_ID (res_CopySource r) = Some source -> leaseHasResource l (res_ID source) = false.

(** The lease may be stored under [n]. *)
Definition lease_fits (d : environmentFileState) (n : string) (l : WorkspaceLease) : Prop :=
  lease_ref_ok d l /\ lease_quiet d l /\
  (forall k other, Leases d !! k = Some other -> k <> n -> lease_PersistentResource l <> zeroRef ->
     lease_PersistentResource other <> zeroRef ->
     ref_ID (lease_PersistentResource l) <> ref_ID (lease_PersistentResource other)).

Lemma lease_ref_ok_same d l l' : lease_same l l' -> lease_ref_ok d l -> lease_ref_ok d l'.
Proof.
  intros (_ & _ & H3 & H4 & H5 & H6 & H7 & _). unfold lease_ref_ok, resourceMaintenanceLease.
  by rewrite H3, H4, H5, H6, H7.
Qed.

Lemma lease_quiet_same d l l' : lease_same l l' -> lease_quiet d l -> lease_quiet d l'.
Proof.
  intros (H1 & _ & H3 & _). unfold lease_quiet, leaseHasResource. by rewrite H1, H3.
Qed.

Lemma lease_same_fits d n l l' :
  resources_ok d -> Leases d !! n = Some l -> lease_same l l' -> lease_quiet d l -> lease_fits d n l'.
Proof.
  intros (_ & Hleases & Huniq) Hl Hs Hq. split_and!.
  - eapply lease_ref_ok_same; eauto.
  - eapply lease_quiet_same; eauto.
  - intros k other Ho Hk Hz Hz' He. destruct Hs as (_ & _ & Hs & _). rewrite Hs in *.
    apply Hk. by eapply Huniq.
Qed.

(** The leases and Environments change at one key only. *)
Lemma environmentGenerationCopy_frame d d' source r l :
  Environments d' !! lease_EnvironmentID l = Environments d !! lease_EnvironmentID l ->
  environmentGenerationCopy d' source r l = environmentGenerationCopy d source r l.
Proof. intros H. unfold environmentGenerationCopy, read_or. by rewrite H. Qed.

Lemma resources_ok_leases d d' n :
  resources_ok d -> (forall k l, Leases d !! k = Some l -> lease_EnvironmentID l = k) ->
  PersistentResources d' = PersistentResources d -> Snapshots d' = Snapshots d ->
  EphemeralRuns d' = EphemeralRuns d ->
  (forall k, k <> n -> Environments d' !! k = Environments d !! k) ->
  (forall k, k <> n -> Leases d' !! k = Leases d !! k) ->
  (forall l, Leases d' !! n = Some l -> lease_fits d n l) ->
  resources_ok d'.
Proof.
  intros (Hres & Hleases & Huniq) Hkey HP HS HR HE HL Hn.
  assert (forall l, resourceMaintenanceLease d' l = resourceMaintenanceLease d l) as HM
    by (intros l; unfold resourceMaintenanceLease; by rewrite HR).
  split_and!.
  - intros k r Hr. rewrite HP in Hr. destruct (Hres k r Hr) as (H1 & H2 & H3 & H4 & H5).
    split_and!; [done..|]. split_and!; [done|unfold snapshot_ready; by rewrite HS|].
    intros Hz. destruct (H5 Hz) as (source & Hs & Hp & Hf). exists source. rewrite HP. split_and!; [done..|].
    intros k' l Hl Hhas. destruct (decide (k' = n)) as [->|Hk'].
    + destruct (Hn l Hl) as (_ & Hq & _). by rewrite (Hq k r source) in Hhas.
    + rewrite HL in Hl by done. rewrite (environmentGenerationCopy_frame d); [by eapply Hf|].
      rewrite HE; [done|]. by rewrite (Hkey k' l).
  - intros k l Hl. unfold lease_ref_ok. rewrite HP, HM. destruct (decide (k = n)) as [->|Hk].
    + by apply (Hn l Hl).
    + rewrite HL in Hl by done. by apply (Hleases k).
  - intros n1 n2 l1 l2 Hl1 Hl2 Hz1 Hz2 He.
    destruct (decide (n1 = n)) as [->|Hn1], (decide (n2 = n)) as [->|Hn2]; [done| | |].
    + rewrite HL in Hl2 by done. destruct (Hn l1 Hl1) as (_ & _ & Hu). by destruct (Hu n2 l2).
    + rewrite HL in Hl1 by done. destruct (Hn l2 Hl2) as (_ & _ & Hu). by destruct (Hu n1 l1).
    + rewrite HL in Hl1, Hl2 by done. by eapply Huniq.
Qed.
