(* ===== verification/Transactions.v ===== *)
(** * Transactions

    What a transaction can do to the catalog file, whatever fails around it,
    and the rule that lifts a proof about a closure to the operation that runs
    it. *)

From S2P Require Import Prelude GoText Core CoreChecks CatalogState CatalogChecks Catalog CatalogSpec Settled.
From Stdlib Require Import String.
Open Scope string_scope.

(** The catalog a reader of this disk starts from. *)
Definition catalog_of (k : disk) : environmentFileState :=
  match committed k with
  | Contents d => d
  | _ => newEnvironmentFileState
  end.

(** A file the catalog path may name: nothing, or a settled catalog on stable
    storage. *)
Definition settled_file (f : file * bool) : Prop :=
  f.2 = true /\ (f.1 = NoFile \/ exists d, f.1 = Contents d /\ Settled d).

(** Whatever the catalog path names now, or may name after a power loss. *)
Definition settled_disk (k : disk) : Prop :=
  settled_file (committed k, committed_synced k) /\ Forall settled_file (stale k).

(** The same files, whatever the temporary file is. *)
Definition same_files (k k' : disk) : Prop :=
  committed k' = committed k /\ committed_synced k' = committed_synced k /\ stale k' = stale k.

(** The disk after a commit of [d]; [failed] says that the directory sync failed. *)
Definition written (d : environmentFileState) (k : disk) (failed : bool) : disk :=
  mkDisk (Contents (with_Version environmentStateVersion d)) true
    (if failed then (committed k, committed_synced k) :: stale k else []) None.

(** An operation run on a settled disk whose catalog satisfies [P] leaves a
    settled disk, and evolves the catalog. *)
Definition Keeps {A} (P : environmentFileState -> Prop) (op : operation A) : Prop :=
  forall flt k k' r, settled_disk k -> P (catalog_of k) -> op flt k = (k', r) ->
    settled_disk k' /\ Evolves (catalog_of k) (catalog_of k').

(** A closure does the same to the state it is given. *)
Definition keeps {A} (P : environmentFileState -> Prop) (fn : change A) : Prop :=
  forall d d' b a, Settled d -> P d -> fn d = Ok (d', b, a) -> validateCommit d' = Ok tt ->
    Settled d' /\ Evolves d d'.

Definition anywhere : environmentFileState -> Prop := fun _ => True.

(** ** Commits *)

Lemma writeEnvironments_cases fault d k k' r :
  writeEnvironments fault d k = (k', r) ->
  (same_files k k' /\ exists e, r = Err e) \/
  (validateCommit d = Ok tt /\ k' = written d k (bool_decide (fault = Some SyncDir)) /\ r = Ok tt).
Proof.
  unfold writeEnvironments. destruct (validateCommit d) as [[]|e] eqn:E; [|intros [= <- <-]; left; split; [done|eauto]].
  destruct fault as [[]|]; vm_compute write_steps; simpl; intros [= <- <-]; first [right; by eauto | left; split; [done|by eauto]].
Qed.

Lemma commit_cases {A} flt d (a : A) k k' r :
  commit flt d a k = (k', r) ->
  (same_files k k' /\ exists e, r = Err e) \/
  (validateCommit d = Ok tt /\ k' = written d k (bool_decide (write_fault flt = Some SyncDir)) /\ r = Ok a).
Proof.
  unfold commit. destruct (writeEnvironments (write_fault flt) d k) as [k1 r1] eqn:E.
  apply writeEnvironments_cases in E as [(? & e & ->)|(? & -> & ->)]; intros [= <- <-]; [left; eauto|right; eauto].
Qed.

(** ** Transactions *)

(** Either nothing was committed, or the closure was dirty and its state
    passed the commit validators and is the catalog now. *)
Definition transacted {A} (fn : change A) (flt : faults) (k k' : disk) (r : result A) : Prop :=
  (same_files k k' /\
   (forall a, r = Ok a -> exists d, readEnvironments k = Ok d /\ exists d', fn d = Ok (d', false, a))) \/
  (exists d d' a, readEnvironments k = Ok d /\ fn d = Ok (d', true, a) /\ validateCommit d' = Ok tt /\
     k' = written d' k (bool_decide (write_fault flt = Some SyncDir)) /\ r = Ok a).

Lemma dirty_cases {A} (fn : change A) flt d d' b a k k' r :
  readEnvironments k = Ok d -> fn d = Ok (d', b, a) ->
  (if negb b then (k, Ok a) else commit flt d' a k) = (k', r) -> transacted fn flt k k' r.
Proof.
  intros Hr Hf. destruct b; simpl.
  - intros H. apply commit_cases in H as [(? & e & ->)|(? & -> & ->)]; [left; split_and!; naive_solver|].
    right. exists d, d', a. done.
  - intros [= <- <-]. left. split; [done|]. intros a' [= <-]. eauto.
Qed.

Lemma lockedTransaction_cases {A} (fn : change A) flt k k' r :
  lockedTransaction fn flt k = (k', r) -> transacted fn flt k k' r.
Proof.
  unfold lockedTransaction. destruct (lock_fails flt); [intros [= <- <-]; left; by split|].
  destruct (readEnvironments k) as [d|e] eqn:Hr; [|intros [= <- <-]; left; by split].
  destruct (fn d) as [[[d' b] a]|e] eqn:Hf; [|intros [= <- <-]; left; by split].
  by apply dirty_cases with d.
Qed.

Lemma catalogTransaction_cases {A} (fn : change A) flt k k' r :
  catalogTransaction fn flt k = (k', r) -> transacted fn flt k k' r.
Proof.
  unfold catalogTransaction. destruct (ctx_before flt); [intros [= <- <-]; left; by split|].
  destruct (lock_fails flt); [intros [= <- <-]; left; by split|].
  destruct (readEnvironments k) as [d|e] eqn:Hr; [|intros [= <- <-]; left; by split].
  destruct (fn d) as [[[d' b] a]|e] eqn:Hf; [|intros [= <- <-]; left; by split].
  destruct b; simpl; [destruct (ctx_after flt); [intros [= <- <-]; left; by split|]|].
  - by apply (dirty_cases fn flt d d' true).
  - by apply (dirty_cases fn flt d d' false).
Qed.

(** ** The lifting rules *)

Lemma settled_new : Settled newEnvironmentFileState.
Proof.
  constructor; done.
Qed.

Lemma settled_disk_catalog k : settled_disk k -> Settled (catalog_of k).
Proof.
  intros ((_ & [H|(d & H & Hd)]) & _); cbn in H; unfold catalog_of; rewrite H; [apply settled_new|done].
Qed.

Lemma settled_disk_read k : settled_disk k -> readEnvironments k = Ok (catalog_of k).
Proof.
  intros H. pose proof (settled_disk_catalog k H) as Hs. unfold readEnvironments, catalog_of in *.
  destruct H as ((_ & [H|(d & H & Hd)]) & _); cbn in H; rewrite H in *; [done|]. by apply settled_normal.
Qed.

Lemma settled_disk_unchanged k k' :
  settled_disk k -> same_files k k' -> settled_disk k' /\ Evolves (catalog_of k) (catalog_of k').
Proof.
  intros [H1 H2] (Hc & Hs & Ht). unfold settled_disk, catalog_of. rewrite Hc, Hs, Ht. auto with catalog.
Qed.

Lemma settled_disk_written k d' failed :
  settled_disk k -> Settled d' -> Evolves (catalog_of k) d' ->
  settled_disk (written d' k failed) /\ Evolves (catalog_of k) (catalog_of (written d' k failed)).
Proof.
  intros [H1 H2] H He. unfold written. rewrite with_Version_same by apply H. split; [|done].
  split; [split; [done|right; eauto]|]. destruct failed; [by constructor|done].
Qed.

Lemma transacted_keeps {A} P (fn : change A) flt k k' r :
  keeps P fn -> settled_disk k -> P (catalog_of k) -> transacted fn flt k k' r ->
  settled_disk k' /\ Evolves (catalog_of k) (catalog_of k').
Proof.
  intros Hfn Hk HP [(Hc & _)|(d & d' & a & Hr & Hf & Hv & -> & _)]; [by apply settled_disk_unchanged|].
  rewrite settled_disk_read in Hr by done. injection Hr as <-.
  destruct (Hfn (catalog_of k) d' true a) as [? ?]; [by apply settled_disk_catalog|done..|].
  by apply settled_disk_written.
Qed.

Lemma Keeps_locked {A} P (fn : change A) : keeps P fn -> Keeps P (lockedTransaction fn).
Proof. intros Hfn flt k k' r Hk HP H. eapply transacted_keeps; eauto. by eapply lockedTransaction_cases. Qed.

Lemma Keeps_catalog {A} P (fn : change A) : keeps P fn -> Keeps P (catalogTransaction fn).
Proof. intros Hfn flt k k' r Hk HP H. eapply transacted_keeps; eauto. by eapply catalogTransaction_cases. Qed.

Lemma Keeps_resource {A} P (fn : environmentFileState -> result (environmentFileState * A)) :
  (forall d d' a, Settled d -> P d -> fn d = Ok (d', a) -> validateCommit d' = Ok tt -> Settled d' /\ Evolves d d') ->
  Keeps P (resourceTransaction fn).
Proof.
  intros Hfn. apply Keeps_locked. intros d d' b a Hd HP H Hv.
  apply bind_ok in H as ([d1 a1] & Hf & [= <- <- <-]). by eapply Hfn.
Qed.

Lemma Keeps_guard {A} P (b : bool) e (op : operation A) :
  (b = false -> Keeps P op) -> Keeps P (if b then refuse e else op).
Proof.
  destruct b; [intros _|auto]. intros flt k k' r Hk _ [= <- <-]. split; [done|auto with catalog].
Qed.

Lemma Keeps_checked {A} P (c : result unit) (op : operation A) :
  (c = Ok tt -> Keeps P op) -> Keeps P (match c with Ok _ => op | Err e => refuse e end).
Proof.
  destruct c as [[]|]; [auto|intros _]. intros flt k k' r Hk _ [= <- <-]. split; [done|auto with catalog].
Qed.

(** A closure that never changes the state. *)
Lemma keeps_observe {A} P (fn : change A) :
  (forall d d' b a, fn d = Ok (d', b, a) -> d' = d) -> keeps P fn.
Proof. intros H d d' b a Hd _ Hf _. apply H in Hf as ->. auto with catalog. Qed.
