(* ===== verification/ResourceProofs.v ===== *)
(** * Resource operations keep the catalog settled

    Every operation of [Resources] against the invariant of [Settled].  The
    arguments a caller must not pass are the named contracts; each of them is
    a property of the record the caller builds. *)

From S2P Require Import Prelude GoText Core CoreChecks CatalogState CatalogChecks Catalog Resources.
From S2P Require Import CatalogSpec Settled Transactions.
From Stdlib Require Import String.
Open Scope string_scope.

(** ** Shared facts *)

Lemma valid_ref_nonempty r : ValidPersistentResourceRef r = true -> ref_ID r <> "" /\ r <> zeroRef.
Proof.
  intros H. assert (ref_ID r <> "") by (intros E; unfold ValidPersistentResourceRef in H; by rewrite E in H).
  split; [done|]. by intros ->.
Qed.

Lemma settled_wf d id r : Settled d -> PersistentResources d !! id = Some r -> resource_wf d id r.
Proof. intros H. apply (settled_resources d H). Qed.

Lemma settled_id d id r : Settled d -> PersistentResources d !! id = Some r -> res_ID r = id.
Proof. intros H Hr. apply (settled_wf d id r H) in Hr as ((_ & _ & -> & _) & _). done. Qed.

Lemma settled_with_resources d m :
  Settled d -> validateCommit (with_PersistentResources m d) = Ok tt ->
  resources_ok (with_PersistentResources m d) -> Settled (with_PersistentResources m d).
Proof. intros H Hv Hr. destruct H. by constructor. Qed.

(** The facts a changed record must satisfy on its own. *)
Definition record_fits (d : environmentFileState) (id : string) (r : PersistentResource) : Prop :=
  record_ok id r /\ record_extra r /\ copy_local r /\
  (res_RestoreSource r <> "" -> snapshot_ready d (res_RestoreSource r)) /\ copy_from d id r.

(** One key of the resource map changes. *)
Lemma update_keeps d m id :
  Settled d -> unreferenced d id -> (forall k, k <> id -> m !! k = PersistentResources d !! k) ->
  (forall r, m !! id = Some r -> record_fits d id r) ->
  (forall r r', PersistentResources d !! id = Some r -> m !! id = Some r' -> same_identity r r') ->
  validateCommit (with_PersistentResources m d) = Ok tt ->
  Settled (with_PersistentResources m d) /\ Evolves d (with_PersistentResources m d).
Proof.
  intros H Hu Hm Hfit Hsame Hv. split.
  - apply settled_with_resources; [done..|]. by apply (resources_ok_update d m id); [apply H|..].
  - evolves. by apply (related_at _ _ _ id); auto with catalog.
Qed.

Lemma put_keeps d id r' :
  Settled d -> unreferenced d id -> record_fits d id r' ->
  (forall r, PersistentResources d !! id = Some r -> same_identity r r') ->
  validateCommit (with_PersistentResources (<[id:=r']> (PersistentResources d)) d) = Ok tt ->
  Settled (with_PersistentResources (<[id:=r']> (PersistentResources d)) d) /\
  Evolves d (with_PersistentResources (<[id:=r']> (PersistentResources d)) d).
Proof.
  intros H Hu Hfit Hsame Hv. apply (update_keeps d _ id); auto.
  - intros k Hk. by rewrite lookup_insert_ne.
  - intros r. rewrite lookup_insert_eq. by intros [= <-].
  - intros r r1 Hr. rewrite lookup_insert_eq. intros [= <-]. by apply Hsame.
Qed.

(** The state in which a record may still name its copy source. *)
Definition copying (r : PersistentResource) : Prop :=
  res_State r = "creating" \/ (res_State r = "deleting" /\ res_CopyCleanup r = true) \/
  (res_State r = "planned" /\ res_EnvironmentInstance r <> "").
Definition publishing (r : PersistentResource) : Prop :=
  res_State r = "creating" \/ (res_State r = "deleting" /\ res_CopyCleanup r = true).

(** The record moves on while its copy stays in flight. *)
Definition copy_progress (r r' : PersistentResource) : Prop :=
  same_identity r r' /\ res_CopySource r' = res_CopySource r /\ res_RestoreSource r' = res_RestoreSource r /\
  (res_CopySource r <> zeroRef -> copying r -> copying r') /\ (publishing r -> publishing r').

Lemma publishing_guard r :
  (res_State r != "creating") && ((res_State r != "deleting") || negb (res_CopyCleanup r)) = false <-> publishing r.
Proof. unfold publishing. bool_prop. tauto. Qed.

Lemma generation_copy_progress d source r r' l :
  copy_progress r r' -> environmentGenerationCopy d source r l = true -> environmentGenerationCopy d source r' l = true.
Proof.
  intros ((H1 & H2 & H3 & H4 & H5 & H6 & H7 & H8 & H9) & Hc & Hrs & _ & Hp). unfold environmentGenerationCopy.
  destruct (_ || negb (MatchesEnvironment _ _)); [done|]. rewrite H1, H2, H4, H5, H6, H7, H8, Hc, Hrs.
  destruct ((res_State r != "creating") && ((res_State r != "deleting") || negb (res_CopyCleanup r))) eqn:E.
  { rewrite !orb_true_r. by intros. }
  apply publishing_guard, Hp, publishing_guard in E. by rewrite E.
Qed.

Lemma copy_from_progress d id r r' :
  Settled d -> PersistentResources d !! id = Some r -> copy_progress r r' -> copy_from d id r'.
Proof.
  intros Hd Hr Hpr Hz. pose proof Hpr as ((H1 & H2 & H3 & H4 & H5 & H6 & H7 & H8 & H9) & Hc & Hrs & Hcp & Hp).
  rewrite Hc in *. destruct (settled_wf d id r Hd Hr) as (Hok & _ & _ & _ & Hcopy).
  destruct (Hcopy Hz) as (source & Hs & (Hst & Hrest) & Hf). exists source. split; [done|].
  apply (settled_id _ _ _ Hd) in Hs as Hsid. apply (settled_id _ _ _ Hd) in Hr as Hrid.
  destruct_and! Hrest. split_and!; [congruence| |].
  - injection H1 as E1 E2. unfold copy_pair. rewrite Hc, H2, H3, E1, E2. split_and!; auto. by apply Hcp.
  - intros n l Hl Hh. apply (generation_copy_progress d source r r' l Hpr). by apply (Hf n).
Qed.

Lemma resource_same d r : resource_differs d r = false -> PersistentResources d !! res_ID r = Some r.
Proof. unfold resource_differs. by rewrite negb_false_iff, bool_decide_eq_true. Qed.

(** The stored record [r] is replaced by a later version of itself. *)
Lemma step_keeps d r r' :
  Settled d -> PersistentResources d !! res_ID r = Some r -> res_State r <> "ready" -> same_identity r r' ->
  record_fits d (res_ID r) r' ->
  validateCommit (with_PersistentResources (<[res_ID r:=r']> (PersistentResources d)) d) = Ok tt ->
  Settled (with_PersistentResources (<[res_ID r:=r']> (PersistentResources d)) d) /\
  Evolves d (with_PersistentResources (<[res_ID r:=r']> (PersistentResources d)) d).
Proof.
  intros H Hr Hst Hsame Hfit Hv. apply put_keeps; try done.
  - apply not_ready_unreferenced; [apply H|]. intros ? ?. by simplify_eq.
  - intros ? ?. by simplify_eq.
Qed.

Lemma new_keeps d r :
  Settled d -> PersistentResources d !! res_ID r = None -> record_fits d (res_ID r) r ->
  validateCommit (put_resource r d) = Ok tt -> Settled (put_resource r d) /\ Evolves d (put_resource r d).
Proof.
  intros H Hn Hfit Hv. apply put_keeps; try done; [|congruence].
  apply not_ready_unreferenced; [apply H|congruence].
Qed.

Lemma receipt_fields r :
  validCacheCopyReceipt r = true <->
  ValidGenerationResource (Ref r) = true /\ res_SourceOnly r = true /\ res_EnvironmentInstance r = "" /\
  res_WorkspaceID r = "" /\ res_RestoreSource r = "" /\
  ValidResourceGeneration (res_PublicationOrigin r) = true /\ res_Kind r = "build-cache" /\
  gen_Kind (res_PublicationOrigin r) = res_Kind r /\ ValidEnvironmentResourceRef (res_Producer r) = true /\
  res_CopySource r = res_Producer r /\ res_CopyOperation r <> "" /\ (len (res_CopyOperation r) <= 256)%Z /\
  publishing r.
Proof.
  unfold validCacheCopyReceipt, publishing.
  rewrite !andb_true_iff, orb_true_iff, andb_true_iff, negb_true_iff, !bool_decide_eq_true, bool_decide_eq_false, Z.leb_le.
  tauto.
Qed.

Lemma valid_env_ref r : ValidEnvironmentResourceRef r = true -> ValidPersistentResourceRef r = true.
Proof. unfold ValidEnvironmentResourceRef. rewrite !andb_true_iff. tauto. Qed.

Lemma valid_generation_ref r : ValidGenerationResource r = true -> ValidPersistentResourceRef r = true.
Proof. unfold ValidGenerationResource. rewrite !andb_true_iff. tauto. Qed.

Lemma receipt_source r : validCacheCopyReceipt r = true -> res_CopySource r <> zeroRef.
Proof.
  intros H. apply receipt_fields in H. destruct_and! H.
  assert (ValidPersistentResourceRef (res_Producer r) = true) as Hp by by apply valid_env_ref.
  apply valid_ref_nonempty in Hp as [_ ?]. congruence.
Qed.

(** Only a published copy of Environment data carries a receipt. *)
Lemma receipt_absent r :
  copy_local r -> (res_SourceOnly r = false \/ ~ publishing r \/ res_RestoreSource r <> "") ->
  res_CopyOperation r = "" /\ res_CopyCleanup r = false.
Proof.
  intros (_ & _ & Hc & _) Hno.
  assert (validCacheCopyReceipt r = false) as Hf.
  { apply not_true_iff_false. intros H. apply receipt_fields in H. destruct_and! H. intuition congruence. }
  split; [destruct (decide (res_CopyOperation r = "")) as [|Hn]; [done|]|destruct (res_CopyCleanup r) eqn:Hn; [|done]];
    (destruct Hc as [Hc _]; [tauto|congruence]).
Qed.

(** [fits] proves the facts of a record from those of the version it replaces. *)
Ltac fits := split_and!;
  [ unfold record_ok in *; cbn; intuition congruence
  | unfold record_extra in *; cbn; intuition congruence
  | unfold copy_local, validCacheCopyReceipt in *; cbn; intuition congruence
  | cbn; intuition congruence
  | ].

(** No copy is in flight in the new version. *)
Lemma copy_from_none d id r : res_CopySource r = zeroRef -> copy_from d id r.
Proof. by intros H ?. Qed.

(** ** Retained resources *)

Definition create_contract (r : PersistentResource) : Prop :=
  res_ImportPending r = false /\ res_CopyOperation r = "" /\ res_CopyCleanup r = false /\
  (res_SourceOnly r = true -> res_WorkspaceID r = "").

Lemma BeginPersistentResourceCreate_keeps r :
  create_contract r -> Keeps anywhere (BeginPersistentResourceCreate r).
Proof.
  intros (HI & HO & HC & HW). apply Keeps_guard. intros Hg. bool_hyps. apply Keeps_resource. intros d d' [] Hd _ Hf Hv.
  apply reject_ok in Hf as [Hs [= <-]]. bool_hyps. apply new_keeps; try done. fits. by apply copy_from_none.
Qed.

Lemma MarkPersistentResourceCopyCompleted_keeps r : Keeps anywhere (MarkPersistentResourceCopyCompleted r).
Proof.
  apply Keeps_guard. intros Hg. bool_hyps. apply Keeps_resource. intros d d' [] Hd _ Hf Hv.
  apply reject_ok in Hf as [Hs [= <-]]. apply resource_same in Hs.
  destruct (settled_wf d _ r Hd Hs) as (Hok & Hex & Hloc & Hsn & Hcp).
  apply (step_keeps d r); try done; [congruence|]. fits.
  apply (copy_from_progress d _ r); [done..|]. repeat split; auto.
Qed.

Lemma CommitPersistentResourceCreate_keeps r : Keeps anywhere (CommitPersistentResourceCreate r).
Proof.
  apply Keeps_resource. intros d d' [] Hd _ Hf Hv. unfold CommitPersistentResourceCreate_change in Hf.
  rewrite !reject_ok in Hf. destruct Hf as (Hg & _ & _ & _ & [= <-]). bool_hyps.
  apply resource_same in H. apply andb_false_iff in H0. rewrite !negb_false_iff, !bool_decide_eq_true in H0.
  destruct (settled_wf d _ r Hd H) as (Hok & Hex & Hloc & Hsn & Hcp).
  apply (step_keeps d r); try done; [intuition congruence|]. fits. by apply copy_from_none.
Qed.

Lemma RecordPersistentResourceCreated_keeps r : Keeps anywhere (RecordPersistentResourceCreated r).
Proof.
  apply Keeps_guard. intros Hg. bool_hyps. apply Keeps_resource. intros d d' [] Hd _ Hf Hv.
  apply reject_ok in Hf as [Hs [= <-]]. apply resource_same in Hs.
  destruct (settled_wf d _ r Hd Hs) as (Hok & Hex & Hloc & Hsn & Hcp).
  destruct (receipt_absent r Hloc) as [Hop Hcl]; [tauto|].
  apply (step_keeps d r); try done; [congruence|]. fits.
  apply copy_from_none. cbn. unfold copy_local in Hloc. tauto.
Qed.

(** ** Cache copy receipts *)

Lemma stored_resource d id r :
  read_or zeroResource (PersistentResources d) id = r -> ValidPersistentResourceRef (Ref r) = true ->
  PersistentResources d !! id = Some r.
Proof.
  unfold read_or. destruct (PersistentResources d !! id) as [s|]; simpl; [by intros ->|]. by intros <-.
Qed.

Lemma replace_keeps d r r' a b :
  Settled d -> copy_progress r r' -> validCacheCopyReceipt r' = true -> res_State r <> "ready" ->
  (resource_wf d (res_ID r) r -> record_ok (res_ID r) r' /\ record_extra r' /\ copy_local r') ->
  replace_resource_change r r' d = Ok (a, b) -> validateCommit a = Ok tt -> Settled a /\ Evolves d a.
Proof.
  intros Hd Hp Hrc Hst Hloc Hf Hv. apply reject_ok in Hf as [Hs [= <- <-]].
  rewrite negb_false_iff, bool_decide_eq_true in Hs.
  apply receipt_fields in Hrc as (Hgen & _ & _ & _ & Hrs & _).
  assert (PersistentResources d !! res_ID r = Some r) as Hr.
  { apply stored_resource; [done|]. destruct Hp as ((<- & _) & _). by apply valid_generation_ref. }
  destruct (Hloc (settled_wf d _ r Hd Hr)) as (H1 & H2 & H3).
  apply (step_keeps d r); try done; [by apply Hp|]. split_and!; try done.
  by apply (copy_from_progress d _ r).
Qed.

Lemma RecordCacheCopyOperation_keeps r op : Keeps anywhere (RecordCacheCopyOperation r op).
Proof.
  unfold RecordCacheCopyOperation. apply Keeps_guard. intros Hg. bool_hyps. apply Keeps_resource. intros d d' a Hd _.
  assert (publishing r) as Hp by (apply receipt_fields in H0; apply H0).
  apply replace_keeps; [done|by repeat split|done|unfold publishing in Hp; intuition congruence|].
  intros (Hok & Hex & Hloc & _). split_and!; [done|done|]. unfold copy_local in *. cbn. intuition congruence.
Qed.

Lemma MarkCacheCopyCleanup_keeps r : Keeps anywhere (MarkCacheCopyCleanup r).
Proof.
  apply Keeps_guard. intros Hg. bool_hyps. apply Keeps_resource. intros d d' a Hd _.
  apply receipt_fields in H as Hr. assert (publishing r) as Hp by apply Hr.
  assert (validCacheCopyReceipt (res_with_CopyCleanup true r) = true) as Hrc.
  { apply receipt_fields. unfold publishing in *. cbn. intuition. }
  apply replace_keeps; [done| |done|unfold publishing in Hp; intuition congruence|].
  - repeat split; unfold copying, publishing in *; cbn; intuition.
  - intros (Hok & Hex & Hloc & _). split_and!; [done|done|]. unfold copy_local in *. cbn. intuition congruence.
Qed.

(** ** Environment resources *)

Lemma envres_record d id r :
  validateEnvironmentResources d = Ok tt -> PersistentResources d !! id = Some r -> res_EnvironmentInstance r <> "" ->
  res_SourceOnly r = false /\ res_WorkspaceID r = "" /\ ValidEnvironmentResourceRef (Ref r) = true.
Proof.
  unfold validateEnvironmentResources. rewrite !bind_unit_ok, bind_ok. intros (_ & _ & held & _ & H) Hr Hi.
  rewrite bind_unit_ok, !range_map_ok in H. destruct H as [_ H]. specialize (H id r Hr). unfold env_resource_record in H.
  rewrite bool_decide_eq_false_2 in H by done. apply reject_ok in H as [H _]. by bool_hyps.
Qed.

Lemma settled_envres d id r :
  Settled d -> PersistentResources d !! id = Some r -> res_EnvironmentInstance r <> "" ->
  res_SourceOnly r = false /\ res_WorkspaceID r = "" /\ ValidEnvironmentResourceRef (Ref r) = true.
Proof. intros H. apply envres_record. apply validateCommit_ok, H. Qed.

Lemma resource_lease_facts d r l :
  environmentResourceLease d r = Some l ->
  res_EnvironmentInstance r <> "" /\ (exists n, Leases d !! n = Some l) /\
  lease_InstanceID l = res_EnvironmentInstance r /\ exists a, a ∈ lease_Attachments l /\ att_Resource a = Ref r.
Proof.
  unfold environmentResourceLease. case_bool_decide as Hi; [done|]. intros H. apply find_some in H as [Hin H].
  apply andb_true_iff in H as [H1 H2]. apply bool_decide_eq_true in H1. apply existsb_exists in H2 as (a & Ha & H2).
  apply bool_decide_eq_true in H2. split_and!; [done| |done|].
  - apply list_elem_of_In, list_elem_of_fmap in Hin as ([n l'] & -> & Hn). exists n. by apply elem_of_map_to_list in Hn.
  - exists a. split; [by apply list_elem_of_In|done].
Qed.

Lemma beginEnvironmentResourceMaterialization_keeps expected ref importing :
  Keeps anywhere (beginEnvironmentResourceMaterialization expected ref importing).
Proof.
  apply Keeps_guard. intros _. apply Keeps_catalog. intros d d' b a Hd _ Hf Hv.
  unfold beginEnvironmentResourceMaterialization_change in Hf.
  destruct (Leases d !! _) as [lease|]; [|done]. apply reject_ok in Hf as [_ Hf].
  destruct (PersistentResources d !! ref_ID ref) as [r|] eqn:Hr; [|done].
  rewrite !reject_ok in Hf. destruct Hf as (_ & Hg & [= <- <- <-]). bool_hyps.
  apply (settled_id _ _ _ Hd) in Hr as Hid. rewrite <- Hid in Hr.
  destruct (settled_wf d _ r Hd Hr) as (Hok & Hex & Hloc & Hsn & Hcp).
  destruct (receipt_absent r Hloc) as [Hop Hcl]; [unfold publishing; intuition congruence|].
  apply (step_keeps d r); try done; [congruence|]. fits.
  apply (copy_from_progress d _ r); [done..|]. repeat split; unfold copying, publishing; cbn; intuition congruence.
Qed.

Lemma RecordEnvironmentResourceCreated_keeps r : Keeps anywhere (RecordEnvironmentResourceCreated r).
Proof.
  apply Keeps_guard. intros Hg. bool_hyps. apply Keeps_catalog. intros d d' b a Hd _ Hf Hv.
  unfold RecordEnvironmentResourceCreated_change in Hf.
  destruct (PersistentResources d !! res_ID r) as [r1|] eqn:Hr; [|done].
  apply reject_ok in Hf as [Hs [= <- <- <-]]. bool_hyps. subst r1.
  destruct (settled_wf d _ r Hd Hr) as (Hok & Hex & Hloc & Hsn & Hcp). destruct (settled_envres d _ r Hd Hr) as (HSO & _); [done|].
  destruct (receipt_absent r Hloc) as [Hop Hcl]; [tauto|]. apply (step_keeps d r); try done; [congruence|]. fits. by apply copy_from_none.
Qed.
