(* ===== verification/CopyProofs.v ===== *)
(** * Copies, clears and deletions keep the catalog settled *)

From S2P Require Import Prelude GoText Core CoreChecks CatalogState CatalogChecks Catalog Resources.
From S2P Require Import CatalogSpec Settled Transactions ResourceProofs.
From Stdlib Require Import String.
Open Scope string_scope.

(** ** Restores from snapshots *)

Definition restore_contract (r : PersistentResource) : Prop :=
  res_ImportPending r = false /\ res_CopyOperation r = "" /\ res_CopyCleanup r = false.

Lemma BeginSnapshotResourceRestore_keeps saved r :
  restore_contract r -> Keeps anywhere (BeginSnapshotResourceRestore saved r).
Proof.
  intros (HI & HO & HC). apply Keeps_guard. intros Hg. bool_hyps. apply Keeps_resource. intros d d' [] Hd _ Hf Hv.
  unfold BeginSnapshotResourceRestore_change in Hf. rewrite !reject_ok in Hf. destruct Hf as (Hs & Hn & [= <-]). bool_hyps.
  assert (snapshot_ready d (res_RestoreSource r)) by (exists saved; split; congruence).
  apply new_keeps; try done. fits. by apply copy_from_none.
Qed.

(** ** Copies *)

(** The facts [reservePersistentResourceCopy] does not check itself. *)
Definition copy_contract (target : PersistentResource) : Prop :=
  res_ImportPending target = false /\ res_RestoreSource target = "" /\
  (res_SourceOnly target = true -> res_WorkspaceID target = "").

Lemma reserve_copy_spec d source target d' :
  reservePersistentResourceCopy d source target = Ok d' ->
  d' = put_resource target d /\ PersistentResources d !! res_ID target = None /\
  PersistentResources d !! res_ID source = Some source /\ res_State source = "ready" /\
  (res_State target = "creating" \/ (res_State target = "planned" /\ res_EnvironmentInstance target <> "")) /\
  ValidPersistentResourceRef (Ref target) = true /\ res_NativeRef target <> "" /\ IsZero (res_CreatedAt target) = false /\
  res_CopySource target = Ref source /\ res_CopyCompleted target = false /\ res_CopyCleanup target = false /\
  res_CopyOperation target = "" /\ res_Kind target = res_Kind source /\ res_ID target <> res_ID source /\
  res_Owner target <> res_Owner source /\ res_NativeRef target <> res_NativeRef source /\
  copy_fence d source target /\ persistentCopyReserved d (res_ID source) = false.
Proof.
  unfold reservePersistentResourceCopy. rewrite !reject_ok. intros (Hg & Hn & Hs & Hr & Hl & _ & [= <-]).
  destruct (PersistentResources d !! res_ID source) as [current|] eqn:Hsrc; [|done]. bool_hyps. subst.
  rewrite map_any_false in Hl.
  assert (copy_fence d source target).
  { intros n l Hnl Hh. specialize (Hl n l Hnl). rewrite Hh in Hl. simpl in Hl. by apply negb_false_iff in Hl. }
  match goal with H : andb _ _ = false |- _ => apply andb_false_iff in H; rewrite orb_false_iff, !negb_false_iff,
    !bool_decide_eq_true, bool_decide_eq_false in H end.
  split_and!; done.
Qed.

Lemma reserve_copy_fits d source target d' :
  resources_ok d -> copy_contract target -> reservePersistentResourceCopy d source target = Ok d' ->
  record_fits d (res_ID target) target.
Proof.
  intros Hd (HI & HR & HW) H. apply reserve_copy_spec in H.
  destruct H as (-> & Hn & Hs & Hready & Hst & Hv & Hnr & Hca & Hcs & Hcc & Hcl & Hop & Hk & Hid & Ho & Hnat & Hf & _).
  destruct (proj1 Hd _ source Hs) as (Hok & _).
  assert (res_Kind target <> "") by (unfold record_ok in Hok; intuition congruence).
  assert (Ref source <> zeroRef) as Hz by (apply valid_ref_nonempty; apply Hok).
  split_and!.
  - unfold record_ok. intuition congruence.
  - unfold record_extra. intuition congruence.
  - unfold copy_local. intuition congruence.
  - congruence.
  - intros _. exists source. rewrite Hcs. cbn. split_and!; [done..| |done].
    unfold copy_pair. rewrite Hcs. intuition.
Qed.

Lemma BeginPersistentResourceCopy_keeps source target :
  copy_contract target -> Keeps anywhere (BeginPersistentResourceCopy source target).
Proof.
  intros Hc. apply Keeps_guard. intros _. apply Keeps_resource. intros d d' [] Hd _ Hf Hv.
  apply bind_ok in Hf as (d1 & Hf & [= <-]). pose proof (reserve_copy_fits _ _ _ _ (settled_resources d Hd) Hc Hf) as Hfit.
  apply reserve_copy_spec in Hf as (-> & Hn & _). by apply new_keeps.
Qed.

Lemma generation_copy_target d source target l :
  environmentGenerationCopy d source target l = true ->
  res_RestoreSource target = "" /\ res_WorkspaceID target = "" /\ res_SourceOnly target = true.
Proof.
  unfold environmentGenerationCopy. destruct (_ || negb (MatchesEnvironment _ _)); [done|].
  destruct (_ || (res_Kind target != res_Kind source)) eqn:E; [done|]. by bool_hyps.
Qed.

Lemma BeginEnvironmentGenerationCopy_keeps expected source target :
  res_ImportPending target = false -> Keeps anywhere (BeginEnvironmentGenerationCopy expected source target).
Proof.
  intros HI. apply Keeps_catalog. intros d d' b a Hd _ Hf Hv. unfold BeginEnvironmentGenerationCopy_change in Hf.
  destruct (Leases d !! _) as [l|]; [|done]. rewrite !reject_ok in Hf. destruct Hf as (Hg & _ & Hf).
  apply bind_ok in Hf as (d1 & Hf & [= <- <- <-]). bool_hyps.
  match goal with H : environmentGenerationCopy _ _ _ _ = true |- _ => apply generation_copy_target in H as (? & ? & ?) end.
  pose proof (reserve_copy_fits _ _ _ _ (settled_resources d Hd) (conj HI (conj H0 (fun _ => H1))) Hf) as Hfit.
  apply reserve_copy_spec in Hf as (-> & Hn & _). by apply new_keeps.
Qed.

(** ** Clearing Environment data *)

Lemma copy_reserved_false d id :
  persistentCopyReserved d id = false ->
  forall k r, PersistentResources d !! k = Some r -> res_CopySource r <> zeroRef -> ref_ID (res_CopySource r) <> id.
Proof.
  unfold persistentCopyReserved. rewrite map_any_false. intros H k r Hr _. specialize (H k r Hr).
  by apply bool_decide_eq_false in H.
Qed.

(** A lease names a store resource of its own, never Environment data. *)
Lemma env_data_not_leased d id r :
  resources_ok d -> PersistentResources d !! id = Some r -> res_EnvironmentInstance r <> "" ->
  forall n l, Leases d !! n = Some l -> lease_PersistentResource l <> zeroRef -> ref_ID (lease_PersistentResource l) <> id.
Proof.
  intros (_ & Hl & _) Hr Hi n l Hn Hz <-. destruct (Hl n l Hn Hz) as (r1 & Hr1 & _ & _ & _ & Hi1 & _). by simplify_eq.
Qed.

Lemma parent_facts d r l : parent_differs d r l = false -> environmentResourceLease d r = Some l.
Proof.
  unfold parent_differs, Lease_Equal. destruct (environmentResourceLease d r) as [p|]; [|done].
  rewrite negb_false_iff, bool_decide_eq_true. by intros ->.
Qed.

Lemma BeginEnvironmentResourceClear_keeps expected ref : Keeps anywhere (BeginEnvironmentResourceClear expected ref).
Proof.
  apply Keeps_guard. intros _. apply Keeps_catalog. intros d d' b a Hd _ Hf Hv.
  unfold BeginEnvironmentResourceClear_change in Hf.
  destruct (Leases d !! _) as [l|] eqn:Hl; [|done]. apply reject_ok in Hf as [_ Hf].
  destruct (PersistentResources d !! ref_ID ref) as [r|] eqn:Hr; [|done]. rewrite !reject_ok in Hf.
  destruct Hf as (Hp & _ & Hbusy & Hst & Hf).
  case_bool_decide as Hcl; [injection Hf as <- <- <-; auto with catalog|]. injection Hf as <- <- <-.
  apply orb_false_iff in Hp as [_ Hp]. apply parent_facts, resource_lease_facts in Hp as (Hi & _ & _ & att & Hatt & Hres).
  rewrite andb_false_iff, !negb_false_iff, !bool_decide_eq_true in Hst. destruct Hst as [Hst|?]; [|done].
  apply (settled_id _ _ _ Hd) in Hr as Hid. rewrite <- Hid in Hr.
  destruct (settled_wf d _ r Hd Hr) as (Hok & Hex & Hloc & Hsn & Hcp).
  assert (unreferenced d (res_ID r)) as Hu.
  { split; [|by apply (env_data_not_leased d _ r); [apply Hd|..]]. apply copy_reserved_false.
    destruct (persistentCopyReserved d (res_ID r)) eqn:E; [|done]. rewrite <- not_true_iff_false in Hbusy. destruct Hbusy.
    apply existsb_exists. exists att. split; [by apply list_elem_of_In|]. rewrite Hres. cbn [ref_ID Ref]. by rewrite E. }
  assert (res_CopySource r = zeroRef) as Hz.
  { destruct (decide (res_CopySource r = zeroRef)) as [|Hz]; [done|]. destruct (Hcp Hz) as (? & _ & (Hp & _) & _).
    intuition congruence. }
  destruct (receipt_absent r Hloc) as [Hop Hcl']; [unfold publishing; intuition congruence|].
  assert (res_ImportPending r = false) as HI.
  { destruct (res_ImportPending r) eqn:E; [|done]. destruct Hok as (Hi' & _). destruct (Hi' E). by destruct_and?. }
  assert (res_RestoreSource r = "") as HRS.
  { destruct (decide (res_RestoreSource r = "")) as [|Hn]; [done|]. destruct Hloc as (_ & Hrs & _). by destruct (Hrs Hn). }
  apply (put_keeps d (res_ID r)); try done; [|intros ? ?; by simplify_eq]. fits. by apply copy_from_none.
Qed.

Lemma CommitEnvironmentResourceClear_keeps expected r : Keeps anywhere (CommitEnvironmentResourceClear expected r).
Proof.
  apply Keeps_guard. intros Hg. bool_hyps. apply Keeps_catalog. intros d d' b a Hd _ Hf Hv.
  unfold CommitEnvironmentResourceClear_change in Hf.
  destruct (Leases d !! _) as [l|] eqn:Hl; [|done]. rewrite !reject_ok in Hf. destruct Hf as (Hs & Hp & [= <- <- <-]).
  bool_hyps.
  match goal with H : read_or _ _ _ = r |- _ => apply stored_resource in H as Hr; [|by apply valid_env_ref] end.
  destruct (settled_wf d _ r Hd Hr) as (Hok & Hex & Hloc & Hsn & Hcp).
  assert (res_CopySource r = zeroRef) as Hz.
  { destruct (decide (res_CopySource r = zeroRef)) as [|Hz]; [done|]. destruct (Hcp Hz) as (? & _ & (Hp' & _) & _).
    intuition congruence. }
  destruct (receipt_absent r Hloc) as [Hop Hcl']; [unfold publishing; intuition congruence|].
  destruct (proj2 Hex) as [HI HRS]; [done|].
  apply (step_keeps d r); try done; [congruence|]. fits. by apply copy_from_none.
Qed.

(** ** Deletion *)

(** What a successful deletion request established about the record. *)
Lemma begin_delete_spec id request d d' r' :
  beginPersistentResourceDelete_change id request d = Ok (d', r') ->
  exists r r1, PersistentResources d !! id = Some r /\
  ((r1 = r /\ ~ (res_State r = "planned" /\ del_EnvironmentInstance request <> "")) \/
   (r1 = res_with_CopySource zeroRef r /\ res_State r = "planned" /\ del_EnvironmentInstance request <> "")) /\
  (res_EnvironmentInstance r <> "" \/ del_EnvironmentInstance request <> "" ->
     res_EnvironmentInstance r = del_EnvironmentInstance request) /\
  generationReferences d id = false /\
  (res_CopySource r1 <> zeroRef \/ (res_SourceOnly r1 = true /\ res_State r1 = "creating") ->
     res_CopyCleanup r1 = true /\ validCacheCopyReceipt r1 = true) /\
  persistentCopyReserved d id = false /\
  (forall n l, Leases d !! n = Some l -> leaseHasResource l id = true -> del_EnvironmentInstance request <> "") /\
  r' = res_with_State "deleting" r1 /\ d' = with_PersistentResources (<[id := r']> (PersistentResources d)) d.
Proof.
  unfold beginPersistentResourceDelete_change. destruct (PersistentResources d !! id) as [r|]; [|done].
  rewrite reject_ok. intros (_ & H). apply bind_unit_ok in H as [Hinst H]. rewrite !reject_ok in H.
  destruct H as (Hgen & _ & _ & _ & _ & Hstop & Hres & _ & Hlease & _ & [= <- <-]).
  exists r, (if (res_State r == "planned") && (del_EnvironmentInstance request != "")
             then res_with_CopySource zeroRef r else r). split; [done|]. split.
  { destruct ((res_State r == "planned") && (del_EnvironmentInstance request != "")) eqn:E; [right|left]; (split; [reflexivity|]).
    - bool_hyps. done.
    - intros [H1 H2]. rewrite H1, (bool_decide_eq_false_2 _ H2) in E. done. }
  set (r1 := if _ && _ then _ else r) in *. split_and!; try done.
  - intros Hor. destruct ((res_EnvironmentInstance r != "") || (del_EnvironmentInstance request != "")) eqn:E.
    + apply reject_ok in Hinst as [Hi _]. apply orb_false_iff in Hi as [Hi _].
      by rewrite negb_false_iff, bool_decide_eq_true in Hi.
    + bool_hyps. intuition congruence.
  - intros Hor. apply andb_false_iff in Hstop as [Hs|Hs].
    + apply orb_false_iff in Hs as [Hs1 Hs2]. rewrite imp_guard in Hs2. bool_prop. intuition congruence.
    + apply negb_false_iff in Hs. by bool_hyps.
  - intros n l Hl Hh. rewrite map_any_false in Hlease. specialize (Hlease n l Hl). rewrite Hh in Hlease. simpl in Hlease.
    apply orb_false_iff in Hlease as [Hl1 _]. apply orb_false_iff in Hl1 as [Hl1 _]. by apply bool_decide_eq_false in Hl1.
Qed.

Lemma deleting_fits d id r :
  Settled d -> PersistentResources d !! id = Some r ->
  (res_CopySource r <> zeroRef \/ (res_SourceOnly r = true /\ res_State r = "creating") ->
     res_CopyCleanup r = true /\ validCacheCopyReceipt r = true) ->
  record_fits d id (res_with_State "deleting" r).
Proof.
  intros Hd Hr Hstop. destruct (settled_wf d _ r Hd Hr) as (Hok & Hex & Hloc & Hsn & Hcp).
  assert (res_CopyOperation r <> "" \/ res_CopyCleanup r = true -> res_CopyCleanup r = true) as Hclean.
  { intros Hor. destruct Hloc as (_ & _ & Hrc & _). destruct (Hrc Hor) as [Hv _]. apply receipt_source in Hv as Hz. tauto. }
  split_and!.
  - clear - Hok. unfold record_ok in *. cbn. intuition congruence.
  - unfold record_extra. cbn. split; congruence.
  - destruct Hloc as (H1 & H2 & H3 & H4). unfold copy_local. split_and!; cbn; [congruence|..].
    + intros Hn. by destruct (H2 Hn).
    + intros Hor. destruct (H3 Hor) as [Hv Hcc]. split; [|done]. apply receipt_fields in Hv. apply receipt_fields.
      apply Hclean in Hor. clear - Hv Hor. unfold publishing in *. cbn. tauto.
    + done.
  - done.
  - destruct (decide (res_CopySource r = zeroRef)) as [Hz|Hz]; [by apply copy_from_none|].
    destruct (Hstop (or_introl Hz)) as [Hc _]. apply (copy_from_progress d _ r); [done..|].
    repeat split; intros; unfold copying, publishing; cbn; tauto.
Qed.

Lemma planned_deleting_fits d id r :
  Settled d -> PersistentResources d !! id = Some r -> res_State r = "planned" ->
  record_fits d id (res_with_State "deleting" (res_with_CopySource zeroRef r)).
Proof.
  intros Hd Hr Hst. destruct (settled_wf d _ r Hd Hr) as (Hok & Hex & Hloc & Hsn & Hcp).
  destruct (receipt_absent r Hloc) as [Hop Hcl]; [unfold publishing; intuition congruence|].
  pose proof (proj1 Hex Hst) as Hcc. fits. by apply copy_from_none.
Qed.

Lemma beginPersistentResourceDelete_keeps id request : Keeps anywhere (beginPersistentResourceDelete id request).
Proof.
  apply Keeps_resource. intros d d' r' Hd _ Hf Hv.
  apply begin_delete_spec in Hf as (r & r1 & Hr & Hr1 & Hinst & _ & Hstop & Hres & Hlease & -> & ->).
  apply (put_keeps d id); try done.
  - split; [by apply copy_reserved_false|]. intros n l Hl Hz He.
    assert (del_EnvironmentInstance request <> "") as Hi.
    { apply (Hlease n l Hl). unfold leaseHasResource. by rewrite bool_decide_eq_true_2. }
    apply (env_data_not_leased d id r) with n l; try done; [apply Hd|]. rewrite Hinst; tauto.
  - destruct Hr1 as [[-> _]|(-> & Hst & _)]; [by apply deleting_fits|by apply planned_deleting_fits].
  - intros r2 Hr2. simplify_eq. destruct Hr1 as [[-> _]|(-> & _)]; by repeat split.
Qed.

Lemma FinalizePersistentResourceDelete_keeps r : Keeps anywhere (FinalizePersistentResourceDelete r).
Proof.
  apply Keeps_resource. intros d d' [] Hd _ Hf Hv. unfold FinalizePersistentResourceDelete_change in Hf.
  rewrite !reject_ok in Hf. destruct Hf as (_ & Hs & _ & [= <-]). apply orb_false_iff in Hs as [Hs Hst].
  apply resource_same in Hs. rewrite negb_false_iff, bool_decide_eq_true in Hst.
  apply (update_keeps d _ (res_ID r)); try done.
  - apply not_ready_unreferenced; [apply Hd|]. intros ? ?. simplify_eq. congruence.
  - intros k Hk. by rewrite lookup_delete_ne.
  - intros r'. by rewrite lookup_delete_eq.
  - intros r1 r2 _. by rewrite lookup_delete_eq.
Qed.
