(* ===== verification/LifecycleProofs.v ===== *)
(** * Environment lifecycle operations keep the catalog settled *)

From S2P Require Import Prelude GoText Core CoreChecks CatalogState CatalogChecks Catalog Resources Lifecycle.
From S2P Require Import CatalogSpec Settled Transactions ResourceProofs CopyProofs.
From Stdlib Require Import Ascii String.
Open Scope string_scope.

(** ** Changes at one key of the lease map *)

(** Every other lease of the same Workspace is read-only, and so is this one. *)
Definition lease_alone (d : environmentFileState) (n : string) (l : WorkspaceLease) : Prop :=
  forall k other, Leases d !! k = Some other -> k <> n -> lease_WorkspaceID other = lease_WorkspaceID l ->
    lease_AccessMode l = WorkspaceReadOnly /\ lease_AccessMode other = WorkspaceReadOnly.

(** [d'] differs from [d] only at [n] in the leases and Environments, and in
    records no lease depends on. *)
Record lease_frame (d d' : environmentFileState) (n : string) : Prop := {
  frame_version : Version d' = Version d;
  frame_copies : WorkspaceCopies d' = WorkspaceCopies d;
  frame_assets : BaseAssets d' = BaseAssets d;
  frame_snapshots : Snapshots d' = Snapshots d;
  frame_restores : Restores d' = Restores d;
  frame_runs : EphemeralRuns d' = EphemeralRuns d;
  frame_generations : ResourceGenerations d' = ResourceGenerations d;
  frame_envs : forall k, k <> n -> Environments d' !! k = Environments d !! k;
  frame_leases : forall k, k <> n -> Leases d' !! k = Leases d !! k }.

Lemma lease_source_frame d d' n l :
  Version d' = Version d -> Snapshots d' = Snapshots d -> lease_source_body d' n l = lease_source_body d n l.
Proof. intros HV HS. unfold lease_source_body. by rewrite HV, HS. Qed.

Lemma settled_keys d : Settled d -> forall k l, Leases d !! k = Some l -> lease_EnvironmentID l = k.
Proof. intros H k l Hl. by apply (settled_leases d H) in Hl as (? & _). Qed.

Lemma lease_frame_settled d d' n :
  Settled d -> lease_frame d d' n -> validateCommit d' = Ok tt -> resources_ok d' ->
  (forall l, Leases d' !! n = Some l -> lease_wf d' n l /\ lease_alone d n l) ->
  (forall e, Environments d' !! n = Some e -> env_wf d' n e) ->
  Settled d'.
Proof.
  intros H Hf Hv Hres Hl He. destruct Hf as [HV HC HA HS HR HE HG Hen Hle]. constructor; try done.
  - by rewrite HV; apply H.
  - rewrite HC. pose proof (settled_copies d H) as Hc. unfold workspace_copy_body in *. by rewrite HV, HS.
  - rewrite HA. pose proof (settled_assets d H) as Hc. unfold base_asset_body in *. by rewrite HV, HA.
  - rewrite HS. pose proof (settled_snapshots d H) as Hc. unfold snapshot_body in *. by rewrite HV.
  - by rewrite HR; apply H.
  - rewrite HG. apply H.
  - intros k e Hk. destruct (decide (k = n)) as [->|Hne]; [by apply He|]. rewrite Hen in Hk by done.
    apply (settled_envs d H) in Hk as (? & l & ? & ?). split; [done|]. exists l. by rewrite Hle.
  - intros k l Hk. destruct (decide (k = n)) as [->|Hne]; [by apply Hl|]. rewrite Hle in Hk by done.
    apply (settled_leases d H) in Hk. unfold lease_wf in *. by rewrite Hen, (lease_source_frame d d').
  - intros n1 n2 l1 l2 Hl1 Hl2 Hne Hws.
    destruct (decide (n1 = n)) as [->|H1]; [|destruct (decide (n2 = n)) as [->|H2]].
    + rewrite Hle in Hl2 by congruence. destruct (Hl l1 Hl1) as (_ & Ha). by destruct (Ha n2 l2).
    + rewrite Hle in Hl1 by congruence. destruct (Hl l2 Hl2) as (_ & Ha). by destruct (Ha n1 l1).
    + rewrite Hle in Hl1, Hl2 by done. by apply (settled_exclusive d H n1 n2 l1 l2).
Qed.

Lemma lease_change_settled d d' n :
  Settled d -> lease_frame d d' n -> PersistentResources d' = PersistentResources d -> validateCommit d' = Ok tt ->
  (forall l, Leases d' !! n = Some l -> lease_fits d n l /\ lease_wf d' n l /\ lease_alone d n l) ->
  (forall e, Environments d' !! n = Some e -> env_wf d' n e) ->
  Settled d'.
Proof.
  intros H Hf HP Hv Hl He. apply (lease_frame_settled d d' n); try done.
  - apply (resources_ok_leases d d' n); try done; try apply Hf; [apply H|by apply settled_keys|]. intros l Hk. by apply Hl.
  - intros l Hk. by apply Hl.
Qed.

Lemma lease_change_evolves d d' n :
  lease_frame d d' n ->
  (forall id r r', PersistentResources d !! id = Some r -> PersistentResources d' !! id = Some r' -> same_identity r r') ->
  (forall l l', Leases d !! n = Some l -> Leases d' !! n = Some l' -> lease_evolves l l') ->
  (forall e l', Environments d !! n = Some e -> Leases d' !! n = Some l' -> Environments d' !! n = Some e) ->
  Evolves d d'.
Proof.
  intros [HV HC HA HS HR HE HG Hen Hle] HP Hl He. constructor; rewrite ?HS, ?HG; try (apply related_refl; auto with catalog); [|..|done].
  - intros k e l' Hk Hk'. destruct (decide (k = n)) as [->|Hne]; [by eapply He|]. by rewrite Hen.
  - apply (related_at _ _ _ n); auto with catalog.
Qed.

Lemma lease_alone_same d n l l' :
  Settled d -> Leases d !! n = Some l -> lease_same l l' -> lease_alone d n l'.
Proof.
  intros H Hl Hs k other Ho Hne Hws. destruct Hs as (_ & _ & _ & Hs4 & _ & _ & Hs7 & _). rewrite Hs4 in Hws. rewrite Hs7.
  split; [by apply (settled_exclusive d H n k l other)|by apply (settled_exclusive d H k n other l)].
Qed.

(** ** When a lease is bound to no copy in flight *)

Lemma generation_copy_lease d source r l :
  environmentGenerationCopy d source r l = true ->
  lease_State l = WorkspaceLeaseActive /\ ValidEnvironmentInstanceID (lease_InstanceID l) = true /\
  exists a, a ∈ lease_Attachments l /\ att_Resource a = Ref source.
Proof.
  unfold environmentGenerationCopy. destruct (_ || negb (MatchesEnvironment _ _)) eqn:E; [done|].
  destruct (_ || (res_Kind r != res_Kind source)); [done|]. intros Hex. apply existsb_exists in Hex as (a & Ha & Hb).
  bool_hyps. split_and!; [done|congruence|]. exists a. split; [by apply list_elem_of_In|done].
Qed.

Lemma lease_quiet_unless d n l :
  resources_ok d -> Leases d !! n = Some l ->
  (forall source r, environmentGenerationCopy d source r l = true -> persistentCopyReserved d (res_ID source) = true -> False) ->
  lease_quiet d l.
Proof.
  intros (Hres & _) Hl Hno k r source Hr Hz Hs. apply not_true_iff_false. intros Hh.
  destruct (Hres k r Hr) as (_ & _ & _ & _ & Hcp). destruct (Hcp Hz) as (source' & Hs' & (_ & _ & Href & _) & Hf). simplify_eq.
  apply (Hno source r); [by apply (Hf n)|]. unfold persistentCopyReserved. apply map_any_true. exists k, r. split; [done|].
  rewrite <- Href. by apply bool_decide_eq_true.
Qed.

Definition lease_idle (d : environmentFileState) (l : WorkspaceLease) : Prop :=
  forall a, a ∈ lease_Attachments l -> persistentCopyReserved d (ref_ID (att_Resource a)) = false.

Lemma lease_quiet_idle d n l : resources_ok d -> Leases d !! n = Some l -> lease_idle d l -> lease_quiet d l.
Proof.
  intros H Hl Hi. apply (lease_quiet_unless d n); [done..|]. intros source r Hg Hr.
  apply generation_copy_lease in Hg as (_ & _ & a & Ha & Hres). specialize (Hi a Ha). rewrite Hres in Hi. cbn in Hi. congruence.
Qed.

Lemma lease_quiet_inactive d n l :
  resources_ok d -> Leases d !! n = Some l ->
  lease_State l <> WorkspaceLeaseActive \/ lease_InstanceID l = "" -> lease_quiet d l.
Proof.
  intros H Hl Hi. apply (lease_quiet_unless d n); [done..|]. intros source r Hg Hr.
  apply generation_copy_lease in Hg as (Ha & Hv & _). destruct Hi as [Hi|Hi]; [done|]. by rewrite Hi in Hv.
Qed.

(** ** Replacing a stored lease by a later version *)

Lemma replace_lease_keeps d d' n l l' :
  Settled d -> Leases d !! n = Some l -> lease_frame d d' n -> PersistentResources d' = PersistentResources d ->
  Leases d' !! n = Some l' ->
  lease_evolves l l' -> lease_quiet d l -> lease_wf d' n l' ->
  (forall e, Environments d' !! n = Some e -> env_wf d' n e) ->
  (forall e, Environments d !! n = Some e -> Environments d' !! n = Some e) ->
  validateCommit d' = Ok tt -> Settled d' /\ Evolves d d'.
Proof.
  intros Hd Hl Hf HP Hl' Hev Hq Hwf He1 He2 Hv. split.
  - apply (lease_change_settled d d' n); try done. intros l1 Hl1. simplify_eq. split_and!; [|done|].
    + by apply (lease_same_fits d n l l'); [apply Hd|..|apply Hev|].
    + by apply (lease_alone_same d n l); [..|apply Hev].
  - apply (lease_change_evolves d d' n); [done|rewrite HP; apply related_refl; auto with catalog| |by eauto].
    intros. by simplify_eq.
Qed.

Lemma lease_frame_put d n l : lease_frame d (with_Leases (<[n:=l]> (Leases d)) d) n.
Proof. constructor; try done. intros k Hk. cbn. by rewrite lookup_insert_ne. Qed.

(** A lease with the same identity, runtime and saved source, in one of the
    states that keep a saved source. *)
Lemma lease_wf_step d d' n l l' :
  lease_wf d n l -> lease_same l l' -> Version d' = Version d -> Snapshots d' = Snapshots d ->
  lease_SnapshotSource l' = lease_SnapshotSource l -> lease_InstanceID l' = lease_InstanceID l ->
  (lease_State l' = WorkspaceLeaseAcquiring /\ Environments d' !! n = None) \/
    lease_State l' = WorkspaceLeaseCleanupRequired ->
  lease_wf d' n l'.
Proof.
  intros (H1 & H2 & H3 & H4 & H5 & H6 & H7 & H8) (_ & _ & _ & E1 & E2 & E3 & E4 & E5 & E6) HV HS Hss Hi Hst.
  unfold lease_wf. rewrite E1, E2, E3, E4, E5, E6. split_and!; try done; try apply H4.
  - intuition.
  - intros Ha. destruct Hst as [[_ ?]|Hst]; [done|]. by rewrite Ha in Hst.
  - intros Ha. rewrite Ha in Hst. by destruct Hst as [[? _]|?].
  - rewrite (lease_source_frame d d') by done. revert H8. unfold lease_source_body. rewrite Hss.
    destruct (lease_SnapshotSource l != ""); [|done]. rewrite !reject_ok, !orb_false_iff. intros ((Hm & Hs) & _).
    split; [|done]. split; [done|]. destruct (Snapshots d !! lease_SnapshotSource l) as [saved|]; [|done].
    rewrite Hi. rewrite !orb_false_iff in *. destruct Hs as [Hs _]. split; [done|].
    destruct Hst as [[-> _]| ->]; done.
Qed.

Lemma env_wf_binding d d' n l l' e :
  env_wf d n e -> Leases d !! n = Some l -> Leases d' !! n = Some l' -> lease_same l l' ->
  lease_RuntimeRef l' = lease_RuntimeRef l -> env_wf d' n e.
Proof.
  intros (Hn & l1 & Hl1 & Hm) Hl Hl' (E0 & _ & Ep & E1 & E2 & E3 & E4 & _) Hr. simplify_eq. split; [done|].
  exists l'. split; [done|]. apply matches_fields. apply matches_fields in Hm. cbn in *.
  by rewrite E0, Ep, E1, E2, E3, E4, Hr.
Qed.

(** ** Operations *)

Lemma busy_idle d n l :
  Leases d !! n = Some l -> environmentResourcesBusy d n = false -> lease_idle d l.
Proof.
  unfold environmentResourcesBusy, read_or. intros -> H a Ha. simpl in H.
  apply not_true_iff_false in H. apply not_true_iff_false. intros Hr. apply H, existsb_exists. exists a.
  split; [by apply list_elem_of_In|]. by rewrite Hr, orb_true_r.
Qed.

Lemma PrepareEnvironmentResourceDeletion_keeps expected : Keeps anywhere (PrepareEnvironmentResourceDeletion expected).
Proof.
  apply Keeps_guard. intros _. apply Keeps_catalog. intros d d' b a Hd _ Hf Hv.
  unfold PrepareEnvironmentResourceDeletion_change in Hf. set (n := lease_EnvironmentID expected) in *.
  destruct (Leases d !! n) as [l|] eqn:Hl; [|done]. rewrite !reject_ok in Hf. destruct Hf as (_ & Hbusy & Hf).
  apply (settled_keys d Hd) in Hl as Hn. rewrite Hn in *. apply orb_false_iff in Hbusy as [_ Hbusy].
  destruct (lease_RuntimeAbsent l) eqn:Hab; injection Hf as <- <- <-; [auto with catalog|].
  cbn [lease_EnvironmentID lease_with_State lease_with_RuntimeAbsent] in *. rewrite Hn in *.
  set (l' := lease_with_State WorkspaceLeaseCleanupRequired (lease_with_RuntimeAbsent true l)) in *.
  apply (replace_lease_keeps d _ n l l'); try done.
  - apply lease_frame_put.
  - cbn. by rewrite lookup_insert_eq.
  - apply (lease_quiet_idle d n); [apply Hd|done|]. by apply (busy_idle d n).
  - apply (lease_wf_step d _ n l); try done; [by apply (settled_leases d Hd)|by right].
  - intros e He. cbn in He. apply (env_wf_binding d _ n l l' e); try done; [by apply (settled_envs d Hd)|].
    cbn. by rewrite lookup_insert_eq.
Qed.

Lemma same_reservation l l' :
  validateSameLeaseReservation l l' = Ok tt ->
  lease_same l l' /\ lease_InstanceID l' = lease_InstanceID l /\ lease_SnapshotSource l' = lease_SnapshotSource l /\
  lease_RuntimeAbsent l' = lease_RuntimeAbsent l.
Proof.
  unfold validateSameLeaseReservation. rewrite !reject_ok. intros (H1 & H2 & H3 & H4 & _). bool_hyps. by repeat split.
Qed.

Lemma RecordEnvironmentRuntime_keeps lease : Keeps anywhere (RecordEnvironmentRuntime lease).
Proof.
  unfold RecordEnvironmentRuntime. apply Keeps_checked. intros Harg. apply Keeps_locked. intros d d' b a Hd _ Hf Hv.
  apply bind_unit_ok in Harg as [Harg _]. unfold validateEnvironmentCreateReservation in Harg. cbn in Harg.
  rewrite !reject_ok in Harg. destruct Harg as (_ & _ & _ & _ & Harg & _). bool_hyps.
  unfold RecordEnvironmentRuntime_change in Hf. apply reject_ok in Hf as [Hne Hf]. apply has_key_false in Hne.
  destruct (Leases d !! lease_EnvironmentID lease) as [l|] eqn:Hl; [|done].
  apply bind_unit_ok in Hf as [Hs Hf]. apply reject_ok in Hf as [Hr [= <- <- <-]].
  apply same_reservation in Hs as (Hs & Hi & Hss & Hab). set (n := lease_EnvironmentID lease) in *.
  assert (lease_RuntimeRef l <> "" -> lease_RuntimeRef lease = lease_RuntimeRef l) as Hrr.
  { intros Hn. rewrite imp_guard, negb_true_iff, bool_decide_eq_false, negb_false_iff, bool_decide_eq_true in Hr.
    symmetry. auto. }
  apply (replace_lease_keeps d _ n l lease); try done.
  - apply lease_frame_put.
  - cbn. by rewrite lookup_insert_eq.
  - apply (lease_quiet_inactive d n); [apply Hd|done|]. left. intros Ha.
    destruct (settled_leases d Hd n l Hl) as (_ & _ & _ & _ & _ & _ & Hact & _). destruct (Hact Ha) as [_ [? ?]]. congruence.
  - apply (lease_wf_step d _ n l); try done; [by apply (settled_leases d Hd)|by left].
  - intros e He. cbn in He. congruence.
Qed.

Lemma CommitEnvironmentCreate_keeps environment lease : Keeps anywhere (CommitEnvironmentCreate environment lease).
Proof.
  unfold CommitEnvironmentCreate. apply Keeps_checked. intros Harg. apply Keeps_locked. intros d d' b a Hd _ Hf Hv.
  unfold validateEnvironmentCreateCommit in Harg. rewrite !reject_ok in Harg. destruct Harg as (_ & _ & _ & Hm & _).
  apply negb_false_iff, matches_fields in Hm. unfold CommitEnvironmentCreate_change in Hf.
  set (n := env_Name environment) in *.
  destruct (Environments d !! n) as [e0|] eqn:He; destruct (Leases d !! n) as [l|] eqn:Hl; try done.
  { destruct (_ && _); [|done]. injection Hf as <- <- <-. auto with catalog. }
  apply bind_unit_ok in Hf as [Hs Hf]. rewrite !reject_ok in Hf. destruct Hf as (Hst & Hr & Hf).
  apply bind_unit_ok in Hf as [_ [= <- <- <-]]. bool_hyps. apply same_reservation in Hs as (Hs & Hi & Hss & Hab).
  destruct Hm as (Ha & Hna & Hnn & Hat & Hid & Hrn & Hrr & Hw1 & Hw2 & Hmode & Hpr).
  pose proof (settled_leases d Hd n l Hl) as (W1 & W2 & W3 & W4 & W5 & W6 & W7 & W8).
  apply (replace_lease_keeps d _ n l (publishedLease lease)); try done.
  - constructor; try done; intros k Hk; cbn; by rewrite lookup_insert_ne.
  - cbn. by rewrite lookup_insert_eq.
  - apply (lease_quiet_inactive d n); [apply Hd|done|]. left. by rewrite Hst.
  - destruct Hs as (_ & _ & _ & E1 & E2 & E3 & E4 & E5 & E6). unfold lease_wf. cbn. rewrite E1, E2, E3, E4, E5, E6.
    split_and!; try done; try apply W4; [by right; left|by rewrite Ha|]. intros _. split; [done|]. rewrite lookup_insert_eq. eauto.
  - intros e He'. cbn in He'. rewrite lookup_insert_eq in He'. injection He' as <-. split; [done|].
    exists (publishedLease lease). cbn. rewrite lookup_insert_eq. split; [done|]. apply matches_fields. cbn. by repeat split.
  - congruence.
Qed.

(** The caller has checked that no data area of the Environment is the source
    of a copy in flight. *)
Definition idle_contract (name : string) (d : environmentFileState) : Prop :=
  forall l, Leases d !! name = Some l -> lease_idle d l.

Lemma MarkEnvironmentRecoveryRequired_keeps lease :
  Keeps (idle_contract (lease_EnvironmentID lease)) (MarkEnvironmentRecoveryRequired lease).
Proof.
  apply Keeps_guard. intros Harg. bool_hyps. apply Keeps_locked. intros d d' b a Hd Hidle Hf Hv.
  unfold MarkEnvironmentRecoveryRequired_change in Hf. set (n := lease_EnvironmentID lease) in *.
  destruct (Leases d !! n) as [l|] eqn:Hl; [|done]. apply bind_unit_ok in Hf as [Hs Hf].
  apply reject_ok in Hf as [Hr Hf]. apply same_reservation in Hs as (Hs & Hi & Hss & Hab).
  set (l' := if _ && _ then _ else lease) in *.
  assert (lease_EnvironmentID l' = n /\ lease_State l' = WorkspaceLeaseCleanupRequired /\ lease_same l l' /\
          lease_InstanceID l' = lease_InstanceID l /\ lease_SnapshotSource l' = lease_SnapshotSource l) as (L1 & L2 & L3 & L4 & L5)
    by (unfold l'; destruct (_ && _); done).
  assert (lease_RuntimeRef l <> "" -> lease_RuntimeRef l' = lease_RuntimeRef l) as Hrr.
  { rewrite imp_guard, negb_true_iff, bool_decide_eq_false, negb_false_iff, bool_decide_eq_true in Hr. done. }
  unfold put_lease in Hf. rewrite L1 in Hf. clearbody l'. injection Hf as <- <- <-.
  apply (replace_lease_keeps d _ n l l'); try done.
  - apply lease_frame_put.
  - cbn. by rewrite lookup_insert_eq.
  - apply (lease_quiet_idle d n); [apply Hd|done|]. by apply Hidle.
  - apply (lease_wf_step d _ n l); try done; [by apply (settled_leases d Hd)|by right].
  - intros e He. cbn in He. apply (env_wf_binding d _ n l l' e); try done; [by apply (settled_envs d Hd)| |].
    + cbn. by rewrite lookup_insert_eq.
    + apply Hrr. apply (settled_envs d Hd) in He as (_ & l1 & Hl1 & Hm). simplify_eq. apply matches_fields in Hm. apply Hm.
Qed.

Lemma FinalizeEnvironmentDelete_keeps n : Keeps anywhere (FinalizeEnvironmentDelete n).
Proof.
  apply Keeps_guard. intros _. apply Keeps_locked. intros d d' b a Hd _ Hf Hv.
  unfold FinalizeEnvironmentDelete_change in Hf. apply reject_ok in Hf as [_ Hf].
  destruct (_ && _); [injection Hf as <- <- <-; auto with catalog|].
  apply bind_unit_ok in Hf as [_ Hf].
  assert (lease_frame d d' n /\ PersistentResources d' = PersistentResources d /\ Leases d' !! n = None /\
          Environments d' !! n = None) as (Hfr & HP & Hln & Hen).
  { injection Hf as <- _ _. destruct (LastOpened d == n); cbn;
      (destruct (Environments d !! n) as [e|]; [destruct (env_OwnedWorkspace e)|]); cbn;
      (split_and!; [constructor; try done; intros k Hk; cbn; by rewrite lookup_delete_ne|done|by rewrite lookup_delete_eq..]). }
  split.
  - apply (lease_change_settled d d' n); try done; congruence.
  - apply (lease_change_evolves d d' n); [done|rewrite HP; apply related_refl; auto with catalog|congruence..].
Qed.
