(* ===== verification/ReservationProofs.v ===== *)
(** * Reserving an Environment keeps the catalog settled

    [beginEnvironmentCreate] inserts one lease and one planned record per data
    area.  The loop over the plans is handled by an invariant on the
    intermediate states, which are not yet settled: the lease is missing. *)

From S2P Require Import Prelude GoText Core CoreChecks CoreProofs CatalogState CatalogChecks Catalog Resources Lifecycle.
From S2P Require Import CatalogSpec Settled Transactions ResourceProofs CopyProofs LifecycleProofs.
From Stdlib Require Import Ascii String.
Open Scope string_scope.

(** What the caller of a reservation promises about a planned record. *)
Definition plan_contract (r : PersistentResource) : Prop :=
  (res_ImportPending r = true -> res_RestoreSource r = "" /\ res_CopySource r = zeroRef) /\
  (res_CopySource r = zeroRef -> res_CopyOperation r = "" /\ res_CopyCleanup r = false).

Lemma saved_resource_facts d l a r :
  matchesSavedEnvironmentResource d l a r = true -> snapshot_ready d (res_RestoreSource r) /\ res_CopySource r = zeroRef.
Proof.
  unfold matchesSavedEnvironmentResource. destruct (Snapshots d !! res_RestoreSource r) as [saved|] eqn:E; [|done].
  destruct (_ || res_CopyCompleted r) eqn:G; [done|]. intros _. bool_hyps. split; [by exists saved|done].
Qed.

(** The state after the reservation of some plans, relative to the one before. *)
Record reserved (d : environmentFileState) (l : list PersistentResource) (d' : environmentFileState) : Prop := {
  reserved_frame : d' = with_PersistentResources (PersistentResources d') d;
  reserved_ok : resources_ok d';
  reserved_old : forall id r, PersistentResources d !! id = Some r -> PersistentResources d' !! id = Some r;
  reserved_new : forall id r, PersistentResources d' !! id = Some r -> PersistentResources d !! id = Some r \/
    (PersistentResources d !! id = None /\
     (res_CopySource r <> zeroRef -> exists source,
       PersistentResources d' !! ref_ID (res_CopySource r) = Some source /\ res_SourceOnly source = true));
  reserved_planned : forall r, r ∈ l -> PersistentResources d' !! res_ID r = Some r /\ res_State r = "planned" }.

Lemma reserved_nil d : resources_ok d -> reserved d [] d.
Proof.
  intros H. constructor; try done; [by destruct d|by left|]. intros r Hr. by apply not_elem_of_nil in Hr.
Qed.

(** One more plan, whose record is new and fits. *)
Lemma reserved_snoc d l d1 r :
  reserved d l d1 -> PersistentResources d1 !! res_ID r = None -> record_fits d1 (res_ID r) r -> res_State r = "planned" ->
  (res_CopySource r <> zeroRef -> exists source,
     PersistentResources d1 !! ref_ID (res_CopySource r) = Some source /\ res_SourceOnly source = true) ->
  reserved d (l ++ [r]) (put_resource r d1).
Proof.
  intros [Hfr Hok Hold Hnew Hpl] Hn Hfit Hst Hsrc.
  assert (forall id r1, PersistentResources d1 !! id = Some r1 -> id <> res_ID r) as Hne by congruence.
  assert (forall id r1, PersistentResources d1 !! id = Some r1 -> PersistentResources (put_resource r d1) !! id = Some r1) as Hkeep.
  { intros id r1 Hr1. cbn. rewrite lookup_insert_ne; [done|]. apply not_eq_sym. by eapply Hne. }
  constructor; auto.
  - rewrite Hfr at 1. cbn. unfold put_resource. rewrite Hfr. done.
  - apply (resources_ok_update d1 _ (res_ID r)); [done| | |].
    + apply not_ready_unreferenced; [done|congruence].
    + intros k Hk. by rewrite lookup_insert_ne.
    + intros r1. rewrite lookup_insert_eq. by intros [= <-].
  - intros id r1 Hr1. cbn in Hr1. destruct (decide (id = res_ID r)) as [->|Hid].
    + rewrite lookup_insert_eq in Hr1. injection Hr1 as <-. right. split.
      * destruct (PersistentResources d !! res_ID r) eqn:E; [|done]. apply Hold in E. congruence.
      * intros Hz. destruct (Hsrc Hz) as (source & Hs & ?). exists source. split; [by apply Hkeep|done].
    + rewrite lookup_insert_ne in Hr1 by done. destruct (Hnew id r1 Hr1) as [?|[? Hc]]; [by left|right].
      split; [done|]. intros Hz. destruct (Hc Hz) as (source & Hs & ?). exists source. split; [by apply Hkeep|done].
  - intros r1 [Hr1|Hr1]%elem_of_app.
    + destruct (Hpl r1 Hr1). split; [by apply Hkeep|done].
    + apply list_elem_of_singleton in Hr1 as ->. cbn. by rewrite lookup_insert_eq.
Qed.

Lemma generation_kind_nonempty g : ValidResourceGeneration g = true -> gen_Kind g <> "".
Proof.
  unfold ValidResourceGeneration, ValidResourceGenerationSpec. intros H E. rewrite E in H.
  replace (MatchString resourceKind "") with false in H by reflexivity. by rewrite andb_false_r in H.
Qed.

(** What the argument checks of the reservation say about the lease. *)
Definition lease_plannable (l : WorkspaceLease) : Prop :=
  forall a, a ∈ lease_Attachments l -> lease_InstanceID l <> "" /\ gen_Kind (att_Origin a) <> "".

Lemma reserve_plan_step d l prior d1 p d2 :
  reserved d prior d1 -> lease_plannable l -> p.2 ∈ lease_Attachments l -> plan_contract (plan_Resource p.1) ->
  reserve_plan l p d1 = Ok d2 -> reserved d (prior ++ [plan_Resource p.1]) d2 /\ Ref (plan_Resource p.1) = att_Resource p.2.
Proof.
  intros Hres Hl Hin [Hc1 Hc2] Hf. unfold reserve_plan in Hf. set (r := plan_Resource p.1) in *.
  apply reject_ok in Hf as [Hg Hf]. apply bind_unit_ok in Hf as [Hsaved Hf].
  rewrite !reject_ok in Hf. destruct Hf as (_ & Hn & _ & Hf). bool_hyps.
  assert (plan_Attachment p.1 = p.2) as Ha by done. rewrite Ha in *. destruct (Hl p.2 Hin) as [Hi Hk]. split; [|done].
  assert (res_RestoreSource r <> "" -> snapshot_ready d1 (res_RestoreSource r) /\ res_CopySource r = zeroRef) as Hrs.
  { intros Hrs. rewrite bool_decide_eq_false_2 in Hsaved by done. cbn in Hsaved. apply reject_ok in Hsaved as [Hs _].
    apply negb_false_iff in Hs. by eapply saved_resource_facts. }
  case_bool_decide as Hz; cbn in Hf.
  - injection Hf as <-. apply reserved_snoc; try done. destruct (Hc2 Hz) as [Hop Hcl].
    assert (res_EnvironmentInstance r <> "" /\ res_Kind r <> "" /\ ValidPersistentResourceRef (Ref r) = true)
      as (Hi' & Hk' & Hv) by (split_and!; [congruence..|by apply valid_env_ref]).
    clear Hsaved. split_and!.
    + unfold record_ok. intuition congruence.
    + unfold record_extra. intuition congruence.
    + unfold copy_local. intuition congruence.
    + naive_solver.
    + by apply copy_from_none.
  - destruct (PersistentResources d1 !! ref_ID (res_CopySource r)) as [source|] eqn:Hs; [|done].
    apply reject_ok in Hf as [Hso Hf]. bool_hyps.
    assert (copy_contract r) as Hcc.
    { repeat split; [destruct (res_ImportPending r); [|done]; by destruct Hc1| |congruence].
      destruct (decide (res_RestoreSource r = "")) as [|Hr]; [done|]. by destruct (Hrs Hr). }
    pose proof (reserve_copy_fits _ _ _ _ (reserved_ok _ _ _ Hres) Hcc Hf) as Hfit.
    apply reserve_copy_spec in Hf as (-> & _). apply reserved_snoc; try done. intros _. by exists source.
Qed.

Lemma reserve_plans_loop d l pairs prior d1 d2 :
  reserved d prior d1 -> lease_plannable l -> (forall p, p ∈ pairs -> p.2 ∈ lease_Attachments l) ->
  (forall p, p ∈ pairs -> plan_contract (plan_Resource p.1)) ->
  range_loop (reserve_plan l) pairs d1 = Ok d2 ->
  reserved d (prior ++ ((fun p => plan_Resource p.1) <$> pairs)) d2 /\
  (forall p, p ∈ pairs -> Ref (plan_Resource p.1) = att_Resource p.2).
Proof.
  revert prior d1. induction pairs as [|p pairs IH]; intros prior d1 Hres Hl Hin Hc Hf; simpl in *.
  - injection Hf as <-. rewrite app_nil_r. split; [done|]. intros p Hp. by apply not_elem_of_nil in Hp.
  - destruct (reserve_plan l p d1) as [d3|] eqn:Hp; [|done].
    apply (reserve_plan_step d) with (prior := prior) in Hp as [Hres' Href]; [|done|done|apply Hin; left|apply Hc; left].
    destruct (IH _ _ Hres' Hl) as [H1 H2]; [intros; apply Hin; by right|intros; apply Hc; by right|done|].
    rewrite <- app_assoc in H1. split; [done|]. intros q [->|Hq]%elem_of_cons; auto.
Qed.

(** ** The reservation *)

(** The saved source of the lease, as the four entry points check it. *)
Definition saved_ok (lease : WorkspaceLease) (saved : option Snapshot) : Prop :=
  match saved with
  | None => lease_SnapshotSource lease = ""
  | Some s => snap_State s = "ready" /\ lease_SnapshotSource lease = snap_ID s /\ validateSnapshot s = Ok tt /\
              ValidEnvironmentInstanceID (lease_InstanceID lease) = true /\
              lease_InstanceID lease <> src_InstanceID (snap_Source s)
  end.

(** What the guards of the closure establish before the plans are reserved. *)
Definition reservation_free (d : environmentFileState) (lease : WorkspaceLease) (saved : option Snapshot) : Prop :=
  (forall s, saved = Some s -> read_or zeroSnapshot (Snapshots d) (snap_ID s) = s) /\
  Environments d !! lease_EnvironmentID lease = None /\ Leases d !! lease_EnvironmentID lease = None /\
  (lease_PersistentResource lease <> zeroRef -> exists r,
     PersistentResources d !! ref_ID (lease_PersistentResource lease) = Some r /\
     Ref r = lease_PersistentResource lease /\ res_State r = "ready" /\ res_SourceOnly r = false /\
     res_EnvironmentInstance r = "" /\
     (res_WorkspaceID r <> "" -> res_WorkspaceID r <> lease_WorkspaceID lease -> resourceMaintenanceLease d lease = true) /\
     persistentCopyReserved d (res_ID r) = false /\
     forall n l, Leases d !! n = Some l -> ref_ID (lease_PersistentResource l) <> res_ID r) /\
  (forall n l, Leases d !! n = Some l -> workspace_conflict l lease = false).

Lemma begin_create_free d lease saved plans d' b a :
  beginEnvironmentCreate_change lease saved plans d = Ok (d', b, a) ->
  reservation_free d lease saved /\
  exists d1, reserveEnvironmentResources d lease plans = Ok d1 /\ d' = put_lease lease d1.
Proof.
  unfold beginEnvironmentCreate_change. intros Hf. apply bind_unit_ok in Hf as [_ Hf]. rewrite !reject_ok in Hf.
  destruct Hf as (Hsaved & _ & He & Hl & Hf). apply bind_unit_ok in Hf as [_ Hf]. apply bind_unit_ok in Hf as [Hr Hf].
  apply reject_ok in Hf as [Hw Hf]. apply bind_ok in Hf as (d1 & Hd1 & [= <- <- <-]). split; [|by exists d1].
  rewrite has_key_false in He. rewrite has_key_false in Hl. rewrite map_any_false in Hw. split_and!; try done.
  - intros s ->. by rewrite negb_false_iff, bool_decide_eq_true in Hsaved.
  - intros Hz. rewrite bool_decide_eq_false_2 in Hr by done. cbn in Hr.
    destruct (PersistentResources d !! _) as [r|]; [|done]. rewrite !reject_ok in Hr. destruct Hr as (Hg & Hc & Hu & _).
    exists r. rewrite map_any_false in Hu. rewrite !orb_false_iff, <- andb_assoc, !imp_guard, !negb_false_iff, !negb_true_iff,
      !bool_decide_eq_true, !bool_decide_eq_false in Hg. destruct Hg as ((((G1 & G2) & G3) & G4) & G5). split_and!; try done.
    + intros H1 H2. specialize (G5 H1 H2). unfold resourceMaintenanceReservation in G5. by bool_hyps.
    + intros n l Hn. specialize (Hu n l Hn). by apply bool_decide_eq_false in Hu.
Qed.

Lemma zip_attachment plans (attachments : list EnvironmentAttachment) a :
  List.length plans = List.length attachments -> a ∈ attachments ->
  exists p : EnvironmentResourcePlan * EnvironmentAttachment, p ∈ zip plans attachments /\ p.2 = a.
Proof.
  revert attachments. induction plans as [|p plans IH]; intros [|b attachments]; simpl; try done.
  - intros _ H. by apply not_elem_of_nil in H.
  - intros [= Hlen] [->|Ha]%elem_of_cons; [exists (p, b); split; [left|done]|].
    destruct (IH attachments Hlen Ha) as (q & Hq & Hb). exists q. split; [by right|done].
Qed.

Lemma zip_second {A B} (l : list A) (k : list B) p : p ∈ zip l k -> p.1 ∈ l /\ p.2 ∈ k.
Proof. destruct p as [x y]. intros H. split; [by eapply elem_of_zip_l|by eapply elem_of_zip_r]. Qed.

(** The planned records belong to the lease: none of them is the source of a
    copy, and neither is the store resource of the lease. *)
Lemma reserved_fits d lease saved l d1 :
  Settled d -> reservation_free d lease saved -> reserved d l d1 ->
  (forall a, a ∈ lease_Attachments lease -> exists r, r ∈ l /\ Ref r = att_Resource a) ->
  lease_fits d1 (lease_EnvironmentID lease) lease.
Proof.
  intros Hd (_ & _ & _ & Hstore & _) Hres Hatt. destruct Hres as [Hfr Hok Hold Hnew Hpl].
  assert (Leases d1 = Leases d /\ EphemeralRuns d1 = EphemeralRuns d) as [HL HE] by by rewrite Hfr.
  split_and!.
  - intros Hz. destruct (Hstore Hz) as (r & Hr & ? & ? & ? & ? & Hm & _). exists r. split_and!; auto.
    unfold resourceMaintenanceLease in *. by rewrite HE.
  - intros k r source Hr Hz Hs. destruct (proj1 Hok k r Hr) as (_ & _ & _ & _ & Hcp).
    destruct (Hcp Hz) as (source' & Hs' & (_ & Hready & Href & _) & _). simplify_eq.
    destruct (proj1 Hok _ _ Hs) as ((_ & _ & Hsid & Hsv & _) & _). apply valid_ref_nonempty in Hsv as [Hne _].
    unfold leaseHasResource. apply orb_false_iff. split.
    + apply bool_decide_eq_false. intros Heq.
      destruct (decide (lease_PersistentResource lease = zeroRef)) as [E|E]; [rewrite E in Heq; by apply Hne|].
      destruct (Hstore E) as (r0 & Hr0 & Hr0' & _ & Hso & _ & _ & Hcr & _). rewrite <- Hr0' in Heq, Hr0. cbn in Heq, Hr0.
      destruct (Hnew k r Hr) as [Hr'|[_ Hnew']].
      * apply (copy_reserved_false d _ Hcr k r Hr' Hz). congruence.
      * destruct (Hnew' Hz) as (source' & Hs'' & Hso'). simplify_eq. apply Hold in Hr0. rewrite Heq in Hr0. rewrite Hsid in Hs.
        simplify_eq. congruence.
    + apply not_true_iff_false. intros Hex. apply existsb_exists in Hex as (a & Ha & Heq). apply bool_decide_eq_true in Heq.
      apply list_elem_of_In in Ha. destruct (Hatt a Ha) as (r0 & Hr0 & Hra). destruct (Hpl r0 Hr0) as [Hr0' Hst].
      rewrite <- Hra in Heq. cbn in Heq. rewrite Heq in Hr0'. rewrite Hsid in Hs. simplify_eq. congruence.
  - intros k other Hk Hne Hz Hz' Heq. rewrite HL in Hk. destruct (Hstore Hz) as (r & _ & Hr & _ & _ & _ & _ & _ & Hu).
    apply (Hu k other Hk). rewrite <- Hr in Heq. done.
Qed.

Lemma reservation_fields lease :
  validateEnvironmentCreateReservation lease = Ok tt ->
  ValidEnvironmentAttachments (lease_Attachments lease) = true /\
  (lease_Attachments lease <> [] -> ValidEnvironmentInstanceID (lease_InstanceID lease) = true) /\
  lease_EnvironmentID lease <> "" /\ lease_WorkspaceID lease <> "" /\ lease_SourcePath lease <> "" /\
  lease_Owner lease <> "" /\ lease_State lease = WorkspaceLeaseAcquiring /\ IsZero (lease_AcquiredAt lease) = false /\
  (lease_AccessMode lease = WorkspaceReadOnly \/ lease_AccessMode lease = WorkspaceReadWrite).
Proof.
  unfold validateEnvironmentCreateReservation. rewrite !reject_ok. intros (H1 & _ & _ & _ & H2 & H3).
  destruct (_ || (lease_AccessMode lease == WorkspaceReadWrite)) eqn:Hm; [|done]. clear H3.
  rewrite orb_true_iff, !bool_decide_eq_true in Hm. bool_hyps. split_and!; try done. intros Hne.
  match goal with H : andb _ _ = false |- _ => rewrite imp_guard, negb_true_iff, Nat.eqb_neq, negb_false_iff in H; apply H end.
  by destruct (lease_Attachments lease).
Qed.

Lemma reservation_plannable lease : validateEnvironmentCreateReservation lease = Ok tt -> lease_plannable lease.
Proof.
  intros H a Ha. apply reservation_fields in H as (Hatt & Hi & _). split.
  - intros E. rewrite E in Hi. discriminate Hi. by intros E'; rewrite E' in Ha; apply not_elem_of_nil in Ha.
  - apply ValidEnvironmentAttachments_spec in Hatt as (_ & Hok & _). rewrite Forall_forall in Hok.
    destruct (Hok a Ha) as (_ & _ & Hg & _). by apply generation_kind_nonempty.
Qed.

Lemma reservation_alone d lease saved :
  Settled d -> validateEnvironmentCreateReservation lease = Ok tt -> reservation_free d lease saved ->
  lease_alone d (lease_EnvironmentID lease) lease.
Proof.
  intros Hd Hv (_ & _ & _ & _ & Hw) k other Hk _ Hws. apply reservation_fields in Hv as (_ & _ & _ & _ & _ & _ & _ & _ & Hm).
  specialize (Hw k other Hk). unfold workspace_conflict in Hw. rewrite bool_decide_eq_true_2 in Hw by done. simpl in Hw.
  apply (settled_leases d Hd) in Hk as (_ & _ & Hm' & _). bool_hyps. tauto.
Qed.

Lemma saved_source d lease saved :
  saved_ok lease saved -> (forall s, saved = Some s -> read_or zeroSnapshot (Snapshots d) (snap_ID s) = s) ->
  Version d = environmentStateVersion -> lease_State lease = WorkspaceLeaseAcquiring ->
  lease_source_body d (lease_EnvironmentID lease) lease = Ok tt.
Proof.
  intros Hs Hread HV Hst. unfold lease_source_body. destruct saved as [s|]; simpl in Hs; [|by rewrite Hs].
  destruct Hs as (Hready & Hid & Hval & Hi & Hne). specialize (Hread s eq_refl).
  destruct (lease_SnapshotSource lease != ""); [|done]. apply reject_ok. split; [|done].
  unfold read_or in Hread. rewrite Hid. destruct (Snapshots d !! snap_ID s) as [s1|]; simpl in Hread; [|by subst s].
  subst s1. rewrite HV, Hready, Hi, Hst, (bool_decide_eq_false_2 _ Hne). unfold validateSnapshot in Hval.
  apply reject_ok in Hval as [_ Hval]. apply reject_ok in Hval as [Hval _]. bool_hyps.
  match goal with H : MatchString snapshotIDPattern _ = true |- _ => rewrite H end. reflexivity.
Qed.

Lemma beginEnvironmentCreate_keeps lease saved plans :
  saved_ok lease saved -> Forall (fun p => plan_contract (plan_Resource p)) plans ->
  Keeps anywhere (beginEnvironmentCreate lease saved plans).
Proof.
  intros Hsaved Hplans. unfold beginEnvironmentCreate. apply Keeps_checked. intros Harg. apply Keeps_locked.
  intros d d' b a Hd _ Hf Hv. apply begin_create_free in Hf as (Hfree & d1 & Hd1 & ->).
  set (n := lease_EnvironmentID lease) in *. unfold reserveEnvironmentResources in Hd1. apply reject_ok in Hd1 as [Hlen Hd1].
  apply negb_false_iff, Nat.eqb_eq in Hlen. rewrite Forall_forall in Hplans.
  apply (reserve_plans_loop d lease _ [] d d1) in Hd1 as [Hres Href].
  - pose proof (reservation_fields lease Harg) as (_ & _ & F1 & F2 & F3 & F4 & F5 & F6 & F7).
    pose proof Hfree as (Hread & Hen & Hln & _).
    assert (lease_fits d1 n lease) as Hfits.
    { apply (reserved_fits d lease saved _ d1 Hd Hfree Hres). intros att Ha.
      destruct (zip_attachment plans (lease_Attachments lease) att Hlen Ha) as (p & Hp & <-). exists (plan_Resource p.1).
      split; [by apply (list_elem_of_fmap_2 (fun q => plan_Resource q.1))|by apply Href]. }
    destruct Hres as [Hfr Hok Hold _ _]. cbn [app] in *.
    assert (lease_frame d (put_lease lease d1) n) as Hframe.
    { unfold put_lease. rewrite Hfr. constructor; try done. intros k Hk. cbn. by rewrite lookup_insert_ne. }
    split.
    + apply (lease_frame_settled d _ n); try done.
      * apply (resources_ok_leases d1 _ n); try done.
        -- rewrite Hfr. cbn. by apply settled_keys.
        -- intros k Hk. cbn. by rewrite lookup_insert_ne.
        -- intros l. cbn. rewrite lookup_insert_eq. by intros [= <-].
      * intros l. cbn. rewrite lookup_insert_eq. intros [= <-]. split; [|by apply (reservation_alone d lease saved)].
        unfold lease_wf. rewrite F5. split_and!; try done; [by left|intros _; cbn; by rewrite Hfr|].
        apply (saved_source _ lease saved); try done; rewrite Hfr; [done|apply Hd].
      * intros e He. cbn in He. rewrite Hfr in He. cbn in He. unfold n in He. congruence.
    + apply (lease_change_evolves d _ n); [done| |intros; unfold n in *; congruence..]. intros id r r' Hr Hr'. cbn in Hr'.
      apply Hold in Hr. simplify_eq. apply same_identity_refl.
  - apply reserved_nil, Hd.
  - by apply reservation_plannable.
  - intros p Hp. apply (zip_second _ _ _ Hp).
  - intros p Hp. apply Hplans, (zip_second _ _ _ Hp).
Qed.

(** ** The entry points *)

Lemma BeginEnvironmentCreate_keeps lease : Keeps anywhere (BeginEnvironmentCreate lease).
Proof.
  apply Keeps_guard. intros Hg. bool_hyps. by apply beginEnvironmentCreate_keeps.
Qed.

Lemma BeginEnvironmentCreateFromSnapshot_keeps lease saved :
  Keeps anywhere (BeginEnvironmentCreateFromSnapshot lease saved).
Proof.
  apply Keeps_guard. intros Hg. bool_hyps. apply beginEnvironmentCreate_keeps; [|done]. by rewrite is_ok_true in *.
Qed.

Lemma BeginEnvironmentCreateWithResources_keeps lease plans :
  Forall (fun p => plan_contract (plan_Resource p)) plans ->
  Keeps anywhere (BeginEnvironmentCreateWithResources lease plans).
Proof. intros Hp. apply Keeps_guard. intros Hg. bool_hyps. by apply beginEnvironmentCreate_keeps. Qed.

Lemma BeginEnvironmentCreateFromSnapshotWithResources_keeps lease saved plans :
  Forall (fun p => plan_contract (plan_Resource p)) plans ->
  Keeps anywhere (BeginEnvironmentCreateFromSnapshotWithResources lease saved plans).
Proof.
  intros Hp. apply Keeps_guard. intros Hg. apply Keeps_guard. intros _. bool_hyps.
  apply beginEnvironmentCreate_keeps; [|done]. by rewrite is_ok_true in *.
Qed.

(** ** Durable identity *)

Lemma instance_change_keeps d n e l id :
  Settled d -> Environments d !! n = Some e -> Leases d !! n = Some l -> lease_InstanceID l = "" ->
  lease_SnapshotSource l = "" ->
  validateCommit (with_Leases (<[n:=lease_with_InstanceID id l]> (Leases d)) d) = Ok tt ->
  Settled (with_Leases (<[n:=lease_with_InstanceID id l]> (Leases d)) d) /\
  Evolves d (with_Leases (<[n:=lease_with_InstanceID id l]> (Leases d)) d).
Proof.
  intros Hd He Hl Hi Hss Hv. set (l' := lease_with_InstanceID id l) in *.
  apply (replace_lease_keeps d _ n l l'); try done.
  - apply lease_frame_put.
  - cbn. by rewrite lookup_insert_eq.
  - apply (lease_quiet_inactive d n); [apply Hd|done|by right].
  - pose proof (settled_leases d Hd n l Hl) as (W1 & W2 & W3 & W4 & W5 & W6 & W7 & _).
    unfold lease_wf. split_and!; try done; try apply W4. unfold lease_source_body. cbn. by rewrite Hss.
  - intros e' He'. cbn in He'. apply (env_wf_binding d _ n l l' e'); try done; [by apply (settled_envs d Hd)|].
    cbn. by rewrite lookup_insert_eq.
Qed.

Lemma EnvironmentInstance_keeps expected nonce : Keeps anywhere (EnvironmentInstance expected nonce).
Proof.
  intros flt k k' r Hk _ Hf. unfold EnvironmentInstance in Hf.
  assert ((k', r) = (k, r) -> settled_disk k' /\ Evolves (catalog_of k) (catalog_of k')) as Hsame.
  { intros [= ->]. split; [done|auto with catalog]. }
  destruct (lock_fails flt); [injection Hf as <- <-; by apply Hsame|].
  destruct (committed k) as [| | |data] eqn:Hc; try (injection Hf as <- <-; by apply Hsame).
  destruct (negb _); [injection Hf as <- <-; by apply Hsame|].
  match type of Hf with match ?m with _ => _ end = _ => destruct m as [lease|e] eqn:Hm end;
    [|injection Hf as <- <-; by apply Hsame].
  apply bind_unit_ok in Hm as [_ Hm]. apply bind_unit_ok in Hm as [_ Hm]. apply bind_unit_ok in Hm as [_ Hm].
  destruct (Environments data !! env_Name expected) as [current|] eqn:He; [|done]. apply reject_ok in Hm as [_ Hm].
  destruct (Leases data !! env_Name expected) as [l|] eqn:Hl; [|done]. apply reject_ok in Hm as [Hg Hm].
  apply bind_unit_ok in Hm as [_ [= <-]]. bool_hyps.
  assert (catalog_of k = data) as Hcat by (unfold catalog_of; by rewrite Hc).
  assert (Settled data) as Hd by (rewrite <- Hcat; by apply settled_disk_catalog).
  case_bool_decide as Hi; [|destruct (negb _); injection Hf as <- <-; by apply Hsame].
  destruct (ctx_before flt); [injection Hf as <- <-; by apply Hsame|].
  destruct (writeEnvironments _ _ k) as [k1 r1] eqn:Hw.
  assert (k' = k1) as -> by (destruct r1 as [[]|]; [destruct (negb _)|]; by injection Hf).
  apply writeEnvironments_cases in Hw as [(Hsf & _)|(Hv & -> & _)]; [by apply settled_disk_unchanged|].
  apply settled_disk_written; rewrite ?Hcat; [done|by apply (instance_change_keeps data _ current)..].
Qed.
