(* ===== verification/SnapshotProofs.v ===== *)
(** * Snapshot, base asset, generation, run and preference operations keep the
      catalog settled *)

From S2P Require Import Prelude GoText Core CoreChecks CatalogState CatalogChecks Catalog Resources Generations Snapshots Runs.
From S2P Require Import CatalogSpec Settled Transactions ResourceProofs.
From Stdlib Require Import Ascii String.
Open Scope string_scope.

(** ** Changes at one key of the snapshot map *)

(** No Workspace copy, restored record or lease depends on the snapshot. *)
Definition snapshot_unused (d : environmentFileState) (id : string) : Prop :=
  (forall k c, WorkspaceCopies d !! k = Some c -> copy_SnapshotID c <> id) /\
  (forall k r, PersistentResources d !! k = Some r -> res_RestoreSource r <> "" -> res_RestoreSource r <> id) /\
  (forall n l, Leases d !! n = Some l -> lease_SnapshotSource l <> "" -> lease_SnapshotSource l <> id).

Lemma workspace_copy_body_ok d k c :
  Version d = environmentStateVersion ->
  workspace_copy_body d k c = Ok tt <-> validSnapshotWorkspaceCopy k c = true /\ snapshot_ready d (copy_SnapshotID c).
Proof.
  intros HV. unfold workspace_copy_body, snapshot_ready. rewrite reject_ok, !orb_false_iff, HV, negb_false_iff, Z.eqb_refl.
  destruct (Snapshots d !! copy_SnapshotID c) as [s|]; bool_prop; naive_solver.
Qed.

Lemma lease_source_body_ok d n l :
  Version d = environmentStateVersion ->
  lease_source_body d n l = Ok tt <->
  (lease_SnapshotSource l <> "" ->
     MatchString snapshotIDPattern (lease_SnapshotSource l) = true /\
     exists s, Snapshots d !! lease_SnapshotSource l = Some s /\ snap_State s = "ready" /\
       ValidEnvironmentInstanceID (lease_InstanceID l) = true /\ lease_InstanceID l <> src_InstanceID (snap_Source s) /\
       (lease_State l = WorkspaceLeaseAcquiring \/ lease_State l = WorkspaceLeaseCleanupRequired)).
Proof.
  intros HV. unfold lease_source_body. case_bool_decide as Hz; simpl; [naive_solver|]. rewrite reject_ok, HV.
  replace (version_in [12; environmentStateVersion]%Z environmentStateVersion) with true by reflexivity.
  rewrite !orb_false_iff, negb_false_iff.
  destruct (Snapshots d !! lease_SnapshotSource l) as [s|]; bool_prop; [|naive_solver]. split; [|naive_solver].
  intros (((_ & Hm) & (((H1 & H2) & H3) & H4)) & _) _. split; [done|]. exists s. split_and!; done.
Qed.

(** A snapshot that is absent or not ready is unused. *)
Lemma not_ready_unused d id :
  Settled d -> (forall s, Snapshots d !! id = Some s -> snap_State s <> "ready") -> snapshot_unused d id.
Proof.
  intros H Hn. pose proof (settled_version d H) as HV. split_and!.
  - intros k c Hc <-. pose proof (settled_copies d H) as Hb. rewrite range_map_ok in Hb. specialize (Hb k c Hc).
    apply (workspace_copy_body_ok d k c HV) in Hb as (_ & s & Hs & Hr). by apply (Hn s).
  - intros k r Hr Hz <-. destruct (settled_wf d k r H Hr) as (_ & _ & _ & Hs & _). destruct (Hs Hz) as (s & Hs' & ?).
    by apply (Hn s).
  - intros n l Hl Hz <-. apply (settled_leases d H) in Hl as (_ & _ & _ & _ & _ & _ & _ & Hs).
    apply (lease_source_body_ok d n l HV) in Hs as (_ & s & Hs & Hr & _); [|done]. by apply (Hn s).
Qed.

Lemma snapshot_body_ok d id s :
  Version d = environmentStateVersion ->
  snapshot_body d id s = Ok tt <-> id = snap_ID s /\ validateSnapshot s = Ok tt.
Proof.
  intros HV. unfold snapshot_body. rewrite !reject_ok, HV.
  replace (environmentStateVersion =? 5)%Z with false by reflexivity.
  replace (version_in _ environmentStateVersion) with true by reflexivity. bool_prop. rewrite is_ok_true. naive_solver.
Qed.

Lemma snapshot_change_keeps d m id :
  Settled d -> snapshot_unused d id -> (forall k, k <> id -> m !! k = Snapshots d !! k) ->
  (forall s, m !! id = Some s -> id = snap_ID s /\ validateSnapshot s = Ok tt) ->
  (forall s s', Snapshots d !! id = Some s -> m !! id = Some s' -> snap_evolves s s') ->
  validateCommit (with_Snapshots m d) = Ok tt ->
  Settled (with_Snapshots m d) /\ Evolves d (with_Snapshots m d).
Proof.
  intros H (U1 & U2 & U3) Hm Hid Hev Hv. pose proof (settled_version d H) as HV. split.
  2:{ evolves. by apply (related_at _ _ _ id); auto with catalog. }
  constructor; try done; try apply H.
  - pose proof (settled_copies d H) as Hc. rewrite range_map_ok in *. intros k c Hk. specialize (Hc k c Hk).
    apply workspace_copy_body_ok; [done|]. apply workspace_copy_body_ok in Hc as (? & s & Hs & ?); [|done].
    split; [done|]. exists s. cbn. rewrite Hm; eauto.
  - pose proof (settled_snapshots d H) as Hc. rewrite range_map_ok in *. intros k s Hk. cbn in Hk.
    apply snapshot_body_ok; [done|]. destruct (decide (k = id)) as [->|Hne]; [by apply Hid|].
    rewrite Hm in Hk by done. apply (snapshot_body_ok d); auto.
  - intros n l Hl. pose proof (settled_leases d H n l Hl) as (W1 & W2 & W3 & W4 & W5 & W6 & W7 & W8).
    unfold lease_wf. split_and!; try done; try apply W4. apply lease_source_body_ok; [done|]. intros Hz.
    apply lease_source_body_ok in W8 as (? & s & Hs & ?); [|done..]. split; [done|]. exists s. cbn. rewrite Hm; eauto.
  - destruct (settled_resources d H) as (R1 & R2 & R3). split_and!; [|done..]. intros k r Hr.
    destruct (R1 k r Hr) as (C1 & C2 & C3 & C4 & C5). split_and!; [done..|]. split_and!; [done| |done].
    intros Hz. destruct (C4 Hz) as (s & Hs & ?). exists s. cbn. rewrite Hm; eauto.
Qed.

Lemma put_snapshot_keeps d id s :
  Settled d -> snapshot_unused d id -> id = snap_ID s -> validateSnapshot s = Ok tt ->
  (forall s0, Snapshots d !! id = Some s0 -> snap_evolves s0 s) ->
  validateCommit (put_snapshot id s d) = Ok tt ->
  Settled (put_snapshot id s d) /\ Evolves d (put_snapshot id s d).
Proof.
  intros H Hu Hid Hs Hev Hv. apply (snapshot_change_keeps d _ id); try done.
  - intros k Hk. by rewrite lookup_insert_ne.
  - intros s'. rewrite lookup_insert_eq. by intros [= <-].
  - intros s0 s' Hs0. rewrite lookup_insert_eq. intros [= <-]. by apply Hev.
Qed.

Lemma settled_snapshot d id s : Settled d -> Snapshots d !! id = Some s -> id = snap_ID s /\ validateSnapshot s = Ok tt.
Proof.
  intros H Hs. pose proof (settled_snapshots d H) as Hc. rewrite range_map_ok in Hc.
  apply (snapshot_body_ok d); [apply H|]. auto.
Qed.

(** ** Snapshot operations *)

Lemma BeginSnapshot_keeps s : Keeps anywhere (BeginSnapshot s).
Proof.
  apply Keeps_guard. intros Hg. apply Keeps_guard. intros _. bool_hyps. rewrite is_ok_true in *.
  apply Keeps_catalog. intros d d' b a Hd _ Hf Hv. unfold BeginSnapshot_change in Hf. apply reject_ok in Hf as [Hn Hf].
  apply has_key_false in Hn. destruct (Environments d !! _) as [current|]; [|done]. rewrite !reject_ok in Hf.
  destruct Hf as (_ & _ & _ & _ & [= <- <- <-]). apply put_snapshot_keeps; try done; [|congruence].
  apply not_ready_unused; [done|congruence].
Qed.

(** A change of a stored snapshot that a ready one never accepts. *)
Lemma mutateSnapshot_keeps id fn :
  (forall s s', fn s = Ok s' -> snap_State s <> "ready" /\ snap_ID s' = snap_ID s /\ snap_Source s' = snap_Source s) ->
  Keeps anywhere (mutateSnapshot id fn).
Proof.
  intros Hfn. apply Keeps_catalog. intros d d' b a Hd _ Hf Hv. unfold mutateSnapshot_change in Hf.
  destruct (Snapshots d !! id) as [s|] eqn:Hs; [|done]. apply bind_ok in Hf as (s' & Hfs & Hf).
  apply bind_unit_ok in Hf as [Hval [= <- <- <-]]. destruct (Hfn s s' Hfs) as (Hr & Hid & Hsrc).
  destruct (settled_snapshot d id s Hd Hs) as [-> _]. apply put_snapshot_keeps; try done.
  - apply not_ready_unused; [done|]. intros ? ?. by simplify_eq.
  - intros s0 Hs0. simplify_eq. done.
Qed.

(** A ready snapshot accepts no component transition. *)
Lemma record_component_ready expected next l l' : record_component false "ready" expected next l <> Ok l'.
Proof.
  revert l'. induction l as [|c l IH]; intros l'; simpl; [done|]. destruct (comp_Role c != comp_Role expected).
  - intros H. apply bind_ok in H as (l1 & Hl & _). by apply (IH l1).
  - rewrite reject_ok. by intros [_ H].
Qed.

Lemma RecordSnapshotComponent_keeps id expected next : Keeps anywhere (RecordSnapshotComponent id expected next).
Proof.
  apply mutateSnapshot_keeps. intros s s' H. apply bind_ok in H as (l & Hl & [= <-]). split_and!; try done.
  intros Hr. rewrite Hr in Hl. by apply record_component_ready in Hl.
Qed.

Lemma CommitSnapshot_keeps id : Keeps anywhere (CommitSnapshot id).
Proof.
  apply mutateSnapshot_keeps. intros s s' H. unfold CommitSnapshot_fn in H. rewrite !reject_ok in H.
  destruct H as (Hg & _ & [= <-]). split_and!; try done. intros Hr. by rewrite Hr in Hg.
Qed.

Lemma RecordSnapshotImage_keeps id image : Keeps anywhere (RecordSnapshotImage id image).
Proof.
  apply mutateSnapshot_keeps. intros s s' H. unfold RecordSnapshotImage_fn in H. rewrite reject_ok in H.
  destruct H as (Hg & [= <-]). split_and!; try done. intros Hr. by rewrite Hr in Hg.
Qed.

Lemma MarkSnapshotRecovery_keeps id : Keeps anywhere (MarkSnapshotRecovery id).
Proof.
  apply mutateSnapshot_keeps. intros s s' H. unfold MarkSnapshotRecovery_fn in H. rewrite reject_ok in H.
  destruct H as (Hg & [= <-]). split_and!; try done. intros Hr. by rewrite Hr in Hg.
Qed.

(** ** Snapshot deletion *)

Lemma range_loop_mono {A S} (f g : A -> S -> result S) l s s' :
  (forall x s s', f x s = Ok s' -> g x s = Ok s') -> range_loop f l s = Ok s' -> range_loop g l s = Ok s'.
Proof.
  intros Hfg. revert s. induction l as [|x l IH]; intros s; simpl; [done|].
  destruct (f x s) as [s1|] eqn:E; [|done]. rewrite (Hfg _ _ _ E). apply IH.
Qed.

(** The component check only relaxes when the snapshot starts deleting. *)
Lemma deleting_component s c st st' :
  snapshot_component_body s c st = Ok st' -> snapshot_component_body (snap_with_State "deleting" s) c st = Ok st'.
Proof.
  unfold snapshot_component_body. rewrite !reject_ok. intros (H1 & H2 & H3). split_and!; try done.
  destruct st. rewrite bind_ok in *. destruct H3 as (counted & Hc & Hr). exists counted. split; [done|].
  rewrite !reject_ok in *. destruct Hr as (Hs & _ & _ & Hok). split_and!; try done. cbn. by rewrite andb_false_r.
Qed.

Lemma deleting_valid s : validateSnapshot s = Ok tt -> validateSnapshot (snap_with_State "deleting" s) = Ok tt.
Proof.
  unfold validateSnapshot. rewrite !reject_ok. intros (H1 & H2 & H3 & H4). split_and!; try done.
  rewrite bind_ok in *. destruct H4 as (scan & Hscan & H4). exists scan. split.
  - eapply range_loop_mono; [|exact Hscan]. intros. by apply deleting_component.
  - rewrite !reject_ok in *. destruct H4 as (K1 & K2 & K3 & K4). split_and!; try done; [|apply K4]. cbn. by rewrite andb_false_r.
Qed.

Lemma BeginSnapshotDelete_keeps id : Keeps anywhere (BeginSnapshotDelete id).
Proof.
  apply Keeps_catalog. intros d d' b a Hd _ Hf Hv. unfold BeginSnapshotDelete_change in Hf. rewrite !reject_ok in Hf.
  destruct Hf as (H1 & H2 & H3 & _ & Hf). rewrite map_any_false in H1. rewrite map_any_false in H2. rewrite map_any_false in H3.
  destruct (Snapshots d !! id) as [s|] eqn:Hs; [|done]. injection Hf as <- <- <-.
  destruct (settled_snapshot d id s Hd Hs) as [Hid Hval]. apply put_snapshot_keeps; try done; [|by apply deleting_valid|].
  - split_and!.
    + intros k c Hk. specialize (H1 k c Hk). by apply bool_decide_eq_false in H1.
    + intros k r Hk _. specialize (H2 k r Hk). by apply bool_decide_eq_false in H2.
    + intros k l Hk _. specialize (H3 k l Hk). by apply bool_decide_eq_false in H3.
  - intros s0 Hs0. simplify_eq. split_and!; try done. by right.
Qed.

Lemma FinalizeSnapshotDelete_keeps id : Keeps anywhere (FinalizeSnapshotDelete id).
Proof.
  apply Keeps_catalog. intros d d' b a Hd _ Hf Hv. unfold FinalizeSnapshotDelete_change in Hf.
  destruct (Snapshots d !! id) as [s|] eqn:Hs; [|done]. rewrite !reject_ok in Hf. destruct Hf as (Hst & _ & [= <- <- <-]).
  bool_hyps. apply (snapshot_change_keeps d _ id); try done.
  - apply not_ready_unused; [done|]. intros ? ?. simplify_eq. congruence.
  - intros k Hk. by rewrite lookup_delete_ne.
  - intros s'. by rewrite lookup_delete_eq.
  - intros s' s'' _. by rewrite lookup_delete_eq.
Qed.

(** ** Legacy restores: a settled catalog holds none *)

Lemma mutateRestore_keeps id fn : Keeps anywhere (mutateRestore id fn).
Proof.
  apply Keeps_catalog. intros d d' b a Hd _ Hf Hv. unfold mutateRestore_change in Hf. by rewrite (settled_restores d Hd) in Hf.
Qed.

Lemma FinalizeRestoreCleanup_keeps id : Keeps anywhere (FinalizeRestoreCleanup id).
Proof.
  apply Keeps_catalog. intros d d' b a Hd _ Hf Hv. unfold FinalizeRestoreCleanup_change in Hf.
  by rewrite (settled_restores d Hd) in Hf.
Qed.

(** ** Workspace copies *)

Lemma copies_keep d m :
  Settled d -> (forall k c, m !! k = Some c -> workspace_copy_body d k c = Ok tt) ->
  validateCommit (with_WorkspaceCopies m d) = Ok tt ->
  Settled (with_WorkspaceCopies m d) /\ Evolves d (with_WorkspaceCopies m d).
Proof.
  intros H Hm Hv. split; [|evolves]. destruct H. constructor; try done. by apply range_map_ok.
Qed.

Lemma BeginSnapshotWorkspaceCopy_keeps saved id owner : Keeps anywhere (BeginSnapshotWorkspaceCopy saved id owner).
Proof.
  unfold BeginSnapshotWorkspaceCopy. apply Keeps_guard. intros Hg. bool_hyps. apply Keeps_catalog.
  intros d d' b a Hd _ Hf Hv. unfold BeginSnapshotWorkspaceCopy_change in Hf. rewrite !reject_ok in Hf.
  destruct Hf as (Hs & Hn & [= <- <- <-]). bool_hyps. apply copies_keep; try done. intros k c Hk.
  destruct (decide (k = id)) as [->|Hne].
  - rewrite lookup_insert_eq in Hk. injection Hk as <-. apply workspace_copy_body_ok; [apply Hd|]. split; [done|]. by exists saved.
  - rewrite lookup_insert_ne in Hk by done. pose proof (settled_copies d Hd) as Hc. rewrite range_map_ok in Hc. auto.
Qed.

Lemma FinishSnapshotWorkspaceCopy_keeps saved id owner : Keeps anywhere (FinishSnapshotWorkspaceCopy saved id owner).
Proof.
  unfold FinishSnapshotWorkspaceCopy. apply Keeps_guard. intros _. apply Keeps_catalog.
  intros d d' b a Hd _ Hf Hv. unfold FinishSnapshotWorkspaceCopy_change in Hf.
  destruct (WorkspaceCopies d !! id) as [c|]; [|done]. apply reject_ok in Hf as [_ [= <- <- <-]].
  apply copies_keep; try done. intros k c' Hk. apply lookup_delete_Some in Hk as [_ Hk].
  pose proof (settled_copies d Hd) as Hc. rewrite range_map_ok in Hc. auto.
Qed.

(** ** Base assets *)

Definition asset_wf (m : gmap string BaseAsset) (id : string) (a : BaseAsset) : Prop :=
  id = asset_ID a /\ validateBaseAsset a = Ok tt /\
  forall k other, m !! k = Some other -> k <> id -> assets_conflict a other = false.

Lemma base_asset_body_ok d id a :
  Version d = environmentStateVersion -> base_asset_body d id a = Ok tt <-> asset_wf (BaseAssets d) id a.
Proof.
  intros HV. unfold base_asset_body, asset_wf. rewrite !reject_ok, HV, map_any_false.
  replace (version_in _ environmentStateVersion) with true by reflexivity.
  rewrite !orb_false_iff, !negb_false_iff, bool_decide_eq_true, is_ok_true.
  assert ((forall k v, BaseAssets d !! k = Some v -> (k != id) && assets_conflict a v = false) <->
    (forall k v, BaseAssets d !! k = Some v -> k <> id -> assets_conflict a v = false)) as ->; [|tauto].
  split; intros H k v Hk; specialize (H k v Hk).
  - intros Hne. by rewrite bool_decide_eq_false_2 in H.
  - case_bool_decide; simpl; auto.
Qed.

Lemma assets_conflict_sym a b : assets_conflict a b = assets_conflict b a.
Proof.
  unfold assets_conflict. f_equal; [|f_equal; [f_equal|]]; apply bool_decide_ext; split; congruence.
Qed.

Lemma assets_keep d id a :
  Settled d -> id = asset_ID a -> validateBaseAsset a = Ok tt ->
  (forall k other, BaseAssets d !! k = Some other -> k <> id -> assets_conflict a other = false) ->
  validateCommit (with_BaseAssets (<[id:=a]> (BaseAssets d)) d) = Ok tt ->
  Settled (with_BaseAssets (<[id:=a]> (BaseAssets d)) d) /\ Evolves d (with_BaseAssets (<[id:=a]> (BaseAssets d)) d).
Proof.
  intros H Hid Hval Hno Hv. split; [|evolves]. pose proof (settled_version d H) as HV.
  pose proof (settled_assets d H) as Ha. rewrite range_map_ok in Ha.
  destruct H. constructor; try done. apply range_map_ok. intros k b Hk. cbn in Hk. apply base_asset_body_ok; [done|].
  destruct (decide (k = id)) as [->|Hne].
  - rewrite lookup_insert_eq in Hk. injection Hk as <-. split_and!; [done..|]. intros k other Ho Hk. cbn in Ho.
    rewrite lookup_insert_ne in Ho by done. by apply (Hno k).
  - rewrite lookup_insert_ne in Hk by done. destruct (proj1 (base_asset_body_ok d k b HV) (Ha k b Hk)) as (B1 & B2 & B3).
    split_and!; [done..|]. intros k' other Ho Hk'. cbn in Ho. destruct (decide (k' = id)) as [->|Hne'].
    + rewrite lookup_insert_eq in Ho. injection Ho as <-. rewrite assets_conflict_sym. by apply (Hno k).
    + rewrite lookup_insert_ne in Ho by done. by apply (B3 k').
Qed.

Lemma BeginBaseAsset_keeps a : Keeps anywhere (BeginBaseAsset a).
Proof.
  apply Keeps_guard. intros Hg. bool_hyps. rewrite is_ok_true in *. apply Keeps_catalog. intros d d' b x Hd _ Hf Hv.
  apply reject_ok in Hf as [Hno [= <- <- <-]]. rewrite map_any_false in Hno. apply assets_keep; try done.
  intros k other Ho _. specialize (Hno k other Ho). apply orb_false_iff in Hno as [_ Hno]. by rewrite assets_conflict_sym.
Qed.

Lemma asset_state_valid a next :
  validateBaseAsset a = Ok tt -> next = "created" \/ next = "ready" -> validateBaseAsset (asset_with_State next a) = Ok tt.
Proof.
  unfold validateBaseAsset. rewrite !reject_ok, !bind_unit_ok, !reject_ok. intros (H1 & H2 & H3 & H4 & _) Hn.
  split_and!; try done. by destruct Hn as [->| ->].
Qed.

Lemma RecordBaseAsset_keeps a next : Keeps anywhere (RecordBaseAsset a next).
Proof.
  apply Keeps_guard. intros Hg. bool_hyps. rewrite is_ok_true in *. apply Keeps_catalog. intros d d' b x Hd _ Hf Hv.
  unfold RecordBaseAsset_change in Hf. rewrite !reject_ok in Hf. destruct Hf as (Hs & Hn & [= <- <- <-]). bool_hyps.
  apply assets_keep; try done.
  - apply asset_state_valid; [done|]. apply orb_true_iff in Hn as [Hn|Hn]; bool_hyps; auto.
  - intros k other Ho Hk. pose proof (settled_assets d Hd) as Ha. rewrite range_map_ok in Ha.
    destruct (proj1 (base_asset_body_ok d _ a (settled_version d Hd)) (Ha _ _ Hs)) as (_ & _ & B). by apply (B k).
Qed.

(** ** Resource generations *)

Lemma generations_keep d n g :
  Settled d -> (0 <= gen_Number g < 2 ^ 64)%Z ->
  (forall g0, ResourceGenerations d !! n = Some g0 -> gen_evolves g0 g) ->
  validateCommit (with_ResourceGenerations (<[n:=g]> (ResourceGenerations d)) d) = Ok tt ->
  Settled (with_ResourceGenerations (<[n:=g]> (ResourceGenerations d)) d) /\
  Evolves d (with_ResourceGenerations (<[n:=g]> (ResourceGenerations d)) d).
Proof.
  intros H Hn Hev Hv. split.
  - destruct H. constructor; try done. intros k g' Hk. cbn in Hk. destruct (decide (k = n)) as [->|Hne].
    + rewrite lookup_insert_eq in Hk. by injection Hk as <-.
    + rewrite lookup_insert_ne in Hk by done. eauto.
  - evolves. apply (related_at _ _ _ n); auto with catalog.
    + intros k Hk. by rewrite lookup_insert_ne.
    + intros g0 g' Hg0. rewrite lookup_insert_eq. intros [= <-]. auto.
Qed.

Lemma generation_name d n g :
  validateResourceGenerations d = Ok tt -> ResourceGenerations d !! n = Some g -> gen_Name g = n.
Proof.
  intros H Hg. unfold validateResourceGenerations in H. rewrite bind_unit_ok, reject_ok in H. destruct H as (_ & _ & H).
  apply bind_ok in H as (held & H & _).
  apply (range_loop_each _ _ _ _ (n, g)) in H as (s1 & s2 & H); [|by apply elem_of_map_to_list].
  apply reject_ok in H as [H _]. by bool_hyps.
Qed.

Lemma EnsureResourceGeneration_keeps name kind compatibility nonce :
  Keeps anywhere (EnsureResourceGeneration name kind compatibility nonce).
Proof.
  apply Keeps_guard. intros _. apply Keeps_catalog. intros d d' b a Hd _ Hf Hv. unfold EnsureResourceGeneration_change in Hf.
  destruct (ResourceGenerations d !! name) as [g|] eqn:Hg.
  - apply reject_ok in Hf as [_ [= <- <- <-]]. auto with catalog.
  - injection Hf as <- <- <-. apply generations_keep; try done. congruence.
Qed.

Lemma uint64_succ_small n : (0 <= n < 2 ^ 64)%Z -> n <> maxUint64 -> uint64_succ n = (n + 1)%Z.
Proof. unfold uint64_succ, maxUint64. intros H1 H2. apply Z.mod_small. lia. Qed.

Lemma AdvanceResourceGeneration_keeps expected candidate : Keeps anywhere (AdvanceResourceGeneration expected candidate).
Proof.
  apply Keeps_guard. intros _. apply Keeps_catalog. intros d d' b a Hd _ Hf Hv. unfold AdvanceResourceGeneration_change in Hf.
  destruct (ResourceGenerations d !! gen_Name expected) as [g|] eqn:Hg; [|done]. rewrite !reject_ok in Hf.
  destruct Hf as (_ & Hmax & Hf). destruct (PersistentResources d !! _) as [r|]; [|done]. rewrite !reject_ok in Hf.
  destruct Hf as (_ & _ & [= <- <- <-]). bool_hyps. pose proof (settled_numbers d Hd _ g Hg) as Hn.
  pose proof (uint64_succ_small (gen_Number g) Hn ltac:(done)) as Hs.
  assert (gen_Name g = gen_Name expected) as Hname.
  { pose proof (settled_commit d Hd) as Hc. apply validateCommit_ok in Hc as (_ & _ & Hc & _).
    by apply (generation_name d _ g Hc). }
  apply generations_keep; try done; cbn.
  - rewrite Hs. unfold maxUint64 in *. lia.
  - intros g0 Hg0. rewrite Hname in Hg0. simplify_eq. right. cbn. split_and!; try done. left. done.
Qed.

Lemma ResetResourceGeneration_keeps expected compatibility nonce :
  Keeps anywhere (ResetResourceGeneration expected compatibility nonce).
Proof.
  apply Keeps_guard. intros _. apply Keeps_catalog. intros d d' b a Hd _ Hf Hv. unfold ResetResourceGeneration_change in Hf.
  rewrite !reject_ok in Hf. destruct Hf as (Hg & He & [= <- <- <-]). bool_hyps. apply generations_keep; try done. cbn.
  intros g0 Hg0. rewrite Hg0 in Hg. bool_hyps. subst g0. right. split_and!; try done. by right.
Qed.

(** ** Ephemeral runs, owned Workspaces, preferences *)

Lemma runs_keep d m :
  Settled d -> validatePersistentResourceState (with_EphemeralRuns m d) = Ok tt ->
  validateCommit (with_EphemeralRuns m d) = Ok tt ->
  Settled (with_EphemeralRuns m d) /\ Evolves d (with_EphemeralRuns m d).
Proof.
  intros H Hr Hv. split; [|evolves]. apply validatePersistentResourceState_ok in Hr as (_ & R2 & R3 & _); [|apply H].
  pose proof (settled_resources d H) as (R1 & _). destruct H. by constructor.
Qed.

Lemma PutEphemeralRun_keeps run : Keeps anywhere (PutEphemeralRun run).
Proof.
  unfold PutEphemeralRun. apply Keeps_checked. intros _. apply Keeps_locked. intros d d' b a Hd _ Hf Hv.
  unfold PutEphemeralRun_change in Hf. apply bind_unit_ok in Hf as [_ Hf]. apply bind_unit_ok in Hf as [Hr [= <- <- <-]].
  by apply runs_keep.
Qed.

Lemma DeleteEphemeralRun_keeps n : Keeps anywhere (DeleteEphemeralRun n).
Proof.
  apply Keeps_guard. intros _. apply Keeps_locked. intros d d' b a Hd _ Hf Hv. unfold DeleteEphemeralRun_change in Hf.
  destruct (negb _); [injection Hf as <- <- <-; auto with catalog|]. rewrite !reject_ok in Hf. destruct Hf as (_ & _ & Hf).
  apply bind_unit_ok in Hf as [Hr [= <- <- <-]]. by apply runs_keep.
Qed.

Lemma FinalizeOwnedWorkspaceCleanup_keeps name work : Keeps anywhere (FinalizeOwnedWorkspaceCleanup name work).
Proof.
  apply Keeps_catalog. intros d d' b a Hd _ Hf Hv. unfold FinalizeOwnedWorkspaceCleanup_change in Hf.
  destruct (OwnedWorkspaceCleanup d !! name); [|injection Hf as <- <- <-; auto with catalog].
  apply reject_ok in Hf as [_ [= <- <- <-]]. split; [|evolves]. destruct Hd. by constructor.
Qed.

Lemma SetDefaultImage_keeps image initial : Keeps anywhere (SetDefaultImage image initial).
Proof.
  apply Keeps_guard. intros _. apply Keeps_catalog. intros d d' b a Hd _ Hf Hv. unfold SetDefaultImage_change in Hf.
  destruct (_ && _); injection Hf as <- <- <-; [auto with catalog|]. split; [|evolves]. destruct Hd. by constructor.
Qed.

Lemma RememberOpened_keeps expected : Keeps anywhere (RememberOpened expected).
Proof.
  apply Keeps_catalog. intros d d' b a Hd _ Hf Hv. unfold RememberOpened_change in Hf.
  destruct (Environments d !! _); [|done]. apply reject_ok in Hf as [_ [= <- <- <-]].
  split; [|evolves]. destruct Hd. by constructor.
Qed.
