(* ===== verification/Store.v ===== *)
(** * The store as a whole

    Every exported operation of [src/internal/state] as one constructor of
    [store_op], the promises its callers make, and the disks that sequences of
    operations, failures and power losses can reach. *)

From S2P Require Import Prelude GoText Core CoreChecks CoreProofs CatalogState CatalogChecks Catalog.
From S2P Require Import Resources Lifecycle Generations Snapshots Runs.
From S2P Require Import CatalogSpec Settled Transactions ResourceProofs CopyProofs LifecycleProofs ReservationProofs SnapshotProofs.
From Stdlib Require Import Ascii String.
Open Scope string_scope.

Inductive store_op :=
(* environment_lifecycle.go, saved_environment_resources.go, environment_identity.go *)
| OpBeginEnvironmentCreate (lease : WorkspaceLease)
| OpBeginEnvironmentCreateFromSnapshot (lease : WorkspaceLease) (saved : Snapshot)
| OpBeginEnvironmentCreateWithResources (lease : WorkspaceLease) (plans : list EnvironmentResourcePlan)
| OpBeginEnvironmentCreateFromSnapshotWithResources (lease : WorkspaceLease) (saved : Snapshot)
    (plans : list EnvironmentResourcePlan)
| OpRecordEnvironmentRuntime (lease : WorkspaceLease)
| OpCommitEnvironmentCreate (environment : Environment) (lease : WorkspaceLease)
| OpMarkEnvironmentRecoveryRequired (lease : WorkspaceLease)
| OpFinalizeEnvironmentDelete (environmentID : string)
| OpEnvironmentInstance (expected : Environment) (nonce : list ascii)
(* persistent_resource.go, persistent_restore.go, cache_copy_cleanup.go *)
| OpBeginPersistentResourceCreate (r : PersistentResource)
| OpMarkPersistentResourceCopyCompleted (r : PersistentResource)
| OpCommitPersistentResourceCreate (r : PersistentResource)
| OpBeginPersistentResourceCopy (source target : PersistentResource)
| OpBeginPersistentResourceDelete (id : string)
| OpBeginPersistentResourceDeleteReviewed (ref : PersistentResourceRef)
| OpBeginWorkspaceResourceDelete (id work : string)
| OpBeginPersistentResourceDeleteOwned (r : PersistentResource)
| OpBeginEnvironmentResourceDelete (instance : string) (ref : PersistentResourceRef)
| OpBeginGenerationResourceDelete (ref : PersistentResourceRef)
| OpBeginStoppedCacheCopyDelete (r : PersistentResource)
| OpFinalizePersistentResourceDelete (r : PersistentResource)
| OpBeginSnapshotResourceRestore (saved : Snapshot) (r : PersistentResource)
| OpRecordPersistentResourceCreated (r : PersistentResource)
| OpRecordCacheCopyOperation (r : PersistentResource) (op : string)
| OpMarkCacheCopyCleanup (r : PersistentResource)
(* environment_resource.go, environment_resource_clear.go, environment_generation.go *)
| OpBeginEnvironmentResourceMaterialization (expected : WorkspaceLease) (ref : PersistentResourceRef)
| OpBeginEnvironmentResourceImport (expected : WorkspaceLease) (ref : PersistentResourceRef)
| OpRecordEnvironmentResourceCreated (r : PersistentResource)
| OpPrepareEnvironmentResourceDeletion (expected : WorkspaceLease)
| OpBeginEnvironmentResourceClear (expected : WorkspaceLease) (ref : PersistentResourceRef)
| OpCommitEnvironmentResourceClear (expected : WorkspaceLease) (r : PersistentResource)
| OpBeginEnvironmentGenerationCopy (expected : WorkspaceLease) (source target : PersistentResource)
(* resource_generation.go *)
| OpEnsureResourceGeneration (name kind compatibility : string) (nonce : list ascii)
| OpAdvanceResourceGeneration (expected : ResourceGeneration) (candidate : PersistentResourceRef)
| OpResetResourceGeneration (expected : ResourceGeneration) (compatibility : string) (nonce : list ascii)
(* snapshot.go, snapshot_restore.go, snapshot_workspace_copy.go, base_asset.go *)
| OpBeginSnapshot (s : Snapshot)
| OpRecordSnapshotComponent (id : string) (expected : SnapshotComponent) (next : string)
| OpCommitSnapshot (id : string)
| OpRecordSnapshotImage (id : string) (image : BaseRef)
| OpMarkSnapshotRecovery (id : string)
| OpBeginSnapshotDelete (id : string)
| OpFinalizeSnapshotDelete (id : string)
| OpRecordRestoreComponent (id : string) (expected : SnapshotComponent) (next : string)
| OpBeginRestoreCleanup (id : string)
| OpFinalizeRestoreCleanup (id : string)
| OpBeginSnapshotWorkspaceCopy (saved : Snapshot) (id owner : string)
| OpFinishSnapshotWorkspaceCopy (savedID id owner : string)
| OpBeginBaseAsset (a : BaseAsset)
| OpRecordBaseAsset (expected : BaseAsset) (next : string)
(* ephemeral_run.go, owned_workspace_cleanup.go, preferences.go *)
| OpPutEphemeralRun (run : EphemeralRun)
| OpDeleteEphemeralRun (environmentID : string)
| OpFinalizeOwnedWorkspaceCleanup (name : string) (work : Workspace)
| OpSetDefaultImage (image : string) (initial : bool)
| OpRememberOpened (expected : Environment).

(** The outcome of an operation, without the value it returns. *)
Definition outcome {A} (r : result A) : result unit :=
  match r with Ok _ => Ok tt | Err e => Err e end.
Definition forget {A} (op : operation A) : operation unit := fun flt k => ((op flt k).1, outcome (op flt k).2).

Definition run (op : store_op) : operation unit :=
  match op with
  | OpBeginEnvironmentCreate lease => forget (BeginEnvironmentCreate lease)
  | OpBeginEnvironmentCreateFromSnapshot lease saved => forget (BeginEnvironmentCreateFromSnapshot lease saved)
  | OpBeginEnvironmentCreateWithResources lease plans => forget (BeginEnvironmentCreateWithResources lease plans)
  | OpBeginEnvironmentCreateFromSnapshotWithResources lease saved plans =>
      forget (BeginEnvironmentCreateFromSnapshotWithResources lease saved plans)
  | OpRecordEnvironmentRuntime lease => forget (RecordEnvironmentRuntime lease)
  | OpCommitEnvironmentCreate environment lease => forget (CommitEnvironmentCreate environment lease)
  | OpMarkEnvironmentRecoveryRequired lease => forget (MarkEnvironmentRecoveryRequired lease)
  | OpFinalizeEnvironmentDelete environmentID => forget (FinalizeEnvironmentDelete environmentID)
  | OpEnvironmentInstance expected nonce => forget (EnvironmentInstance expected nonce)
  | OpBeginPersistentResourceCreate r => forget (BeginPersistentResourceCreate r)
  | OpMarkPersistentResourceCopyCompleted r => forget (MarkPersistentResourceCopyCompleted r)
  | OpCommitPersistentResourceCreate r => forget (CommitPersistentResourceCreate r)
  | OpBeginPersistentResourceCopy source target => forget (BeginPersistentResourceCopy source target)
  | OpBeginPersistentResourceDelete id => forget (BeginPersistentResourceDelete id)
  | OpBeginPersistentResourceDeleteReviewed ref => forget (BeginPersistentResourceDeleteReviewed ref)
  | OpBeginWorkspaceResourceDelete id work => forget (BeginWorkspaceResourceDelete id work)
  | OpBeginPersistentResourceDeleteOwned r => forget (BeginPersistentResourceDeleteOwned r)
  | OpBeginEnvironmentResourceDelete instance ref => forget (BeginEnvironmentResourceDelete instance ref)
  | OpBeginGenerationResourceDelete ref => forget (BeginGenerationResourceDelete ref)
  | OpBeginStoppedCacheCopyDelete r => forget (BeginStoppedCacheCopyDelete r)
  | OpFinalizePersistentResourceDelete r => forget (FinalizePersistentResourceDelete r)
  | OpBeginSnapshotResourceRestore saved r => forget (BeginSnapshotResourceRestore saved r)
  | OpRecordPersistentResourceCreated r => forget (RecordPersistentResourceCreated r)
  | OpRecordCacheCopyOperation r op => forget (RecordCacheCopyOperation r op)
  | OpMarkCacheCopyCleanup r => forget (MarkCacheCopyCleanup r)
  | OpBeginEnvironmentResourceMaterialization expected ref => forget (BeginEnvironmentResourceMaterialization expected ref)
  | OpBeginEnvironmentResourceImport expected ref => forget (BeginEnvironmentResourceImport expected ref)
  | OpRecordEnvironmentResourceCreated r => forget (RecordEnvironmentResourceCreated r)
  | OpPrepareEnvironmentResourceDeletion expected => forget (PrepareEnvironmentResourceDeletion expected)
  | OpBeginEnvironmentResourceClear expected ref => forget (BeginEnvironmentResourceClear expected ref)
  | OpCommitEnvironmentResourceClear expected r => forget (CommitEnvironmentResourceClear expected r)
  | OpBeginEnvironmentGenerationCopy expected source target => forget (BeginEnvironmentGenerationCopy expected source target)
  | OpEnsureResourceGeneration name kind compatibility nonce => forget (EnsureResourceGeneration name kind compatibility nonce)
  | OpAdvanceResourceGeneration expected candidate => forget (AdvanceResourceGeneration expected candidate)
  | OpResetResourceGeneration expected compatibility nonce => forget (ResetResourceGeneration expected compatibility nonce)
  | OpBeginSnapshot s => forget (BeginSnapshot s)
  | OpRecordSnapshotComponent id expected next => forget (RecordSnapshotComponent id expected next)
  | OpCommitSnapshot id => forget (CommitSnapshot id)
  | OpRecordSnapshotImage id image => forget (RecordSnapshotImage id image)
  | OpMarkSnapshotRecovery id => forget (MarkSnapshotRecovery id)
  | OpBeginSnapshotDelete id => forget (BeginSnapshotDelete id)
  | OpFinalizeSnapshotDelete id => forget (FinalizeSnapshotDelete id)
  | OpRecordRestoreComponent id expected next => forget (RecordRestoreComponent id expected next)
  | OpBeginRestoreCleanup id => forget (BeginRestoreCleanup id)
  | OpFinalizeRestoreCleanup id => forget (FinalizeRestoreCleanup id)
  | OpBeginSnapshotWorkspaceCopy saved id owner => forget (BeginSnapshotWorkspaceCopy saved id owner)
  | OpFinishSnapshotWorkspaceCopy savedID id owner => forget (FinishSnapshotWorkspaceCopy savedID id owner)
  | OpBeginBaseAsset a => forget (BeginBaseAsset a)
  | OpRecordBaseAsset expected next => forget (RecordBaseAsset expected next)
  | OpPutEphemeralRun run => forget (PutEphemeralRun run)
  | OpDeleteEphemeralRun environmentID => forget (DeleteEphemeralRun environmentID)
  | OpFinalizeOwnedWorkspaceCleanup name work => forget (FinalizeOwnedWorkspaceCleanup name work)
  | OpSetDefaultImage image initial => forget (SetDefaultImage image initial)
  | OpRememberOpened expected => forget (RememberOpened expected)
  end.

(** What the callers of the store promise: the records they pass carry no
    receipt of an operation they do not start, and an Environment is marked
    for recovery only while none of its data is being copied. *)
Definition caller_contract (op : store_op) (d : environmentFileState) : Prop :=
  match op with
  | OpBeginPersistentResourceCreate r => create_contract r
  | OpBeginSnapshotResourceRestore _ r => restore_contract r
  | OpBeginPersistentResourceCopy _ target => copy_contract target
  | OpBeginEnvironmentGenerationCopy _ _ target => res_ImportPending target = false
  | OpBeginEnvironmentCreateWithResources _ plans
  | OpBeginEnvironmentCreateFromSnapshotWithResources _ _ plans => Forall (fun p => plan_contract (plan_Resource p)) plans
  | OpMarkEnvironmentRecoveryRequired lease => idle_contract (lease_EnvironmentID lease) d
  | _ => True
  end.

(** Power loss after the first [n] system calls of a commit of [data], the
    directory sync included; [i] selects what an unsynced directory names. *)
Definition power_loss (i n : nat) (data : environmentFileState) (k : disk) : disk :=
  crash i (foldl (fun k s => write_exec data s k) k (take n (write_steps ++ [SyncDir]))).

(** The disks the store can leave behind, starting from no catalog. *)
Inductive reachable : disk -> Prop :=
| reach_start : reachable emptyDisk
| reach_run op flt k k' r :
    reachable k -> caller_contract op (catalog_of k) -> run op flt k = (k', r) -> reachable k'
| reach_power_loss op flt i n k k' :
    reachable k -> caller_contract op (catalog_of k) -> run op flt k = (k', Ok tt) ->
    reachable (power_loss i n (catalog_of k') k).

(** ** Preservation *)

Lemma Keeps_forget {A} P (op : operation A) : Keeps P op -> Keeps P (forget op).
Proof. intros H flt k k' r Hk HP [= <- <-]. destruct (op flt k) as [k1 r1] eqn:E. by eapply H. Qed.

Lemma Keeps_given {A} (C : Prop) (op : operation A) : (C -> Keeps anywhere op) -> Keeps (fun _ => C) op.
Proof. intros H flt k k' r Hk HC Hf. by apply (H HC flt k k' r). Qed.

Lemma run_keeps op : Keeps (caller_contract op) (run op).
Proof.
  destruct op; apply Keeps_forget; cbn;
    first [apply MarkEnvironmentRecoveryRequired_keeps | apply Keeps_given; intros Hc; cbn in Hc].
  - apply BeginEnvironmentCreate_keeps.
  - apply BeginEnvironmentCreateFromSnapshot_keeps.
  - by apply BeginEnvironmentCreateWithResources_keeps.
  - by apply BeginEnvironmentCreateFromSnapshotWithResources_keeps.
  - apply RecordEnvironmentRuntime_keeps.
  - apply CommitEnvironmentCreate_keeps.
  - apply FinalizeEnvironmentDelete_keeps.
  - apply EnvironmentInstance_keeps.
  - by apply BeginPersistentResourceCreate_keeps.
  - apply MarkPersistentResourceCopyCompleted_keeps.
  - apply CommitPersistentResourceCreate_keeps.
  - by apply BeginPersistentResourceCopy_keeps.
  - apply beginPersistentResourceDelete_keeps.
  - apply Keeps_guard. intros _. apply beginPersistentResourceDelete_keeps.
  - apply Keeps_guard. intros _. apply beginPersistentResourceDelete_keeps.
  - apply Keeps_guard. intros _. apply beginPersistentResourceDelete_keeps.
  - apply Keeps_guard. intros _. apply beginPersistentResourceDelete_keeps.
  - apply Keeps_guard. intros _. apply beginPersistentResourceDelete_keeps.
  - apply Keeps_guard. intros _. apply beginPersistentResourceDelete_keeps.
  - apply FinalizePersistentResourceDelete_keeps.
  - by apply BeginSnapshotResourceRestore_keeps.
  - apply RecordPersistentResourceCreated_keeps.
  - apply RecordCacheCopyOperation_keeps.
  - apply MarkCacheCopyCleanup_keeps.
  - apply beginEnvironmentResourceMaterialization_keeps.
  - apply beginEnvironmentResourceMaterialization_keeps.
  - apply RecordEnvironmentResourceCreated_keeps.
  - apply PrepareEnvironmentResourceDeletion_keeps.
  - apply BeginEnvironmentResourceClear_keeps.
  - apply CommitEnvironmentResourceClear_keeps.
  - by apply BeginEnvironmentGenerationCopy_keeps.
  - apply EnsureResourceGeneration_keeps.
  - apply AdvanceResourceGeneration_keeps.
  - apply ResetResourceGeneration_keeps.
  - apply BeginSnapshot_keeps.
  - apply RecordSnapshotComponent_keeps.
  - apply CommitSnapshot_keeps.
  - apply RecordSnapshotImage_keeps.
  - apply MarkSnapshotRecovery_keeps.
  - apply BeginSnapshotDelete_keeps.
  - apply FinalizeSnapshotDelete_keeps.
  - apply mutateRestore_keeps.
  - apply mutateRestore_keeps.
  - apply FinalizeRestoreCleanup_keeps.
  - apply BeginSnapshotWorkspaceCopy_keeps.
  - apply FinishSnapshotWorkspaceCopy_keeps.
  - apply BeginBaseAsset_keeps.
  - apply RecordBaseAsset_keeps.
  - apply PutEphemeralRun_keeps.
  - apply DeleteEphemeralRun_keeps.
  - apply FinalizeOwnedWorkspaceCleanup_keeps.
  - apply SetDefaultImage_keeps.
  - apply RememberOpened_keeps.
Qed.

(** ** Power loss *)

(** The catalog path ends with a file it named before the commit, or might
    have named, or with the new catalog; never with a part of one. *)
Lemma power_loss_file i n data k :
  let k' := power_loss i n data k in
  (exists f : file * bool, f ∈ (committed k, committed_synced k) :: stale k /\ k' = mkDisk (if f.2 then f.1 else Undecodable) true [] None) \/
  k' = mkDisk (Contents data) true [] None.
Proof.
  unfold power_loss.
  assert (forall k0, stale k0 = stale k -> committed k0 = committed k -> committed_synced k0 = committed_synced k ->
    exists f : file * bool, f ∈ (committed k, committed_synced k) :: stale k /\
      crash i k0 = mkDisk (if f.2 then f.1 else Undecodable) true [] None) as Hold.
  { intros k0 Hst Hc Hs. unfold crash. rewrite Hst, Hc, Hs. destruct (stale k !! i) as [[f sy]|] eqn:E; cbn.
    - exists (f, sy). split; [right; by apply list_elem_of_lookup_2 with i|done].
    - eexists. split; [left|done]. }
  do 8 (destruct n as [|n]; [left; by apply Hold|]).
  destruct n as [|n]; [|right; cbn; by rewrite take_nil].
  unfold crash. cbn. destruct i as [|i]; cbn.
  - left. eexists. split; [left|done].
  - destruct (stale k !! i) as [[f sy]|] eqn:E; cbn; [|by right].
    left. exists (f, sy). split; [right; by apply list_elem_of_lookup_2 with i|done].
Qed.

Lemma power_loss_settled i n data k :
  settled_disk k -> Settled data -> settled_disk (power_loss i n data k).
Proof.
  intros [Hk Hst] Hd. destruct (power_loss_file i n data k) as [(f & Hf & ->)| ->].
  - assert (settled_file f) as [Hsy Hfile].
    { apply elem_of_cons in Hf as [->|Hf]; [done|]. rewrite Forall_forall in Hst. by apply Hst. }
    rewrite Hsy. by repeat split.
  - repeat split; [|done]. right. by exists data.
Qed.

Lemma reachable_settled k : reachable k -> settled_disk k.
Proof.
  induction 1 as [|op flt k k' r _ IH Hc Hr|op flt i n k k' _ IH Hc Hr].
  - repeat split; [by left|done].
  - by destruct (run_keeps op flt k k' r IH Hc Hr).
  - destruct (run_keeps op flt k k' (Ok tt) IH Hc Hr) as [Hk' _].
    apply power_loss_settled; [done|]. by apply settled_disk_catalog.
Qed.

Lemma reachable_catalog k d : reachable k -> readEnvironments k = Ok d -> Settled d.
Proof.
  intros H Hr. apply reachable_settled in H. rewrite settled_disk_read in Hr by done. injection Hr as <-.
  by apply settled_disk_catalog.
Qed.
