(* ===== verification/ContractProofs.v ===== *)
(** * The promises of the callers are necessary

    [caller_contract] says what the callers of the store promise.  Here: none of
    it can be dropped.  An operation that succeeds on a settled catalog although
    its caller broke the promise commits a catalog that the reader refuses,
    because [writeEnvironments] runs fewer validators than [readEnvironments]. *)

From S2P Require Import Prelude GoText Core CoreChecks CoreProofs CatalogState CatalogChecks Catalog.
From S2P Require Import Resources Lifecycle Generations Snapshots Runs.
From S2P Require Import CatalogSpec AttachmentSpec Settled Transactions ResourceProofs CopyProofs LifecycleProofs.
From S2P Require Import ReservationProofs Store.
From Stdlib Require Import Ascii String.
Open Scope string_scope.

(** ** What a readable catalog satisfies *)

(** The catalog reads back after it was committed. *)
Definition readable (d : environmentFileState) : Prop :=
  exists d', normalizeEnvironmentState (with_Version environmentStateVersion d) = Ok d'.

(** Reading migrates neither the resources nor the leases that are there. *)
Lemma readable_state d :
  readable d -> exists d1, Version d1 = environmentStateVersion /\ PersistentResources d1 = PersistentResources d /\
    (forall n l, Leases d !! n = Some l -> exists data, Leases d1 !! n = Some (normal_lease data n l)) /\
    validatePersistentResourceState d1 = Ok tt.
Proof.
  intros [d' H]. unfold normalizeEnvironmentState in H. apply bind_unit_ok in H as [_ H].
  replace (if (Version (with_Version environmentStateVersion d) =? 16)%Z then _ else with_Version environmentStateVersion d)
    with (with_Version environmentStateVersion d) in H by by destruct d.
  apply reject_ok in H as [_ H]. do 4 apply bind_unit_ok in H as [_ H].
  replace (migrate_restores (with_Version environmentStateVersion d)) with (Ok (with_Version environmentStateVersion d)) in H by done.
  cbn [mbind result_bind] in H. do 2 apply bind_unit_ok in H as [_ H]. apply bind_unit_ok in H as [_ H]. apply bind_unit_ok in H as [H _].
  eexists. split; [|split; [|split; [|exact H]]]; [done|done|]. intros n l Hl. eexists. cbn.
  rewrite map_lookup_imap, lookup_union. cbn. rewrite Hl. by rewrite union_Some_l.
Qed.

(** Every record passes the checks of a record. *)
Lemma readable_record d id r :
  readable d -> PersistentResources d !! id = Some r -> record_ok id r /\ copy_local r.
Proof.
  intros (d1 & HV & HP & _ & H)%readable_state Hr. apply (validatePersistentResourceState_ok d1 HV) in H as (H & _).
  rewrite HP in H. destruct (H id r Hr) as (? & ? & _). done.
Qed.

Lemma normal_lease_fields data n l :
  lease_State l <> "" ->
  lease_State (normal_lease data n l) = lease_State l /\ leaseHasResource (normal_lease data n l) = leaseHasResource l.
Proof.
  intros Hst. unfold normal_lease. set (l1 := if lease_EnvironmentID l == "" then _ else l).
  assert (lease_State l1 = lease_State l /\ leaseHasResource l1 = leaseHasResource l) as [H1 H2] by (unfold l1; by case_bool_decide).
  rewrite (bool_decide_eq_false_2 (lease_State l1 = "")) by congruence. rewrite <- H1, <- H2. case_bool_decide; [|done].
  by destruct (Environments data !! n).
Qed.

(** A lease that holds the source of a copy in flight is active. *)
Lemma readable_fence d id r source n l :
  readable d -> PersistentResources d !! id = Some r -> res_CopySource r <> zeroRef ->
  PersistentResources d !! ref_ID (res_CopySource r) = Some source -> Leases d !! n = Some l ->
  leaseHasResource l (res_ID source) = true -> lease_State l <> WorkspaceLeaseCleanupRequired.
Proof.
  intros (d1 & HV & HP & HL & H)%readable_state Hr Hz Hs Hl Hh Hst. apply (validatePersistentResourceState_ok d1 HV) in H as (H & _).
  rewrite HP in H. destruct (H id r Hr) as (_ & _ & _ & Hc). destruct (Hc Hz) as (source' & Hs' & _ & Hf).
  rewrite HP in Hs'. assert (source' = source) as -> by congruence. destruct (HL n l Hl) as (data & Hl1).
  destruct (normal_lease_fields data n l) as [Hst' Hhas]; [by rewrite Hst|]. specialize (Hf n _ Hl1). rewrite Hhas in Hf.
  apply generation_copy_lease in Hf as (Ha & _); [|done]. by rewrite Hst', Hst in Ha.
Qed.

(** ** The rules *)

(** An operation that succeeds on a settled disk and leaves a readable one was
    called within [P]. *)
Definition Requires {A} (P : environmentFileState -> Prop) (op : operation A) : Prop :=
  forall flt k k' a, settled_disk k -> op flt k = (k', Ok a) -> is_ok (readEnvironments k') = true -> P (catalog_of k).

(** The same of a closure, which always commits. *)
Definition requires {A} (P : environmentFileState -> Prop) (fn : change A) : Prop :=
  forall d d' b a, Settled d -> fn d = Ok (d', b, a) -> b = true /\ (readable d' -> P d).

Lemma transacted_requires {A} P (fn : change A) flt k k' a :
  requires P fn -> settled_disk k -> transacted fn flt k k' (Ok a) -> is_ok (readEnvironments k') = true -> P (catalog_of k).
Proof.
  intros Hfn Hk Ht Hr. pose proof (settled_disk_catalog k Hk) as Hs.
  destruct Ht as [(_ & H)|(d & d' & a' & Hd & Hf & _ & -> & _)].
  - destruct (H a eq_refl) as (d & Hd & d' & Hf). rewrite settled_disk_read in Hd by done. injection Hd as <-.
    by destruct (Hfn _ _ _ _ Hs Hf).
  - rewrite settled_disk_read in Hd by done. injection Hd as <-. destruct (Hfn _ _ _ _ Hs Hf) as [_ H]. apply H.
    unfold readable. cbn in Hr. destruct (normalizeEnvironmentState _) as [d''|]; [by exists d''|done].
Qed.

Lemma Requires_locked {A} P (fn : change A) : requires P fn -> Requires P (lockedTransaction fn).
Proof. intros H flt k k' a Hk Hop. eapply transacted_requires; [done|done|]. by eapply lockedTransaction_cases. Qed.

Lemma Requires_catalog {A} P (fn : change A) : requires P fn -> Requires P (catalogTransaction fn).
Proof. intros H flt k k' a Hk Hop. eapply transacted_requires; [done|done|]. by eapply catalogTransaction_cases. Qed.

Lemma Requires_resource {A} P (fn : environmentFileState -> result (environmentFileState * A)) :
  (forall d d' a, Settled d -> fn d = Ok (d', a) -> readable d' -> P d) -> Requires P (resourceTransaction fn).
Proof.
  intros H. apply Requires_locked. intros d d' b a Hd Hf. apply bind_ok in Hf as ([d1 a1] & Hf & [= <- <- <-]). split; [done|].
  by eapply H.
Qed.

Lemma Requires_guard {A} P (b : bool) e (op : operation A) :
  (b = false -> Requires P op) -> Requires P (if b then refuse e else op).
Proof. destruct b; [|auto]. intros _ flt k k' a _ [=]. Qed.

Lemma Requires_checked {A} P (c : result unit) (op : operation A) :
  (c = Ok tt -> Requires P op) -> Requires P (match c with Ok _ => op | Err e => refuse e end).
Proof. destruct c as [[]|]; [auto|]. intros _ flt k k' a _ [=]. Qed.

Lemma Requires_forget {A} P (op : operation A) : Requires P op -> Requires P (forget op).
Proof.
  intros H flt k k' a Hk Hf. unfold forget in Hf. destruct (op flt k) as [k1 [x|]] eqn:E; [|done]. injection Hf as <- _.
  by eapply H.
Qed.

(** ** Records without a receipt *)

Lemma no_receipt r : copy_local r -> res_CopySource r = zeroRef -> res_CopyOperation r = "" /\ res_CopyCleanup r = false.
Proof.
  intros (_ & _ & Hc & _) Hz. assert (validCacheCopyReceipt r = false) as Hf
    by (apply not_true_iff_false; intros H%receipt_source; congruence).
  split; [destruct (decide (res_CopyOperation r = "")) as [|Hn]; [done|]|destruct (res_CopyCleanup r) eqn:Hn; [|done]];
    (destruct Hc as [Hc _]; [tauto|congruence]).
Qed.

Lemma put_resource_at r d : PersistentResources (put_resource r d) !! res_ID r = Some r.
Proof. apply lookup_insert_eq. Qed.

Lemma BeginPersistentResourceCreate_requires r : Requires (fun _ => create_contract r) (BeginPersistentResourceCreate r).
Proof.
  apply Requires_guard. intros Hg. bool_hyps. apply Requires_resource. intros d d' [] Hd Hf Hr.
  apply reject_ok in Hf as [_ [= <-]]. destruct (readable_record _ _ _ Hr (put_resource_at r d)) as [Hrec Hcopy].
  destruct (no_receipt r Hcopy) as [? ?]; [done|]. unfold create_contract, record_ok in *.
  split_and!; [destruct (res_ImportPending r); [|done]; by destruct Hrec as [[] _]|done|done|by apply Hrec].
Qed.

Lemma snapshot_named d id s : Settled d -> Snapshots d !! id = Some s -> snap_ID s <> "".
Proof.
  intros Hd Hs. pose proof (proj1 (range_map_ok _ _) (settled_snapshots d Hd) id s Hs) as H. unfold snapshot_body in H.
  rewrite !reject_ok in H. destruct H as (_ & H & _). bool_hyps.
  match goal with H : is_ok (validateSnapshot s) = true |- _ => apply is_ok_true in H; unfold validateSnapshot in H; rewrite !reject_ok in H;
    destruct H as (_ & H & _) end. bool_hyps. intros E.
  match goal with H : MatchString snapshotIDPattern _ = true |- _ => by rewrite E in H end.
Qed.

Lemma BeginSnapshotResourceRestore_requires saved r :
  Requires (fun _ => restore_contract r) (BeginSnapshotResourceRestore saved r).
Proof.
  apply Requires_guard. intros Hg. bool_hyps. apply Requires_resource. intros d d' [] Hd Hf Hr.
  unfold BeginSnapshotResourceRestore_change in Hf. rewrite !reject_ok in Hf. destruct Hf as (Hs & _ & [= <-]). bool_hyps.
  pose proof (snapshot_named d _ _ Hd Hs) as Hn.
  destruct (readable_record _ _ _ Hr (put_resource_at r d)) as [Hrec Hcopy]. destruct (no_receipt r Hcopy) as [? ?]; [done|].
  unfold restore_contract, record_ok in *. split_and!; [|done|done].
  destruct (res_ImportPending r); [|done]. destruct Hrec as [Hrec _]. destruct (Hrec eq_refl) as (_ & _ & _ & _ & E & _). congruence.
Qed.

(** ** Copies *)

(** A reserved copy reads from a source, so it is neither an import nor a restore. *)
Lemma reserved_copy_requires d source target d' :
  Settled d -> reservePersistentResourceCopy d source target = Ok d' -> readable d' -> copy_contract target.
Proof.
  intros Hd H Hr. apply reserve_copy_spec in H as (-> & _ & Hs & _ & _ & _ & _ & _ & Hcs & _).
  destruct (readable_record _ _ _ Hr (put_resource_at target d)) as [Hrec (_ & Hcopy & _)].
  assert (res_CopySource target <> zeroRef) as Hz.
  { rewrite Hcs. apply valid_ref_nonempty. by destruct (settled_wf d _ _ Hd Hs) as (Hok & _); destruct Hok as (_ & _ & _ & ? & _). }
  unfold copy_contract, record_ok in *. split_and!.
  - destruct (res_ImportPending target); [|done]. destruct Hrec as [Hrec _]. by destruct (Hrec eq_refl) as (_ & _ & _ & _ & _ & ? & _).
  - destruct (decide (res_RestoreSource target = "")) as [|Hn]; [done|]. by destruct (Hcopy Hn) as (_ & _ & ?).
  - by apply Hrec.
Qed.

Lemma BeginPersistentResourceCopy_requires source target :
  Requires (fun _ => copy_contract target) (BeginPersistentResourceCopy source target).
Proof.
  unfold BeginPersistentResourceCopy. repeat (apply Requires_guard; intros _). apply Requires_resource. intros d d' [] Hd Hf Hr.
  apply bind_ok in Hf as (d1 & Hf & [= <-]). by eapply reserved_copy_requires.
Qed.

Lemma BeginEnvironmentGenerationCopy_requires expected source target :
  Requires (fun _ => res_ImportPending target = false) (BeginEnvironmentGenerationCopy expected source target).
Proof.
  apply Requires_catalog. intros d d' b a Hd Hf. unfold BeginEnvironmentGenerationCopy_change in Hf.
  destruct (Leases d !! _) as [l|]; [|done]. rewrite !reject_ok in Hf. destruct Hf as (_ & _ & Hf).
  apply bind_ok in Hf as (d1 & Hf & [= <- <- <-]). split; [done|]. intros Hr. by apply (reserved_copy_requires d source target d1).
Qed.

(** ** Plans of data areas *)

Lemma reserve_plan_puts l p d d' :
  reserve_plan l p d = Ok d' -> d' = put_resource (plan_Resource p.1) d /\ PersistentResources d !! res_ID (plan_Resource p.1) = None.
Proof.
  unfold reserve_plan. intros H. apply reject_ok in H as [_ H]. apply bind_unit_ok in H as [_ H].
  rewrite !reject_ok in H. destruct H as (_ & Hn & _ & H). apply has_key_false in Hn. split; [|done].
  destruct (_ != zeroRef); [|by injection H as <-]. destruct (PersistentResources d !! ref_ID _) as [source|]; [|done].
  apply reject_ok in H as [_ H]. by apply reserve_copy_spec in H as [-> _].
Qed.

Lemma reserve_plans_put l pairs d d' :
  range_loop (reserve_plan l) pairs d = Ok d' ->
  (forall id r, PersistentResources d !! id = Some r -> PersistentResources d' !! id = Some r) /\
  (forall p, p ∈ pairs -> PersistentResources d' !! res_ID (plan_Resource p.1) = Some (plan_Resource p.1)).
Proof.
  revert d. induction pairs as [|p pairs IH]; intros d Hf; cbn [range_loop] in Hf.
  - injection Hf as <-. split; [done|]. intros p Hp. by apply not_elem_of_nil in Hp.
  - destruct (reserve_plan l p d) as [d1|] eqn:Hp; [|done]. apply reserve_plan_puts in Hp as [-> Hn].
    destruct (IH _ Hf) as [H1 H2]. split.
    + intros id r Hr. apply H1. cbn. rewrite lookup_insert_ne; [done|congruence].
    + intros q [->|Hq]%elem_of_cons; [|by apply H2]. by apply H1, put_resource_at.
Qed.

Lemma beginEnvironmentCreate_requires lease saved plans :
  Requires (fun _ => Forall (fun p => plan_contract (plan_Resource p)) plans) (beginEnvironmentCreate lease saved plans).
Proof.
  apply Requires_checked. intros _. apply Requires_locked. intros d d' b a Hd Hf. unfold beginEnvironmentCreate_change in Hf.
  apply bind_unit_ok in Hf as [_ Hf]. do 4 apply reject_ok in Hf as [_ Hf]. do 2 apply bind_unit_ok in Hf as [_ Hf].
  apply reject_ok in Hf as [_ Hf]. apply bind_ok in Hf as (d1 & Hf & [= <- <- <-]). split; [done|]. intros Hr.
  apply reject_ok in Hf as [Hlen Hf]. apply negb_false_iff, Nat.eqb_eq in Hlen. apply reserve_plans_put in Hf as [_ Hf].
  apply List.Forall_forall. intros p Hp%list_elem_of_In. apply list_elem_of_lookup in Hp as [i Hp].
  destruct (lookup_lt_is_Some_2 (lease_Attachments lease) i) as [at_ Hat]; [rewrite <- Hlen; by eapply lookup_lt_Some|].
  assert ((p, at_) ∈ zip plans (lease_Attachments lease)) as Hin
    by (apply list_elem_of_lookup; exists i; by apply lookup_zip_with_Some; exists p, at_).
  specialize (Hf _ Hin). cbn in Hf. destruct (readable_record (put_lease lease d1) _ _ Hr Hf) as [H1 H2]. split; [|by apply no_receipt].
  intros Hi. destruct H1 as [H1 _]. by destruct (H1 Hi) as (_ & _ & _ & _ & ? & ? & _).
Qed.

(** ** Recovery *)

Lemma valid_attachment_named l a : ValidEnvironmentAttachments l = true -> a ∈ l -> ref_ID (att_Resource a) <> "".
Proof.
  intros (_ & H & _)%ValidEnvironmentAttachments_spec Ha. rewrite Forall_forall in H. destruct (H a Ha) as (_ & Hr & _).
  by apply valid_env_ref, valid_ref_nonempty in Hr as [? _].
Qed.

Lemma MarkEnvironmentRecoveryRequired_requires lease :
  Requires (idle_contract (lease_EnvironmentID lease)) (MarkEnvironmentRecoveryRequired lease).
Proof.
  apply Requires_guard. intros Hg. bool_hyps. apply Requires_locked. intros d d' b a Hd Hf.
  unfold MarkEnvironmentRecoveryRequired_change in Hf. set (n := lease_EnvironmentID lease) in *.
  destruct (Leases d !! n) as [l|] eqn:Hl; [|done]. apply bind_unit_ok in Hf as [Hs Hf]. apply reject_ok in Hf as [_ Hf].
  set (l' := if _ && _ then _ else lease) in *. injection Hf as <- <- <-. split; [done|].
  intros Hr l0 Hl0 at_ Hat. assert (l0 = l) as -> by congruence. apply not_true_iff_false. intros (id & r & Hid & Hc)%map_any_true.
  apply bool_decide_eq_true in Hc. apply same_reservation in Hs as ((Hatt & _) & _).
  pose proof (settled_commit d Hd) as Hv. apply validateCommit_ok in Hv as (_ & Hv & _). apply envres_areas in Hv as (held & Hv & _).
  destruct (Hv n l Hl) as [Hv' _]. destruct Hv' as (_ & Hva & _); [left; intros E; rewrite E in Hat; by apply not_elem_of_nil in Hat|].
  assert (res_CopySource r <> zeroRef) as Hz.
  { intros E. rewrite E in Hc. cbn in Hc. by apply (valid_attachment_named _ _ Hva Hat). }
  destruct (settled_wf d id r Hd Hid) as (_ & _ & _ & _ & Hcopy). destruct (Hcopy Hz) as (source & Hsrc & _).
  assert (res_ID source = ref_ID (att_Resource at_)) as Hsid.
  { destruct (settled_wf d _ source Hd Hsrc) as ((_ & _ & E & _) & _). congruence. }
  assert (lease_EnvironmentID l' = n /\ lease_State l' = WorkspaceLeaseCleanupRequired /\ lease_Attachments l' = lease_Attachments lease)
    as (L1 & L2 & L3) by (unfold l'; destruct (_ && _); done).
  apply (readable_fence (put_lease l' d) id r source n l'); try done.
  - unfold put_lease. cbn. rewrite L1. apply lookup_insert_eq.
  - unfold leaseHasResource. rewrite L3, Hatt, Hsid. apply orb_true_iff. right. apply existsb_exists. exists at_.
    split; [by apply list_elem_of_In|by apply bool_decide_eq_true].
Qed.

(** ** Every operation *)

Lemma Requires_true {A} (op : operation A) : Requires (fun _ => True) op.
Proof. by intros flt k k' a _ _ _. Qed.

Lemma run_requires op : Requires (caller_contract op) (run op).
Proof.
  destruct op; apply Requires_forget; cbn [caller_contract]; try apply Requires_true.
  - unfold BeginEnvironmentCreateWithResources. apply Requires_guard. intros _. apply beginEnvironmentCreate_requires.
  - unfold BeginEnvironmentCreateFromSnapshotWithResources. repeat (apply Requires_guard; intros _). apply beginEnvironmentCreate_requires.
  - apply MarkEnvironmentRecoveryRequired_requires.
  - apply BeginPersistentResourceCreate_requires.
  - apply BeginPersistentResourceCopy_requires.
  - apply BeginSnapshotResourceRestore_requires.
  - apply BeginEnvironmentGenerationCopy_requires.
Qed.
