(* ===== verification/Scenario.v ===== *)
(** * A concrete history

    One run of the store on concrete arguments: a store resource, two
    Environments (one with a data area published into a new generation), and a
    snapshot.  The theorems about reachable disks are instantiated on the disk
    it ends with. *)

From S2P Require Import Prelude GoText Core CoreChecks CatalogState CatalogChecks Catalog.
From S2P Require Import Resources Lifecycle Generations Snapshots Runs.
From S2P Require Import CatalogSpec Settled Transactions ResourceProofs CopyProofs LifecycleProofs ReservationProofs Store.
From Stdlib Require Import Ascii String.
Open Scope string_scope.

Fixpoint repeat_char (n : nat) (c : ascii) : string :=
  match n with O => "" | S n => String c (repeat_char n c) end.
Definition hex32 (c : ascii) : string := repeat_char 32 c.
Definition nonce16 (n : N) : list ascii := List.repeat (ascii_of_N n) 16.

(** Running a list of operations without failures. *)
Fixpoint run_all (ops : list store_op) (k : disk) : disk :=
  match ops with
  | [] => k
  | op :: ops => run_all ops (run op noFaults k).1
  end.

Fixpoint outcomes (ops : list store_op) (k : disk) : list (result unit) :=
  match ops with
  | [] => []
  | op :: ops => (run op noFaults k).2 :: outcomes ops (run op noFaults k).1
  end.

Fixpoint respects (ops : list store_op) (k : disk) : Prop :=
  match ops with
  | [] => True
  | op :: ops => caller_contract op (catalog_of k) /\ respects ops (run op noFaults k).1
  end.

(** ** The store resource and its Environment *)

Definition demo_store (state : string) : PersistentResource :=
  mkResource false zeroGeneration zeroRef "" "" false "" "oci:store" (hex32 "a") "oci" "native-store" state 1
    zeroRef false "" false.

Definition demo_lease (runtime state : string) : WorkspaceLease :=
  mkLease [] false false "" ("env-" +:+ hex32 "1") (mkRef "oci:store" (hex32 "a")) "workspace:one" "/work/one" "demo" "rw"
    "owner" runtime state 1.

Definition demo_environment : Environment :=
  mkEnvironment false "" "" [] (mkRef "oci:store" (hex32 "a")) "demo" (mkWorkspace "workspace:one" "/work/one") "rw" None
    zeroBudget "vm-1" 1.

(** ** An Environment with one data area *)

Definition demo_origin : ResourceGeneration :=
  mkGeneration "cache" "build-cache" (repeat_char 64 "c") (EncodeToString (nonce16 7)) 0 zeroRef.

Definition demo_area : EnvironmentAttachment :=
  mkAttachment "cache" "/cache" (mkRef ("env-data:" +:+ hex32 "d") (hex32 "b")) demo_origin.

Definition demo_data (state : string) : PersistentResource :=
  mkResource false zeroGeneration zeroRef ("env-" +:+ hex32 "2") "" false "" ("env-data:" +:+ hex32 "d") (hex32 "b")
    "build-cache" "native-data" state 1 zeroRef false "" false.

Definition build_lease (runtime state : string) : WorkspaceLease :=
  mkLease [demo_area] false false "" ("env-" +:+ hex32 "2") zeroRef "workspace:two" "managed:two" "build" "rw" "owner"
    runtime state 1.

Definition build_environment : Environment :=
  mkEnvironment true "" "" [demo_area] zeroRef "build" (mkWorkspace "workspace:two" "managed:two") "rw" None zeroBudget
    "vm-2" 1.

(** The published copy of the data area, and its receipt. *)
Definition demo_candidate : PersistentResource :=
  mkResource false demo_origin (Ref (demo_data "ready")) "" "" true "" ("generation:" +:+ hex32 "e") (hex32 "e")
    "build-cache" "native-generation" "creating" 1 (Ref (demo_data "ready")) false "" false.

(** ** A snapshot of the second Environment *)

Definition demo_components (state : string) : list SnapshotComponent :=
  [mkComponent "" "rootfs" "native-rootfs" (hex32 "3") state;
   mkComponent "" "workspace:main" "native-workspace" (hex32 "4") state;
   mkComponent "" "data:cache" "native-cache" (hex32 "5") state].

Definition demo_snapshot (state : string) (components : string) : Snapshot :=
  mkSnapshot None 1 "snap-1" (mkSource build_environment ("env-" +:+ hex32 "2")) state (demo_components components).

(** ** Two readers of a third Workspace *)

Definition reader_lease (name : string) : WorkspaceLease :=
  mkLease [] false false "" "" zeroRef "workspace:three" "/work/three" name "ro" "owner" "" "acquiring" 1.

(** ** The history *)

Definition demo_create : list store_op :=
  [OpBeginPersistentResourceCreate (demo_store "creating");
   OpCommitPersistentResourceCreate (demo_store "creating");
   OpBeginEnvironmentCreate (demo_lease "" "acquiring");
   OpRecordEnvironmentRuntime (demo_lease "vm-1" "acquiring");
   OpCommitEnvironmentCreate demo_environment (demo_lease "vm-1" "active")].

Definition build_create : list store_op :=
  [OpEnsureResourceGeneration "cache" "build-cache" (repeat_char 64 "c") (nonce16 7);
   OpBeginEnvironmentCreateWithResources (build_lease "" "acquiring") [mkPlan demo_area (demo_data "planned")];
   OpBeginEnvironmentResourceMaterialization (build_lease "" "acquiring") (Ref (demo_data ""));
   OpRecordEnvironmentResourceCreated (demo_data "creating");
   OpCommitPersistentResourceCreate (demo_data "created");
   OpRecordEnvironmentRuntime (build_lease "vm-2" "acquiring");
   OpCommitEnvironmentCreate build_environment (build_lease "vm-2" "active")].

Definition demo_capture : list store_op :=
  [OpBeginSnapshot (demo_snapshot "capturing" "planned")] ++
  ((fun c => OpRecordSnapshotComponent "snap-1" c "created") <$> demo_components "planned") ++
  ((fun c => OpRecordSnapshotComponent "snap-1" c "verified") <$> demo_components "created") ++
  [OpCommitSnapshot "snap-1"].

Definition demo_publish : list store_op :=
  [OpBeginEnvironmentGenerationCopy (build_lease "vm-2" "active") (demo_data "ready") demo_candidate].

Definition demo_readers : list store_op :=
  [OpBeginEnvironmentCreate (reader_lease "reader-a"); OpBeginEnvironmentCreate (reader_lease "reader-b")].

Definition demo_history : list store_op := demo_create ++ build_create ++ demo_readers ++ demo_capture ++ demo_publish.

Definition demo_disk : disk := run_all demo_history emptyDisk.

Lemma run_all_reachable ops k : reachable k -> respects ops k -> reachable (run_all ops k).
Proof.
  revert k. induction ops as [|op ops IH]; intros k Hk Hr; [done|]. destruct Hr as [Hc Hr]. cbn [run_all]. apply IH; [|done].
  apply (reach_run op noFaults k _ (run op noFaults k).2); [done..|]. by destruct (run op noFaults k).
Qed.

Lemma demo_respects : respects demo_history emptyDisk.
Proof.
  unfold demo_history, demo_create, build_create, demo_readers, demo_capture, demo_publish. cbn [app fmap list_fmap demo_components respects].
  repeat (split; [first [exact I | done | repeat split; done | repeat constructor; done]|]). exact I.
Qed.

Lemma demo_reachable : reachable demo_disk.
Proof. apply run_all_reachable; [constructor|apply demo_respects]. Qed.

(** The catalog at the end of the history, evaluated. *)
Definition demo_catalog : environmentFileState := Eval vm_compute in catalog_of demo_disk.

Lemma demo_disk_catalog : catalog_of demo_disk = demo_catalog.
Proof. vm_compute. reflexivity. Qed.

Lemma demo_read : readEnvironments demo_disk = Ok demo_catalog.
Proof. rewrite settled_disk_read, demo_disk_catalog; [done|]. apply reachable_settled, demo_reachable. Qed.
