(* ===== verification/Findings.v ===== *)
(** * Gaps between the commit checks and the reader

    [writeEnvironments] runs four validators; [readEnvironments] runs those and
    more.  [ContractProofs] shows which promises of the callers close the gap;
    here are two calls that break one, and an operation that commits a catalog of
    schema 8 without migrating it. *)

From S2P Require Import Prelude GoText Core CoreChecks CatalogState CatalogChecks Catalog.
From S2P Require Import Resources Lifecycle Snapshots CatalogSpec Transactions Store Scenario.
From Stdlib Require Import Ascii String.
Open Scope string_scope.

(** ** A record that only the reader refuses *)

(** A source-only store resource that also names a Workspace. *)
Definition odd_resource : PersistentResource :=
  mkResource false zeroGeneration zeroRef "" "" true "workspace:one" "oci:odd" (hex32 "a") "oci" "native" "creating" 1
    zeroRef false "" false.

(** ** A schema-8 catalog *)

Definition old_environment : Environment :=
  mkEnvironment false "" "" [] zeroRef "old" (mkWorkspace "workspace:old" "/work/old") "rw" None zeroBudget "vm-old" 1.
Definition saved_environment : Environment :=
  mkEnvironment false "" "" [] zeroRef "kept" (mkWorkspace "workspace:kept" "managed:kept") "rw" None zeroBudget "vm-kept" 1.

Definition lease_of (e : Environment) (instance : string) : WorkspaceLease :=
  mkLease [] false false "" instance zeroRef (ws_ID (env_Workspace e)) (ws_Path (env_Workspace e)) (env_Name e) "rw"
    "owner" (env_RuntimeRef e) "active" 1.

Definition parts (prefix : string) (a b : ascii) (state : string) : list SnapshotComponent :=
  [mkComponent "bound" "rootfs" (prefix +:+ "-rootfs") (hex32 a) state;
   mkComponent "bound" "workspace:main" (prefix +:+ "-main") (hex32 b) state].

Definition kept_source : SnapshotSource := mkSource saved_environment ("env-" +:+ hex32 "2").
Definition first_snapshot : Snapshot := mkSnapshot None 1 "snap-1" kept_source "ready" (parts "s1" "3" "4" "verified").
Definition second_snapshot : Snapshot := mkSnapshot None 1 "snap-2" kept_source "ready" (parts "s2" "5" "6" "verified").

(** Schema 8 keeps the target of a restore in [Before] only. *)
Definition schema8_restore : SnapshotRestore :=
  mkRestore ("restore-" +:+ hex32 "9") first_snapshot second_snapshot (mkSource zeroEnvironment "") "preparing"
    (parts "r1" "7" "8" "planned").

Definition schema8_catalog : environmentFileState :=
  mkState ∅ "" "" ∅ ∅ {["restore-" +:+ hex32 "9" := schema8_restore]} ∅
    (<["snap-1" := first_snapshot]> {["snap-2" := second_snapshot]}) ∅ 8
    (<["old" := old_environment]> {["kept" := saved_environment]})
    (<["old" := lease_of old_environment ""]> {["kept" := lease_of saved_environment ("env-" +:+ hex32 "2")]}) ∅.

Definition schema8_disk : disk := mkDisk (Contents schema8_catalog) true [] None.

(** The disk an operation leaves, when it succeeds. *)
Definition after {A} (op : operation A) (k : disk) : option disk :=
  match op noFaults k with (k', Ok _) => Some k' | (_, Err _) => None end.

(** BeginPersistentResourceCreate accepts a source-only record that names a
    Workspace, which the commit does not check either; the catalog it commits
    is one that readEnvironments refuses. *)
Lemma create_accepts_unreadable_record :
  readEnvironments <$> after (BeginPersistentResourceCreate odd_resource) emptyDisk = Some (Err ErrIncompatibleState).
Proof. vm_compute. reflexivity. Qed.

(** MarkEnvironmentRecoveryRequired does not look for a publication that is
    copying data of the Environment.  On the reachable catalog of [Scenario],
    where such a copy is in flight, it succeeds and leaves a catalog that
    readEnvironments refuses. *)
Lemma recovery_strands_publication :
  reachable demo_disk /\
  readEnvironments <$> after (MarkEnvironmentRecoveryRequired (build_lease "vm-2" WorkspaceLeaseCleanupRequired)) demo_disk =
    Some (Err ErrIncompatibleState).
Proof. split; [apply demo_reachable|]. vm_compute. reflexivity. Qed.

(** ** Schema 8 *)

(** A catalog of schema 8 that reads has restores without a current target. *)
Lemma schema8_restores data id op :
  Version data = 8%Z -> is_ok (normalizeEnvironmentState data) = true -> Restores data !! id = Some op ->
  env_Name (src_Environment (rst_Current op)) = "".
Proof.
  intros HV Hn Hop. destruct (normalizeEnvironmentState data) as [d|] eqn:H; [|done]. unfold normalizeEnvironmentState in H.
  apply bind_unit_ok in H as [_ H]. replace (Version data =? 16)%Z with false in H by by rewrite HV.
  apply reject_ok in H as [_ H]. do 4 apply bind_unit_ok in H as [_ H]. apply bind_ok in H as (d1 & H & _).
  unfold migrate_restores in H. replace (Version data =? 8)%Z with true in H by by rewrite HV. apply bind_unit_ok in H as [H _].
  pose proof (proj1 (range_map_ok _ _) H id op Hop) as Hb. apply reject_ok in Hb as [Hb _]. by bool_hyps.
Qed.

(** Under the current schema such a restore is refused. *)
Lemma targetless_restore_refused data id op :
  Version data = environmentStateVersion -> Restores data !! id = Some op -> env_Name (src_Environment (rst_Current op)) = "" ->
  is_ok (normalizeEnvironmentState data) = false.
Proof.
  intros HV Hop Hname. apply not_true_iff_false. intros Hn. destruct (normalizeEnvironmentState data) as [d|] eqn:H; [|done].
  unfold normalizeEnvironmentState in H. apply bind_unit_ok in H as [_ H]. rewrite HV in H.
  replace (environmentStateVersion =? 16)%Z with false in H by reflexivity.
  apply reject_ok in H as [_ H]. do 4 apply bind_unit_ok in H as [_ H].
  unfold migrate_restores in H. rewrite HV in H. replace (environmentStateVersion =? 8)%Z with false in H by reflexivity.
  cbn [mbind result_bind] in H. apply bind_unit_ok in H as [H _].
  pose proof (proj1 (range_map_ok _ _) H id op Hop) as Hb. unfold restore_body in Hb. apply reject_ok in Hb as [Hb _]. bool_hyps.
  match goal with H : is_ok (validateRestore op) = true |- _ => apply is_ok_true in H; unfold validateRestore in H;
    apply reject_ok in H as [_ H]; apply reject_ok in H as [H _] end. by bool_hyps.
Qed.

(** The instance was missing, so the operation has committed the catalog with a
    new one. *)
Lemma EnvironmentInstance_assigned expected nonce flt k k' data lease id :
  committed k = Contents data -> Leases data !! env_Name expected = Some lease -> lease_InstanceID lease = "" ->
  EnvironmentInstance expected nonce flt k = (k', Ok id) ->
  exists d failed, k' = written d k failed /\ Restores d = Restores data.
Proof.
  intros Hk Hl Hi H. unfold EnvironmentInstance in H. rewrite Hk in H. destruct (lock_fails flt); [done|].
  destruct (negb _); [done|].
  match type of H with match ?m with _ => _ end = _ => destruct m as [lease'|] eqn:E end; [|done].
  assert (lease' = lease) as ->.
  { do 3 apply bind_unit_ok in E as [_ E]. destruct (Environments data !! _) as [current|]; [|done]. apply reject_ok in E as [_ E].
    rewrite Hl in E. apply reject_ok in E as [_ E]. by apply bind_unit_ok in E as [_ [= <-]]. }
  rewrite bool_decide_eq_true_2 in H by done. destruct (ctx_before flt); [done|].
  destruct (writeEnvironments _ _ k) as [k1 r1] eqn:Hw.
  apply writeEnvironments_cases in Hw as [(_ & e & ->)|(_ & -> & ->)]; [done|]. cbn [lease_InstanceID] in H.
  destruct (negb _); [done|]. injection H as <- _. by eexists _, _.
Qed.

(** C38: EnvironmentInstance reads the catalog without migrating it but commits it
    under the current schema version.  On every readable catalog of schema 8 that
    has a restore, a successful call that assigns a missing instance id, to
    whatever Environment, leaves a catalog that the next read refuses. *)
Theorem identity_strands_restores expected nonce flt k k' data lease id :
  committed k = Contents data -> Version data = 8%Z -> Restores data <> ∅ -> is_ok (readEnvironments k) = true ->
  Leases data !! env_Name expected = Some lease -> lease_InstanceID lease = "" ->
  EnvironmentInstance expected nonce flt k = (k', Ok id) ->
  is_ok (readEnvironments k') = false.
Proof.
  intros Hk HV Hr Hread Hl Hi H. unfold readEnvironments in Hread. rewrite Hk in Hread.
  apply map_choose in Hr as (rid & op & Hop). pose proof (schema8_restores data rid op HV Hread Hop) as Hname.
  destruct (EnvironmentInstance_assigned _ _ _ _ _ _ _ _ Hk Hl Hi H) as (d & failed & -> & Hd).
  apply (targetless_restore_refused _ rid op); [done| |done]. cbn. by rewrite Hd.
Qed.

(** The restore of the catalog above is stranded by an unrelated Environment. *)
Lemma identity_strands_restores_witness :
  exists k', is_ok (readEnvironments schema8_disk) = true /\ is_ok (readEnvironments k') = false.
Proof.
  exists (EnvironmentInstance old_environment (nonce16 9) noFaults schema8_disk).1. split; [vm_compute; reflexivity|].
  apply (identity_strands_restores old_environment (nonce16 9) noFaults schema8_disk _ schema8_catalog (lease_of old_environment "")
    (NewEnvironmentInstanceID (nonce16 9))); try (vm_compute; reflexivity). intros E. vm_compute in E. discriminate E.
Defined.
