(* ===== verification/StoreProperties.v ===== *)
(** * Properties of every reachable catalog

    What holds of any catalog the store can leave behind, after any sequence
    of operations with any failures and power losses, and what one operation
    can do to it. *)

From S2P Require Import Prelude GoText Core CoreChecks CoreProofs CatalogState CatalogChecks Catalog.
From S2P Require Import Resources Lifecycle Generations Snapshots Runs.
From S2P Require Import CatalogSpec AttachmentSpec Settled Transactions ResourceProofs CopyProofs LifecycleProofs.
From S2P Require Import ReservationProofs SnapshotProofs Store ContractProofs Scenario.
From Stdlib Require Import Ascii String.
Open Scope string_scope.

(** The nonces [crypto/rand] fills have their Go length. *)
Definition nonce_length (op : store_op) : Prop :=
  match op with
  | OpEnvironmentInstance _ nonce => List.length nonce = 16%nat
  | _ => True
  end.

(** ** Reading and committing *)

(** C1: every disk the store can reach, through any sequence of operations whose
    callers keep [caller_contract], with injected failures and power losses, is
    readable: [readEnvironments] succeeds, returns exactly the catalog that was
    committed last (no record is rewritten by the migration), and that catalog
    passes every validator.  And [caller_contract] is exactly what this needs,
    because the commit runs fewer checks than the reader: an operation that
    succeeds on such a disk leaves a readable catalog if and only if its caller
    kept the contract.  The contract: a record handed over for creation, restore,
    copy or as a plan carries no receipt of an operation it did not start, an
    import is neither a restore nor a copy, a shared source names no Workspace,
    and an Environment is marked for recovery only while none of its data areas is
    being copied. *)
Theorem reachable_readable k :
  reachable k ->
  (exists d, readEnvironments k = Ok d /\ Settled d /\
     ((committed k = NoFile /\ d = newEnvironmentFileState) \/ committed k = Contents d)) /\
  (forall op flt k', run op flt k = (k', Ok tt) ->
     (is_ok (readEnvironments k') = true <-> caller_contract op (catalog_of k))).
Proof.
  intros H. apply reachable_settled in H. split.
  - exists (catalog_of k).
    split_and!; [by apply settled_disk_read|by apply settled_disk_catalog|].
    destruct H as ((_ & [H|(d & H & _)]) & _); cbn in H; unfold catalog_of; rewrite H; auto.
  - intros op flt k' Hop. split; [by apply (run_requires op flt k k' tt)|]. intros Hc.
    destruct (run_keeps op flt k k' _ H Hc Hop) as [Hk' _]. by rewrite settled_disk_read.
Qed.

(** On the disk of the history, marking an Environment for recovery while its data
    is being published succeeds and is not readable; on an idle one it is. *)
Lemma reachable_readable_witness :
  (exists d, readEnvironments demo_disk = Ok d /\ Settled d /\
    ((committed demo_disk = NoFile /\ d = newEnvironmentFileState) \/ committed demo_disk = Contents d)) /\
  ~ caller_contract (OpMarkEnvironmentRecoveryRequired (build_lease "vm-2" WorkspaceLeaseCleanupRequired)) (catalog_of demo_disk) /\
  caller_contract (OpMarkEnvironmentRecoveryRequired (demo_lease "vm-1" WorkspaceLeaseCleanupRequired)) (catalog_of demo_disk).
Proof.
  destruct (reachable_readable demo_disk demo_reachable) as [H1 H2]. split; [exact H1|]. split.
  - intros Hc. apply (H2 _ noFaults (run (OpMarkEnvironmentRecoveryRequired (build_lease "vm-2" WorkspaceLeaseCleanupRequired)) noFaults demo_disk).1)
      in Hc; [|vm_compute; reflexivity]. vm_compute in Hc. discriminate Hc.
  - apply (H2 _ noFaults (run (OpMarkEnvironmentRecoveryRequired (demo_lease "vm-1" WorkspaceLeaseCleanupRequired)) noFaults demo_disk).1);
      vm_compute; reflexivity.
Defined.

(** C3: in a reachable catalog two Environments that lease the same Workspace
    both lease it read-only, so a Workspace never has a writer beside another
    user. *)
Theorem workspace_single_writer k d n1 n2 l1 l2 :
  reachable k -> readEnvironments k = Ok d -> Leases d !! n1 = Some l1 -> Leases d !! n2 = Some l2 -> n1 <> n2 ->
  lease_WorkspaceID l1 = lease_WorkspaceID l2 ->
  lease_AccessMode l1 = WorkspaceReadOnly /\ lease_AccessMode l2 = WorkspaceReadOnly.
Proof.
  intros Hk Hd Hl1 Hl2 Hne Hw. pose proof (reachable_catalog k d Hk Hd) as Hs.
  split; [by apply (settled_exclusive d Hs n1 n2 l1 l2)|]. by apply (settled_exclusive d Hs n2 n1 l2 l1).
Qed.

Lemma workspace_single_writer_witness :
  lease_AccessMode (reader_lease "reader-a") = WorkspaceReadOnly /\ lease_AccessMode (reader_lease "reader-b") = WorkspaceReadOnly.
Proof.
  apply (workspace_single_writer demo_disk demo_catalog "reader-a" "reader-b");
    [apply demo_reachable|apply demo_read|vm_compute; reflexivity|vm_compute; reflexivity|discriminate|reflexivity].
Defined.

(** In a reachable catalog a store resource is bound to at most one lease,
    and the record behind the binding exists, is ready, is not a shared source
    and is not Environment data. *)
Lemma store_resource_single_lease k d n1 l1 :
  reachable k -> readEnvironments k = Ok d -> Leases d !! n1 = Some l1 -> lease_PersistentResource l1 <> zeroRef ->
  (exists r, PersistentResources d !! ref_ID (lease_PersistentResource l1) = Some r /\ Ref r = lease_PersistentResource l1 /\
     res_State r = "ready" /\ res_SourceOnly r = false /\ res_EnvironmentInstance r = "") /\
  (forall n2 l2, Leases d !! n2 = Some l2 ->
     ref_ID (lease_PersistentResource l2) = ref_ID (lease_PersistentResource l1) -> n2 = n1).
Proof.
  intros Hk Hd Hl Hz. pose proof (reachable_catalog k d Hk Hd) as Hs.
  destruct (settled_resources d Hs) as (Hres & Hleases & Huniq). destruct (Hleases n1 l1 Hl Hz) as (r & Hr & Href & Hst & Hso & Hi & _).
  split; [by exists r|]. intros n2 l2 Hl2 He. apply (Huniq n2 n1 l2 l1); try done. intros E. rewrite E in He. cbn in He.
  destruct (Hres _ r Hr) as ((_ & _ & Hid & Hv & _) & _). apply valid_ref_nonempty in Hv as [Hne _]. apply Hne. cbn. congruence.
Qed.

(** Every copy in flight reads from a fenced source. *)
Lemma copy_source_fenced k d id r :
  reachable k -> readEnvironments k = Ok d -> PersistentResources d !! id = Some r -> res_CopySource r <> zeroRef ->
  exists source, PersistentResources d !! ref_ID (res_CopySource r) = Some source /\
    res_State source = "ready" /\ Ref source = res_CopySource r /\ res_Kind source = res_Kind r /\
    res_ID source <> res_ID r /\ res_NativeRef source <> res_NativeRef r /\
    forall n l, Leases d !! n = Some l -> leaseHasResource l (res_ID source) = true ->
      lease_State l = WorkspaceLeaseActive /\ is_Some (Environments d !! n) /\
      environmentGenerationCopy d source r l = true.
Proof.
  intros Hk Hd Hr Hz. pose proof (reachable_catalog k d Hk Hd) as Hs. destruct (settled_wf d id r Hs Hr) as (_ & _ & _ & _ & Hc).
  destruct (Hc Hz) as (source & Hsrc & (_ & P1 & P2 & P3 & P4 & _ & P5) & Hf). exists source. split_and!; try done.
  intros n l Hl Hh. pose proof (Hf n l Hl Hh) as Hg. apply generation_copy_lease in Hg as Hg'. destruct Hg' as (Ha & _).
  split_and!; try done. apply (settled_leases d Hs) in Hl as (_ & _ & _ & _ & _ & _ & Hact & _). by apply Hact.
Qed.

(** The fields that bind a lease to the Environment it was granted for. *)
Definition binds (l : WorkspaceLease) (e : Environment) : Prop :=
  lease_EnvironmentID l = env_Name e /\ lease_WorkspaceID l = ws_ID (env_Workspace e) /\
  lease_SourcePath l = ws_Path (env_Workspace e) /\ lease_AccessMode l = env_AccessMode e /\
  lease_RuntimeRef l = env_RuntimeRef e /\ env_RuntimeRef e <> "" /\
  lease_Attachments l = env_Attachments e /\ lease_PersistentResource l = env_PersistentResource e.

(** C9: in a reachable catalog every published Environment is stored under its
    own name and bound to the lease of that name, which has the same Workspace,
    path, access mode, runtime, data areas and resource.  That lease is active,
    does not claim that the runtime is absent and passes [MatchesEnvironment]; or
    the Environment is being removed and the lease requires cleanup; it is never
    one that is still being acquired.  And every active lease has such an
    Environment. *)
Theorem environment_bound k d n :
  reachable k -> readEnvironments k = Ok d ->
  (forall e, Environments d !! n = Some e ->
     env_Name e = n /\ exists l, Leases d !! n = Some l /\ binds l e /\
       (lease_State l = WorkspaceLeaseActive /\ lease_RuntimeAbsent l = false /\ MatchesEnvironment l e = true \/
        lease_State l = WorkspaceLeaseCleanupRequired)) /\
  (forall l, Leases d !! n = Some l -> lease_State l = WorkspaceLeaseActive ->
     lease_RuntimeAbsent l = false /\ exists e, Environments d !! n = Some e /\ MatchesEnvironment l e = true).
Proof.
  intros Hk Hd. pose proof (reachable_catalog k d Hk Hd) as Hs.
  assert (forall e l, Environments d !! n = Some e -> Leases d !! n = Some l -> binds l e /\
    (lease_State l = WorkspaceLeaseActive -> lease_RuntimeAbsent l = false /\ MatchesEnvironment l e = true)) as Hboth.
  { intros e l He Hl. destruct (settled_matches d n e Hs He) as (l' & Hl' & Hm). assert (l' = l) as -> by congruence.
    apply matches_fields in Hm. cbn in Hm. destruct_and! Hm. split; [unfold binds; split_and!; congruence|]. intros Ha.
    pose proof (settled_leases d Hs n l Hl) as (_ & _ & _ & _ & _ & _ & Hact & _). destruct (Hact Ha) as [Hab _].
    split; [done|]. apply matches_fields. by split_and!. }
  split.
  - intros e He. pose proof (settled_envs d Hs n e He) as (Hn & l & Hl & _). split; [done|]. exists l.
    destruct (Hboth e l He Hl) as [Hb Ha]. split_and!; [done..|].
    pose proof (settled_leases d Hs n l Hl) as (_ & _ & _ & _ & [Hst|[Hst|Hst]] & Hacq & _); [by rewrite Hacq in He| |by right].
    left. split; [done|by apply Ha].
  - intros l Hl Ha. pose proof (settled_leases d Hs n l Hl) as (_ & _ & _ & _ & _ & _ & Hact & _).
    destruct (Hact Ha) as [Hab [e He]]. split; [done|]. exists e. split; [done|]. by apply (Hboth e l He Hl).
Qed.

Lemma environment_bound_witness :
  exists l e, Leases demo_catalog !! "build" = Some l /\ Environments demo_catalog !! "build" = Some e /\ binds l e /\
    MatchesEnvironment l e = true.
Proof.
  destruct (environment_bound demo_disk demo_catalog "build") as [H1 H2]; [apply demo_reachable|apply demo_read|].
  destruct (H1 build_environment) as (_ & l & Hl & Hb & _); [vm_compute; reflexivity|].
  destruct (H2 (build_lease "vm-2" "active")) as (_ & e & He & Hm); [vm_compute; reflexivity|reflexivity|].
  exists (build_lease "vm-2" "active"), build_environment. split; [vm_compute; reflexivity|]. split; [vm_compute; reflexivity|].
  split; [vm_compute in Hl; injection Hl as <-; exact Hb|vm_compute in He; injection He as <-; exact Hm].
Defined.

(** In a reachable catalog a data area is attached to at most one lease;
    the record behind an area carries the instance of that lease, is ready or
    being cleared while the lease is active, and may be missing only after the
    runtime was proved absent; and every data record is attached somewhere. *)
Lemma data_area_single_owner k d :
  reachable k -> readEnvironments k = Ok d ->
  (forall n1 n2 l1 l2 a1 a2, Leases d !! n1 = Some l1 -> Leases d !! n2 = Some l2 ->
     a1 ∈ lease_Attachments l1 -> a2 ∈ lease_Attachments l2 -> area_id a1 = area_id a2 -> n1 = n2) /\
  (forall n l a, Leases d !! n = Some l -> a ∈ lease_Attachments l -> area_record d l a) /\
  (forall id r, PersistentResources d !! id = Some r -> res_EnvironmentInstance r <> "" ->
     exists n l a, Leases d !! n = Some l /\ a ∈ lease_Attachments l /\ area_id a = id /\
       lease_InstanceID l = res_EnvironmentInstance r).
Proof.
  intros Hk Hd. pose proof (reachable_catalog k d Hk Hd) as Hs. pose proof (settled_commit d Hs) as Hc.
  apply validateCommit_ok in Hc as (_ & Hc & _). split_and!.
  - intros n1 n2 l1 l2 a1 a2 H1 H2. by apply (areas_exclusive d n1 n2 l1 l2).
  - intros n l a Hl Ha. apply envres_areas in Hc as (held & Hh & _). destruct (Hh n l Hl) as [_ H]. by destruct (H a Ha).
  - apply envres_areas in Hc as (held & _ & Hh). exact Hh.
Qed.

(** C8: in a reachable catalog every resource has at most one user.  A store resource
    is bound to at most one lease, and the record behind the binding exists, is
    ready, is not a shared source and is not Environment data.  A data area is
    attached to at most one lease; the record behind it carries the instance of
    that lease, is ready or being cleared while the lease is active, and may be
    missing only after the runtime was proved absent; and every data record is
    attached somewhere.  Every copy in flight reads from a source that exists, is
    ready, has the identity the copy recorded and differs from the target, and no
    lease holds that source, except the active lease of the Environment whose data
    is being published into a generation. *)
Theorem resource_single_user k d :
  reachable k -> readEnvironments k = Ok d ->
  (forall n1 l1, Leases d !! n1 = Some l1 -> lease_PersistentResource l1 <> zeroRef ->
     (exists r, PersistentResources d !! ref_ID (lease_PersistentResource l1) = Some r /\ Ref r = lease_PersistentResource l1 /\
        res_State r = "ready" /\ res_SourceOnly r = false /\ res_EnvironmentInstance r = "") /\
     (forall n2 l2, Leases d !! n2 = Some l2 ->
        ref_ID (lease_PersistentResource l2) = ref_ID (lease_PersistentResource l1) -> n2 = n1)) /\
  (forall n1 n2 l1 l2 a1 a2, Leases d !! n1 = Some l1 -> Leases d !! n2 = Some l2 ->
     a1 ∈ lease_Attachments l1 -> a2 ∈ lease_Attachments l2 -> area_id a1 = area_id a2 -> n1 = n2) /\
  (forall n l a, Leases d !! n = Some l -> a ∈ lease_Attachments l -> area_record d l a) /\
  (forall id r, PersistentResources d !! id = Some r -> res_EnvironmentInstance r <> "" ->
     exists n l a, Leases d !! n = Some l /\ a ∈ lease_Attachments l /\ area_id a = id /\
       lease_InstanceID l = res_EnvironmentInstance r) /\
  (forall id r, PersistentResources d !! id = Some r -> res_CopySource r <> zeroRef ->
     exists source, PersistentResources d !! ref_ID (res_CopySource r) = Some source /\
       res_State source = "ready" /\ Ref source = res_CopySource r /\ res_Kind source = res_Kind r /\
       res_ID source <> res_ID r /\ res_NativeRef source <> res_NativeRef r /\
       forall n l, Leases d !! n = Some l -> leaseHasResource l (res_ID source) = true ->
         lease_State l = WorkspaceLeaseActive /\ is_Some (Environments d !! n) /\
         environmentGenerationCopy d source r l = true).
Proof.
  intros Hk Hd. destruct (data_area_single_owner k d Hk Hd) as (H1 & H2 & H3). split_and!; [|done..|].
  - intros n1 l1. by apply (store_resource_single_lease k).
  - intros id r. by apply (copy_source_fenced k).
Qed.

Lemma resource_single_user_witness :
  (exists r, PersistentResources demo_catalog !! "oci:store" = Some r /\ Ref r = mkRef "oci:store" (hex32 "a") /\
     res_State r = "ready" /\ res_SourceOnly r = false /\ res_EnvironmentInstance r = "") /\
  (forall n l a, Leases demo_catalog !! n = Some l -> a ∈ lease_Attachments l -> area_record demo_catalog l a) /\
  exists source, PersistentResources demo_catalog !! ("env-data:" +:+ hex32 "d") = Some source /\ res_State source = "ready" /\
    Ref source = Ref (demo_data "ready").
Proof.
  destruct (resource_single_user demo_disk demo_catalog) as (Hstore & _ & Harea & _ & Hcopy); [apply demo_reachable|apply demo_read|].
  split_and!; [|exact Harea|].
  - apply (Hstore "demo" (demo_lease "vm-1" "active")); [vm_compute; reflexivity|discriminate].
  - destruct (Hcopy ("generation:" +:+ hex32 "e") demo_candidate) as (source & H1 & H2 & H3 & _); [vm_compute; reflexivity|discriminate|].
    exists source. exact (conj H1 (conj H2 H3)).
Defined.

(** ** Failures *)

(** An error leaves the catalog file as it was. *)
Definition Atomic {A} (op : operation A) : Prop :=
  forall flt k k' e, op flt k = (k', Err e) ->
    same_files k k'.

Lemma transacted_atomic {A} (fn : change A) flt k k' e : transacted fn flt k k' (Err e) -> same_files k k'.
Proof. by intros [(? & _)|(? & ? & ? & _ & _ & _ & _ & [=])]. Qed.

Lemma Atomic_locked {A} (fn : change A) : Atomic (lockedTransaction fn).
Proof. intros flt k k' e H. by apply lockedTransaction_cases, transacted_atomic in H. Qed.

Lemma Atomic_catalog {A} (fn : change A) : Atomic (catalogTransaction fn).
Proof. intros flt k k' e H. by apply catalogTransaction_cases, transacted_atomic in H. Qed.

Lemma Atomic_guard {A} (b : bool) e (op : operation A) : Atomic op -> Atomic (if b then refuse e else op).
Proof. destruct b; [|done]. intros _ flt k k' e' [= <- _]. done. Qed.

Lemma Atomic_checked {A} (c : result unit) (op : operation A) :
  Atomic op -> Atomic (match c with Ok _ => op | Err e => refuse e end).
Proof. destruct c; [done|]. intros _ flt k k' e' [= <- _]. done. Qed.

Lemma Atomic_forget {A} (op : operation A) : Atomic op -> Atomic (forget op).
Proof.
  intros H flt k k' e Hf. unfold forget in Hf. destruct (op flt k) as [k1 [a|e1]] eqn:E; [by injection Hf|].
  injection Hf as <- <-. by apply (H flt k k1 e1).
Qed.

Lemma EnvironmentInstance_atomic expected nonce :
  List.length nonce = 16%nat -> Atomic (EnvironmentInstance expected nonce).
Proof.
  intros Hn flt k k' e Hf. unfold EnvironmentInstance in Hf.
  destruct (lock_fails flt); [by injection Hf as <- _|].
  destruct (committed k) as [| | |data]; try (by injection Hf as <- _).
  destruct (negb _); [by injection Hf as <- _|].
  match type of Hf with match ?m with _ => _ end = _ => destruct m as [lease|e1] end; [|by injection Hf as <- _].
  case_bool_decide; [|destruct (negb _); by injection Hf as <- _].
  destruct (ctx_before flt); [by injection Hf as <- _|].
  destruct (writeEnvironments _ _ k) as [k1 r1] eqn:Hw.
  apply writeEnvironments_cases in Hw as [(H1 & e1 & ->)|(_ & -> & ->)]; [by injection Hf as <- _|].
  cbn [lease_InstanceID lease_with_InstanceID] in Hf. by rewrite new_instance_valid in Hf.
Qed.

(** C10: when an operation returns an error, for whatever reason (a refused
    argument, a stale or busy record, an unreadable catalog, a cancelled
    context, a lock or system call that fails part way through the commit),
    the catalog file holds exactly what it held before. *)
Theorem failed_operation_changes_nothing op flt k k' e :
  nonce_length op -> run op flt k = (k', Err e) -> same_files k k'.
Proof.
  intros Hn. revert flt k k' e. change (Atomic (run op)).
  destruct op; apply Atomic_forget; try (by apply EnvironmentInstance_atomic);
    repeat first [apply Atomic_locked | apply Atomic_catalog | apply Atomic_guard | apply Atomic_checked].
Qed.

Lemma failed_operation_changes_nothing_witness :
  same_files demo_disk (run (OpFinalizeEnvironmentDelete "build") noFaults demo_disk).1.
Proof.
  apply (failed_operation_changes_nothing (OpFinalizeEnvironmentDelete "build") noFaults demo_disk _ ErrRecoveryRequired);
    [exact I|vm_compute; reflexivity].
Defined.

(** An operation leaves the files alone or commits one catalog. *)
Definition Commits {A} (op : operation A) : Prop :=
  forall flt k k' r, op flt k = (k', r) ->
    same_files k k' \/ exists d, k' = written d k (bool_decide (write_fault flt = Some SyncDir)).

Lemma transacted_commits {A} (fn : change A) flt k k' r :
  transacted fn flt k k' r -> same_files k k' \/ exists d, k' = written d k (bool_decide (write_fault flt = Some SyncDir)).
Proof. intros [(? & _)|(? & d & ? & _ & _ & _ & -> & _)]; [by left|right; by exists d]. Qed.

Lemma Commits_locked {A} (fn : change A) : Commits (lockedTransaction fn).
Proof. intros flt k k' r H. by eapply transacted_commits, lockedTransaction_cases. Qed.

Lemma Commits_catalog {A} (fn : change A) : Commits (catalogTransaction fn).
Proof. intros flt k k' r H. by eapply transacted_commits, catalogTransaction_cases. Qed.

Lemma Commits_guard {A} (b : bool) e (op : operation A) : Commits op -> Commits (if b then refuse e else op).
Proof. destruct b; [|done]. intros _ flt k k' r [= <- _]. by left. Qed.

Lemma Commits_checked {A} (c : result unit) (op : operation A) :
  Commits op -> Commits (match c with Ok _ => op | Err e => refuse e end).
Proof. destruct c; [done|]. intros _ flt k k' r [= <- _]. by left. Qed.

Lemma Commits_forget {A} (op : operation A) : Commits op -> Commits (forget op).
Proof. intros H flt k k' r [= <- _]. apply (H flt k _ (op flt k).2). by destruct (op flt k). Qed.

Lemma EnvironmentInstance_commits expected nonce : Commits (EnvironmentInstance expected nonce).
Proof.
  intros flt k k' r Hf. unfold EnvironmentInstance in Hf.
  destruct (lock_fails flt); [left; by injection Hf as <- _|].
  destruct (committed k) as [| | |data]; try (left; by injection Hf as <- _).
  destruct (negb _); [left; by injection Hf as <- _|].
  match type of Hf with match ?m with _ => _ end = _ => destruct m as [lease|e1] end; [|left; by injection Hf as <- _].
  case_bool_decide; [|left; destruct (negb _); by injection Hf as <- _].
  destruct (ctx_before flt); [left; by injection Hf as <- _|].
  destruct (writeEnvironments _ _ k) as [k1 r1] eqn:Hw.
  assert (k' = k1) as -> by (destruct r1; [destruct (negb _)|]; by injection Hf as <- _).
  apply writeEnvironments_cases in Hw as [(H1 & _)|(_ & -> & _)]; [by left|right; eauto].
Qed.

Lemma run_commits op : Commits (run op).
Proof.
  destruct op; apply Commits_forget; try apply EnvironmentInstance_commits;
    repeat first [apply Commits_locked | apply Commits_catalog | apply Commits_guard | apply Commits_checked].
Qed.

(** A power loss during the commit leaves what one before it could have left, or
    the new catalog. *)
Lemma power_loss_reads i n k k' :
  settled_disk k -> settled_disk k' ->
  (exists j, readEnvironments (power_loss i n (catalog_of k') k) = readEnvironments (crash j k)) \/
  readEnvironments (power_loss i n (catalog_of k') k) = readEnvironments k'.
Proof.
  intros Hs Hs'. destruct (power_loss_file i n (catalog_of k') k) as [(f & Hf & ->)| ->]; [left|right].
  - apply elem_of_cons in Hf as [->|Hf].
    + exists (List.length (stale k)). unfold crash. by rewrite lookup_ge_None_2 by done.
    + apply list_elem_of_lookup in Hf as [j Hj]. exists j. unfold crash. rewrite Hj. by destruct f.
  - rewrite (settled_disk_read k' Hs'). cbn. by apply settled_normal, settled_disk_catalog.
Qed.

(** Without a rename that is not durable yet a power loss changes nothing. *)
Lemma crash_reads i k : settled_disk k -> stale k = [] -> readEnvironments (crash i k) = readEnvironments k.
Proof. intros ((Hsy & _) & _) Hst. unfold crash. rewrite Hst. cbn in *. by rewrite Hsy. Qed.

(** C11: what a power loss can do to an operation that succeeds (its caller keeps
    [caller_contract]).  At any point of the commit it leaves a disk that reads as
    the catalog after the operation, or as one that a power loss just before the
    operation could have left; the temporary file, a torn write or a rename that
    reached the disk before its data never become the catalog.  A power loss just
    before the operation leaves the catalog before it, unless the directory sync
    of an earlier commit had failed.  Once the operation has returned: if it
    committed and the directory sync did not fail, no power loss undoes it; the
    code does not report a directory sync that fails, and then a power loss can
    bring back the catalog from before although the operation had succeeded. *)
Theorem power_loss_is_atomic op flt k k' :
  reachable k -> caller_contract op (catalog_of k) -> run op flt k = (k', Ok tt) ->
  (forall i n, (exists j, readEnvironments (power_loss i n (catalog_of k') k) = readEnvironments (crash j k)) \/
     readEnvironments (power_loss i n (catalog_of k') k) = readEnvironments k') /\
  (stale k = [] -> forall j, readEnvironments (crash j k) = readEnvironments k) /\
  (same_files k k' \/
   (write_fault flt <> Some SyncDir -> stale k' = [] /\ forall i, readEnvironments (crash i k') = readEnvironments k') /\
   (write_fault flt = Some SyncDir -> readEnvironments (crash 0 k') = readEnvironments k)).
Proof.
  intros Hk Hc Hr. apply reachable_settled in Hk as Hs.
  destruct (run_keeps op flt k k' (Ok tt) Hs Hc Hr) as [Hs' _].
  split_and!; [intros i n; by apply power_loss_reads|intros Hst j; by apply crash_reads|].
  destruct (run_commits op flt k k' (Ok tt) Hr) as [?|(d & ->)]; [by left|right]. split; intros Hw.
  - assert (stale (written d k (bool_decide (write_fault flt = Some SyncDir))) = []) as Hst
      by (cbn; by rewrite bool_decide_eq_false_2).
    split; [done|]. intros i. by apply crash_reads.
  - cbn. rewrite bool_decide_eq_true_2 by done. destruct Hs as ((Hsy & _) & _). cbn in Hsy. unfold crash. cbn. by rewrite Hsy.
Qed.

Lemma power_loss_is_atomic_witness :
  let k' := (run (OpSetDefaultImage "image" false) noFaults demo_disk).1 in
  ((exists j, readEnvironments (power_loss 0 6 (catalog_of k') demo_disk) = readEnvironments (crash j demo_disk)) \/
   readEnvironments (power_loss 0 6 (catalog_of k') demo_disk) = readEnvironments k') /\
  readEnvironments (crash 0 k') = readEnvironments k'.
Proof.
  intros k'. destruct (power_loss_is_atomic (OpSetDefaultImage "image" false) noFaults demo_disk k') as (Hduring & _ & Hafter);
    [apply demo_reachable|exact I|vm_compute; reflexivity|].
  split; [apply Hduring|]. destruct Hafter as [(E & _)|[Hafter _]]; [vm_compute in E; discriminate E|]. apply Hafter. discriminate.
Defined.

(** ** What one operation may change *)

(** C12: an operation on a reachable disk never rewrites what identifies a
    stored record.  A lease keeps its Workspace, access, resources, owner and
    acquisition time, and never loses a recorded runtime or instance; a
    published Environment is immutable and disappears only with its lease; a
    resource keeps its owner, kind and native object; a generation moves by
    exactly one inside its epoch or restarts at zero in a new one; a ready
    snapshot can only start deleting. *)
Theorem operation_keeps_identities op flt k k' r d d' :
  reachable k -> caller_contract op (catalog_of k) -> run op flt k = (k', r) ->
  readEnvironments k = Ok d -> readEnvironments k' = Ok d' -> Evolves d d'.
Proof.
  intros Hk Hc Hr Hd Hd'. apply reachable_settled in Hk.
  destruct (run_keeps op flt k k' r Hk Hc Hr) as [Hs' Hev].
  rewrite settled_disk_read in Hd, Hd' by done. by simplify_eq.
Qed.

Lemma operation_keeps_identities_witness : Evolves demo_catalog (with_DefaultImage "image" demo_catalog).
Proof.
  apply (operation_keeps_identities (OpSetDefaultImage "image" false) noFaults demo_disk
    (run (OpSetDefaultImage "image" false) noFaults demo_disk).1 (Ok tt));
    [apply demo_reachable|exact I|vm_compute; reflexivity|apply demo_read|vm_compute; reflexivity].
Defined.
