(* ===== verification/LifecycleProperties.v ===== *)
(** * Behaviour of the lifecycle operations

    What the operations on Environments, identities and deletions do when they
    succeed, on any reachable disk. *)

From S2P Require Import Prelude GoText Core CoreChecks CoreProofs CatalogState CatalogChecks Catalog.
From S2P Require Import Resources Lifecycle Generations Snapshots Runs.
From S2P Require Import CatalogSpec AttachmentSpec Settled Transactions ResourceProofs CopyProofs LifecycleProofs.
From S2P Require Import ReservationProofs SnapshotProofs Store Scenario.
From Stdlib Require Import Ascii String.
Open Scope string_scope.

(** ** Transactions that succeed *)

Lemma same_files_read k k' : same_files k k' -> readEnvironments k' = readEnvironments k.
Proof. intros (H & _). unfold readEnvironments. by rewrite H. Qed.

(** A successful transaction between settled disks: its closure succeeded on
    the catalog, and the next read returns the closure's state. *)
Lemma transacted_ok {A} (fn : change A) flt k k' a :
  settled_disk k -> settled_disk k' -> transacted fn flt k k' (Ok a) ->
  exists d' b, fn (catalog_of k) = Ok (d', b, a) /\
    readEnvironments k' = Ok (if b then with_Version environmentStateVersion d' else catalog_of k).
Proof.
  intros Hk Hk' Ht. pose proof (settled_disk_read k Hk) as Hread.
  destruct Ht as [(Hsf & Hr)|(d & d' & a' & Hr & Hf & Hv & -> & [= <-])].
  - destruct (Hr a eq_refl) as (d & Hd & d' & Hf). rewrite Hread in Hd. injection Hd as <-. exists d', false. split; [done|].
    by rewrite (same_files_read k k').
  - rewrite Hread in Hr. injection Hr as <-. exists d', true. split; [done|]. by rewrite settled_disk_read.
Qed.

Lemma locked_ok {A} P (op : operation A) (fn : change A) flt k k' a :
  Keeps P op -> op = lockedTransaction fn -> settled_disk k -> P (catalog_of k) -> op flt k = (k', Ok a) ->
  settled_disk k' /\ exists d' b, fn (catalog_of k) = Ok (d', b, a) /\
    readEnvironments k' = Ok (if b then with_Version environmentStateVersion d' else catalog_of k).
Proof.
  intros HK -> Hk HP Hf. destruct (HK flt k k' (Ok a) Hk HP Hf) as [Hk' _]. split; [done|].
  apply (transacted_ok fn flt); [done..|]. by apply lockedTransaction_cases.
Qed.

Lemma catalog_ok {A} P (op : operation A) (fn : change A) flt k k' a :
  Keeps P op -> op = catalogTransaction fn -> settled_disk k -> P (catalog_of k) -> op flt k = (k', Ok a) ->
  settled_disk k' /\ exists d' b, fn (catalog_of k) = Ok (d', b, a) /\
    readEnvironments k' = Ok (if b then with_Version environmentStateVersion d' else catalog_of k).
Proof.
  intros HK -> Hk HP Hf. destruct (HK flt k k' (Ok a) Hk HP Hf) as [Hk' _]. split; [done|].
  apply (transacted_ok fn flt); [done..|]. by apply catalogTransaction_cases.
Qed.

Lemma locked_clean {A} (fn : change A) k d d' a :
  readEnvironments k = Ok d -> fn d = Ok (d', false, a) -> lockedTransaction fn noFaults k = (k, Ok a).
Proof. intros Hr Hf. unfold lockedTransaction. cbn. by rewrite Hr, Hf. Qed.

Lemma catalog_clean {A} (fn : change A) k d d' a :
  readEnvironments k = Ok d -> fn d = Ok (d', false, a) -> catalogTransaction fn noFaults k = (k, Ok a).
Proof. intros Hr Hf. unfold catalogTransaction. cbn. by rewrite Hr, Hf. Qed.

Lemma catalog_error {A} (fn : change A) k d e :
  readEnvironments k = Ok d -> fn d = Err e -> catalogTransaction fn noFaults k = (k, Err e).
Proof. intros Hr Hf. unfold catalogTransaction. cbn. by rewrite Hr, Hf. Qed.

(** ** Publication *)

(** After [CommitEnvironmentCreate] succeeds, whether it published the
    Environment or found it published already, [GetReadyEnvironment] returns
    exactly that Environment, and retrying the commit succeeds without
    touching the disk. *)
Lemma commit_publishes_environment e l flt k k' :
  reachable k -> CommitEnvironmentCreate e l flt k = (k', Ok tt) ->
  GetReadyEnvironment (env_Name e) noFaults k' = (k', Ok e) /\
  CommitEnvironmentCreate e l noFaults k' = (k', Ok tt).
Proof.
  intros Hk Hf. apply reachable_settled in Hk. pose proof (CommitEnvironmentCreate_keeps e l) as HK.
  unfold CommitEnvironmentCreate in *. destruct (validateEnvironmentCreateCommit e l) as [[]|] eqn:Harg; [|done].
  destruct (locked_ok anywhere _ _ flt k k' tt HK eq_refl Hk I Hf) as (Hk' & d' & b & Hfn & Hread).
  unfold validateEnvironmentCreateCommit in Harg. rewrite !reject_ok in Harg. destruct Harg as (_ & _ & _ & Hm & _).
  apply negb_false_iff in Hm. set (n := env_Name e) in *.
  assert (exists d, readEnvironments k' = Ok d /\ Environments d !! n = Some e /\ Leases d !! n = Some (publishedLease l))
    as (d & Hd & He & Hl).
  { unfold CommitEnvironmentCreate_change in Hfn. fold n in Hfn.
    destruct (Environments (catalog_of k) !! n) as [e0|] eqn:He; destruct (Leases (catalog_of k) !! n) as [l0|] eqn:Hl; try done.
    - destruct (Environment_Equal e0 e && Lease_Equal l0 (publishedLease l)) eqn:Heq; [|done]. injection Hfn as <- <-.
      unfold Environment_Equal, Lease_Equal in Heq. bool_hyps. subst. exists (catalog_of k). done.
    - apply bind_unit_ok in Hfn as [_ Hfn]. rewrite !reject_ok in Hfn. destruct Hfn as (_ & _ & Hfn).
      apply bind_unit_ok in Hfn as [_ [= <- <-]]. eexists. split; [exact Hread|]. cbn. by rewrite !lookup_insert_eq. }
  split.
  - apply (catalog_clean _ k' d d); [done|]. rewrite He, Hl. fold n. rewrite (bool_decide_eq_true_2 (n = n)) by done. simpl.
    replace (MatchesEnvironment (publishedLease l) e) with (MatchesEnvironment l e) by done. by rewrite Hm.
  - apply (locked_clean _ k' d d); [done|]. unfold CommitEnvironmentCreate_change. fold n. rewrite He, Hl.
    unfold Environment_Equal, Lease_Equal. by rewrite !bool_decide_eq_true_2.
Qed.

Lemma commit_publishes_environment_witness :
  GetReadyEnvironment "demo" noFaults demo_disk = (demo_disk, Ok demo_environment) /\
  CommitEnvironmentCreate demo_environment (demo_lease "vm-1" "active") noFaults demo_disk = (demo_disk, Ok tt).
Proof.
  apply (commit_publishes_environment demo_environment (demo_lease "vm-1" "active") noFaults demo_disk);
    [apply demo_reachable|vm_compute; reflexivity].
Defined.

(** ** Deletion *)

(** When [FinalizeEnvironmentDelete] succeeds on a leased name, the lease
    and the Environment are gone and nothing else of the catalog's leases,
    Environments, resources or snapshots changed; an owned Workspace is queued
    for cleanup under that name; every data area of the lease had been deleted
    and its runtime proved absent; and repeating the call is a no-op. *)
Theorem finalize_deletes_environment n l flt k k' d :
  reachable k -> readEnvironments k = Ok d -> Leases d !! n = Some l ->
  FinalizeEnvironmentDelete n flt k = (k', Ok tt) ->
  exists d', readEnvironments k' = Ok d' /\
    Leases d' = delete n (Leases d) /\ Environments d' = delete n (Environments d) /\
    PersistentResources d' = PersistentResources d /\ Snapshots d' = Snapshots d /\ LastOpened d' <> n /\
    OwnedWorkspaceCleanup d' = (match Environments d !! n with
      | Some e => if env_OwnedWorkspace e then <[n := env_Workspace e]> (OwnedWorkspaceCleanup d) else OwnedWorkspaceCleanup d
      | None => OwnedWorkspaceCleanup d end) /\
    (forall a, a ∈ lease_Attachments l -> lease_RuntimeAbsent l = true /\ PersistentResources d !! area_id a = None) /\
    FinalizeEnvironmentDelete n noFaults k' = (k', Ok tt).
Proof.
  intros Hk Hd Hl Hf. apply reachable_settled in Hk. rewrite settled_disk_read in Hd by done. injection Hd as <-.
  pose proof (FinalizeEnvironmentDelete_keeps n) as HK. unfold FinalizeEnvironmentDelete in *.
  case_bool_decide as Hn; [done|].
  destruct (locked_ok anywhere _ _ flt k k' tt HK eq_refl Hk I Hf) as (Hk' & d' & b & Hfn & Hread).
  set (d := catalog_of k) in *. unfold FinalizeEnvironmentDelete_change in Hfn. apply reject_ok in Hfn as [Hbusy Hfn].
  replace (has_key (Leases d) n) with true in Hfn by (symmetry; apply has_key_true; eauto). rewrite andb_false_r in Hfn.
  apply bind_unit_ok in Hfn as [Hgone Hfn]. rewrite Hl in Hgone.
  set (d1 := if LastOpened d == n then with_LastOpened "" d else d) in Hfn.
  assert (Environments d1 = Environments d /\ Leases d1 = Leases d /\ PersistentResources d1 = PersistentResources d /\
    Snapshots d1 = Snapshots d /\ Restores d1 = Restores d /\ OwnedWorkspaceCleanup d1 = OwnedWorkspaceCleanup d /\ LastOpened d1 <> n)
    as (E1 & E2 & E3 & E4 & E5 & E6 & E7) by (unfold d1; destruct (bool_decide_reflect (LastOpened d = n)); split_and!; try done; cbn; congruence).
  clearbody d1. rewrite E1 in Hfn. injection Hfn as Hd' <-. simpl in Hread.
  assert (Leases d' = delete n (Leases d) /\ Environments d' = delete n (Environments d) /\
    PersistentResources d' = PersistentResources d /\ Snapshots d' = Snapshots d /\ Restores d' = Restores d /\ LastOpened d' <> n /\
    OwnedWorkspaceCleanup d' = (match Environments d !! n with
      | Some e => if env_OwnedWorkspace e then <[n := env_Workspace e]> (OwnedWorkspaceCleanup d) else OwnedWorkspaceCleanup d
      | None => OwnedWorkspaceCleanup d end)) as (F1 & F2 & F3 & F4 & F5 & F6 & F7).
  { rewrite <- Hd'. destruct (Environments d !! n) as [e|]; [destruct (env_OwnedWorkspace e)|]; cbn;
      rewrite ?E1, ?E2, ?E3, ?E4, ?E5, ?E6; by repeat split. }
  exists (with_Version environmentStateVersion d'). split_and!; try done.
  - intros a Ha. destruct (List.length (lease_Attachments l) =? 0)%nat eqn:E.
    { apply Nat.eqb_eq, length_zero_iff_nil in E. rewrite E in Ha. by apply not_elem_of_nil in Ha. }
    simpl in Hgone. apply reject_ok in Hgone as [Hab Hgone]. bool_hyps. split; [done|].
    rewrite range_check_ok in Hgone. specialize (Hgone a Ha). apply reject_ok in Hgone as [Hgone _]. by apply has_key_false in Hgone.
  - set (d2 := with_Version environmentStateVersion d') in *. apply (locked_clean _ k' d2 d2); [done|].
    unfold FinalizeEnvironmentDelete_change, d2.
    replace (snapshotBusy (with_Version environmentStateVersion d') n) with false
      by (symmetry; rewrite <- Hbusy; unfold snapshotBusy; cbn; by rewrite F4, F5).
    unfold has_key. cbn. by rewrite F1, F2, !lookup_delete_eq.
Qed.
