(* ===== verification/Policy.v ===== *)
(** * Capability policy

    The types of [src/internal/core/capability.go] and the policy of
    [src/internal/policy]: rules and their evaluation ([policy.go]), saved
    choices and provider scopes ([saved_choice.go], [saved_scope.go],
    [decision.go]), and the update of the policy file
    ([saved_policy_linux.go]).  A map of strings is a [gmap]; a nil map and an
    empty one are not distinguished.  The bytes of the policy file carry the
    value that [encoding/json] decodes them to, if it accepts them. *)

From S2P Require Import Prelude GoText GoNet Core CoreChecks.
From Stdlib Require Import Ascii String.
Open Scope string_scope.

(** ** Types *)

Definition PolicyAllow := "allow".
Definition PolicyDeny := "deny".
Definition PolicyRequireApproval := "require-approval".

Notation strings_map := (gmap string string).

Record CapabilityRequest := mkRequest {
  req_EnvironmentInstance : string;
  req_Capability : string;
  req_Action : string;
  req_Resource : string;
  req_Environment : string;
  req_Attributes : strings_map;
  req_Parameters : strings_map }.

#[export] Instance CapabilityRequest_eq_dec : EqDecision CapabilityRequest.
Proof. solve_decision. Defined.

Definition req_with_Instance i r :=
  mkRequest i (req_Capability r) (req_Action r) (req_Resource r) (req_Environment r) (req_Attributes r) (req_Parameters r).
Definition req_with_Environment e r :=
  mkRequest (req_EnvironmentInstance r) (req_Capability r) (req_Action r) (req_Resource r) e (req_Attributes r) (req_Parameters r).
Definition req_with_Attributes a r :=
  mkRequest (req_EnvironmentInstance r) (req_Capability r) (req_Action r) (req_Resource r) (req_Environment r) a (req_Parameters r).
Definition req_with_Parameters p r :=
  mkRequest (req_EnvironmentInstance r) (req_Capability r) (req_Action r) (req_Resource r) (req_Environment r) (req_Attributes r) p.

Record PolicyEvaluation := mkEvaluation { ev_Decision : string; ev_Reason : string }.

#[export] Instance PolicyEvaluation_eq_dec : EqDecision PolicyEvaluation.
Proof. solve_decision. Defined.

Record PolicyRule := mkRule {
  rule_ExpiresAt : option Z;
  rule_EnvironmentInstance : string;
  rule_Capability : string;
  rule_Action : string;
  rule_Resource : string;
  rule_Environment : string;
  rule_Attributes : strings_map;
  rule_Decision : string;
  rule_Reason : string }.

#[export] Instance PolicyRule_eq_dec : EqDecision PolicyRule.
Proof. solve_decision. Defined.

Record NetworkService := mkService {
  svc_Name : string;
  svc_Instance : string;
  svc_Protocol : string;
  svc_Address : string;
  svc_Port : Z }.

#[export] Instance NetworkService_eq_dec : EqDecision NetworkService.
Proof. solve_decision. Defined.

Record PolicyFile := mkPolicy {
  NetworkServices : list NetworkService;
  SavedDecisions : list PolicyRule;
  pol_Default : string;
  Rules : list PolicyRule }.

#[export] Instance PolicyFile_eq_dec : EqDecision PolicyFile.
Proof. solve_decision. Defined.

(** ** Matching and evaluation *)

Definition decisionPriority (decision : string) : nat :=
  if decision == PolicyDeny then 3
  else if decision == PolicyRequireApproval then 2
  else if decision == PolicyAllow then 1
  else 0.

Definition validDecision (decision : string) : bool :=
  (decision == PolicyAllow) || (decision == PolicyDeny) || (decision == PolicyRequireApproval).

Definition matchAttributes (required actual : strings_map) : bool :=
  (size required == size actual) &&
  negb (map_any (fun key actualValue =>
          match required !! key with
          | None => true
          | Some requiredValue => (requiredValue != "*") && (requiredValue != actualValue)
          end) actual).

Definition ruleMatches (rule : PolicyRule) (req : CapabilityRequest) : bool :=
  negb ((rule_EnvironmentInstance rule != "") &&
        (rule_EnvironmentInstance rule != req_EnvironmentInstance req)) &&
  negb ((rule_Capability rule != req_Capability req) || (rule_Action rule != req_Action req)) &&
  negb ((rule_Resource rule != "*") && (rule_Resource rule != req_Resource req)) &&
  negb ((rule_Environment rule != "*") && (rule_Environment rule != req_Environment req)) &&
  matchAttributes (rule_Attributes rule) (req_Attributes req).

(** The [continue] conditions of the loop of [Evaluate]. *)
Definition rule_skipped (now : Z) (req : CapabilityRequest) (saved : bool) (rule : PolicyRule) : bool :=
  (match rule_ExpiresAt rule with Some expires => negb (now <? expires)%Z | None => false end) ||
  (saved && (rule_Environment rule != "*") &&
   (rule_EnvironmentInstance rule != req_EnvironmentInstance req)) ||
  negb (ruleMatches rule req).

Fixpoint evaluate_loop (now : Z) (req : CapabilityRequest) (rules_len index : nat)
    (rules : list PolicyRule) (selected : PolicyEvaluation) : PolicyEvaluation :=
  match rules with
  | [] => selected
  | rule :: rules =>
    let selected :=
      if rule_skipped now req (rules_len <=? index)%nat rule then selected
      else if (decisionPriority (ev_Decision selected) <? decisionPriority (rule_Decision rule))%nat
      then mkEvaluation (rule_Decision rule) (rule_Reason rule)
      else selected in
    evaluate_loop now req rules_len (S index) rules selected
  end.

(** [Evaluate] on the policy that [load] returned. *)
Definition evaluate_policy (policy : PolicyFile) (now : Z) (req : CapabilityRequest) : PolicyEvaluation :=
  let selected := evaluate_loop now req (List.length (Rules policy)) 0
                    (Rules policy ++ SavedDecisions policy)%list (mkEvaluation "" "") in
  if ev_Decision selected != "" then selected else
  mkEvaluation (if pol_Default policy == "" then PolicyDeny else pol_Default policy) "default policy".

(** ** Validation *)

(** [^[a-z0-9][a-z0-9-]{0,62}$] and [^svc-[a-f0-9]{32}$] *)
Definition networkServiceName : regexp := Seq (Cls cls_alnum) (Rep cls_name 0 62).
Definition networkServiceInstance : regexp := Seq (Lit "svc-") (Exactly cls_hex 32).

Definition ValidateNetworkService (s : NetworkService) : result unit :=
  reject negb (MatchString networkServiceName (svc_Name s)) ||
         negb (MatchString networkServiceInstance (svc_Instance s)) ||
         ((svc_Protocol s != "tcp") && (svc_Protocol s != "udp")) ||
         (svc_Port s <? 1)%Z || (65535 <? svc_Port s)%Z ||
         (match ParseAddr (svc_Address s) with
          | None => true
          | Some address =>
            (addr_String address != svc_Address s) || Is4In6 address || (Zone address != "") ||
            IsUnspecified address || IsMulticast address || IsLinkLocalUnicast address
          end)
  with ErrInvalidArgument ;;
  Ok tt.

Definition services_body (service : NetworkService) (seen : list string * list string)
  : result (list string * list string) :=
  reject negb (is_ok (ValidateNetworkService service)) || bool_decide (svc_Name service ∈ seen.1) ||
         bool_decide (svc_Instance service ∈ seen.2) with ErrMessage ;;
  Ok (svc_Name service :: seen.1, svc_Instance service :: seen.2).

Definition saved_rule_body (rule : PolicyRule) : result unit :=
  reject (rule_EnvironmentInstance rule != "") &&
         negb (ValidEnvironmentInstanceID (rule_EnvironmentInstance rule)) with ErrMessage ;;
  reject negb (validDecision (rule_Decision rule)) with ErrMessage ;;
  Ok tt.

Definition rule_body (rule : PolicyRule) : result unit :=
  reject (TrimSpace (rule_Capability rule) == "") || (TrimSpace (rule_Action rule) == "") ||
         (TrimSpace (rule_Resource rule) == "") with ErrMessage ;;
  reject (rule_EnvironmentInstance rule != "") &&
         negb (ValidEnvironmentInstanceID (rule_EnvironmentInstance rule)) with ErrMessage ;;
  reject negb (validDecision (rule_Decision rule)) with ErrMessage ;;
  reject existsb ContainsLineOrNUL
           [rule_Capability rule; rule_Action rule; rule_Resource rule; rule_Environment rule; rule_Reason rule]
  with ErrMessage ;;
  reject map_any (fun key value => (TrimSpace key == "") || ContainsLineOrNUL (key +:+ value))
           (rule_Attributes rule) with ErrMessage ;;
  Ok tt.

Definition validatePolicy (policy : PolicyFile) : result unit :=
  _ ← range_loop services_body (NetworkServices policy) ([], []);
  reject (pol_Default policy != "") && negb (validDecision (pol_Default policy)) with ErrMessage ;;
  _ ← range_check saved_rule_body (SavedDecisions policy);
  range_check rule_body (Rules policy ++ SavedDecisions policy)%list.

(** ** The policy file *)

(** The bytes of the file and the value they decode to; where there is a file
    or none, [None] is a missing file. *)
Inductive policy_bytes :=
| PolicyJSON (text : string) (policy : PolicyFile)
| PolicyGarbage (text : string).

#[export] Instance policy_bytes_eq_dec : EqDecision policy_bytes.
Proof. solve_decision. Defined.

Definition decodePolicy (content : policy_bytes) : result PolicyFile :=
  match content with
  | PolicyGarbage _ => Err ErrDecode
  | PolicyJSON _ policy => _ ← validatePolicy policy; Ok policy
  end.

(** [content] is what [os.ReadFile] returned. *)
Definition load (content : result (option policy_bytes)) : result PolicyFile :=
  match content with
  | Ok None => Ok (mkPolicy [] [] PolicyDeny [])
  | Err e => Err e
  | Ok (Some bytes) => decodePolicy bytes
  end.

Definition Evaluate (content : result (option policy_bytes)) (now : Z) (req : CapabilityRequest)
  : result PolicyEvaluation :=
  policy ← load content;
  Ok (evaluate_policy policy now req).

(** ** Requests *)

Definition validateRequest (req : CapabilityRequest) : result unit :=
  reject (req_EnvironmentInstance req != "") &&
         ((req_Environment req == "") || negb (ValidEnvironmentInstanceID (req_EnvironmentInstance req)))
  with ErrInvalidArgument ;;
  reject (req_Capability req == "") || (req_Action req == "") with ErrInvalidArgument ;;
  reject existsb ContainsLineOrNUL [req_Capability req; req_Action req; req_Resource req; req_Environment req]
  with ErrInvalidArgument ;;
  reject map_any (fun key value => (key == "") || ContainsLineOrNUL key || ContainsLineOrNUL value)
           (req_Attributes req) with ErrInvalidArgument ;;
  reject map_any (fun key _ => (TrimSpace key == "") || (TrimSpace key != key) || ContainsLineOrNUL key)
           (req_Parameters req) with ErrInvalidArgument ;;
  Ok tt.

(** Attribute keys that trim to the same text overwrite each other in the
    order of the range loop. *)
Definition normalizeRequest (req : CapabilityRequest) : CapabilityRequest :=
  mkRequest (req_EnvironmentInstance req) (TrimSpace (req_Capability req)) (TrimSpace (req_Action req))
    (TrimSpace (req_Resource req)) (TrimSpace (req_Environment req))
    (fold_left (fun m kv => <[TrimSpace kv.1 := TrimSpace kv.2]> m) (map_to_list (req_Attributes req)) ∅)
    (req_Parameters req).

(** ** Saved choices *)

Definition AllowEnvironment := "allow-environment".
Definition DenyEnvironment := "deny-environment".
Definition AllowGlobal := "allow-global".
Definition DenyGlobal := "deny-global".
Definition AskEnvironment := "ask-environment".
Definition AskGlobal := "ask-global".

Definition environment_choice (choice : string) : bool :=
  (choice == AllowEnvironment) || (choice == DenyEnvironment) || (choice == AskEnvironment).
Definition global_choice (choice : string) : bool :=
  (choice == AllowGlobal) || (choice == DenyGlobal) || (choice == AskGlobal).
Definition choice_decision (choice : string) : string :=
  if (choice == AllowEnvironment) || (choice == AllowGlobal) then PolicyAllow
  else if (choice == DenyEnvironment) || (choice == DenyGlobal) then PolicyDeny
  else if (choice == AskEnvironment) || (choice == AskGlobal) then PolicyRequireApproval
  else "".

Definition RuleForSavedChoice (request : CapabilityRequest) (choice : string) : result PolicyRule :=
  _ ← validateRequest request;
  reject (req_Resource request == "") || (req_Resource request == "*") with ErrInvalidArgument ;;
  reject map_any (fun _ value => value == "*") (req_Attributes request) with ErrInvalidArgument ;;
  let rule instance environment :=
    mkRule None instance (req_Capability request) (req_Action request) (req_Resource request)
      environment (req_Attributes request) (choice_decision choice) "" in
  rule ← (if environment_choice choice then
            reject (TrimSpace (req_Environment request) == "") || (req_Environment request == "*") ||
                   negb (ValidEnvironmentInstanceID (req_EnvironmentInstance request))
            with ErrInvalidArgument ;;
            Ok (rule (req_EnvironmentInstance request) (req_Environment request))
          else if global_choice choice then Ok (rule "" "*")
          else Err ErrInvalidArgument);
  _ ← validatePolicy (mkPolicy [] [] "" [rule]);
  Ok rule.

Definition rule_with_Attributes a r :=
  mkRule (rule_ExpiresAt r) (rule_EnvironmentInstance r) (rule_Capability r) (rule_Action r)
    (rule_Resource r) (rule_Environment r) a (rule_Decision r) (rule_Reason r).

Definition RuleForSavedScope (scope : CapabilityRequest) (choice : string) : result PolicyRule :=
  let literal := req_with_Attributes
    ((fun value => if value == "*" then "scope-placeholder" else value) <$> req_Attributes scope) scope in
  rule ← RuleForSavedChoice literal choice;
  Ok (rule_with_Attributes (req_Attributes scope) rule).

(** [savedApprovalScope] after the provider's declaration: [scope] is what the
    provider returned, or the request without its parameters. *)
Definition checkApprovalScope (request scope : CapabilityRequest) : result CapabilityRequest :=
  reject (req_Capability scope != req_Capability request) || (req_Action scope != req_Action request) ||
         (req_Resource scope != req_Resource request) || (req_Environment scope != req_Environment request) ||
         (req_EnvironmentInstance scope != req_EnvironmentInstance request) ||
         (size (req_Parameters scope) != 0) with ErrInvalidArgument ;;
  reject size (req_Attributes scope) != size (req_Attributes request) with ErrInvalidArgument ;;
  reject map_any (fun key value =>
           match req_Attributes request !! key with
           | None => true
           | Some original => (original == "*") || ((original != value) && (value != "*"))
           end) (req_Attributes scope) with ErrInvalidArgument ;;
  _ ← validateRequest scope;
  Ok scope.

(** ** Approval decisions *)

Record ApprovalRequest := mkApproval {
  apr_RequestID : string;
  apr_SavedScope : option CapabilityRequest;
  apr_CapabilityRequest : CapabilityRequest;
  apr_Reason : string }.

#[export] Instance ApprovalRequest_eq_dec : EqDecision ApprovalRequest.
Proof. solve_decision. Defined.

Record ApprovalDecision := mkDecision { dec_Approved : bool; dec_Save : string }.

#[export] Instance ApprovalDecision_eq_dec : EqDecision ApprovalDecision.
Proof. solve_decision. Defined.

Definition CloneApprovalRequest (request : ApprovalRequest) : ApprovalRequest :=
  mkApproval (apr_RequestID request) (req_with_Parameters ∅ <$> apr_SavedScope request)
    (req_with_Parameters ∅ (apr_CapabilityRequest request)) (apr_Reason request).

Definition approvalSavedRule (req : ApprovalRequest) (choice : string) : result PolicyRule :=
  match apr_SavedScope req with
  | Some scope => RuleForSavedScope scope choice
  | None => RuleForSavedChoice (apr_CapabilityRequest req) choice
  end.

Definition ValidateApprovalDecision (request : ApprovalRequest) (decision : ApprovalDecision) : result unit :=
  if dec_Save decision == "" then Ok tt else
  rule ← approvalSavedRule request (dec_Save decision);
  reject (rule_Decision rule != PolicyRequireApproval) &&
         negb (Bool.eqb (rule_Decision rule == PolicyAllow) (dec_Approved decision)) with ErrInvalidArgument ;;
  Ok tt.

(** ** Saving a choice *)

(** Two saved rules with the same scope. *)
Definition same_scope (existing rule : PolicyRule) : bool :=
  (rule_Capability existing == rule_Capability rule) && (rule_Action existing == rule_Action rule) &&
  (rule_Resource existing == rule_Resource rule) && (rule_Environment existing == rule_Environment rule) &&
  (rule_EnvironmentInstance existing == rule_EnvironmentInstance rule) &&
  (rule_Attributes existing == rule_Attributes rule).

(** The loop of [rememberRule]: the first rule of the same scope is replaced,
    otherwise the new rule is appended. *)
Fixpoint replace_rule (rules : list PolicyRule) (rule : PolicyRule) : list PolicyRule :=
  match rules with
  | [] => [rule]
  | existing :: rules =>
    if same_scope existing rule then rule :: rules else existing :: replace_rule rules rule
  end.

Definition rememberRule_change (rule : PolicyRule) (before : option policy_bytes) : result PolicyFile :=
  policy ← (match before with
            | None => Ok (mkPolicy [] [] PolicyDeny [])
            | Some bytes => decodePolicy bytes
            end);
  Ok (mkPolicy (NetworkServices policy) (replace_rule (SavedDecisions policy) rule)
        (pol_Default policy) (Rules policy)).

(** What can go wrong in [updatePolicy] besides the checks it makes itself:
    the error of each call that can fail, in source order. *)
Inductive policy_step :=
| PolicyDirectory | OpenRoot | StatRoot | OpenLock | StatLock | Flock | ContextBefore
| ReadBefore | MarshalPolicy | OpenTemporary | WriteTemporary | SyncTemporary
| CloseTemporary | ReadLatest | ContextAfter | RenamePolicy | OpenDirectory | SyncDirectory.

Definition policy_faults := policy_step -> option error.

Definition attempt (fails : policy_faults) (step : policy_step) : result unit :=
  match fails step with Some e => Err e | None => Ok tt end.

Fixpoint attempts (fails : policy_faults) (steps : list policy_step) : result unit :=
  match steps with
  | [] => Ok tt
  | step :: steps => _ ← attempt fails step; attempts fails steps
  end.

Definition maxSavedPolicyBytes : Z := 1048576.

(** [bytes.Equal] makes no difference between a missing and an empty file. *)
Definition policy_text (content : option policy_bytes) : string :=
  match content with
  | None => ""
  | Some (PolicyJSON text _) | Some (PolicyGarbage text) => text
  end.

(** [encode] is [json.MarshalIndent] of the policy and the final newline.
    [before] is the file at the first read, [latest] at the second one: the
    writer of another process may have replaced it in between.  The result is
    the file afterwards and what [updatePolicy] returned. *)
Section Update.
Variable encode : PolicyFile -> string.

Definition updatePolicy (fails : policy_faults) (before latest : option policy_bytes)
    (change : option policy_bytes -> result PolicyFile) : option policy_bytes * result unit :=
  match (_ ← attempts fails [PolicyDirectory; OpenRoot; StatRoot; OpenLock; StatLock; Flock;
                             ContextBefore; ReadBefore];
         policy ← change before;
         _ ← validatePolicy policy;
         _ ← attempt fails MarshalPolicy;
         reject (maxSavedPolicyBytes <? len (encode policy))%Z with ErrMessage ;;
         _ ← attempts fails [OpenTemporary; WriteTemporary; SyncTemporary; CloseTemporary; ReadLatest];
         reject policy_text before != policy_text latest with ErrMessage ;;
         _ ← attempts fails [ContextAfter; RenamePolicy];
         Ok policy) with
  | Err e => (latest, Err e)
  | Ok policy => (Some (PolicyJSON (encode policy) policy), attempts fails [OpenDirectory; SyncDirectory])
  end.

Definition rememberRule (fails : policy_faults) (before latest : option policy_bytes) (rule : PolicyRule) :=
  updatePolicy fails before latest (rememberRule_change rule).

(** [absolute] is [filepath.IsAbs] of the evaluator's path. *)
Definition Remember (absolute : bool) (fails : policy_faults) (before latest : option policy_bytes)
    (request : CapabilityRequest) (choice : string) : option policy_bytes * result unit :=
  match RuleForSavedChoice request choice with
  | Err e => (latest, Err e)
  | Ok rule => if negb absolute then (latest, Err ErrInvalidArgument)
               else rememberRule fails before latest rule
  end.

Definition RememberScope (absolute : bool) (fails : policy_faults) (before latest : option policy_bytes)
    (request : CapabilityRequest) (choice : string) : option policy_bytes * result unit :=
  match RuleForSavedScope request choice with
  | Err e => (latest, Err e)
  | Ok rule => if negb absolute then (latest, Err ErrInvalidArgument)
               else rememberRule fails before latest rule
  end.

End Update.
