(* ===== verification/PolicyProofs.v ===== *)
(** * Policy evaluation and saved rules: lemmas

    The evaluation loop as a fold over the rules that apply, what each rule
    scope matches, and what saving a rule does to the evaluation. *)

From S2P Require Import Prelude GoText GoNet Core CoreChecks Policy.
From Stdlib Require Import Ascii String.
Open Scope string_scope.

(** ** The evaluation loop *)

(** One round of the loop. *)
Definition pick (now : Z) (req : CapabilityRequest) (saved : bool) (selected : PolicyEvaluation)
    (rule : PolicyRule) : PolicyEvaluation :=
  if rule_skipped now req saved rule then selected
  else if (decisionPriority (ev_Decision selected) <? decisionPriority (rule_Decision rule))%nat
  then mkEvaluation (rule_Decision rule) (rule_Reason rule) else selected.

Lemma evaluate_loop_rules now req n i rules saved selected :
  i + List.length rules <= n ->
  evaluate_loop now req n i (rules ++ saved)%list selected =
  evaluate_loop now req n (i + List.length rules) saved (foldl (pick now req false) selected rules).
Proof.
  revert i selected; induction rules as [|r rules IH]; intros i selected Hi; simpl in *.
  - by rewrite Nat.add_0_r.
  - rewrite IH by lia. replace (S i + List.length rules) with (i + S (List.length rules)) by lia.
    f_equal. f_equal. unfold pick. by replace (n <=? i)%nat with false by (symmetry; apply Nat.leb_gt; lia).
Qed.

Lemma evaluate_loop_saved now req n i saved selected :
  n <= i -> evaluate_loop now req n i saved selected = foldl (pick now req true) selected saved.
Proof.
  revert i selected; induction saved as [|r saved IH]; intros i selected Hi; simpl; [done|].
  rewrite IH by lia. f_equal. unfold pick.
  by replace (n <=? i)%nat with true by (symmetry; apply Nat.leb_le; lia).
Qed.

(** The rule selected for a request. *)
Definition selection (policy : PolicyFile) (now : Z) (req : CapabilityRequest) : PolicyEvaluation :=
  foldl (pick now req true) (foldl (pick now req false) (mkEvaluation "" "") (Rules policy)) (SavedDecisions policy).

Lemma evaluate_policy_selection policy now req :
  evaluate_policy policy now req =
  if ev_Decision (selection policy now req) != "" then selection policy now req
  else mkEvaluation (if pol_Default policy == "" then PolicyDeny else pol_Default policy) "default policy".
Proof.
  unfold evaluate_policy, selection. rewrite evaluate_loop_rules by lia.
  by rewrite evaluate_loop_saved by lia.
Qed.

(** A rule that applies to a request. *)
Definition applicable (policy : PolicyFile) (now : Z) (req : CapabilityRequest) (rule : PolicyRule) : Prop :=
  (rule ∈ Rules policy /\ rule_skipped now req false rule = false) \/
  (rule ∈ SavedDecisions policy /\ rule_skipped now req true rule = false).

(** The fold keeps a decision of highest priority. *)
Lemma fold_pick_spec now req saved rules selected (d := ev_Decision (foldl (pick now req saved) selected rules)) :
  (forall r, r ∈ rules -> rule_skipped now req saved r = false ->
     decisionPriority (rule_Decision r) <= decisionPriority d) /\
  decisionPriority (ev_Decision selected) <= decisionPriority d /\
  (d = ev_Decision selected \/
   exists r, r ∈ rules /\ rule_skipped now req saved r = false /\ rule_Decision r = d).
Proof.
  revert selected d; induction rules as [|r rules IH]; intros selected d.
  - split_and!; [|done|by left]. intros r Hr. by apply not_elem_of_nil in Hr.
  - destruct (IH (pick now req saved selected r)) as (Hall & Hle & Hfrom).
    change (ev_Decision (foldl _ (pick now req saved selected r) rules)) with d in Hall, Hle, Hfrom.
    clearbody d.
    assert (decisionPriority (ev_Decision selected) <= decisionPriority (ev_Decision (pick now req saved selected r)) /\
            (rule_skipped now req saved r = false ->
             decisionPriority (rule_Decision r) <= decisionPriority (ev_Decision (pick now req saved selected r))) /\
            (ev_Decision (pick now req saved selected r) = ev_Decision selected \/
             rule_skipped now req saved r = false /\ rule_Decision r = ev_Decision (pick now req saved selected r)))
      as (H1 & H2 & H3).
    { unfold pick. destruct (rule_skipped now req saved r); [split_and!; [lia|done|by left]|].
      destruct (Nat.ltb_spec (decisionPriority (ev_Decision selected)) (decisionPriority (rule_Decision r)));
        simpl; split_and!; auto; lia. }
    split_and!; [|lia|].
    + intros r' [->|Hr]%elem_of_cons Hs; [specialize (H2 Hs); lia|by apply Hall].
    + destruct Hfrom as [->|(r' & ? & ? & ?)].
      * destruct H3 as [->|[? ?]]; [by left|]. right. exists r. split_and!; [by apply elem_of_cons; left|done|done].
      * right. exists r'. split_and!; [by apply elem_of_cons; right|done|done].
Qed.

Lemma selection_spec policy now req (d := ev_Decision (selection policy now req)) :
  (forall r, applicable policy now req r -> decisionPriority (rule_Decision r) <= decisionPriority d) /\
  (d = "" \/ exists r, applicable policy now req r /\ rule_Decision r = d).
Proof.
  unfold selection in d.
  destruct (fold_pick_spec now req false (Rules policy) (mkEvaluation "" "")) as (Ha & _ & Hf).
  destruct (fold_pick_spec now req true (SavedDecisions policy)
              (foldl (pick now req false) (mkEvaluation "" "") (Rules policy))) as (Ha' & Hle & Hf').
  fold d in Ha', Hle, Hf'. split.
  - intros r [[Hr Hs]|[Hr Hs]]; [|by apply Ha']. specialize (Ha r Hr Hs). lia.
  - destruct Hf' as [Hd|(r & ? & ? & ?)]; [|right; exists r; split; [by right|done]].
    rewrite Hd. destruct Hf as [->|(r & ? & ? & <-)]; [by left|]. right. exists r. split; [by left|done].
Qed.

(** ** Valid policies *)

Lemma decisions_distinct :
  PolicyAllow <> PolicyDeny /\ PolicyAllow <> PolicyRequireApproval /\ PolicyDeny <> PolicyRequireApproval /\
  "" <> PolicyAllow /\ "" <> PolicyDeny /\ "" <> PolicyRequireApproval.
Proof. done. Qed.

Lemma validDecision_cases d : validDecision d = true <-> d = PolicyAllow \/ d = PolicyDeny \/ d = PolicyRequireApproval.
Proof. unfold validDecision. autorewrite with boolprop. tauto. Qed.

Lemma rule_body_ok r :
  rule_body r = Ok tt <->
  TrimSpace (rule_Capability r) <> "" /\ TrimSpace (rule_Action r) <> "" /\ TrimSpace (rule_Resource r) <> "" /\
  (rule_EnvironmentInstance r = "" \/ ValidEnvironmentInstanceID (rule_EnvironmentInstance r) = true) /\
  validDecision (rule_Decision r) = true /\
  existsb ContainsLineOrNUL [rule_Capability r; rule_Action r; rule_Resource r; rule_Environment r; rule_Reason r] = false /\
  (forall k v, rule_Attributes r !! k = Some v -> TrimSpace k <> "" /\ ContainsLineOrNUL (k +:+ v) = false).
Proof.
  unfold rule_body. rewrite !reject_ok. autorewrite with boolprop.
  setoid_rewrite orb_false_iff. setoid_rewrite bool_decide_eq_false. intuition.
Qed.

Lemma validatePolicy_ok p :
  validatePolicy p = Ok tt <->
  (exists seen, range_loop services_body (NetworkServices p) ([], []) = Ok seen) /\
  (pol_Default p = "" \/ validDecision (pol_Default p) = true) /\
  (forall r, r ∈ (Rules p ++ SavedDecisions p)%list -> rule_body r = Ok tt).
Proof.
  unfold validatePolicy. rewrite bind_ok. split.
  - intros (seen & Hs & [Hd H]%reject_ok). apply bind_unit_ok in H as [_ H]. rewrite range_check_ok in H.
    split; [eauto|]. split; [|done]. autorewrite with boolprop in Hd. naive_solver.
  - intros ((seen & Hs) & Hd & Hr). exists seen. split; [done|]. rewrite reject_ok, bind_unit_ok, !range_check_ok.
    split_and!; [autorewrite with boolprop; naive_solver| |done].
    intros r Hin. assert (rule_body r = Ok tt) as Hb by (apply Hr, elem_of_app; by right).
    apply rule_body_ok in Hb as (_ & _ & _ & Hi & Hv & _). unfold saved_rule_body.
    rewrite !reject_ok. autorewrite with boolprop. naive_solver.
Qed.

Lemma valid_rule p now req r :
  validatePolicy p = Ok tt -> applicable p now req r -> validDecision (rule_Decision r) = true.
Proof.
  intros (_ & _ & Hr)%validatePolicy_ok Ha. assert (rule_body r = Ok tt) as Hb.
  { apply Hr, elem_of_app. destruct Ha as [[? _]|[? _]]; auto. }
  by apply rule_body_ok in Hb as (_ & _ & _ & _ & ? & _).
Qed.

(** ** Attribute matching *)

Lemma submap_size_eq (m1 m2 : strings_map) :
  size m1 = size m2 -> (forall k v, m2 !! k = Some v -> is_Some (m1 !! k)) ->
  forall k, m1 !! k = None <-> m2 !! k = None.
Proof.
  intros Hsz Hsub. assert (dom (D := gset string) m1 = dom m2) as Hd.
  { symmetry. apply set_subseteq_size_eq; [|rewrite !(size_dom (D := gset string)); lia].
    intros k [v Hk]%elem_of_dom. apply elem_of_dom. eauto. }
  intros k. by rewrite <- !(not_elem_of_dom (D := gset string)), Hd.
Qed.

Lemma matchAttributes_spec required actual :
  matchAttributes required actual = true <->
  (forall k, required !! k = None <-> actual !! k = None) /\
  (forall k v w, required !! k = Some v -> actual !! k = Some w -> v = "*" \/ v = w).
Proof.
  unfold matchAttributes. rewrite andb_true_iff, negb_true_iff, map_any_false, bool_decide_eq_true. split.
  - intros [Hsz Hm]. split.
    + apply submap_size_eq; [done|]. intros k w Hk. specialize (Hm k w Hk).
      destruct (required !! k); [eauto|done].
    + intros k v w Hk Hk'. specialize (Hm k w Hk'). rewrite Hk in Hm. simpl in Hm.
      rewrite andb_false_iff, !negb_false_iff, !bool_decide_eq_true in Hm. done.
  - intros [Hd Hv]. split.
    + rewrite <- !(size_dom (D := gset string)). f_equal. apply set_eq. intros k. rewrite !elem_of_dom.
      rewrite <- !not_eq_None_Some. by rewrite (Hd k).
    + intros k w Hk. destruct (required !! k) as [v|] eqn:E.
      * rewrite andb_false_iff, !negb_false_iff, !bool_decide_eq_true. by apply (Hv k).
      * apply Hd in E. congruence.
Qed.

(** Without wildcards, attributes match exactly when they are equal. *)
Lemma matchAttributes_literal required actual :
  (forall k v, required !! k = Some v -> v <> "*") ->
  matchAttributes required actual = true <-> required = actual.
Proof.
  intros Hlit. rewrite matchAttributes_spec. split.
  - intros [Hd Hv]. apply map_eq. intros k. destruct (required !! k) as [v|] eqn:E.
    + destruct (actual !! k) as [w|] eqn:E'; [|apply Hd in E'; congruence].
      destruct (Hv k v w E E') as [->| ->]; [by destruct (Hlit k "*" E)|done].
    + symmetry. by apply Hd.
  - intros <-. split; [done|]. intros k v w Hk Hk'. right. congruence.
Qed.

Lemma ruleMatches_spec rule req :
  ruleMatches rule req = true <->
  (rule_EnvironmentInstance rule = "" \/ rule_EnvironmentInstance rule = req_EnvironmentInstance req) /\
  rule_Capability rule = req_Capability req /\ rule_Action rule = req_Action req /\
  (rule_Resource rule = "*" \/ rule_Resource rule = req_Resource req) /\
  (rule_Environment rule = "*" \/ rule_Environment rule = req_Environment req) /\
  matchAttributes (rule_Attributes rule) (req_Attributes req) = true.
Proof. unfold ruleMatches. autorewrite with boolprop. tauto. Qed.

(** ** Rules of saved choices *)

Lemma choice_decision_valid choice :
  environment_choice choice || global_choice choice = true -> validDecision (choice_decision choice) = true.
Proof.
  unfold environment_choice, global_choice. intros H.
  assert (choice ∈ [AllowEnvironment; DenyEnvironment; AskEnvironment; AllowGlobal; DenyGlobal; AskGlobal]) as Hin.
  { revert H. rewrite !orb_true_iff, !bool_decide_eq_true, !elem_of_cons. tauto. }
  rewrite !elem_of_cons, elem_of_nil in Hin.
  destruct Hin as [-> |[-> |[-> |[-> |[-> |[-> |[]]]]]]]; reflexivity.
Qed.

(** The fields of the rule, and what the request had to satisfy. *)
Lemma RuleForSavedChoice_ok request choice rule :
  RuleForSavedChoice request choice = Ok rule ->
  validateRequest request = Ok tt /\ req_Resource request <> "" /\ req_Resource request <> "*" /\
  (forall k v, req_Attributes request !! k = Some v -> v <> "*") /\ rule_body rule = Ok tt /\
  rule_Decision rule = choice_decision choice /\
  (environment_choice choice = true /\ req_Environment request <> "*" /\
   ValidEnvironmentInstanceID (req_EnvironmentInstance request) = true /\
   rule = mkRule None (req_EnvironmentInstance request) (req_Capability request) (req_Action request)
            (req_Resource request) (req_Environment request) (req_Attributes request) (choice_decision choice) "" \/
   environment_choice choice = false /\ global_choice choice = true /\
   rule = mkRule None "" (req_Capability request) (req_Action request)
            (req_Resource request) "*" (req_Attributes request) (choice_decision choice) "").
Proof.
  unfold RuleForSavedChoice. rewrite bind_unit_ok, !reject_ok. intros (Hv & Hr & Ha & H).
  autorewrite with boolprop in Hr, Ha. apply bind_ok in H as (rule' & Hrule & H).
  apply bind_unit_ok in H as [Hp [= ->]]. apply validatePolicy_ok in Hp as (_ & _ & Hp).
  assert (rule_body rule = Ok tt) as Hb by (apply Hp; simpl; by apply elem_of_cons; left).
  split_and!; [done|tauto|tauto|by setoid_rewrite bool_decide_eq_false in Ha|done| |].
  - destruct (environment_choice choice); [apply reject_ok in Hrule as [_ [= <-]]; done|].
    destruct (global_choice choice); [|done]. by injection Hrule as <-.
  - destruct (environment_choice choice); [left|right].
    + apply reject_ok in Hrule as [Hg [= <-]]. autorewrite with boolprop in Hg. naive_solver.
    + destruct (global_choice choice); [|done]. injection Hrule as <-. done.
Qed.

Lemma scope_placeholder (scope : CapabilityRequest) k v :
  req_Attributes scope !! k = Some v ->
  ((fun value => if value == "*" then "scope-placeholder" else value) <$> req_Attributes scope) !! k =
  Some (if v == "*" then "scope-placeholder" else v).
Proof. intros Hk. by rewrite lookup_fmap, Hk. Qed.

(** ContainsAny of a concatenation. *)
Lemma ContainsByte_app s t p : ContainsByte (s +:+ t) p = ContainsByte s p || ContainsByte t p.
Proof. induction s as [|c s IH]; simpl; [done|]. by rewrite IH, orb_assoc. Qed.

Lemma RuleForSavedScope_ok scope choice rule :
  RuleForSavedScope scope choice = Ok rule ->
  exists literal rule', RuleForSavedChoice literal choice = Ok rule' /\
    rule = rule_with_Attributes (req_Attributes scope) rule' /\
    literal = req_with_Attributes (req_Attributes literal) scope /\
    rule_body rule = Ok tt.
Proof.
  unfold RuleForSavedScope. intros (rule' & Hr & [= <-])%bind_ok. eexists _, rule'.
  split_and!; [done|done|by destruct scope|].
  apply RuleForSavedChoice_ok in Hr as (_ & _ & _ & _ & Hb & _ & Hcases).
  apply rule_body_ok in Hb as (H1 & H2 & H3 & H4 & H5 & H6 & H7). apply rule_body_ok.
  split_and!; try done. simpl. intros k v Hk. specialize (H7 k (if v == "*" then "scope-placeholder" else v)).
  assert (rule_Attributes rule' !! k = Some (if v == "*" then "scope-placeholder" else v)) as Ha.
  { destruct Hcases as [(_ & _ & _ & ->)|(_ & _ & ->)]; simpl; by apply scope_placeholder. }
  apply H7 in Ha as [Ht Hc]. split; [done|]. revert Hc. unfold ContainsLineOrNUL. rewrite !ContainsByte_app.
  case_bool_decide as Hv; [|done]. rewrite Hv. by intros [-> _]%orb_false_iff.
Qed.

(** ** Replacing a saved rule *)

Lemma same_scope_matches existing rule req :
  same_scope existing rule = true -> ruleMatches existing req = ruleMatches rule req.
Proof.
  unfold same_scope. intros H. bool_hyps. destruct existing, rule. simpl in *. by subst.
Qed.

Lemma elem_of_replace_rule rules rule r :
  r ∈ replace_rule rules rule -> r = rule \/ r ∈ rules.
Proof.
  induction rules as [|x rules IH]; simpl; [rewrite elem_of_cons, elem_of_nil; tauto|].
  destruct (same_scope x rule); rewrite !elem_of_cons; tauto.
Qed.

Lemma replace_rule_has rules rule : rule ∈ replace_rule rules rule.
Proof.
  induction rules as [|x rules IH]; simpl; [by apply elem_of_cons; left|].
  destruct (same_scope x rule); rewrite elem_of_cons; tauto.
Qed.

(** A request the saved rule does not match is evaluated as before. *)
Lemma replace_rule_frame now req rules rule selected :
  ruleMatches rule req = false ->
  foldl (pick now req true) selected (replace_rule rules rule) = foldl (pick now req true) selected rules.
Proof.
  intros Hm. assert (forall r s, ruleMatches r req = false -> pick now req true s r = s) as Hskip.
  { intros r s Hr. unfold pick, rule_skipped. by rewrite Hr, orb_true_r. }
  revert selected; induction rules as [|x rules IH]; intros selected; simpl; [by apply Hskip|].
  destruct (same_scope x rule) eqn:E; simpl; [|apply IH].
  rewrite !Hskip; [done| |done]. by rewrite (same_scope_matches x rule).
Qed.

(** ** Updating the policy file *)

Lemma attempts_ok fails steps : attempts fails steps = Ok tt <-> (forall s, s ∈ steps -> fails s = None).
Proof.
  induction steps as [|x steps IH]; simpl.
  - split; [|done]. intros _ s Hs. by apply not_elem_of_nil in Hs.
  - rewrite bind_unit_ok, IH. unfold attempt. split.
    + intros [H1 H2] s [->|Hs]%elem_of_cons; [|auto]. by destruct (fails x).
    + intros H. split; [|intros s Hs; apply H, elem_of_cons; by right].
      rewrite H by (apply elem_of_cons; by left). done.
Qed.

Lemma updatePolicy_cases encode fails before latest change after r :
  updatePolicy encode fails before latest change = (after, r) ->
  (after = latest /\ is_ok r = false) \/
  exists policy, after = Some (PolicyJSON (encode policy) policy) /\ change before = Ok policy /\
    validatePolicy policy = Ok tt /\ policy_text before = policy_text latest.
Proof.
  unfold updatePolicy. intros H. match type of H with match ?m with _ => _ end = _ => destruct m as [p|e] eqn:E end.
  - right. injection H as <- _. exists p. split; [done|]. apply bind_unit_ok in E as [_ E].
    apply bind_ok in E as (p' & Hc & E). apply bind_unit_ok in E as [Hv E]. apply bind_unit_ok in E as [_ E].
    apply reject_ok in E as [_ E]. apply bind_unit_ok in E as [_ E]. apply reject_ok in E as [Ht E].
    apply bind_unit_ok in E as [_ [= ->]]. by bool_hyps.
  - left. by injection H as <- <-.
Qed.

(** ** Evaluation by cases *)

Lemma priority_deny d : decisionPriority PolicyDeny <= decisionPriority d -> d = PolicyDeny.
Proof. unfold decisionPriority. repeat case_bool_decide; try done; lia. Qed.

Lemma priority_approval d :
  decisionPriority PolicyRequireApproval <= decisionPriority d -> d = PolicyDeny \/ d = PolicyRequireApproval.
Proof. unfold decisionPriority. repeat case_bool_decide; try done; [by left|by right|lia..]. Qed.

(** Either no rule applies and the default decides, or the decision is that of
    an applicable rule of highest priority. *)
Lemma evaluate_cases policy now req (d := ev_Decision (evaluate_policy policy now req)) :
  validatePolicy policy = Ok tt ->
  ((forall r, ~ applicable policy now req r) /\
   (pol_Default policy = "" /\ d = PolicyDeny \/ pol_Default policy <> "" /\ d = pol_Default policy)) \/
  (exists r, applicable policy now req r /\ d = rule_Decision r /\ validDecision d = true /\
     forall r', applicable policy now req r' -> decisionPriority (rule_Decision r') <= decisionPriority d).
Proof.
  intros Hp. unfold d. clear d. rewrite evaluate_policy_selection.
  destruct (selection_spec policy now req) as [Hmax [Hd|(r & Hr & Hd)]].
  - left. rewrite Hd in *. simpl. split.
    + intros r Hr. specialize (Hmax r Hr). apply (valid_rule policy now req r Hp), validDecision_cases in Hr.
      destruct Hr as [E|[E|E]]; rewrite E in Hmax; cbv in Hmax; lia.
    + case_bool_decide; simpl; tauto.
  - right. assert (validDecision (rule_Decision r) = true) as Hv by (by apply (valid_rule policy now req)).
    rewrite bool_decide_eq_false_2; [|rewrite <- Hd; intros E; by rewrite E in Hv]. simpl.
    exists r. rewrite <- Hd in *. done.
Qed.
