(* ===== verification/PolicyProperties.v ===== *)
(** * Policy: properties

    What the evaluation of a policy decides, what a saved choice covers and
    what saving it changes. *)

From S2P Require Import Prelude GoText GoNet Core CoreChecks Policy PolicyProofs.
From Stdlib Require Import Ascii String.
Open Scope string_scope.

(** A concrete request and policy. *)
Definition demo_request : CapabilityRequest :=
  mkRequest "env-0123456789abcdef0123456789abcdef" "git.push" "push" "origin" "demo"
    {["branch" := "main"]} ∅.
Definition demo_allow : PolicyRule :=
  mkRule None "" "git.push" "push" "*" "demo" {["branch" := "*"]} PolicyAllow "team rule".
Definition demo_deny : PolicyRule :=
  mkRule None "" "git.push" "push" "origin" "*" {["branch" := "main"]} PolicyDeny "protected".
Definition demo_policy : PolicyFile := mkPolicy [] [demo_deny] PolicyRequireApproval [demo_allow].
Definition demo_bytes (p : PolicyFile) : option policy_bytes := Some (PolicyJSON "policy" p).

(** C21: [Evaluate] on a valid policy returns the most restrictive decision of
    the rules that apply (not expired, of the right instance, matching every
    field), whatever their order and whether an administrator wrote them or a
    choice saved them: deny as soon as one denies, ask when none denies and one
    asks, allow only when every applicable rule allows.  Without an applicable
    rule the default decides, and an absent default denies. *)
Theorem evaluate_most_restrictive policy now req (d := ev_Decision (evaluate_policy policy now req)) :
  validatePolicy policy = Ok tt ->
  (d = PolicyDeny <->
     (exists r, applicable policy now req r /\ rule_Decision r = PolicyDeny) \/
     ((forall r, ~ applicable policy now req r) /\ (pol_Default policy = "" \/ pol_Default policy = PolicyDeny))) /\
  (d = PolicyRequireApproval <->
     ((exists r, applicable policy now req r /\ rule_Decision r = PolicyRequireApproval) /\
      (forall r, applicable policy now req r -> rule_Decision r <> PolicyDeny)) \/
     ((forall r, ~ applicable policy now req r) /\ pol_Default policy = PolicyRequireApproval)) /\
  (d = PolicyAllow <->
     ((exists r, applicable policy now req r) /\
      (forall r, applicable policy now req r -> rule_Decision r = PolicyAllow)) \/
     ((forall r, ~ applicable policy now req r) /\ pol_Default policy = PolicyAllow)).
Proof.
  intros Hp. destruct (evaluate_cases policy now req Hp) as [[Hn Hd]|(r & Hr & Hd & Hv & Hmax)]; fold d in Hd;
    [|fold d in Hv, Hmax]; clearbody d; pose proof decisions_distinct as (? & ? & ? & ? & ? & ?).
  - assert (forall r P, applicable policy now req r /\ P -> False) as Hn' by (intros r P [Ha _]; by apply (Hn r)).
    split_and!; split.
    1,3,5: intros E; right; split; [done|]; intuition congruence.
    all: intros [E|[_ E]]; [exfalso|intuition congruence].
    + destruct E as [r E]. by apply Hn' in E.
    + destruct E as [[r E] _]. by apply Hn' in E.
    + destruct E as [[r E] _]. by apply (Hn r).
  - assert (forall r', applicable policy now req r' -> validDecision (rule_Decision r') = true) as Hval
      by (intros; by apply (valid_rule policy now req)).
    assert (forall r', applicable policy now req r' -> rule_Decision r' = PolicyDeny -> d = PolicyDeny) as Hdeny.
    { intros r' Ha E. apply priority_deny. rewrite <- E. by apply Hmax. }
    assert (forall r', applicable policy now req r' -> rule_Decision r' = PolicyRequireApproval ->
              d = PolicyDeny \/ d = PolicyRequireApproval) as Hask.
    { intros r' Ha E. apply priority_approval. rewrite <- E. by apply Hmax. }
    clear Hmax. split_and!; split.
    + intros E. left. exists r. split; congruence.
    + intros [(r' & Ha & E)|[Hn _]]; [by apply (Hdeny r')|by destruct (Hn r)].
    + intros E. left. split; [exists r; split; congruence|]. intros r' Ha E'. specialize (Hdeny r' Ha E'). congruence.
    + intros [[(r' & Ha & E) Hnd]|[Hn _]]; [|by destruct (Hn r)]. specialize (Hnd r Hr).
      destruct (Hask r' Ha E); congruence.
    + intros E. left. split; [by exists r|]. intros r' Ha.
      destruct (proj1 (validDecision_cases _) (Hval r' Ha)) as [?|[E'|E']]; [done|exfalso..].
      * specialize (Hdeny r' Ha E'). congruence.
      * destruct (Hask r' Ha E'); congruence.
    + intros [[_ Ha]|[Hn _]]; [|by destruct (Hn r)]. rewrite Hd. by apply Ha.
Qed.

Lemma evaluate_most_restrictive_witness :
  validatePolicy demo_policy = Ok tt /\ ev_Decision (evaluate_policy demo_policy 0 demo_request) = PolicyDeny.
Proof.
  split; [vm_compute; reflexivity|]. apply (evaluate_most_restrictive demo_policy 0 demo_request).
  - vm_compute. reflexivity.
  - left. exists demo_deny. split; [|reflexivity]. right. split; [|vm_compute; reflexivity].
    apply elem_of_cons. by left.
Defined.

Lemma environment_choice_local choice : environment_choice choice = true -> global_choice choice = false.
Proof.
  intros Hc. apply not_true_iff_false. revert Hc. unfold environment_choice, global_choice.
  rewrite !orb_true_iff, !bool_decide_eq_true. naive_solver.
Qed.

(** The rule saved for a choice matches exactly the requests of the same scope. *)
Lemma saved_choice_exact request choice rule :
  RuleForSavedChoice request choice = Ok rule ->
  forall req', ruleMatches rule req' = true <->
    req_Capability req' = req_Capability request /\ req_Action req' = req_Action request /\
    req_Resource req' = req_Resource request /\ req_Attributes req' = req_Attributes request /\
    (global_choice choice = true \/
     req_Environment req' = req_Environment request /\
     req_EnvironmentInstance req' = req_EnvironmentInstance request).
Proof.
  intros H req'. destruct (RuleForSavedChoice_ok _ _ _ H) as (_ & _ & Hres & Hattr & _ & _ & Hcases).
  rewrite ruleMatches_spec.
  destruct Hcases as [(Hc & He & Hi & ->)|(Hc & Hg & ->)]; simpl; rewrite matchAttributes_literal by done.
  - pose proof (environment_choice_local choice Hc) as Hg.
    assert (req_EnvironmentInstance request <> "") by (intros E; by rewrite E in Hi).
    rewrite Hg. naive_solver.
  - rewrite Hg. naive_solver.
Qed.

(** The rule saved for an accepted scope. *)
Lemma saved_scope_rule request declared scope choice rule :
  checkApprovalScope request declared = Ok scope -> RuleForSavedScope scope choice = Ok rule ->
  rule_Capability rule = req_Capability request /\ rule_Action rule = req_Action request /\
  rule_Resource rule = req_Resource request /\ req_Resource request <> "*" /\
  rule_Attributes rule = req_Attributes declared /\
  (global_choice choice = false /\ rule_EnvironmentInstance rule = req_EnvironmentInstance request /\
   req_EnvironmentInstance request <> "" /\ rule_Environment rule = req_Environment request /\ req_Environment request <> "*" \/
   global_choice choice = true /\ rule_EnvironmentInstance rule = "" /\ rule_Environment rule = "*").
Proof.
  unfold checkApprovalScope. rewrite !reject_ok, bind_unit_ok. intros (Hsame & _ & _ & _ & [= <-]).
  autorewrite with boolprop in Hsame. destruct Hsame as (((((C1 & C2) & C3) & C4) & C5) & _).
  intros (literal & rule' & Hr & -> & Hlit & _)%RuleForSavedScope_ok.
  destruct (RuleForSavedChoice_ok _ _ _ Hr) as (_ & _ & Hres & _ & _ & _ & Hcases).
  rewrite Hlit in Hres, Hcases. simpl in Hres, Hcases. rewrite <- C1, <- C2, <- C3, <- C4, <- C5.
  destruct Hcases as [(Hc & He & Hi & ->)|(_ & Hg & ->)]; simpl; split_and!; try done; [left|by right].
  split_and!; try done; [by apply environment_choice_local|]. intros E. by rewrite E in Hi.
Qed.

(** A declared scope is widened only where the provider wildcarded it. *)
Lemma saved_scope_bounded request declared scope choice rule :
  checkApprovalScope request declared = Ok scope -> RuleForSavedScope scope choice = Ok rule ->
  forall req', ruleMatches rule req' = true <->
    req_Capability req' = req_Capability request /\ req_Action req' = req_Action request /\
    req_Resource req' = req_Resource request /\
    (global_choice choice = true \/
     req_Environment req' = req_Environment request /\
     req_EnvironmentInstance req' = req_EnvironmentInstance request) /\
    (forall k, req_Attributes req' !! k = None <-> req_Attributes request !! k = None) /\
    (forall k v, req_Attributes request !! k = Some v -> req_Attributes declared !! k <> Some "*" ->
       req_Attributes req' !! k = Some v).
Proof.
  intros Hcheck Hrule req'. destruct (saved_scope_rule _ _ _ _ _ Hcheck Hrule) as (E1 & E2 & E3 & E4 & E5 & E6).
  unfold checkApprovalScope in Hcheck. rewrite !reject_ok in Hcheck. destruct Hcheck as (_ & Hsz & Hcover & _).
  autorewrite with boolprop in Hsz. rewrite map_any_false in Hcover.
  assert (forall k, req_Attributes declared !! k = None <-> req_Attributes request !! k = None) as Hdom.
  { intros k. symmetry. apply submap_size_eq; [by rewrite Hsz|]. intros k' v Hk. specialize (Hcover k' v Hk).
    destruct (req_Attributes request !! k'); [eauto|done]. }
  assert (forall k v w, req_Attributes declared !! k = Some v -> req_Attributes request !! k = Some w ->
            v = "*" \/ v = w) as Hval.
  { intros k v w Hk Hk'. specialize (Hcover k v Hk). rewrite Hk' in Hcover.
    autorewrite with boolprop in Hcover. naive_solver. }
  rewrite ruleMatches_spec, matchAttributes_spec, E1, E2, E3, E5. split.
  - intros (Hi & -> & -> & Hr & He & Hd & Hv). split_and!; [done|done|by destruct Hr| | |].
    + destruct E6 as [(_ & E6 & ? & E7 & ?)|(? & _)]; [right|by left]. rewrite E6 in Hi. rewrite E7 in He. by destruct Hi, He.
    + intros k. by rewrite <- Hd, Hdom.
    + intros k v Hk Hw. destruct (req_Attributes declared !! k) as [w|] eqn:Ed; [|apply Hdom in Ed; congruence].
      destruct (req_Attributes req' !! k) as [u|] eqn:Eu; [|apply Hd in Eu; congruence].
      destruct (Hval k w v Ed Hk) as [->| ->]; [done|]. destruct (Hv k v u Ed Eu) as [->| ->]; done.
  - intros (-> & -> & -> & Hg & Hd & Hv). destruct E6 as [(Hl & E6 & _ & E7 & _)|(_ & E6 & E7)]; rewrite E6, E7.
    1: assert (req_Environment req' = req_Environment request /\ req_EnvironmentInstance req' = req_EnvironmentInstance request) as [-> ->]
      by (destruct Hg; [congruence|done]).
    all: split_and!; auto; clear E1 E2 E3 E4 E5 E6 E7 Hrule.
    1,3: intros k; by rewrite Hd, Hdom.
    all: intros k v w Hk Hw; destruct (decide (v = "*")) as [->|Hne]; [by left|right];
      (destruct (req_Attributes request !! k) as [u|] eqn:Eu; [|apply Hd in Eu; congruence]);
      (destruct (Hval k v u Hk Eu) as [->| ->]; [done|]); specialize (Hv k u Eu); rewrite Hk, Hw in Hv;
      (assert (Some w = Some u) as [= ->] by (apply Hv; congruence)); done.
Qed.

Definition demo_scope : CapabilityRequest := req_with_Attributes {["branch" := "*"]} demo_request.

(** C22: a saved choice covers what the user saw and nothing wider.  The rule
    saved for a choice on a request matches exactly the requests with the same
    capability, action, resource and attributes, in any Environment for a global
    choice and only in the same Environment instance otherwise.  The rule saved
    for a scope that a provider declares for a request and the service accepts
    matches exactly the requests with the same capability, action, resource and
    set of attributes, equal on every attribute the provider did not wildcard, and
    again in any Environment for a global choice and only in the same Environment
    instance otherwise; so it covers the request itself. *)
Theorem saved_choice_is_bounded request choice rule :
  (RuleForSavedChoice request choice = Ok rule ->
   forall req', ruleMatches rule req' = true <->
     req_Capability req' = req_Capability request /\ req_Action req' = req_Action request /\
     req_Resource req' = req_Resource request /\ req_Attributes req' = req_Attributes request /\
     (global_choice choice = true \/
      req_Environment req' = req_Environment request /\
      req_EnvironmentInstance req' = req_EnvironmentInstance request)) /\
  (forall declared scope, checkApprovalScope request declared = Ok scope -> RuleForSavedScope scope choice = Ok rule ->
   forall req', ruleMatches rule req' = true <->
     req_Capability req' = req_Capability request /\ req_Action req' = req_Action request /\
     req_Resource req' = req_Resource request /\
     (global_choice choice = true \/
      req_Environment req' = req_Environment request /\
      req_EnvironmentInstance req' = req_EnvironmentInstance request) /\
     (forall k, req_Attributes req' !! k = None <-> req_Attributes request !! k = None) /\
     (forall k v, req_Attributes request !! k = Some v -> req_Attributes declared !! k <> Some "*" ->
        req_Attributes req' !! k = Some v)).
Proof. split; [apply saved_choice_exact|]. intros declared scope. apply saved_scope_bounded. Qed.

Lemma saved_choice_is_bounded_witness :
  exists rule, RuleForSavedScope demo_scope AllowEnvironment = Ok rule /\ ruleMatches rule demo_request = true /\
    ruleMatches rule (req_with_Environment "other" demo_request) = false.
Proof.
  eexists. split; [vm_compute; reflexivity|]. split.
  - apply (proj2 (saved_choice_is_bounded demo_request AllowEnvironment _) demo_scope demo_scope); [vm_compute; reflexivity..|].
    split_and!; try reflexivity; [by right|done..].
  - vm_compute. reflexivity.
Defined.

(** The rule that [Remember] or [RememberScope] saves. *)
Definition saved_rule (scoped : bool) (request : CapabilityRequest) (choice : string) : result PolicyRule :=
  if scoped then RuleForSavedScope request choice else RuleForSavedChoice request choice.

Lemma saved_rule_facts scoped request choice rule :
  saved_rule scoped request choice = Ok rule ->
  rule_ExpiresAt rule = None /\ rule_Decision rule = choice_decision choice /\
  (rule_Environment rule = "*" \/ rule_EnvironmentInstance rule <> "").
Proof.
  assert (forall request rule, RuleForSavedChoice request choice = Ok rule ->
    rule_ExpiresAt rule = None /\ rule_Decision rule = choice_decision choice /\
    (rule_Environment rule = "*" \/ rule_EnvironmentInstance rule <> "")) as Hlit.
  { intros req r (_ & _ & _ & _ & _ & Hd & [(_ & _ & Hi & ->)|(_ & _ & ->)])%RuleForSavedChoice_ok; split_and!; try done; simpl; [right|by left].
    intros E. by rewrite E in Hi. }
  destruct scoped; [intros (literal & rule' & Hr & -> & _ & _)%RuleForSavedScope_ok; by apply Hlit in Hr|by apply Hlit].
Qed.

(** A saved rule applies to every request it matches, at all times. *)
Lemma saved_rule_applies scoped request choice rule policy now req' :
  saved_rule scoped request choice = Ok rule -> rule ∈ SavedDecisions policy -> ruleMatches rule req' = true -> applicable policy now req' rule.
Proof.
  intros (Hx & _ & Hi)%saved_rule_facts Hin Hm. right. split; [done|]. unfold rule_skipped. rewrite Hm, Hx. simpl.
  destruct Hi as [->|Hi]; [by rewrite bool_decide_eq_true_2|]. apply ruleMatches_spec in Hm as ([?|E] & _); [done|]. rewrite E.
  by rewrite (bool_decide_eq_true_2 (req_EnvironmentInstance req' = _)), andb_false_r.
Qed.

(** What a saved rule makes of the evaluation of the requests it matches. *)
Lemma saved_rule_decides policy now req' rule :
  validatePolicy policy = Ok tt -> applicable policy now req' rule ->
  (rule_Decision rule = PolicyDeny -> ev_Decision (evaluate_policy policy now req') = PolicyDeny) /\
  (rule_Decision rule = PolicyRequireApproval -> ev_Decision (evaluate_policy policy now req') <> PolicyAllow) /\
  (rule_Decision rule = PolicyAllow ->
     (forall other, applicable policy now req' other -> other <> rule -> rule_Decision other = PolicyAllow) ->
     ev_Decision (evaluate_policy policy now req') = PolicyAllow).
Proof.
  intros Hv Happ. destruct (evaluate_cases policy now req' Hv) as [[Hn _]|(r & Hr & Hd & _ & Hmax)]; [by destruct (Hn rule)|].
  specialize (Hmax rule Happ). split_and!; intros E.
  - rewrite E in Hmax. by apply priority_deny.
  - rewrite E in Hmax. by apply priority_approval in Hmax as [->| ->].
  - intros Hall. rewrite Hd. destruct (decide (r = rule)) as [->|Hne]; [done|by apply Hall].
Qed.

(** C23: when [Remember] (or [RememberScope], for a declared scope) succeeds, the
    file it leaves decodes to a valid policy with the administrator's rules,
    default and services untouched and whose saved rules are the new one and
    others that were saved before; a request that the new rule does not match is
    evaluated exactly as before; and from then on, at all times, a request that it
    matches is denied after a deny choice, is never allowed without asking after
    an ask choice, and is allowed after an allow choice unless another applicable
    rule denies or asks. *)
Theorem remember_takes_effect (scoped : bool) encode absolute fails before latest request choice policy after :
  load (Ok before) = Ok policy ->
  (if scoped then RememberScope else Remember) encode absolute fails before latest request choice = (after, Ok tt) ->
  exists rule policy', saved_rule scoped request choice = Ok rule /\ load (Ok after) = Ok policy' /\
    Rules policy' = Rules policy /\ pol_Default policy' = pol_Default policy /\
    NetworkServices policy' = NetworkServices policy /\
    (forall r, r ∈ SavedDecisions policy' -> r = rule \/ r ∈ SavedDecisions policy) /\
    forall now req',
      (ruleMatches rule req' = false -> evaluate_policy policy' now req' = evaluate_policy policy now req') /\
      (ruleMatches rule req' = true -> choice = DenyEnvironment \/ choice = DenyGlobal ->
         ev_Decision (evaluate_policy policy' now req') = PolicyDeny) /\
      (ruleMatches rule req' = true -> choice = AskEnvironment \/ choice = AskGlobal ->
         ev_Decision (evaluate_policy policy' now req') <> PolicyAllow) /\
      (ruleMatches rule req' = true -> choice = AllowEnvironment \/ choice = AllowGlobal ->
         (forall other, applicable policy' now req' other -> other <> rule -> rule_Decision other = PolicyAllow) ->
         ev_Decision (evaluate_policy policy' now req') = PolicyAllow).
Proof.
  intros Hload H.
  assert (exists rule, saved_rule scoped request choice = Ok rule /\ rememberRule encode fails before latest rule = (after, Ok tt))
    as (rule & Hr & Hrem).
  { unfold Remember, RememberScope, saved_rule in *.
    destruct scoped; (destruct (_ request choice) as [rule|]; [|done]); destruct absolute; try done; by exists rule. }
  apply updatePolicy_cases in Hrem as [[_ ?]|(p' & -> & Hch & Hv & _)]; [done|].
  assert (p' = mkPolicy (NetworkServices policy) (replace_rule (SavedDecisions policy) rule)
                 (pol_Default policy) (Rules policy)) as ->.
  { unfold rememberRule_change in Hch. unfold load in Hload.
    destruct before as [b|]; [rewrite Hload in Hch|injection Hload as <-]; by injection Hch as <-. }
  exists rule. eexists. split; [done|]. split; [simpl; by rewrite Hv|]. simpl. split_and!; [done..|by intros r ?%elem_of_replace_rule|].
  intros now req'. split.
  - intros Hm. rewrite !evaluate_policy_selection. unfold selection. simpl. by rewrite replace_rule_frame.
  - destruct (saved_rule_facts _ _ _ _ Hr) as (_ & Hd & _).
    split_and!; intros Hm Hc; eapply saved_rule_decides; try done; try (eapply saved_rule_applies; [done|apply replace_rule_has|done]);
      rewrite Hd; by destruct Hc as [-> | ->].
Qed.

(** A deny choice on the demo request. *)
Lemma remember_takes_effect_witness :
  exists after policy', Remember (fun _ => "policy") true (fun _ => None) (demo_bytes demo_policy) (demo_bytes demo_policy)
     demo_request DenyEnvironment = (after, Ok tt) /\ load (Ok after) = Ok policy' /\
     forall now, ev_Decision (evaluate_policy policy' now demo_request) = PolicyDeny.
Proof.
  destruct (remember_takes_effect false (fun _ => "policy") true (fun _ => None) (demo_bytes demo_policy)
    (demo_bytes demo_policy) demo_request DenyEnvironment demo_policy
    (Remember (fun _ => "policy") true (fun _ => None) (demo_bytes demo_policy) (demo_bytes demo_policy)
       demo_request DenyEnvironment).1) as (rule & policy' & Hr & Hl & _ & _ & _ & _ & H); [vm_compute; reflexivity..|].
  eexists _, policy'. split; [vm_compute; reflexivity|]. split; [exact Hl|]. intros now.
  apply (proj1 (proj2 (H now demo_request))); [|by left]. clear H Hl.
  vm_compute in Hr. injection Hr as <-. vm_compute. reflexivity.
Defined.
