(* ===== verification/CapabilityService.v ===== *)
(** * Capability service

    [src/internal/policy/service.go] and [saved_scope.go]: the boundary that
    turns a request into a policy decision, an approval, a saved choice and a
    provider execution, with an audit record for each.  The collaborators of
    the Go interfaces (policy evaluator, approval provider, audit sink,
    providers, identity resolver) are functions on an arbitrary world [W], so
    everything they can change between two calls is covered: policy edited
    while an approval is pending, an Environment replaced, a disk that fills
    up.  The service itself only sees their answers, and the trace records
    every call it makes. *)

From S2P Require Import Prelude GoText Core CoreChecks Policy.
From Stdlib Require Import Ascii String.
Open Scope string_scope.

(** ** Types *)

Definition CapabilityNotExecuted := "not-executed".
Definition CapabilitySucceeded := "succeeded".
Definition CapabilityFailed := "failed".

Record CapabilityResult := mkResult {
  cr_SavedChoice : string;
  cr_Provider : string;
  cr_Output : string;
  cr_RequestID : string;
  cr_ExecutionState : string;
  cr_AuditComplete : bool }.

Definition zeroResult := mkResult "" "" "" "" "" false.

Record CapabilityAuditEvent := mkEvent {
  ev_SavedScope : option CapabilityRequest;
  ev_EnvironmentInstance : string;
  ev_SavedChoice : string;
  ev_Time : Z;
  ev_RequestID : string;
  ev_Type : string;
  ev_Capability : string;
  ev_Action : string;
  ev_Resource : string;
  ev_Environment : string;
  ev_Attributes : strings_map;
  ev_PolicyDecision : string;
  ev_Approved : option bool;
  ev_Success : option bool;
  ev_AuditReason : string }.

(** The fields a call of [record] sets itself. *)
Definition event (type decision reason : string) (approved success : option bool)
    (saved : string) (scope : option CapabilityRequest) : CapabilityAuditEvent :=
  mkEvent scope "" saved 0 "" type "" "" "" "" ∅ decision approved success reason.

(** ** Collaborators *)

Section Interfaces.
Context (W : Type).

Record PolicyEvaluator := mkEvaluator {
  pe_Evaluate : CapabilityRequest -> W -> W * answer PolicyEvaluation;
  pe_Remember : option (CapabilityRequest -> string -> W -> W * option goerror);
  pe_RememberScope : option (CapabilityRequest -> string -> W -> W * option goerror) }.

Record ApprovalSession := mkSession {
  as_Decide : W -> W * answer ApprovalDecision;
  as_Complete : CapabilityResult -> option goerror -> W -> W }.

(** The interface that the type switch of [request] selects. *)
Inductive ApprovalProvider :=
| SessionApproval (BeginApproval : ApprovalRequest -> W -> W * answer (option ApprovalSession))
| DecisionApproval (Decide : ApprovalRequest -> W -> W * answer ApprovalDecision)
| BooleanApproval (Approve : ApprovalRequest -> W -> W * answer bool).

Record Provider := mkProvider {
  pr_Capability : string;
  pr_NonAuthorityParameters : option (list string);
  pr_SavedApprovalScope : option (CapabilityRequest -> W -> W * answer CapabilityRequest);
  pr_Execute : string -> CapabilityRequest -> W -> W * (CapabilityResult * option goerror) }.

Record EnvironmentIdentityResolver := mkResolver {
  ir_GetEnvironment : string -> W -> W * answer Environment;
  ir_EnvironmentInstance : Environment -> W -> W * answer string }.

Record Service := mkCapabilityService {
  identities : option EnvironmentIdentityResolver;
  policy : option PolicyEvaluator;
  approval : option ApprovalProvider;
  audit : option (CapabilityAuditEvent -> W -> W * option goerror);
  providers : gmap string Provider;
  now : W -> Z }.

(** [New]: a provider is registered under its own name, once. *)
Definition register_body (provider : option Provider) (registered : gmap string Provider)
  : result (gmap string Provider) :=
  match provider with
  | None => Ok registered
  | Some provider =>
    let name := pr_Capability provider in
    reject (TrimSpace name == "") || (TrimSpace name != name) || ContainsLineOrNUL name with ErrInvalidArgument ;;
    reject has_key registered name with ErrAlreadyExists ;;
    Ok (<[name := provider]> registered)
  end.

Definition New_service policy approval audit (list_ : list (option Provider)) (clock : W -> Z) : result Service :=
  registered ← range_loop register_body list_ ∅;
  Ok (mkCapabilityService None policy approval audit registered clock).

End Interfaces.

Arguments mkEvaluator {W}. Arguments pe_Evaluate {W}. Arguments pe_Remember {W}. Arguments pe_RememberScope {W}.
Arguments mkSession {W}. Arguments as_Decide {W}. Arguments as_Complete {W}.
Arguments SessionApproval {W}. Arguments DecisionApproval {W}. Arguments BooleanApproval {W}.
Arguments mkProvider {W}. Arguments pr_Capability {W}. Arguments pr_NonAuthorityParameters {W}.
Arguments pr_SavedApprovalScope {W}. Arguments pr_Execute {W}.
Arguments mkResolver {W}. Arguments ir_GetEnvironment {W}. Arguments ir_EnvironmentInstance {W}.
Arguments mkCapabilityService {W}. Arguments identities {W}. Arguments policy {W}. Arguments approval {W}.
Arguments audit {W}. Arguments providers {W}. Arguments now {W}.

(** ** Calls and the request monad *)

(** The calls of one request, with their answers. *)
Inductive call :=
| CallEvaluate (req : CapabilityRequest) (a : answer PolicyEvaluation)
| CallRecord (e : CapabilityAuditEvent) (err : option goerror)
| CallScope (req : CapabilityRequest) (a : answer CapabilityRequest)
| CallBegin (prompt : ApprovalRequest) (opened : bool)
| CallDecide (prompt : ApprovalRequest) (a : answer ApprovalDecision)
| CallRemember (scoped : bool) (scope : CapabilityRequest) (choice : string) (err : option goerror)
| CallEnvironment (name : string) (a : answer Environment)
| CallInstance (e : Environment) (a : answer string)
| CallExecute (req : CapabilityRequest) (a : CapabilityResult * option goerror).

Notation finished := (CapabilityResult * option goerror)%type.

Section Request.
Context {W : Type}.

Record state := mkState {
  world : W;
  trace : list call;
  session : option (ApprovalSession W) }.

(** A computation continues with a value or returns from [request]. *)
Definition M (A : Type) := state -> state * (A + finished).

#[global] Instance M_ret : MRet M := fun A a st => (st, inl a).
#[global] Instance M_bind : MBind M := fun A B f m st =>
  match m st with
  | (st', inl a) => f a st'
  | (st', inr out) => (st', inr out)
  end.

(** [return res, err]. *)
Definition stop {A} (res : CapabilityResult) (err : goerror) : M A := fun st => (st, inr (res, Some err)).

(** A call to a collaborator. *)
Definition perform {A} (f : W -> W * A) (log : A -> call) : M A := fun st =>
  let '(w, a) := f (world st) in (mkState w (trace st ++ [log a])%list (session st), inl a).

(** [if err != nil { return res, wrap(err) }]. *)
Definition or_stop {A} (res : CapabilityResult) (wrap : goerror -> goerror) (a : answer A) : M A :=
  match a with inl a => mret a | inr err => stop res (wrap err) end.
Definition or_stop_result {A} (res : CapabilityResult) (wrap : goerror -> goerror) (a : result A) : M A :=
  match a with Ok a => mret a | Err e => stop res (wrap (Plain e)) end.

Context (s : Service W).

(** [record] stamps the event with the request before it reaches the sink. *)
Definition stamp (clock : Z) (requestID : string) (req : CapabilityRequest) (e : CapabilityAuditEvent)
  : CapabilityAuditEvent :=
  mkEvent (ev_SavedScope e) (req_EnvironmentInstance req) (ev_SavedChoice e) clock requestID (ev_Type e)
    (req_Capability req) (req_Action req) (req_Resource req) (req_Environment req) (req_Attributes req)
    (ev_PolicyDecision e) (ev_Approved e) (ev_Success e) (ev_AuditReason e).

Definition record (sink : CapabilityAuditEvent -> W -> W * option goerror) (requestID : string)
    (req : CapabilityRequest) (e : CapabilityAuditEvent) : M (option goerror) := fun st =>
  let e := stamp (now s (world st)) requestID req e in
  perform (sink e) (CallRecord e) st.

(** ** Checks on parameters and errors *)

Definition validateNonAuthorityParameters (provider : Provider W) (parameters : strings_map) : result unit :=
  if size parameters == 0 then Ok tt else
  match pr_NonAuthorityParameters provider with
  | None => Err ErrPolicyDenied
  | Some declared =>
    let allowed := filter (fun key => key <> "") (TrimSpace <$> declared) in
    reject map_any (fun key _ => bool_decide (key ∉ allowed)) parameters with ErrPolicyDenied ;;
    Ok tt
  end.

(** The order of the candidates is that of the source. *)
Definition audit_reasons : list (error * string) :=
  [(ErrContext, "context-canceled"); (ErrDeadlineExceeded, "context-deadline-exceeded");
   (ErrCapabilityStale, "capability-stale"); (ErrInvalidArgument, "invalid-argument");
   (ErrNotFound, "not-found"); (ErrAlreadyExists, "already-exists"); (ErrUnsupported, "unsupported");
   (ErrUnsafeShrink, "unsafe-shrink"); (ErrRuntimeUnavailable, "runtime-unavailable");
   (ErrStorageUnavailable, "storage-unavailable"); (ErrStorageBusy, "storage-busy");
   (ErrWorkspaceBusy, "workspace-busy"); (ErrPolicyDenied, "policy-denied");
   (ErrApprovalDenied, "approval-denied"); (ErrAuditIncomplete, "audit-incomplete");
   (ErrIncompatibleState, "incompatible-state"); (ErrRecoveryRequired, "recovery-required")].

Definition auditErrorReason (err : option goerror) : string :=
  match err with
  | None => ""
  | Some err =>
    match List.find (fun c => errors_Is err c.1) audit_reasons with
    | Some c => c.2
    | None => "provider-execution-failed"
    end
  end.

(** ** The phases of a request *)

Definition with_resolver (req : CapabilityRequest) : option (EnvironmentIdentityResolver W) :=
  if req_Environment req != "" then identities s else None.

(** Bind the request to the current instance of its Environment. *)
Definition identify (req : CapabilityRequest) : M (CapabilityRequest * Environment) :=
  match with_resolver req with
  | None => mret (req, zeroEnvironment)
  | Some resolver =>
    a ← perform (ir_GetEnvironment resolver (req_Environment req)) (CallEnvironment (req_Environment req));
    snapshot ← or_stop zeroResult id a;
    a ← perform (ir_EnvironmentInstance resolver snapshot) (CallInstance snapshot);
    instance ← or_stop zeroResult id a;
    if negb (ValidEnvironmentInstanceID instance) then stop zeroResult (Plain ErrIncompatibleState) else
    if (req_EnvironmentInstance req != "") && (req_EnvironmentInstance req != instance)
    then stop zeroResult (Plain ErrCapabilityStale) else
    mret (req_with_Instance instance req, snapshot)
  end.

Definition savedApprovalScope (base : CapabilityResult) (provider : Provider W) (request : CapabilityRequest)
  : M CapabilityRequest :=
  let scope := req_with_Parameters ∅ request in
  scope ← (match pr_SavedApprovalScope provider with
           | None => mret scope
           | Some declare => a ← perform (declare scope) (CallScope scope); or_stop base id a
           end);
  or_stop_result base id (checkApprovalScope request scope).

(** Ask through the session, the decision or the boolean interface. *)
Definition ask (provider : ApprovalProvider W) (prompt : ApprovalRequest) : M (answer ApprovalDecision) :=
  match provider with
  | SessionApproval begin => fun st =>
    match begin prompt (world st) with
    | (w, inr err) => (mkState w (trace st ++ [CallBegin prompt false])%list (session st), inl (inr err))
    | (w, inl None) => (mkState w (trace st ++ [CallBegin prompt false])%list (session st),
                        inl (inr (Plain ErrIncompatibleState)))
    | (w, inl (Some opened)) =>
      perform (as_Decide opened) (CallDecide prompt)
        (mkState w (trace st ++ [CallBegin prompt true])%list (Some opened))
    end
  | DecisionApproval decide => perform (decide prompt) (CallDecide prompt)
  | BooleanApproval approve =>
    perform (fun w => let '(w, a) := approve prompt w in
                      (w, match a with inl approved => inl (mkDecision approved "") | inr err => inr err end))
      (CallDecide prompt)
  end.

(** Save the choice beside the decision, and stop if it makes the policy deny. *)
Definition saveChoice (evaluator : PolicyEvaluator W) sink (requestID : string) (base : CapabilityResult)
    (req savedRequest : CapabilityRequest) (decision : ApprovalDecision) : M CapabilityResult :=
  if dec_Save decision == "" then mret base else
  match pe_Remember evaluator with
  | None => stop base (Plain ErrUnsupported)
  | Some remember =>
    let scoped := req_Attributes savedRequest != req_Attributes req in
    match (if scoped then pe_RememberScope evaluator else Some remember) with
    | None => stop base (Plain ErrUnsupported)
    | Some remember =>
      err ← perform (remember savedRequest (dec_Save decision)) (CallRemember scoped savedRequest (dec_Save decision));
      match err with
      | Some err =>
        _ ← record sink requestID req (event "policy-save-failed" "" "policy-save-failed" None None (dec_Save decision) None);
        stop base (Wrapped err)
      | None =>
        let auditScope := if global_choice (dec_Save decision)
          then req_with_Instance "" (req_with_Environment "*" savedRequest) else savedRequest in
        err ← record sink requestID req (event "policy-saved" "" "" None None (dec_Save decision) (Some auditScope));
        match err with
        | Some err => stop base (Join [Some (Plain ErrAuditIncomplete); Some err])
        | None =>
          let base := mkResult (dec_Save decision) (cr_Provider base) (cr_Output base) (cr_RequestID base)
                        (cr_ExecutionState base) (cr_AuditComplete base) in
          a ← perform (pe_Evaluate evaluator req) (CallEvaluate req);
          current ← or_stop base id a;
          if negb (validDecision (ev_Decision current)) || (ev_Decision current == PolicyDeny)
          then stop base (Plain ErrPolicyDenied) else mret base
        end
      end
    end
  end.

(** The [PolicyRequireApproval] branch: the result carries the saved choice. *)
Definition obtainApproval (evaluator : PolicyEvaluator W) sink (provider : Provider W)
    (approver : option (ApprovalProvider W)) (requestID : string) (base : CapabilityResult)
    (req : CapabilityRequest) (evaluation : PolicyEvaluation) : M CapabilityResult :=
  match approver with
  | None => stop base (Wrapped (Plain ErrApprovalDenied))
  | Some approver =>
    savedRequest ← savedApprovalScope base provider req;
    let prompt := mkApproval requestID (Some savedRequest) (req_with_Parameters ∅ req) (ev_Reason evaluation) in
    a ← ask approver prompt;
    let checked := match a with
      | inr err => inr err
      | inl decision =>
        match ValidateApprovalDecision (mkApproval "" (Some savedRequest) req "") decision with
        | Ok _ => inl decision
        | Err e => inr (Plain e)
        end
      end in
    match checked with
    | inr err =>
      _ ← record sink requestID req (event "approval-decision" "" "approval-provider-failed" (Some false) None "" None);
      stop base (Wrapped err)
    | inl decision =>
      err ← record sink requestID req (event "approval-decision" "" (ev_Reason evaluation)
                                         (Some (dec_Approved decision)) None (dec_Save decision) None);
      match err with
      | Some err => stop base (Wrapped err)
      | None =>
        base ← saveChoice evaluator sink requestID base req savedRequest decision;
        if dec_Approved decision then mret base else stop base (Plain ErrApprovalDenied)
      end
    end
  end.

Definition recheck_error (first current : string) : option error :=
  if current == PolicyAllow then None
  else if current == PolicyRequireApproval then
    if first != PolicyRequireApproval then Some ErrApprovalDenied else None
  else Some ErrPolicyDenied.

(** Policy is evaluated again at the execution boundary. *)
Definition recheck (evaluator : PolicyEvaluator W) sink (requestID : string) (base : CapabilityResult)
    (req : CapabilityRequest) (evaluation : PolicyEvaluation) : M unit :=
  a ← perform (pe_Evaluate evaluator req) (CallEvaluate req);
  current ← or_stop base Wrapped a;
  match recheck_error (ev_Decision evaluation) (ev_Decision current) with
  | None => mret tt
  | Some e =>
    auditErr ← record sink requestID req (event "policy-recheck-denied" "" "policy-changed-before-execution" None None "" None);
    stop base (Join [Some (Plain e); auditErr])
  end.

(** So is the identity of the Environment. *)
Definition reidentify (base : CapabilityResult) (req : CapabilityRequest) (snapshot : Environment) : M unit :=
  match with_resolver req with
  | None => mret tt
  | Some resolver =>
    a ← perform (ir_EnvironmentInstance resolver snapshot) (CallInstance snapshot);
    current ← or_stop base id a;
    if current != req_EnvironmentInstance req then stop base (Plain ErrCapabilityStale) else mret tt
  end.

Definition execute sink (provider : Provider W) (requestID : string) (base : CapabilityResult)
    (req : CapabilityRequest) : M finished :=
  out ← perform (pr_Execute provider requestID req) (CallExecute req);
  let '(result, execErr) := out in
  let success := match execErr with None => true | Some _ => false end in
  completionErr ← record sink requestID req
    (event "completed" "" (auditErrorReason execErr) None (Some success) "" None);
  let complete := match completionErr with None => true | Some _ => false end in
  let result := mkResult (cr_SavedChoice base) (cr_Provider result) (cr_Output result) requestID
                  (if success then CapabilitySucceeded else CapabilityFailed) complete in
  mret (result,
    match execErr, completionErr with
    | Some err, Some completion => Some (Join [Some err; Some (Plain ErrAuditIncomplete); Some (Wrapped completion)])
    | Some err, None => Some err
    | None, Some completion => Some (Join [Some (Plain ErrAuditIncomplete); Some (Wrapped completion)])
    | None, None => None
    end).

(** [nonce] is the sixteen bytes of [randomRequestID]. *)
Definition request_body (req : CapabilityRequest) (approver : option (ApprovalProvider W)) (nonce : list ascii)
  : M finished :=
  let req := normalizeRequest req in
  _ ← or_stop_result zeroResult id (validateRequest req);
  match policy s, audit s with
  | Some evaluator, Some sink =>
    match providers s !! req_Capability req with
    | None => stop zeroResult (Wrapped (Plain ErrUnsupported))
    | Some provider =>
      _ ← or_stop_result zeroResult Wrapped (validateNonAuthorityParameters provider (req_Parameters req));
      bound ← identify req;
      let '(req, snapshot) := bound in
      let requestID := EncodeToString nonce in
      let base := mkResult "" "" "" requestID CapabilityNotExecuted false in
      err ← record sink requestID req (event "requested" "" "" None None "" None);
      match err with
      | Some err => stop base (Wrapped err)
      | None =>
        a ← perform (pe_Evaluate evaluator req) (CallEvaluate req);
        match a with
        | inr err =>
          _ ← record sink requestID req (event "policy-error" PolicyDeny "policy-evaluation-failed" None None "" None);
          stop base (Wrapped err)
        | inl evaluation =>
          if negb (validDecision (ev_Decision evaluation)) then
            _ ← record sink requestID req (event "policy-error" PolicyDeny "invalid-policy-decision" None None "" None);
            stop base (Wrapped (Plain ErrPolicyDenied))
          else
            err ← record sink requestID req
                    (event "policy-decision" (ev_Decision evaluation) (ev_Reason evaluation) None None "" None);
            match err with
            | Some err => stop base (Wrapped err)
            | None =>
              base ← (if ev_Decision evaluation == PolicyDeny then stop base (Wrapped (Plain ErrPolicyDenied))
                      else if ev_Decision evaluation == PolicyRequireApproval
                      then obtainApproval evaluator sink provider approver requestID base req evaluation
                      else mret base);
              _ ← recheck evaluator sink requestID base req evaluation;
              _ ← reidentify base req snapshot;
              execute sink provider requestID base req
            end
        end
      end
    end
  | _, _ => stop zeroResult (Wrapped (Plain ErrPolicyDenied))
  end.

(** [request]: the world afterwards, the calls in order and what it returned.
    A session that was opened is completed with the outcome. *)
Definition request (req : CapabilityRequest) (approver : option (ApprovalProvider W)) (nonce : list ascii) (w : W)
  : W * list call * finished :=
  let '(st, out) := request_body req approver nonce (mkState w [] None) in
  let outcome := match out with inl done | inr done => done end in
  let w := match session st with
           | Some opened => as_Complete opened outcome.1 outcome.2 (world st)
           | None => world st
           end in
  (w, trace st, outcome).

(** The three entry points. *)
Definition Request (req : CapabilityRequest) := request req (approval s).
Definition RequestWithApproval (req : CapabilityRequest)
    (approve : option (ApprovalRequest -> W -> W * answer bool)) :=
  request req (BooleanApproval <$> approve).
Definition RequestWithDecision (req : CapabilityRequest)
    (decide : option (ApprovalRequest -> W -> W * answer ApprovalDecision)) :=
  request req (DecisionApproval <$> decide).

End Request.

Arguments state : clear implicits.
Arguments M : clear implicits.

(** ** Concrete collaborators *)

(** [FilePolicyEvaluator] as an evaluator: the file and the clock are read from
    the world at every call. *)
Definition file_evaluator {W} (content : W -> result (option policy_bytes)) (clock : W -> Z) : PolicyEvaluator W :=
  mkEvaluator (fun req w => (w, match Evaluate (content w) (clock w) req with
                                | Ok e => inl e
                                | Err e => inr (Plain e)
                                end)) None None.

(** [local.go] *)
Definition LocalEcho {W} : Provider W :=
  mkProvider "local.echo" (Some ["message"]) None (fun _ req w =>
    (w, if req_Action req != "echo" then (zeroResult, Some (Wrapped (Plain ErrUnsupported)))
        else (mkResult "" "local.echo" (read_or "" (req_Parameters req) "message") "" "" false, None))).
