(* ===== verification/ServiceProofs.v ===== *)
(** * Capability service: lemmas

    What each phase of a request adds to the trace.  [Emits m P] says that
    running [m] extends the trace by calls that, together with the way [m]
    ends, satisfy [P]; its rules follow the structure of the monad. *)

From S2P Require Import Prelude GoText Core CoreChecks Policy CapabilityService.
From Stdlib Require Import Ascii String.
Open Scope string_scope.

Section Emits.
Context {W : Type}.

Definition Emits {A} (m : M W A) (P : list call -> A + finished -> Prop) : Prop :=
  forall st, exists tr, trace (m st).1 = (trace st ++ tr)%list /\ P tr (m st).2.

Lemma emits_ret {A} (a : A) (P : list call -> A + finished -> Prop) :
  P [] (inl a) -> Emits (mret a : M W A) P.
Proof. intros HP st. exists []. by rewrite app_nil_r. Qed.

Lemma emits_stop {A} res err (P : list call -> A + finished -> Prop) :
  P [] (inr (res, Some err)) -> Emits (stop res err : M W A) P.
Proof. intros HP st. exists []. by rewrite app_nil_r. Qed.

Lemma emits_perform {A} (f : W -> W * A) log (P : list call -> A + finished -> Prop) :
  (forall a, P [log a] (inl a)) -> Emits (perform f log) P.
Proof. intros HP st. unfold perform. destruct (f (world st)) as [w a]. by exists [log a]. Qed.

Lemma emits_record (s : Service W) sink requestID req e (P : list call -> option goerror + finished -> Prop) :
  (forall clock err, P [CallRecord (stamp clock requestID req e) err] (inl err)) ->
  Emits (record s sink requestID req e) P.
Proof.
  intros HP st. unfold record, perform. destruct (sink _ (world st)) as [w err].
  eexists. split; [reflexivity|apply HP].
Qed.

Lemma emits_bind {A B} (m : M W A) (k : A -> M W B) (P : list call -> A + finished -> Prop)
    (Q : list call -> B + finished -> Prop) :
  Emits m P ->
  (forall tr out, P tr (inr out) -> Q tr (inr out)) ->
  (forall tr a, P tr (inl a) -> Emits (k a) (fun tr' r => Q (tr ++ tr')%list r)) ->
  Emits (m ≫= k) Q.
Proof.
  intros Hm Hstop Hk st. unfold mbind, M_bind. destruct (Hm st) as (tr & Ht & HP).
  destruct (m st) as [st' [a|out]]; simpl in *.
  - destruct (Hk tr a HP st') as (tr' & Ht' & HQ). exists (tr ++ tr')%list. by rewrite Ht', Ht, app_assoc.
  - exists tr. auto.
Qed.

Lemma emits_weaken {A} (m : M W A) (P Q : list call -> A + finished -> Prop) :
  Emits m P -> (forall tr r, P tr r -> Q tr r) -> Emits m Q.
Proof. intros Hm HPQ st. destruct (Hm st) as (tr & ? & ?). eauto. Qed.

Lemma emits_or_stop {A} res wrap (a : answer A) (P : list call -> A + finished -> Prop) :
  (forall x, a = inl x -> P [] (inl x)) -> (forall err, P [] (inr (res, Some err))) ->
  Emits (or_stop res wrap a : M W A) P.
Proof. intros H1 H2. destruct a; [by apply emits_ret, H1|by apply emits_stop, H2]. Qed.

Lemma emits_or_stop_result {A} res wrap (a : result A) (P : list call -> A + finished -> Prop) :
  (forall x, a = Ok x -> P [] (inl x)) -> (forall err, P [] (inr (res, Some err))) ->
  Emits (or_stop_result res wrap a : M W A) P.
Proof. intros H1 H2. destruct a; [by apply emits_ret, H1|by apply emits_stop, H2]. Qed.

(** ** What a phase shows *)

(** No provider runs. *)
Definition quiet (tr : list call) : Prop := forall req a, CallExecute req a ∉ tr.

Lemma quiet_nil : quiet [].
Proof. intros req a H. by apply not_elem_of_nil in H. Qed.
Lemma quiet_cons c tr : quiet (c :: tr) <-> (forall req a, c <> CallExecute req a) /\ quiet tr.
Proof.
  unfold quiet. setoid_rewrite not_elem_of_cons. split; [intros H; split; intros req a|intros [H1 H2] req a].
  - intros E. destruct (H req a). congruence.
  - by destruct (H req a).
  - split; [intros E; by apply (H1 req a)|done].
Qed.
Lemma quiet_app tr tr' : quiet (tr ++ tr')%list <-> quiet tr /\ quiet tr'.
Proof.
  unfold quiet. setoid_rewrite not_elem_of_app. split; [|intros [H1 H2]; auto].
  intros H. split; intros req a; apply (H req a).
Qed.

(** Nor is a completion recorded. *)
Definition open_call (c : call) : Prop :=
  match c with
  | CallExecute _ _ => False
  | CallRecord e _ => ev_Type e <> "completed"
  | _ => True
  end.
Definition unfinished (tr : list call) : Prop := Forall open_call tr.

Lemma unfinished_quiet tr : unfinished tr -> quiet tr.
Proof. intros H req a Hin. exact (proj1 (List.Forall_forall _ _) H _ (proj1 (list_elem_of_In _ _) Hin)). Qed.
Lemma unfinished_record tr e err : unfinished tr -> CallRecord e err ∈ tr -> ev_Type e <> "completed".
Proof. intros H Hin. exact (proj1 (List.Forall_forall _ _) H _ (proj1 (list_elem_of_In _ _) Hin)). Qed.

(** A request that stops early returns an error and says that nothing ran and
    that no completion is in the log. *)
Definition unexecuted (res : CapabilityResult) : Prop :=
  cr_ExecutionState res = "" \/ cr_ExecutionState res = CapabilityNotExecuted.
Definition fresh (res : CapabilityResult) : Prop := unexecuted res /\ cr_AuditComplete res = false.
Definition halted (out : finished) : Prop := fresh out.1 /\ out.2 <> None.

Lemma fresh_zero : fresh zeroResult.
Proof. by split; [left|]. Qed.

(** The condition under which a phase may stop; [Q] is what it shows when it
    goes on. *)
Definition phase {A} (Q : list call -> A -> Prop) (tr : list call) (r : A + finished) : Prop :=
  unfinished tr /\ match r with inl a => Q tr a | inr out => halted out end.

Lemma phase_stop {A} (Q : list call -> A -> Prop) tr res err :
  unfinished tr -> fresh res -> phase Q tr (inr (res, Some err)).
Proof. intros Hq Hu. by split. Qed.

Lemma phase_ok {A} (Q : list call -> A -> Prop) tr a : unfinished tr -> Q tr a -> phase Q tr (inl a).
Proof. intros Hq HQ. by split. Qed.

Lemma phase_halted {A} (Q : list call -> A -> Prop) tr out : unfinished tr -> halted out -> phase Q tr (inr out).
Proof. intros Hq Hh. by split. Qed.

End Emits.

Ltac quiet :=
  unfold unfinished in *; repeat first [rewrite Forall_app | rewrite Forall_cons]; split_and?;
  repeat match goal with |- Forall _ [] => constructor end; cbn; try done.

Section Phases.
Context {W : Type} (s : Service W).
Context (evaluator : PolicyEvaluator W) (sink : CapabilityAuditEvent -> W -> W * option goerror).

(** A call whose answer may stop the request. *)
Lemma emits_call {A B} (f : W -> W * answer A) log res wrap (k : A -> M W B) (Q : list call -> B + finished -> Prop) :
  (forall a err, Q [log a] (inr (res, Some err))) ->
  (forall x, Emits (k x) (fun tr r => Q (log (inl x) :: tr) r)) ->
  Emits (a ← perform f log; x ← or_stop res wrap a; k x) Q.
Proof.
  intros Hs Hk. apply emits_bind with (P := fun tr r => exists a, tr = [log a] /\ r = inl a).
  - apply emits_perform. eauto.
  - intros tr out (a & _ & [=]).
  - intros tr a' (a & -> & [= ->]).
    apply emits_bind with (P := fun tr r => tr = [] /\ match r with inl x => a = inl x | inr (res', e) => res' = res /\ e <> None end).
    + apply emits_or_stop; [by intros x ->|done].
    + intros tr [res' [err|]] [-> [-> ?]]; [by apply Hs|done].
    + intros tr x [-> ->]. apply Hk.
Qed.

(** A record whose failure stops the request. *)
Lemma emits_recorded {B} requestID req e res (k : M W B) wrap (Q : list call -> B + finished -> Prop) :
  (forall clock err err', Q [CallRecord (stamp clock requestID req e) err] (inr (res, Some err'))) ->
  (forall clock, Emits k (fun tr r => Q (CallRecord (stamp clock requestID req e) None :: tr) r)) ->
  Emits (err ← record s sink requestID req e;
         match err with Some err => stop res (wrap err) | None => k end) Q.
Proof.
  intros Hs Hk. apply emits_bind with
    (P := fun tr r => exists clock err, tr = [CallRecord (stamp clock requestID req e) err] /\ r = inl err).
  - apply emits_record. eauto.
  - intros tr out (clock & err & _ & [=]).
  - intros tr err' (clock & err & -> & [= ->]). destruct err as [err|]; [apply emits_stop; simpl; eauto|apply Hk].
Qed.

(** A record before the request stops anyway. *)
Lemma emits_record_stop {B} requestID req e res err (Q : list call -> B -> Prop) :
  fresh res -> ev_Type e <> "completed" ->
  Emits (_ ← record s sink requestID req e; stop res err : M W B) (phase Q).
Proof.
  intros Hu He. apply emits_bind with
    (P := fun tr r => exists clock err, tr = [CallRecord (stamp clock requestID req e) err] /\ r = inl err).
  - apply emits_record. eauto.
  - intros tr out (clock & e' & _ & [=]).
  - intros tr err' (clock & e' & -> & [= ->]). apply emits_stop. apply phase_stop; [quiet|done].
Qed.

Lemma identify_emits req :
  Emits (identify s req) (phase (fun tr bound =>
    match with_resolver s req with
    | None => bound.1 = req
    | Some _ => exists instance, bound.1 = req_with_Instance instance req /\
        ValidEnvironmentInstanceID instance = true /\ CallInstance bound.2 (inl instance) ∈ tr
    end)).
Proof.
  unfold identify. destruct (with_resolver s req) as [resolver|]; [|apply emits_ret; by split; [quiet|]].
  apply emits_call; [intros; apply phase_stop; [quiet|apply fresh_zero]|]. intros snapshot.
  apply emits_call; [intros; apply phase_stop; [quiet|apply fresh_zero]|]. intros instance.
  destruct (ValidEnvironmentInstanceID instance) eqn:Hv; simpl; [|apply emits_stop, phase_stop; [quiet|apply fresh_zero]].
  destruct (_ && _); [apply emits_stop, phase_stop; [quiet|apply fresh_zero]|].
  apply emits_ret. split; [quiet|]. exists instance. split_and!; [done|done|].
  simpl. apply elem_of_cons; right. by apply elem_of_cons; left.
Qed.

Lemma savedApprovalScope_emits base (provider : Provider W) req :
  fresh base ->
  Emits (savedApprovalScope base provider req) (phase (fun _ scope => True)).
Proof.
  intros Hu. unfold savedApprovalScope.
  apply emits_bind with (P := phase (fun _ _ => True)).
  - destruct (pr_SavedApprovalScope provider) as [declare|]; [|apply emits_ret; by split; [quiet|]].
    apply emits_bind with (P := phase (fun _ _ => True)).
    + apply emits_perform. intros a. by split; [quiet|].
    + intros tr out [? ?]. by split.
    + intros tr a [Hq _]. apply emits_or_stop; [intros; split; [quiet|done]|intros; apply phase_stop; [quiet|done]].
  - intros tr out [? ?]. by split.
  - intros tr a [Hq _]. apply emits_or_stop_result; [intros; split; [quiet|done]|intros; apply phase_stop; [quiet|done]].
Qed.

Lemma ask_emits provider prompt :
  Emits (ask provider prompt : M W _) (phase (fun tr a =>
    match a with inl d => CallDecide prompt (inl d) ∈ tr | inr _ => True end)).
Proof.
  destruct provider as [begin|decide|approve]; simpl.
  - intros st. destruct (begin prompt (world st)) as [w [[opened|]|err]]; simpl.
    + unfold perform. simpl. destruct (as_Decide opened w) as [w' a]. simpl.
      eexists [CallBegin prompt true; CallDecide prompt a]. split; [by rewrite <- app_assoc|]. split; [quiet|].
      destruct a; [|done]. apply elem_of_cons; right. by apply elem_of_cons; left.
    + eexists. split; [reflexivity|]. split; [quiet|done].
    + eexists. split; [reflexivity|]. split; [quiet|done].
  - apply emits_perform. intros a. split; [quiet|]. destruct a; [|done]. by apply elem_of_cons; left.
  - apply emits_perform. intros a. split; [quiet|]. destruct a; [|done]. by apply elem_of_cons; left.
Qed.

Lemma saveChoice_emits requestID base req saved decision :
  fresh base ->
  Emits (saveChoice s evaluator sink requestID base req saved decision)
    (phase (fun _ base' => fresh base')).
Proof.
  intros Hu. unfold saveChoice. destruct (dec_Save decision == ""); [apply emits_ret; by split; [quiet|]|].
  destruct (pe_Remember evaluator) as [remember|]; [|by apply emits_stop, phase_stop; [quiet|]].
  destruct (if _ : bool then _ else _) as [remember'|]; [|by apply emits_stop, phase_stop; [quiet|]].
  apply emits_bind with (P := phase (fun _ _ => True)).
  - apply emits_perform. intros err. by split; [quiet|].
  - intros tr out [? ?]. by split.
  - intros tr [err|] [Hq _].
    + eapply emits_weaken; [by apply emits_record_stop with (Q := fun _ _ => False)|].
      intros tr' [a|out] [? ?]; [done|]. by split; [quiet|].
    + apply emits_recorded; [intros; apply phase_stop; [quiet|done]|]. intros clock.
      apply emits_call; [intros; apply phase_stop; [quiet|done]|]. intros current.
      destruct (_ || _); [by apply emits_stop, phase_stop; [quiet|]|]. apply emits_ret. by split; [quiet|].
Qed.

(** ** Evidence for an execution *)

(** An audit event of the given type for this request, in the sink. *)
Definition audited (type : string) (req : CapabilityRequest) (tr : list call) (P : CapabilityAuditEvent -> Prop) : Prop :=
  exists clock id e, CallRecord (stamp clock id req e) None ∈ tr /\ ev_Type e = type /\ P e.

(** A human said yes to this request, without its opaque parameters, and the
    answer is in the audit log. *)
Definition approved (req : CapabilityRequest) (tr : list call) : Prop :=
  exists prompt decision, CallDecide prompt (inl decision) ∈ tr /\ dec_Approved decision = true /\
    apr_CapabilityRequest prompt = req_with_Parameters ∅ req /\
    audited "approval-decision" req tr (fun e => ev_Approved e = Some true).

Lemma elem_of_tail {A} (x : A) l l' : x ∈ l' -> x ∈ (l ++ l')%list.
Proof. intros H. apply elem_of_app. by right. Qed.

Lemma obtainApproval_emits provider approver requestID base req evaluation :
  fresh base ->
  Emits (obtainApproval s evaluator sink provider approver requestID base req evaluation)
    (phase (fun tr base' => fresh base' /\ approved req tr)).
Proof.
  intros Hu. unfold obtainApproval. destruct approver as [approver|]; [|by apply emits_stop, phase_stop; [quiet|]].
  eapply emits_bind; [by apply savedApprovalScope_emits|intros tr out [? ?]; by split|].
  intros tr1 saved [Hq1 _].
  eapply emits_bind; [apply ask_emits|intros tr out [? ?]; apply phase_halted; [quiet|done]|].
  intros tr2 a [Hq2 Ha]. set (checked := match a with inl _ => _ | inr _ => _ end).
  destruct checked as [decision|err] eqn:Hc.
  - assert (a = inl decision) as ->.
    { unfold checked in Hc. destruct a as [d|]; [|done]. destruct (ValidateApprovalDecision _ _); congruence. }
    apply emits_recorded; [intros; apply phase_stop; [quiet|done]|]. intros clock.
    eapply emits_bind; [by apply saveChoice_emits|intros tr out [? ?]; apply phase_halted; [quiet|done]|].
    intros tr3 base' [Hq3 Hb]. destruct (dec_Approved decision) eqn:Hd; [|apply emits_stop, phase_stop; [quiet|done]].
    apply emits_ret, phase_ok; [quiet|cbn beta]. split; [done|].
    eexists _, decision. split_and!; [apply elem_of_tail, elem_of_app; by left|done|reflexivity|].
    eexists clock, requestID, _. split; [apply elem_of_tail, elem_of_tail, elem_of_cons; by left|done].
  - eapply emits_weaken; [by apply emits_record_stop with (Q := fun _ _ => False)|].
    intros tr' [x|out] [? ?]; [done|]. apply phase_halted; [quiet|done].
Qed.

Lemma recheck_error_none first current :
  recheck_error first current = None ->
  current = PolicyAllow \/ current = PolicyRequireApproval /\ first = PolicyRequireApproval.
Proof. unfold recheck_error. repeat case_bool_decide; simpl; naive_solver. Qed.

Lemma recheck_emits requestID base req evaluation :
  fresh base ->
  Emits (recheck s evaluator sink requestID base req evaluation) (phase (fun tr _ =>
    exists current, tr = [CallEvaluate req (inl current)] /\
      (ev_Decision current = PolicyAllow \/
       ev_Decision current = PolicyRequireApproval /\ ev_Decision evaluation = PolicyRequireApproval))).
Proof.
  intros Hu. unfold recheck. apply emits_call; [intros; apply phase_stop; [quiet|done]|]. intros current.
  destruct (recheck_error _ _) as [e|] eqn:E.
  - eapply emits_bind with (P := phase (fun _ _ => True)).
    + apply emits_record. intros. by split; [quiet|].
    + intros tr out [? ?]. by split; [quiet|].
    + intros tr err [? _]. apply emits_stop, phase_stop; [quiet|done].
  - apply emits_ret. split; [quiet|]. exists current. split; [done|]. by apply recheck_error_none.
Qed.

Lemma reidentify_emits base req snapshot :
  fresh base ->
  Emits (reidentify s base req snapshot) (phase (fun tr _ =>
    tr = match with_resolver s req with
         | None => []
         | Some _ => [CallInstance snapshot (inl (req_EnvironmentInstance req))]
         end)).
Proof.
  intros Hu. unfold reidentify. destruct (with_resolver s req); [|apply emits_ret; by split; [quiet|]].
  apply emits_call; [intros; apply phase_stop; [quiet|done]|]. intros current.
  case_bool_decide as E; simpl; [|by apply emits_stop, phase_stop; [quiet|]].
  apply emits_ret. split; [quiet|]. by rewrite E.
Qed.

(** What the outcome says after a provider ran. *)
Definition reported (a : finished) (recorded : option goerror) (out : finished) : Prop :=
  cr_ExecutionState out.1 = (if a.2 then CapabilityFailed else CapabilitySucceeded) /\
  cr_AuditComplete out.1 = (match recorded with None => true | Some _ => false end) /\
  (out.2 = None <-> a.2 = None /\ recorded = None) /\
  (recorded <> None -> exists err, out.2 = Some err /\ errors_Is err ErrAuditIncomplete = true).

Lemma execute_emits provider requestID base req :
  Emits (execute s sink provider requestID base req) (fun tr r =>
    exists a clock recorded out, r = inl out /\
      tr = [CallExecute req a;
            CallRecord (stamp clock requestID req (event "completed" "" (auditErrorReason a.2) None
              (Some (match a.2 with None => true | Some _ => false end)) "" None)) recorded] /\
      reported a recorded out).
Proof.
  unfold execute. eapply emits_bind with (P := fun tr r => exists a, tr = [CallExecute req a] /\ r = inl a).
  - apply emits_perform. eauto.
  - intros tr out (a & _ & [=]).
  - intros tr a' (a & -> & [= ->]). destruct a as [res execErr].
    eapply emits_bind; [apply (emits_record s sink requestID req _ (fun tr r => exists clock err,
      tr = [CallRecord (stamp clock requestID req (event "completed" "" (auditErrorReason execErr) None
              (Some (match execErr with None => true | Some _ => false end)) "" None)) err] /\ r = inl err)); eauto| |].
    + intros tr out (? & ? & _ & [=]).
    + intros tr err' (clock & err & -> & [= ->]). apply emits_ret.
      eexists (res, execErr), clock, err, _. split_and!; [done|done|]. unfold reported.
      destruct execErr as [x|], err as [y|]; simpl; split_and!; try done; try (split; [done|by intros [? ?]]).
      * intros _. eexists. split; [done|]. simpl. by rewrite orb_true_r.
      * intros _. eexists. by split.
Qed.
End Phases.
