(* ===== verification/ServiceProperties.v ===== *)
(** * Capability service: properties

    A provider runs only with current authority, on record, and the outcome
    says truthfully whether it ran. *)

From S2P Require Import Prelude GoText GoNet Core CoreChecks Policy PolicyProofs PolicyProperties.
From S2P Require Import CapabilityService ServiceProofs.
From Stdlib Require Import Ascii String.
Open Scope string_scope.

Section Request.
Context {W : Type} (s : Service W).

(** The calls before a provider runs that authorize it to run on [req]:
    the request was recorded; the policy decided and the decision was recorded;
    unless it allowed, a human approved, on record; the last thing asked of the
    policy, after all of that, was the same request again, and it did not deny
    or newly require approval; and then the Environment was still the instance
    the request names. *)
Definition authorized (tr : list call) (req : CapabilityRequest) : Prop :=
  exists tr1 first current ids, tr = (tr1 ++ CallEvaluate req (inl current) :: ids)%list /\
    audited "requested" req tr1 (fun _ => True) /\ CallEvaluate req (inl first) ∈ tr1 /\
    audited "policy-decision" req tr1 (fun e => ev_PolicyDecision e = ev_Decision first) /\
    (ev_Decision first = PolicyAllow \/ ev_Decision first = PolicyRequireApproval /\ approved req tr1) /\
    (ev_Decision current = PolicyAllow \/
     ev_Decision current = PolicyRequireApproval /\ ev_Decision first = PolicyRequireApproval) /\
    match with_resolver s req with
    | None => ids = []
    | Some _ => exists environment, CallInstance environment (inl (req_EnvironmentInstance req)) ∈ tr1 /\
        ids = [CallInstance environment (inl (req_EnvironmentInstance req))]
    end.

(** A request that reaches a provider. *)
Definition executed (input : CapabilityRequest) (tr : list call) (out : finished) : Prop :=
  exists pre req a clock id recorded,
    tr = (pre ++ [CallExecute req a;
           CallRecord (stamp clock id req (event "completed" "" (auditErrorReason a.2) None
             (Some (match a.2 with None => true | Some _ => false end)) "" None)) recorded])%list /\
    unfinished pre /\ authorized pre req /\ reported a recorded out /\
    req = req_with_Instance (req_EnvironmentInstance req) (normalizeRequest input) /\
    validateRequest (normalizeRequest input) = Ok tt.

Lemma with_resolver_instance instance req :
  with_resolver s (req_with_Instance instance req) = with_resolver s req.
Proof. done. Qed.

Lemma req_with_Instance_same req : req_with_Instance (req_EnvironmentInstance req) req = req.
Proof. by destruct req. Qed.

(** The request from the recorded decision on. *)
Lemma decided_emits evaluator sink provider approver requestID base req snapshot evaluation tr1 :
  fresh base -> validDecision (ev_Decision evaluation) = true -> unfinished tr1 ->
  audited "requested" req tr1 (fun _ => True) -> CallEvaluate req (inl evaluation) ∈ tr1 ->
  audited "policy-decision" req tr1 (fun e => ev_PolicyDecision e = ev_Decision evaluation) ->
  (with_resolver s req <> None -> CallInstance snapshot (inl (req_EnvironmentInstance req)) ∈ tr1) ->
  Emits (base ← (if ev_Decision evaluation == PolicyDeny then stop base (Wrapped (Plain ErrPolicyDenied))
                 else if ev_Decision evaluation == PolicyRequireApproval
                 then obtainApproval s evaluator sink provider approver requestID base req evaluation
                 else mret base);
         _ ← recheck s evaluator sink requestID base req evaluation;
         _ ← reidentify s base req snapshot;
         execute s sink provider requestID base req)
    (fun tr r => unfinished (tr1 ++ tr)%list /\ (exists out, r = inr out /\ halted out) \/
       exists pre a clock recorded out, r = inl out /\
         (tr1 ++ tr)%list = (pre ++ [CallExecute req a;
           CallRecord (stamp clock requestID req (event "completed" "" (auditErrorReason a.2) None
             (Some (match a.2 with None => true | Some _ => false end)) "" None)) recorded])%list /\
         unfinished pre /\ authorized pre req /\ reported a recorded out).
Proof.
  intros Hb Hv Hq1 Hreq Heval Hdec Hid.
  assert (forall tr out, unfinished tr -> halted out ->
    unfinished (tr1 ++ tr)%list /\ (exists out', @inr finished _ out = inr out' /\ halted out')) as Hhalt.
  { intros tr out Hq Hh. split; [quiet|eauto]. }
  eapply emits_bind with (P := phase (fun tr base' => fresh base' /\
    (ev_Decision evaluation = PolicyAllow \/ ev_Decision evaluation = PolicyRequireApproval /\ approved req tr))).
  { case_bool_decide as E1; [apply emits_stop, phase_stop; [quiet|done]|].
    case_bool_decide as E2.
    - eapply emits_weaken; [by apply obtainApproval_emits|]. intros tr [b|out] [? ?]; split; try done. naive_solver.
    - apply emits_ret, phase_ok; [quiet|]. split; [done|]. apply validDecision_cases in Hv. naive_solver. }
  { intros tr out [? ?]. left. by apply Hhalt. }
  intros tr2 base' (Hq2 & Hb' & Happ).
  eapply emits_bind; [by apply recheck_emits|intros tr out [? ?]; left; apply Hhalt; [quiet|done]|].
  intros tr3 [] (Hq3 & current & -> & Hcur).
  eapply emits_bind; [by apply reidentify_emits|intros tr out [? ?]; left; apply Hhalt; [quiet|done]|].
  intros ids [] [Hq4 Hids].
  eapply emits_weaken; [apply execute_emits|]. intros tr r (a & clock & recorded & out & -> & -> & Hrep). right.
  exists ((tr1 ++ tr2) ++ CallEvaluate req (inl current) :: ids)%list, a, clock, recorded, out.
  split; [done|]. split; [by rewrite <- !app_assoc|]. split; [quiet|]. split; [|done].
  exists (tr1 ++ tr2)%list, evaluation, current, ids. split; [done|].
  assert (forall type P, audited type req tr1 P -> audited type req (tr1 ++ tr2)%list P) as Haud.
  { intros type P (c & i & e & Hin & ?). exists c, i, e. split; [apply elem_of_app; by left|done]. }
  split_and!; [by apply Haud|apply elem_of_app; by left|by apply Haud| |done|].
  - destruct Happ as [?|[? (prompt & d & Hin & Hd & Hp & c & i & e & He & ?)]]; [by left|right].
    split; [done|]. exists prompt, d. split_and!; [by apply elem_of_tail|done|done|].
    exists c, i, e. split; [by apply elem_of_tail|done].
  - destruct (with_resolver s req) as [resolver|] eqn:E; [|done].
    exists snapshot. split; [|done]. apply elem_of_app. left. by apply Hid.
Qed.

(** The whole request. *)
Lemma request_body_emits input approver nonce :
  Emits (request_body s input approver nonce) (fun tr r =>
    unfinished tr /\ (exists out, r = inr out /\ halted out) \/ exists out, r = inl out /\ executed input tr out).
Proof.
  assert (forall tr out, unfinished tr -> halted out ->
    unfinished tr /\ (exists out', @inr finished _ out = inr out' /\ halted out')) as Hhalt by eauto.
  unfold request_body.
  eapply emits_bind with (P := phase (fun tr _ => tr = [] /\ validateRequest (normalizeRequest input) = Ok tt)).
  { apply emits_or_stop_result; [intros [] E; by apply phase_ok; [quiet|]|].
    intros. apply phase_stop; [quiet|apply fresh_zero]. }
  { intros tr out [? ?]. left. by apply Hhalt. }
  intros tr0 [] (_ & -> & Hvalid).
  destruct (policy s) as [evaluator|], (audit s) as [sink|];
    try (apply emits_stop; left; apply Hhalt; [quiet|split; [apply fresh_zero|done]]).
  destruct (providers s !! _) as [provider|]; [|apply emits_stop; left; apply Hhalt; [quiet|split; [apply fresh_zero|done]]].
  eapply emits_bind with (P := phase (fun tr _ => tr = [])).
  { apply emits_or_stop_result; [intros [] E; by apply phase_ok; [quiet|]|].
    intros. apply phase_stop; [quiet|apply fresh_zero]. }
  { intros tr out [? ?]. left. by apply Hhalt. }
  intros tr1 [] [_ ->].
  eapply emits_bind; [apply identify_emits|intros tr out [? ?]; left; by apply Hhalt|].
  intros tr2 [req snapshot] [Hq2 Hbound]. simpl in Hbound.
  assert (req = req_with_Instance (req_EnvironmentInstance req) (normalizeRequest input)) as Hreq.
  { destruct (with_resolver s _); [destruct Hbound as (i & -> & _)|rewrite Hbound]; done. }
  assert (with_resolver s req <> None -> CallInstance snapshot (inl (req_EnvironmentInstance req)) ∈ tr2) as Hid.
  { rewrite Hreq, with_resolver_instance. destruct (with_resolver s _); [|done].
    destruct Hbound as (i & -> & _ & ?). done. }
  clear Hbound. set (base := mkResult "" "" "" _ _ _). assert (fresh base) as Hb by (by split; [right|]).
  apply emits_recorded; [intros; left; apply Hhalt; [quiet|by split]|]. intros clock1.
  eapply emits_bind with (P := fun tr r => exists a, tr = [CallEvaluate req a] /\ r = inl a);
    [apply emits_perform; eauto|intros tr out (a & _ & [=])|].
  intros tr3 a' (a & -> & [= ->]). destruct a as [evaluation|err].
  2:{ eapply emits_weaken; [by apply emits_record_stop with (Q := fun _ _ => False)|].
      intros tr [x|out] [? ?]; [done|]. left. apply Hhalt; [quiet|done]. }
  destruct (validDecision (ev_Decision evaluation)) eqn:Hv; simpl negb; cbv iota.
  2:{ eapply emits_weaken; [by apply emits_record_stop with (Q := fun _ _ => False)|].
      intros tr [x|out] [? ?]; [done|]. left. apply Hhalt; [quiet|done]. }
  apply emits_recorded; [intros; left; apply Hhalt; [quiet|by split]|]. intros clock2.
  eapply emits_weaken.
  { eapply decided_emits with (tr1 := (tr2 ++ [
      CallRecord (stamp clock1 (EncodeToString nonce) req (event "requested" "" "" None None "" None)) None;
      CallEvaluate req (inl evaluation);
      CallRecord (stamp clock2 (EncodeToString nonce) req
        (event "policy-decision" (ev_Decision evaluation) (ev_Reason evaluation) None None "" None)) None])%list); [done|done| | | | |].
    - quiet.
    - eexists clock1, _, _. split; [apply elem_of_tail, elem_of_cons; left; reflexivity|done].
    - apply elem_of_tail, elem_of_cons; right. apply elem_of_cons; by left.
    - eexists clock2, _, _. split; [apply elem_of_tail, elem_of_cons; right; apply elem_of_cons; right;
        apply elem_of_cons; left; reflexivity|by split].
    - intros Hr. apply elem_of_app. left. by apply Hid. }
  intros tr r H. simpl in H |- *. rewrite <- !app_assoc in H. simpl in H.
  destruct H as [[Hq Hh]|(pre & a & clock & recorded & out & -> & Htr & Hq & Hauth & Hrep)]; [left; by split|].
  right. exists out. split; [done|]. exists pre, req, a, clock, (EncodeToString nonce), recorded. done.
Qed.

Lemma request_cases input approver nonce w w' tr out :
  request s input approver nonce w = (w', tr, out) ->
  unfinished tr /\ halted out \/ executed input tr out.
Proof.
  unfold request. destruct (request_body_emits input approver nonce (mkState w [] None)) as (tr' & Ht & H).
  destruct (request_body s input approver nonce (mkState w [] None)) as [st r]. simpl in *. subst tr'.
  intros [= _ <- <-]. destruct H as [[Hq (o & -> & Hh)]|(o & -> & He)]; auto.
Qed.

(** What an outcome says of the calls that were made. *)
Definition truthful (tr : list call) (out : finished) : Prop :=
  (out.2 = None -> exists req res e, CallExecute req (res, None) ∈ tr /\ CallRecord e None ∈ tr /\
     ev_Type e = "completed" /\ ev_Success e = Some true /\
     cr_ExecutionState out.1 = CapabilitySucceeded /\ cr_AuditComplete out.1 = true) /\
  (unexecuted out.1 <-> quiet tr) /\
  (cr_ExecutionState out.1 = CapabilityFailed <-> exists req res err, CallExecute req (res, Some err) ∈ tr) /\
  (cr_ExecutionState out.1 = CapabilitySucceeded <-> exists req res, CallExecute req (res, None) ∈ tr) /\
  (cr_AuditComplete out.1 = true <-> exists e, CallRecord e None ∈ tr /\ ev_Type e = "completed") /\
  (forall req res err e r, CallExecute req (res, err) ∈ tr -> CallRecord e r ∈ tr -> ev_Type e = "completed" ->
     ev_Success e = Some (match err with None => true | Some _ => false end)) /\
  (forall e err, CallRecord e (Some err) ∈ tr -> ev_Type e = "completed" ->
     exists err', out.2 = Some err' /\ errors_Is err' ErrAuditIncomplete = true).

(** What the trace of a request that stopped holds. *)
Lemma halted_truth tr out :
  unfinished tr -> halted out -> truthful tr out.
Proof.
  intros Hf ((Hu & Hc) & He). pose proof (unfinished_quiet tr Hf) as Hq. pose proof (unfinished_record tr) as Hr.
  assert (forall state, state <> "" -> state <> CapabilityNotExecuted -> cr_ExecutionState out.1 <> state) as Hst
    by (intros state ? ? E; unfold unexecuted in Hu; rewrite E in Hu; tauto).
  split_and!; [done|by split| | | | |].
  - split; [intros E; by destruct (Hst CapabilityFailed)|]. intros (req & res & err & Hin). by destruct (Hq req (res, Some err)).
  - split; [intros E; by destruct (Hst CapabilitySucceeded)|]. intros (req & res & Hin). by destruct (Hq req (res, None)).
  - split; [congruence|]. intros (e & Hin & Ht). by destruct (Hr e None Hf Hin).
  - intros req res err e r Hin. by destruct (Hq req (res, err)).
  - intros e err Hin Ht. by destruct (Hr e (Some err) Hf Hin).
Qed.

(** And of one that reached a provider. *)
Lemma executed_truth input tr out :
  executed input tr out -> truthful tr out.
Proof.
  intros (pre & req' & [res execErr] & clock & id & recorded & -> & Hf & _ & (Hst & Hcomp & Hok & Hbad) & _). simpl in *.
  pose proof (unfinished_quiet pre Hf) as Hq. pose proof (unfinished_record pre) as Hpre.
  set (done_ := stamp _ _ _ _). set (tr := (pre ++ _)%list).
  assert (forall req a, CallExecute req a ∈ tr <-> req = req' /\ a = (res, execErr)) as Hrun.
  { intros req a. unfold tr. rewrite elem_of_app, !elem_of_cons, elem_of_nil. split; [|intros [-> ->]; auto].
    intros [Hin|[[= -> ->]|[|[]]]]; [by destruct (Hq req a)|done|done]. }
  assert (forall e r, CallRecord e r ∈ tr -> ev_Type e = "completed" -> e = done_ /\ r = recorded) as Hrec.
  { intros e r. unfold tr. rewrite elem_of_app, !elem_of_cons, elem_of_nil. intros [Hin|[|[[= -> ->]|[]]]] Ht; [|done|done].
    by destruct (Hpre e r Hf Hin). }
  assert (CallRecord done_ recorded ∈ tr) as Hlast by (apply elem_of_tail, elem_of_cons; right; apply elem_of_cons; by left).
  split_and!.
  - intros [-> ->]%Hok. exists req', res, done_. by rewrite Hrun, Hst, Hcomp.
  - split; [unfold unexecuted; rewrite Hst; destruct execErr; by intros [?|?]|]. intros Hn. destruct (Hn req' (res, execErr)). by apply Hrun.
  - rewrite Hst. setoid_rewrite Hrun. destruct execErr as [err|]; split; try done; [by eauto 6|by intros (? & ? & ? & _ & [=])].
  - rewrite Hst. setoid_rewrite Hrun. destruct execErr as [err|]; split; try done; [by intros (? & ? & _ & [=])|by eauto 6].
  - rewrite Hcomp. split; [destruct recorded; [done|]; by exists done_|]. intros (e & Hin & Ht). by destruct (Hrec e None Hin Ht) as [_ <-].
  - intros req r err e r' [-> [= -> ->]]%Hrun Hin Ht. by destruct (Hrec e r' Hin Ht) as [-> _].
  - intros e err Hin Ht. destruct (Hrec e (Some err) Hin Ht) as [_ <-]. by apply Hbad.
Qed.

End Request.

(** C15: whatever the policy, the reviewers, the audit sink and the providers
    answer, a provider runs at most once in a request, on the normalized
    request bound to its Environment instance, and only after: the request and
    the policy decision were recorded; the policy allowed, or a human approved
    this very request, on record; the policy, asked again after that, still did
    not deny (nor newly ask); and the instance was confirmed again. *)
Theorem execution_is_authorized {W} (s : Service W) input approver nonce w w' tr out req a :
  request s input approver nonce w = (w', tr, out) -> CallExecute req a ∈ tr ->
  exists pre post, tr = (pre ++ CallExecute req a :: post)%list /\ quiet pre /\ quiet post /\ authorized s pre req /\
    req = req_with_Instance (req_EnvironmentInstance req) (normalizeRequest input) /\
    validateRequest (normalizeRequest input) = Ok tt.
Proof.
  intros H Hin. destruct (request_cases s _ _ _ _ _ _ _ H) as [[Hq%unfinished_quiet _]|He]; [by destruct (Hq req a)|].
  destruct He as (pre & req' & a' & clock & id & recorded & -> & Hq%unfinished_quiet & Hauth & _ & Hreq & Hv).
  apply elem_of_app in Hin as [Hin|Hin]; [by destruct (Hq req a)|].
  rewrite !elem_of_cons, elem_of_nil in Hin. destruct Hin as [[= <- <-]|[?|[]]]; [|done].
  eexists pre, _. split; [done|]. split_and!; try done. by rewrite quiet_cons; split; [|apply quiet_nil].
Qed.

(** C16: the outcome of a request says truthfully whether a provider ran,
    whether it succeeded and whether its completion is in the audit log.  No
    error means that it ran, succeeded and that the completion is in the log; a
    result that says not executed (or nothing) means that none ran, one that says
    failed or succeeded that it ran and did so; a result is marked complete
    exactly when the log took the completion, whatever the provider answered; the
    completion that reaches the log says whether the provider succeeded; and when
    the log refuses it the error says that the audit is incomplete. *)
Theorem outcome_is_truthful {W} (s : Service W) input approver nonce w w' tr out :
  request s input approver nonce w = (w', tr, out) ->
  truthful tr out.
Proof.
  intros H. destruct (request_cases s _ _ _ _ _ _ _ H) as [(Hu & Hh)|He]; [by apply halted_truth|by eapply executed_truth].
Qed.

(** ** A concrete service *)

(** The world is the audit log; the policy file allows echo. *)
Definition echo_rule : PolicyRule := mkRule None "" "local.echo" "echo" "*" "*" ∅ PolicyAllow "".
Definition echo_service : Service (list CapabilityAuditEvent) :=
  mkCapabilityService None
    (Some (file_evaluator (fun _ => Ok (demo_bytes (mkPolicy [] [] "" [echo_rule]))) (fun _ => 0%Z)))
    None (Some (fun e log => ((log ++ [e])%list, None))) {["local.echo" := LocalEcho]} (fun log => Z.of_nat (List.length log)).
Definition echo_request : CapabilityRequest :=
  mkRequest "" " local.echo" "echo" "stdout" "" ∅ {["message" := "hello"]}.

Lemma execution_is_authorized_witness :
  exists req a pre, (request echo_service echo_request None [] []).1.2 = pre /\ CallExecute req a ∈ pre /\
    exists pre' post, pre = (pre' ++ CallExecute req a :: post)%list /\ authorized echo_service pre' req.
Proof.
  eexists _, _, _. split; [vm_compute; reflexivity|]. split; [apply elem_of_cons; right; apply elem_of_cons; right;
    apply elem_of_cons; right; apply elem_of_cons; right; apply elem_of_cons; left; reflexivity|].
  destruct (execution_is_authorized echo_service echo_request None [] []
    (request echo_service echo_request None [] []).1.1 (request echo_service echo_request None [] []).1.2
    (request echo_service echo_request None [] []).2
    (normalizeRequest echo_request) (mkResult "" "local.echo" "hello" "" "" false, None))
    as (pre' & post & E & _ & _ & Ha & _).
  - vm_compute. reflexivity.
  - vm_compute. do 4 (apply elem_of_cons; right). apply elem_of_cons; left. reflexivity.
  - exists pre', post. split; [|exact Ha]. vm_compute in E |- *. exact E.
Defined.

Lemma outcome_is_truthful_witness :
  (request echo_service echo_request None [] []).2.2 = None /\
  cr_ExecutionState (request echo_service echo_request None [] []).2.1 = CapabilitySucceeded.
Proof.
  destruct (outcome_is_truthful echo_service echo_request None [] []
    (request echo_service echo_request None [] []).1.1 (request echo_service echo_request None [] []).1.2
    (request echo_service echo_request None [] []).2) as [H _]; [vm_compute; reflexivity|].
  split; [vm_compute; reflexivity|]. destruct H as (req & res & e & _ & _ & _ & _ & E & _); [vm_compute; reflexivity|exact E].
Defined.
