(* ===== verification/Approvals.v ===== *)
(** * Approval queue

    [src/internal/policy/approvals/queue.go]: bounded waiting for human review.
    An [entry] is a heap object, so that a late completion of an old entry is
    told from the entry that replaced it; [entries] maps a request identifier
    to a pointer.  The two channels of an entry have one buffer slot: a send
    to a full one blocks, which the operations return as [None].  Each
    operation is the critical section under the mutex, with the clock and the
    contexts as arguments; [DecideApproval] is split where it releases the
    mutex and waits. *)

From S2P Require Import Prelude GoText Core CoreChecks Policy CapabilityService.
From Stdlib Require Import Ascii String.
Open Scope string_scope.

Definition MaxPending : nat := 128.
Definition MaxPerEnvironment : nat := 16.
Definition MaxPromptBytes : Z := 16384.
Definition ApprovalLifetime : Z := 120000000000.

Notation completion := (CapabilityResult * option goerror)%type.

Record entry := mkEntry {
  ent_request : ApprovalRequest;
  ent_ctx : nat;
  ent_expires : Z;
  ent_claimed : bool;
  ent_decision : option ApprovalDecision;
  ent_completed : option completion }.

Record Queue := mkQueue {
  entries : gmap string nat;
  heap : gmap nat entry;
  next : nat;
  lifetime : Z }.

Definition New_queue : Queue := mkQueue ∅ ∅ 0 ApprovalLifetime.

(** The clock and [ctx.Err()] of every context at one moment. *)
Record moment := mkMoment { clock : Z; ctx_err : nat -> option error }.

Definition set_entry (p : nat) (e : entry) (q : Queue) : Queue :=
  mkQueue (entries q) (<[p := e]> (heap q)) (next q) (lifetime q).

(** A send on a channel with one buffer slot. *)
Definition send {A} (slot : option A) (v : A) : option (option A) :=
  match slot with None => Some (Some v) | Some _ => None end.

Definition entry_environment (q : Queue) (p : nat) : string :=
  match heap q !! p with
  | Some e => req_Environment (apr_CapabilityRequest (ent_request e))
  | None => ""
  end.

Definition environment_count (q : Queue) (environment : string) : nat :=
  size (filter (fun kv => entry_environment q kv.2 = environment) (entries q)).

(** [encoded] is the length of [json.Marshal] of the prompt, [None] when it
    fails. *)
Definition BeginApproval (q : Queue) (t : moment) (ctx : nat) (encoded : option Z) (request : ApprovalRequest)
  : Queue * result nat :=
  match ctx_err t ctx with
  | Some err => (q, Err err)
  | None =>
    if (apr_RequestID request == "") || (128 <? len (apr_RequestID request))%Z then (q, Err ErrInvalidArgument) else
    let request := CloneApprovalRequest request in
    match encoded with
    | None => (q, Err ErrInvalidArgument)
    | Some size =>
      if (MaxPromptBytes <? size)%Z then (q, Err ErrInvalidArgument) else
      if (lifetime q <=? 0)%Z then (q, Err ErrIncompatibleState) else
      if has_key (entries q) (apr_RequestID request) then (q, Err ErrAlreadyExists) else
      let count := environment_count q (req_Environment (apr_CapabilityRequest request)) in
      if (MaxPending <=? base.size (entries q))%nat || (MaxPerEnvironment <=? count)%nat
      then (q, Err ErrApprovalDenied) else
      let item := mkEntry request ctx (clock t + lifetime q) false None None in
      (mkQueue (<[apr_RequestID request := next q]> (entries q)) (<[next q := item]> (heap q))
         (S (next q)) (lifetime q), Ok (next q))
    end
  end.

(** The cases of the [select] in [entry.Decide]. *)
Inductive select_case := FromDecision | FromContext | FromItemContext | FromTimer.

(** [None] when the case is not ready (or the pointer is not an entry). *)
Definition Decide (q : Queue) (t : moment) (ctx : nat) (p : nat) (case : select_case)
  : option (Queue * result ApprovalDecision) :=
  item ← heap q !! p;
  match case with
  | FromDecision =>
    decision ← ent_decision item;
    let q := set_entry p (mkEntry (ent_request item) (ent_ctx item) (ent_expires item) (ent_claimed item)
                            None (ent_completed item)) q in
    Some (q, match ctx_err t ctx, ctx_err t (ent_ctx item) with
             | Some err, _ => Err err
             | None, Some err => Err err
             | None, None => if negb (clock t <? ent_expires item)%Z then Err ErrDeadlineExceeded else Ok decision
             end)
  | FromContext => err ← ctx_err t ctx; Some (q, Err err)
  | FromItemContext => err ← ctx_err t (ent_ctx item); Some (q, Err err)
  | FromTimer => if (ent_expires item <=? clock t)%Z then Some (q, Err ErrDeadlineExceeded) else None
  end.

Definition live (t : moment) (item : entry) : bool :=
  negb (ent_claimed item) && (match ctx_err t (ent_ctx item) with None => true | Some _ => false end) &&
  (clock t <? ent_expires item)%Z.

Definition PendingApprovals (q : Queue) (t : moment) : list ApprovalRequest :=
  sort_by apr_RequestID
    (omap (fun kv => match heap q !! kv.2 with
                     | Some item => if live t item then Some (CloneApprovalRequest (ent_request item)) else None
                     | None => None
                     end) (map_to_list (entries q))).

(** [DecideApproval] up to the send, under the mutex: the entry that took the
    decision.  [None]: the send blocks while the mutex is held. *)
Definition submit (q : Queue) (t : moment) (ctx : nat) (id : string) (decision : ApprovalDecision)
  : option (Queue * result nat) :=
  match ctx_err t ctx with
  | Some err => Some (q, Err err)
  | None =>
    match entries q !! id with
    | None => Some (q, Err ErrNotFound)
    | Some p =>
      match heap q !! p with
      | None => Some (q, Err ErrNotFound)
      | Some item =>
        if negb (live t item) then Some (q, Err ErrNotFound) else
        match ValidateApprovalDecision (ent_request item) decision with
        | Err e => Some (q, Err e)
        | Ok _ =>
          slot ← send (ent_decision item) decision;
          Some (set_entry p (mkEntry (ent_request item) (ent_ctx item) (ent_expires item) true slot
                               (ent_completed item)) q, Ok p)
        end
      end
    end
  end.

(** The wait at the end of [DecideApproval]: [completed] is the completion
    received, or the context ended first. *)
Definition await (decision : ApprovalDecision) (id : string) (completed : completion + error)
  : CapabilityResult * option goerror :=
  match completed with
  | inr err => (mkResult "" "" "" id "" false, Some (Plain err))
  | inl (res, err) =>
    if (dec_Save decision != "") && (cr_SavedChoice res != dec_Save decision) then
      (res, match err with Some err => Some err | None => Some (Plain ErrIncompatibleState) end)
    else
      match err with
      | Some err =>
        if negb (dec_Approved decision) &&
           (errors_Is err ErrApprovalDenied || (match err with Plain e => e == ErrPolicyDenied | _ => false end))
        then (res, None) else (res, Some err)
      | None => (res, None)
      end
  end.

(** [None]: the send of the completion blocks while the mutex is held. *)
Definition Complete (q : Queue) (p : nat) (res : CapabilityResult) (err : option goerror) : option Queue :=
  match heap q !! p with
  | None => Some q
  | Some item =>
    if negb (bool_decide (entries q !! apr_RequestID (ent_request item) = Some p)) then Some q else
    let res := mkResult (cr_SavedChoice res) (cr_Provider res) "" (cr_RequestID res)
                 (cr_ExecutionState res) (cr_AuditComplete res) in
    let err := if cr_RequestID res != apr_RequestID (ent_request item)
               then Some (Plain ErrIncompatibleState) else err in
    slot ← send (ent_completed item) (res, err);
    Some (mkQueue (delete (apr_RequestID (ent_request item)) (entries q))
            (<[p := mkEntry (ent_request item) (ent_ctx item) (ent_expires item) (ent_claimed item)
                      (ent_decision item) slot]> (heap q)) (next q) (lifetime q))
  end.

(** The receive of the completion. *)
Definition receive_completion (q : Queue) (p : nat) : option (Queue * completion) :=
  item ← heap q !! p;
  completed ← ent_completed item;
  Some (set_entry p (mkEntry (ent_request item) (ent_ctx item) (ent_expires item) (ent_claimed item)
                       (ent_decision item) None) q, completed).

(** ** Executions *)

(** The decisions that reviewers submitted so far, with the entry each went to,
    are kept beside the queue. *)
Notation history := (list (nat * ApprovalDecision)).

Inductive queue_step : Queue * history -> Queue * history -> Prop :=
| step_begin q h t ctx encoded request q' r :
    BeginApproval q t ctx encoded request = (q', r) -> queue_step (q, h) (q', h)
| step_decide q h t ctx p case q' r :
    Decide q t ctx p case = Some (q', r) -> queue_step (q, h) (q', h)
| step_submit q h t ctx id decision q' p :
    submit q t ctx id decision = Some (q', Ok p) -> queue_step (q, h) (q', (p, decision) :: h)
| step_refused q h t ctx id decision q' e :
    submit q t ctx id decision = Some (q', Err e) -> queue_step (q, h) (q', h)
| step_complete q h p res err q' :
    Complete q p res err = Some q' -> queue_step (q, h) (q', h)
| step_receive q h p q' c :
    receive_completion q p = Some (q', c) -> queue_step (q, h) (q', h).

Definition queue_reachable (qh : Queue * history) : Prop := rtc queue_step (New_queue, []) qh.
