(* ===== verification/ApprovalProperties.v ===== *)
(** * Approval queue: properties

    The queue stays bounded, no operation can block while it holds the mutex,
    and an admitted request receives at most one decision, which its reviewer
    submitted and which was checked against it. *)

From S2P Require Import Prelude GoText Core CoreChecks CoreProofs Policy PolicyProofs PolicyProperties.
From S2P Require Import CapabilityService Approvals.
From Stdlib Require Import Ascii String.
Open Scope string_scope.

(** ** The invariant *)

Record queue_inv (q : Queue) (h : history) : Prop := {
  inv_entries : forall id p, entries q !! id = Some p ->
    exists e, heap q !! p = Some e /\ apr_RequestID (ent_request e) = id /\ ent_completed e = None;
  inv_fresh : forall p e, heap q !! p = Some e -> (p < next q)%nat;
  inv_unclaimed : forall p e, heap q !! p = Some e -> ent_claimed e = false ->
    ent_decision e = None /\ p ∉ h.*1;
  inv_once : NoDup h.*1;
  inv_history : forall p d, (p, d) ∈ h -> exists e, heap q !! p = Some e /\
    ValidateApprovalDecision (ent_request e) d = Ok tt;
  inv_buffered : forall p e d, heap q !! p = Some e -> ent_decision e = Some d -> (p, d) ∈ h;
  inv_pending : (size (entries q) <= MaxPending)%nat;
  inv_environment : forall environment, (environment_count q environment <= MaxPerEnvironment)%nat;
  inv_stripped : forall p e, heap q !! p = Some e ->
    req_Parameters (apr_CapabilityRequest (ent_request e)) = ∅ }.

Lemma new_queue_inv : queue_inv New_queue [].
Proof.
  constructor; simpl; try (intros *; rewrite lookup_empty; done).
  - constructor.
  - intros p d H. by apply not_elem_of_nil in H.
  - rewrite map_size_empty. apply Nat.le_0_l.
  - intros environment. unfold environment_count. simpl. rewrite map_filter_empty, map_size_empty. apply Nat.le_0_l.
Qed.

(** The count of an Environment depends only on the requests of the entries. *)
Lemma filter_environment_ext q q' environment (m : gmap string nat) :
  (forall id p, m !! id = Some p -> entry_environment q' p = entry_environment q p) ->
  filter (fun kv => entry_environment q' kv.2 = environment) m =
  filter (fun kv => entry_environment q kv.2 = environment) m.
Proof. intros Hsame. apply map_filter_ext. intros id p Hp. simpl. by rewrite (Hsame id p Hp). Qed.

Lemma environment_count_ext q q' environment :
  entries q' = entries q ->
  (forall id p, entries q !! id = Some p -> entry_environment q' p = entry_environment q p) ->
  environment_count q' environment = environment_count q environment.
Proof.
  intros He Hsame. unfold environment_count. rewrite He. f_equal. by apply filter_environment_ext.
Qed.

(** Updating an entry in place keeps its request. *)
Lemma entry_environment_set q p e e' p' :
  heap q !! p = Some e -> ent_request e' = ent_request e ->
  entry_environment (set_entry p e' q) p' = entry_environment q p'.
Proof.
  intros Hp Hr. unfold entry_environment. simpl. rewrite lookup_insert.
  case_decide as E; [|done]. subst. by rewrite Hp, Hr.
Qed.

(** A change of the channels of one entry, with the decision it may take. *)
Lemma set_entry_inv q h h' p e e' :
  queue_inv q h -> heap q !! p = Some e -> ent_request e' = ent_request e ->
  (forall id, entries q !! id = Some p -> ent_completed e = None -> ent_completed e' = None) ->
  (h' = h /\ ent_claimed e' = ent_claimed e /\ (ent_decision e' = None \/ ent_decision e' = ent_decision e) \/
   exists d, h' = (p, d) :: h /\ ent_claimed e = false /\ ent_claimed e' = true /\ ent_decision e' = Some d /\
     ValidateApprovalDecision (ent_request e) d = Ok tt) ->
  queue_inv (set_entry p e' q) h'.
Proof.
  intros Hinv Hp Hr Hc Hd.
  assert (forall x, x ∈ h -> x ∈ h') as Hsub.
  { destruct Hd as [[-> _]|(d & -> & _)]; [done|]. intros x Hx. apply elem_of_cons. by right. }
  destruct Hinv as [H1 H2 H3 H4 H5 H6 H7 H8 H9]. constructor; simpl.
  - intros id p' Hid. destruct (H1 id p' Hid) as (e0 & He0 & Hid' & Hc0). rewrite lookup_insert.
    case_decide as E; [|eauto]. subst p'. rewrite Hp in He0. injection He0 as <-. exists e'. rewrite Hr. eauto.
  - intros p' e0. rewrite lookup_insert. case_decide as E; [intros _; subst; eauto|apply H2].
  - intros p' e0. rewrite lookup_insert. case_decide as E.
    + intros [= <-] Hcl. subst p'. destruct Hd as [(-> & E1 & E2)|(d & _ & _ & E2 & _)]; [|congruence].
      rewrite E1 in Hcl. destruct (H3 p e Hp Hcl) as [E3 E4]. split; [destruct E2; congruence|done].
    + intros He0 Hcl. destruct (H3 p' e0 He0 Hcl) as [? Hni]. split; [done|].
      destruct Hd as [[-> _]|(d & -> & _)]; [done|]. simpl. apply not_elem_of_cons. split; [congruence|done].
  - destruct Hd as [[-> _]|(d & -> & E1 & _)]; [done|]. simpl. apply NoDup_cons. split; [|done].
    by apply (H3 p e Hp E1).
  - intros p' d' Hin. assert ((p', d') ∈ h \/ p' = p /\ ValidateApprovalDecision (ent_request e) d' = Ok tt) as [Hin'|[-> Hv]].
    { destruct Hd as [[-> _]|(d & -> & _ & _ & _ & Hv)]; [by left|]. apply elem_of_cons in Hin as [[= -> ->]|?]; auto. }
    + destruct (H5 p' d' Hin') as (e0 & He0 & Hv). rewrite lookup_insert. case_decide as E; [|eauto].
      subst p'. rewrite Hp in He0. injection He0 as <-. exists e'. by rewrite Hr.
    + exists e'. rewrite lookup_insert, decide_True, Hr; done.
  - intros p' e0 d'. rewrite lookup_insert. case_decide as E; [|intros ? ?; eauto].
    intros [= <-] Hd'. subst p'. destruct Hd as [(-> & _ & [E1|E1])|(d & -> & _ & _ & E1 & _)]; [congruence| |].
    + apply (H6 p e); congruence.
    + apply elem_of_cons. left. congruence.
  - done.
  - intros environment. erewrite environment_count_ext; [apply H8|done|].
    intros id p' _. by apply entry_environment_set with (e := e).
  - intros p' e0. rewrite lookup_insert. case_decide as E; [|apply H9]. intros [= <-]. rewrite Hr. by apply (H9 p).
Qed.

(** ** Every operation keeps it *)

Lemma begin_inv q h t ctx encoded request q' r :
  queue_inv q h -> BeginApproval q t ctx encoded request = (q', r) -> queue_inv q' h.
Proof.
  intros Hinv. unfold BeginApproval. destruct (ctx_err t ctx); [by intros [= <- _]|].
  destruct (_ || _); [by intros [= <- _]|]. destruct encoded as [n|]; [|by intros [= <- _]].
  do 2 (destruct (_ : bool); [by intros [= <- _]|]).
  destruct (has_key _ _) eqn:Hk; [by intros [= <- _]|].
  set (environment := req_Environment (apr_CapabilityRequest (CloneApprovalRequest request))).
  destruct ((MaxPending <=? _)%nat || _) eqn:Hb; [by intros [= <- _]|]. intros [= <- _].
  apply has_key_false in Hk. apply orb_false_iff in Hb as [Hb1%Nat.leb_gt Hb2%Nat.leb_gt].
  destruct Hinv as [H1 H2 H3 H4 H5 H6 H7 H8 H9].
  assert (heap q !! next q = None) as Hfresh.
  { destruct (heap q !! next q) as [e|] eqn:E; [|done]. apply H2 in E. lia. }
  assert (forall p e, heap q !! p = Some e -> p <> next q) as Hne by (intros p e He ->; congruence).
  set (item := mkEntry (CloneApprovalRequest request) _ _ _ _ _).
  assert (forall id p, entries q !! id = Some p ->
    entry_environment (mkQueue (<[apr_RequestID request := next q]> (entries q)) (<[next q := item]> (heap q)) (S (next q)) (lifetime q)) p
    = entry_environment q p) as Henv.
  { intros id p Hp. destruct (H1 id p Hp) as (e & He & _). unfold entry_environment. simpl.
    rewrite lookup_insert_ne; [done|]. intros <-. congruence. }
  constructor; simpl.
  - intros id p. rewrite lookup_insert. case_decide as E.
    + intros [= <-]. exists item. rewrite lookup_insert, decide_True by done. done.
    + intros Hp. destruct (H1 id p Hp) as (e & He & ? & ?). exists e. rewrite lookup_insert_ne; [done|].
      intros <-. congruence.
  - intros p e. rewrite lookup_insert. case_decide as E; [intros; lia|]. intros He. apply H2 in He. lia.
  - intros p e. rewrite lookup_insert. case_decide as E; [|apply H3]. intros [= <-] _. split; [done|]. subst p.
    intros Hin. apply list_elem_of_fmap in Hin as ([p d] & Ep & Hin). simpl in Ep. subst p.
    destruct (H5 _ d Hin) as (e & He & _). congruence.
  - done.
  - intros p d Hin. destruct (H5 p d Hin) as (e & He & ?). exists e. rewrite lookup_insert_ne; [done|].
    intros <-. congruence.
  - intros p e d. rewrite lookup_insert. case_decide as E; [|apply H6]. by intros [= <-].
  - rewrite map_size_insert_None by done. unfold MaxPending in *. lia.
  - intros env'. unfold environment_count. simpl. destruct (decide (environment = env')) as [Eenv|Eenv].
    + rewrite map_filter_insert_True, map_size_insert_None.
      * rewrite (filter_environment_ext q) by done. unfold environment_count in Hb2. fold environment in Hb2.
        rewrite <- Eenv. lia.
      * apply map_lookup_filter_None. by left.
      * simpl. unfold entry_environment. simpl. by rewrite lookup_insert, decide_True.
    + rewrite map_filter_insert_False, delete_id; [|done|].
      * rewrite (filter_environment_ext q) by done. apply H8.
      * simpl. unfold entry_environment. simpl. by rewrite lookup_insert, decide_True.
  - intros p e. rewrite lookup_insert. case_decide as E; [|apply H9]. by intros [= <-].
Qed.

Lemma decide_inv q h t ctx p case q' r :
  queue_inv q h -> Decide q t ctx p case = Some (q', r) -> queue_inv q' h.
Proof.
  intros Hinv. unfold Decide. destruct (heap q !! p) as [item|] eqn:Hp; [simpl|done]. destruct case.
  - destruct (ent_decision item) as [d|] eqn:Hd; [simpl|done]. intros [= <- _].
    eapply set_entry_inv; [exact Hinv|exact Hp|done|done|]. left. auto.
  - destruct (ctx_err t ctx); [|done]. by intros [= <- _].
  - destruct (ctx_err t (ent_ctx item)); [|done]. by intros [= <- _].
  - destruct (_ <=? _)%Z; [|done]. by intros [= <- _].
Qed.

Lemma submit_inv q h t ctx id decision q' p :
  queue_inv q h -> submit q t ctx id decision = Some (q', Ok p) -> queue_inv q' ((p, decision) :: h).
Proof.
  intros Hinv. unfold submit. destruct (ctx_err t ctx); [done|]. destruct (entries q !! id) as [p'|] eqn:Hid; [|done].
  destruct (heap q !! p') as [item|] eqn:Hp; [|done]. destruct (live t item) eqn:Hl; simpl; [|done].
  destruct (ValidateApprovalDecision _ _) as [[]|] eqn:Hv; [|done].
  unfold live in Hl. bool_hyps. destruct (ent_decision item) eqn:Hd; simpl; [done|]. intros [= <- <-].
  eapply set_entry_inv; [exact Hinv|exact Hp|done|done|]. right. exists decision. done.
Qed.

Lemma refused_same q t ctx id decision q' e : submit q t ctx id decision = Some (q', Err e) -> q' = q.
Proof.
  unfold submit. destruct (ctx_err t ctx); [congruence|]. destruct (entries q !! id) as [p|]; [|congruence].
  destruct (heap q !! p) as [item|]; [|congruence]. destruct (live t item); simpl; [|congruence].
  destruct (ValidateApprovalDecision _ _); [|congruence]. destruct (send _ _); simpl; congruence.
Qed.

Lemma complete_inv q h p res err q' :
  queue_inv q h -> Complete q p res err = Some q' -> queue_inv q' h.
Proof.
  intros Hinv. unfold Complete. destruct (heap q !! p) as [item|] eqn:Hp; [|congruence].
  case_bool_decide as Hid; simpl; [|congruence]. destruct (ent_completed item); simpl; [done|]. intros [= <-].
  assert (queue_inv (mkQueue (delete (apr_RequestID (ent_request item)) (entries q)) (heap q) (next q) (lifetime q)) h) as Hdel.
  { destruct Hinv as [H1 H2 H3 H4 H5 H6 H7 H8 H9]. constructor; simpl; try done.
    - intros id p'. rewrite lookup_delete. case_decide; [done|]. apply H1.
    - rewrite map_size_delete, Hid. simpl. lia.
    - intros environment. unfold environment_count. simpl. etransitivity; [|apply (H8 environment)].
      unfold environment_count. rewrite map_filter_delete. apply map_subseteq_size, delete_subseteq. }
  eapply (set_entry_inv _ h h p item) in Hdel; [exact Hdel|done|done| |by left; auto].
  intros id Hin. simpl in Hin. rewrite lookup_delete in Hin. case_decide as E; [done|].
  destruct (inv_entries _ _ Hinv id p Hin) as (e & He & Hr & _). congruence.
Qed.

Lemma receive_inv q h p q' c : queue_inv q h -> receive_completion q p = Some (q', c) -> queue_inv q' h.
Proof.
  intros Hinv. unfold receive_completion. destruct (heap q !! p) as [item|] eqn:Hp; [simpl|done].
  destruct (ent_completed item) as [x|]; [simpl|done]. intros [= <- _].
  eapply set_entry_inv; [exact Hinv|exact Hp|done|done|]. left. auto.
Qed.

Lemma queue_reachable_inv q h : queue_reachable (q, h) -> queue_inv q h.
Proof.
  unfold queue_reachable. intros Hr.
  assert (forall x y, rtc queue_step x y -> queue_inv x.1 x.2 -> queue_inv y.1 y.2) as Hstep.
  { induction 1 as [|x y z Hxy _ IH]; [done|]. intros Hx. apply IH. destruct Hxy; simpl in *;
      [by eapply begin_inv|by eapply decide_inv|by eapply submit_inv| |by eapply complete_inv|by eapply receive_inv].
    apply refused_same in H. by subst. }
  apply (Hstep _ _ Hr), new_queue_inv.
Qed.

(** ** Claims *)

(** One request admitted, approved, delivered and completed. *)
Definition demo_prompt : ApprovalRequest := mkApproval "r1" None demo_request "ask".
Definition demo_moment : moment := mkMoment 0 (fun _ => None).
Definition demo_yes : ApprovalDecision := mkDecision true "".
Definition demo_admitted : Queue := (BeginApproval New_queue demo_moment 0 (Some 100%Z) demo_prompt).1.
Definition demo_submitted : Queue :=
  match submit demo_admitted demo_moment 1 "r1" demo_yes with Some (q, _) => q | None => demo_admitted end.

Lemma demo_queue_reachable : queue_reachable (demo_submitted, [(0%nat, demo_yes)]).
Proof.
  assert (BeginApproval New_queue demo_moment 0 (Some 100%Z) demo_prompt = (demo_admitted, Ok 0%nat)) as H1
    by (vm_compute; reflexivity).
  assert (submit demo_admitted demo_moment 1 "r1" demo_yes = Some (demo_submitted, Ok 0%nat)) as H2
    by (vm_compute; reflexivity).
  eapply rtc_l; [exact (step_begin _ [] _ _ _ _ _ _ H1)|]. apply rtc_once. exact (step_submit _ [] _ _ _ _ _ _ H2).
Qed.

(** No operation of the queue can block on a channel while it holds the mutex. *)
Lemma queue_never_blocks q h :
  queue_reachable (q, h) ->
  (forall t ctx id decision, submit q t ctx id decision <> None) /\
  (forall p res err, Complete q p res err <> None).
Proof.
  intros Hinv%queue_reachable_inv. split.
  - intros t ctx id decision. unfold submit. destruct (ctx_err t ctx); [done|].
    destruct (entries q !! id) as [p|]; [|done]. destruct (heap q !! p) as [item|] eqn:Hp; [|done].
    destruct (live t item) eqn:Hl; simpl; [|done]. destruct (ValidateApprovalDecision _ _); [|done].
    unfold live in Hl. bool_hyps. destruct (inv_unclaimed _ _ Hinv p item Hp) as [-> _]; done.
  - intros p res err. unfold Complete. destruct (heap q !! p) as [item|] eqn:Hp; [|done].
    case_bool_decide as Hid; simpl; [|done]. destruct (inv_entries _ _ Hinv _ _ Hid) as (e & He & _ & Hc).
    assert (e = item) as -> by congruence. by rewrite Hc.
Qed.

(** C25: whatever sequence of admissions, answers, cancellations and completions,
    the queue holds at most 128 requests and at most 16 of one Environment; what
    it shows to a reviewer carries no opaque parameters; and submitting a decision
    and completing a session always return, without blocking on a channel while
    they hold the mutex. *)
Theorem queue_is_bounded q h :
  queue_reachable (q, h) ->
  (size (entries q) <= MaxPending)%nat /\
  (forall environment, (environment_count q environment <= MaxPerEnvironment)%nat) /\
  (forall t prompt, prompt ∈ PendingApprovals q t ->
     is_Some (entries q !! apr_RequestID prompt) /\ req_Parameters (apr_CapabilityRequest prompt) = ∅) /\
  (forall t ctx id decision, submit q t ctx id decision <> None) /\
  (forall p res err, Complete q p res err <> None).
Proof.
  intros Hq. apply queue_reachable_inv in Hq as Hinv.
  split_and!; [apply Hinv|apply Hinv| |by eapply queue_never_blocks|by eapply queue_never_blocks].
  intros t prompt Hin. unfold PendingApprovals in Hin. rewrite sort_by_perm in Hin.
  apply list_elem_of_omap in Hin as ([id p] & Hin & Hp). apply elem_of_map_to_list in Hin. simpl in Hp.
  destruct (inv_entries _ _ Hinv id p Hin) as (e & He & Hid & _). rewrite He in Hp.
  destruct (live t e); [|done]. injection Hp as <-. simpl. split; [rewrite Hid; eauto|done].
Qed.

Lemma queue_is_bounded_witness :
  (size (entries demo_submitted) <= MaxPending)%nat /\ submit demo_submitted demo_moment 2 "r1" demo_yes <> None.
Proof.
  destruct (queue_is_bounded demo_submitted [(0%nat, demo_yes)] demo_queue_reachable) as (Hsize & _ & _ & Hsubmit & _).
  split; [exact Hsize|exact (Hsubmit demo_moment 2 "r1" demo_yes)].
Defined.

(** C24: an admitted request takes at most one decision: the reviewers' answers
    that were accepted are for different entries, each was checked against the
    request it answers, a second answer to the same entry is refused as not
    found, and the decision that a waiting session receives is the one that was
    submitted for it. *)
Theorem one_decision_per_request q h :
  queue_reachable (q, h) ->
  NoDup h.*1 /\
  (forall p d, (p, d) ∈ h -> exists e, heap q !! p = Some e /\ ValidateApprovalDecision (ent_request e) d = Ok tt) /\
  (forall id p t ctx d, entries q !! id = Some p -> p ∈ h.*1 -> ctx_err t ctx = None ->
     submit q t ctx id d = Some (q, Err ErrNotFound)) /\
  (forall t ctx p case q' d, Decide q t ctx p case = Some (q', Ok d) -> (p, d) ∈ h).
Proof.
  intros Hinv%queue_reachable_inv. split_and!; [apply Hinv|apply Hinv| |].
  - intros id p t ctx d Hid Hin Hctx. unfold submit. rewrite Hctx, Hid.
    destruct (heap q !! p) as [item|] eqn:Hp; [|done].
    destruct (ent_claimed item) eqn:Hcl; [unfold live; by rewrite Hcl|].
    destruct (inv_unclaimed _ _ Hinv p item Hp Hcl). done.
  - intros t ctx p case q' d. unfold Decide. destruct (heap q !! p) as [item|] eqn:Hp; [simpl|done].
    destruct case.
    + destruct (ent_decision item) as [d'|] eqn:Hd; [simpl|done].
      destruct (ctx_err t ctx), (ctx_err t (ent_ctx item)); try done.
      destruct (_ <? _)%Z; [|done]. intros [= _ <-]. by apply (inv_buffered _ _ Hinv p item).
    + by destruct (ctx_err t ctx).
    + by destruct (ctx_err t (ent_ctx item)).
    + by destruct (_ <=? _)%Z.
Qed.

Lemma one_decision_per_request_witness :
  submit demo_submitted demo_moment 2 "r1" (mkDecision false "") = Some (demo_submitted, Err ErrNotFound).
Proof.
  destruct (one_decision_per_request demo_submitted [(0%nat, demo_yes)] demo_queue_reachable) as (_ & _ & H & _).
  apply (H "r1" 0%nat); [vm_compute; reflexivity|apply elem_of_cons; by left|reflexivity].
Defined.
