(* ===== verification/Frames.v ===== *)
(** * Byte frames

    The two framings of the stream transports: [src/internal/streamio/framed.go]
    and [src/internal/controller/transport/process_frames.go].  Both send a
    kind byte, a big-endian 32-bit length and the payload.  A reader sees the
    bytes that have arrived and whether the peer has closed; it blocks when it
    needs more. *)

From S2P Require Import Prelude GoText.
From Stdlib Require Import Ascii String.
Open Scope list_scope.

Notation bytes := (list ascii).

(** [len] of a byte slice. *)
Definition blen (b : bytes) : Z := Z.of_nat (List.length b).

(** ** [encoding/binary] *)

Definition byte_of_Z (z : Z) : ascii := ascii_of_N (Z.to_N (z mod 256)).
Definition Z_of_byte (c : ascii) : Z := Z.of_N (byte c).

(** [binary.BigEndian.PutUint32(b, uint32(n))]: the conversion wraps. *)
Definition PutUint32 (n : Z) : bytes :=
  [byte_of_Z (Z.shiftr n 24); byte_of_Z (Z.shiftr n 16); byte_of_Z (Z.shiftr n 8); byte_of_Z n].

(** [binary.BigEndian.Uint32] of the first four bytes. *)
Definition Uint32 (b : bytes) : Z :=
  match b with
  | b0 :: b1 :: b2 :: b3 :: _ =>
    Z.lor (Z.lor (Z_of_byte b3) (Z.shiftl (Z_of_byte b2) 8))
          (Z.lor (Z.shiftl (Z_of_byte b1) 16) (Z.shiftl (Z_of_byte b0) 24))
  | _ => 0
  end.

(** ** Reading *)

Inductive read_error := EOF | UnexpectedEOF | InvalidFrame.

#[export] Instance read_error_eq_dec : EqDecision read_error.
Proof. solve_decision. Defined.

(** A read of a stream: a value and the bytes left, not enough bytes yet, or
    an error. *)
Inductive read_result (A : Type) :=
| Got (a : A) (rest : bytes)
| Blocked
| Broken (e : read_error).
Arguments Got {A}. Arguments Blocked {A}. Arguments Broken {A}.

(** [io.ReadFull] into a buffer of [n] bytes. *)
Definition ReadFull (n : nat) (input : bytes) (closed : bool) : read_result bytes :=
  if (n <=? List.length input)%nat then Got (take n input) (drop n input)
  else if negb closed then Blocked
  else match input with [] => Broken EOF | _ => Broken UnexpectedEOF end.

Definition read_bind {A B} (m : read_result A) (k : A -> bytes -> read_result B) : read_result B :=
  match m with
  | Got a rest => k a rest
  | Blocked => Blocked
  | Broken e => Broken e
  end.

Definition kind_of (header : bytes) : ascii := List.hd NUL header.
Definition size_of (header : bytes) : Z := Uint32 (List.tl header).

(** ** Frames of [FramedConn] *)

Definition frameData : ascii := ascii_of_N 0x10.
Definition frameEOF : ascii := ascii_of_N 0x11.
Definition maxFrameData : Z := 32768.

(** A frame as the receiver queues it: data, or [nil] for the EOF frame. *)
Notation frame := (option bytes).

(** What [writeFrame] sends. *)
Definition frame_bytes (kind : ascii) (data : bytes) : bytes :=
  kind :: PutUint32 (blen data) ++ data.

Definition encode_frame (f : frame) : bytes :=
  match f with
  | Some data => frame_bytes frameData data
  | None => frame_bytes frameEOF []
  end.

(** One round of the loop of [receive]; [ended] is its local variable. *)
Definition receive_frame (ended : bool) (input : bytes) (closed : bool) : read_result frame :=
  match ReadFull 5 input closed with
  | Blocked => Blocked
  | Broken _ => Broken UnexpectedEOF
  | Got header rest =>
    let size := size_of header in
    if (negb (Ascii.eqb (kind_of header) frameData) && negb (Ascii.eqb (kind_of header) frameEOF)) ||
       (maxFrameData <? size)%Z || (Ascii.eqb (kind_of header) frameEOF && negb (size =? 0)%Z) || ended ||
       (Ascii.eqb (kind_of header) frameData && (size =? 0)%Z)
    then Broken InvalidFrame
    else if Ascii.eqb (kind_of header) frameEOF then Got None rest
    else match ReadFull (Z.to_nat size) rest closed with
         | Got data rest => Got (Some data) rest
         | Blocked => Blocked
         | Broken _ => Broken UnexpectedEOF
         end
  end.

(** ** Frames of a process session *)

Definition processInput : ascii := ascii_of_N 1.
Definition processInputEOF : ascii := ascii_of_N 2.
Definition processOutput : ascii := ascii_of_N 3.
Definition processErrorOutput : ascii := ascii_of_N 4.
Definition processCredit : ascii := ascii_of_N 5.
Definition processResult : ascii := ascii_of_N 6.
Definition processInputStop : ascii := ascii_of_N 7.
Definition processChunk : Z := 32768.
Definition MaxProcessResult : Z := 65536.

Definition process_limit (kind : ascii) : Z :=
  if Ascii.eqb kind processResult then MaxProcessResult else processChunk.

Definition readProcessFrame (input : bytes) (closed : bool) : read_result (ascii * bytes) :=
  read_bind (ReadFull 5 input closed) (fun header rest =>
  let size := size_of header in
  if (process_limit (kind_of header) <? size)%Z then Broken InvalidFrame else
  read_bind (ReadFull (Z.to_nat size) rest closed) (fun payload rest => Got (kind_of header, payload) rest)).

(** ** Lemmas *)

Lemma byte_of_Z_value z : Z_of_byte (byte_of_Z z) = (z mod 256)%Z.
Proof.
  unfold Z_of_byte, byte_of_Z, byte. pose proof (Z.mod_pos_bound z 256 eq_refl).
  rewrite N_ascii_embedding by lia. lia.
Qed.

(** One byte of the big-endian encoding, in place. *)
Lemma byte_in_place n k i :
  (0 <= k)%Z -> (0 <= i)%Z ->
  Z.testbit (Z.shiftl (Z.shiftr n k mod 256) k) i = (k <=? i)%Z && (i <? k + 8)%Z && Z.testbit n i.
Proof.
  intros Hk Hi. rewrite Z.shiftl_spec by done. change 256%Z with (2 ^ 8)%Z.
  destruct (Z.leb_spec k i); simpl; [|by rewrite Z.testbit_neg_r by lia].
  destruct (Z.ltb_spec i (k + 8)); simpl.
  - rewrite Z.mod_pow2_bits_low, Z.shiftr_spec by lia. f_equal. lia.
  - apply Z.mod_pow2_bits_high. lia.
Qed.

Lemma Uint32_PutUint32 n rest : Uint32 (PutUint32 n ++ rest) = (n mod 2 ^ 32)%Z.
Proof.
  unfold PutUint32, Uint32. simpl app. cbv iota. rewrite !byte_of_Z_value.
  replace (n mod 256)%Z with (Z.shiftl (Z.shiftr n 0 mod 256) 0) by (by rewrite Z.shiftl_0_r, Z.shiftr_0_r).
  apply Z.bits_inj'. intros i Hi. rewrite !Z.lor_spec, !byte_in_place by lia.
  destruct (Z.testbit n i) eqn:E.
  - rewrite !andb_true_r. destruct (Z.ltb_spec i 32).
    + rewrite (Z.mod_pow2_bits_low n 32), E by lia.
      destruct (Z.ltb_spec i 8), (Z.ltb_spec i 16), (Z.ltb_spec i 24), (Z.leb_spec 8 i), (Z.leb_spec 16 i),
        (Z.leb_spec 24 i), (Z.leb_spec 0 i), (Z.ltb_spec i (0 + 8)), (Z.ltb_spec i (8 + 8)),
        (Z.ltb_spec i (16 + 8)), (Z.ltb_spec i (24 + 8)); try done; lia.
    + rewrite (Z.mod_pow2_bits_high n 32) by lia.
      destruct (Z.ltb_spec i (0 + 8)), (Z.ltb_spec i (8 + 8)), (Z.ltb_spec i (16 + 8)), (Z.ltb_spec i (24 + 8));
        rewrite ?andb_false_r; try done; lia.
  - rewrite !andb_false_r. simpl. destruct (Z.ltb_spec i 32);
      [by rewrite (Z.mod_pow2_bits_low n 32) by lia|by rewrite (Z.mod_pow2_bits_high n 32) by lia].
Qed.

Lemma byte_of_Z_of_byte z c : (z mod 256 = Z_of_byte c)%Z -> byte_of_Z z = c.
Proof. unfold byte_of_Z, Z_of_byte, byte. intros ->. by rewrite N2Z.id, ascii_N_embedding. Qed.

Lemma Z_of_byte_bits c i : (8 <= i)%Z -> Z.testbit (Z_of_byte c) i = false.
Proof.
  intros Hi. pose proof (N_ascii_bounded c). unfold Z_of_byte, byte.
  destruct (decide (N_of_ascii c = 0%N)) as [E|E]; [rewrite E; apply Z.testbit_0_l|].
  apply Z.bits_above_log2; [lia|]. apply (Z.lt_le_trans _ 8); [|done]. apply Z.log2_lt_pow2; lia.
Qed.

(** The 32-bit number of four bytes has exactly these bytes. *)
Lemma Uint32_bytes b0 b1 b2 b3 : PutUint32 (Uint32 [b0; b1; b2; b3]) = [b0; b1; b2; b3].
Proof.
  unfold PutUint32, Uint32.
  assert (forall k z c, (0 <= k)%Z -> (forall i, (0 <= i < 8)%Z -> Z.testbit z (i + k) = Z.testbit (Z_of_byte c) i) ->
    byte_of_Z (Z.shiftr z k) = c) as Hbyte.
  { intros k z c Hk H. apply byte_of_Z_of_byte. apply Z.bits_inj'. intros i Hi. change 256%Z with (2 ^ 8)%Z.
    destruct (Z.ltb_spec i 8).
    - rewrite Z.mod_pow2_bits_low, Z.shiftr_spec, H by lia. done.
    - rewrite Z.mod_pow2_bits_high, Z_of_byte_bits by lia. done. }
  assert (forall c k i, (i < k)%Z -> (0 <= i)%Z -> Z.testbit (Z.shiftl (Z_of_byte c) k) i = false) as Hlow.
  { intros c k i Hk Hi. rewrite Z.shiftl_spec by done. apply Z.testbit_neg_r. lia. }
  assert (forall c k i, (k + 8 <= i)%Z -> (0 <= i)%Z -> Z.testbit (Z.shiftl (Z_of_byte c) k) i = false) as Hhigh.
  { intros c k i Hk Hi. rewrite Z.shiftl_spec by done. apply Z_of_byte_bits. lia. }
  assert (forall c k i, (0 <= i)%Z -> (0 <= k)%Z -> Z.testbit (Z.shiftl (Z_of_byte c) k) (i + k) = Z.testbit (Z_of_byte c) i) as Hhit.
  { intros c k i Hi Hk. rewrite Z.shiftl_spec by lia. f_equal. lia. }
  rewrite <- (Z.shiftl_0_r (Z_of_byte b3)). rewrite <- (Z.shiftr_0_r (Z.lor _ _)) at 4.
  f_equal; [|f_equal; [|f_equal; [|f_equal]]].
  all: apply Hbyte; [lia|intros i Hi]; rewrite !Z.lor_spec, Hhit by lia;
    repeat first [rewrite Hlow by lia | rewrite Hhigh by lia]; by rewrite ?orb_false_r.
Qed.

Lemma ReadFull_app n a rest closed :
  List.length a = n -> ReadFull n (a ++ rest) closed = Got a rest.
Proof.
  intros <-. unfold ReadFull. rewrite length_app.
  replace (_ <=? _)%nat with true by (symmetry; apply Nat.leb_le; lia).
  by rewrite take_app_length, drop_app_length.
Qed.

Lemma ReadFull_got n input closed a rest :
  ReadFull n input closed = Got a rest -> input = a ++ rest /\ List.length a = n.
Proof.
  unfold ReadFull. destruct (Nat.leb_spec n (List.length input)).
  - intros [= <- <-]. rewrite take_drop, length_take. split; [done|lia].
  - destruct closed; [|done]. by destruct input.
Qed.

Lemma ReadFull_short n input :
  (List.length input < n)%nat -> ReadFull n input false = Blocked.
Proof. intros H. unfold ReadFull. by replace (_ <=? _)%nat with false by (symmetry; apply Nat.leb_gt; lia). Qed.

(** The header of a frame gives its kind and, below 2^32, its size. *)
Definition header_bytes (kind : ascii) (n : nat) : bytes := kind :: PutUint32 (Z.of_nat n).

Lemma frame_bytes_header kind data : frame_bytes kind data = header_bytes kind (List.length data) ++ data.
Proof. done. Qed.

Lemma header_size kind data :
  (blen data < 2 ^ 32)%Z -> size_of (header_bytes kind (List.length data)) = blen data.
Proof.
  unfold blen. intros H. unfold size_of, header_bytes. simpl List.tl.
  rewrite <- (app_nil_r (PutUint32 _)), Uint32_PutUint32. apply Z.mod_small. lia.
Qed.

(** A frame within its limit is read back, whatever follows it. *)
Lemma readProcessFrame_frame kind payload rest closed :
  (blen payload <= process_limit kind)%Z ->
  readProcessFrame (frame_bytes kind payload ++ rest) closed = Got (kind, payload) rest.
Proof.
  intros Hl. assert (process_limit kind <= MaxProcessResult)%Z as Hmax.
  { unfold process_limit, MaxProcessResult, processChunk. destruct (Ascii.eqb _ _); lia. }
  unfold readProcessFrame. rewrite frame_bytes_header, <- app_assoc, ReadFull_app by done. cbn [read_bind].
  change (kind_of (header_bytes kind (List.length payload))) with kind.
  rewrite header_size by (unfold MaxProcessResult, blen in *; lia).
  destruct (Z.ltb_spec (process_limit kind) (blen payload)); [lia|].
  unfold blen. by rewrite Nat2Z.id, ReadFull_app.
Qed.

(** The header of a frame is the only header of its kind and size. *)
Lemma header_canonical header :
  List.length header = 5%nat -> header = kind_of header :: PutUint32 (size_of header).
Proof.
  destruct header as [|k [|b0 [|b1 [|b2 [|b3 [|]]]]]]; try done. intros _. unfold kind_of, size_of.
  cbn [List.hd List.tl]. by rewrite Uint32_bytes.
Qed.

Lemma size_of_nonneg header : (0 <= size_of header)%Z.
Proof.
  assert (forall c, 0 <= Z_of_byte c)%Z as Hb by (intros; unfold Z_of_byte; lia).
  unfold size_of, Uint32. destruct (List.tl header) as [|b0 [|b1 [|b2 [|b3 l]]]]; try done.
  rewrite !Z.lor_nonneg, !Z.shiftl_nonneg. auto.
Qed.

(** Reading a frame is the inverse of writing it. *)
Lemma readProcessFrame_exact input closed kind payload rest :
  readProcessFrame input closed = Got (kind, payload) rest <->
  input = frame_bytes kind payload ++ rest /\ (blen payload <= process_limit kind)%Z.
Proof.
  split; [|intros [-> H]; by apply readProcessFrame_frame].
  unfold readProcessFrame. destruct (ReadFull 5 input closed) as [header body| |] eqn:Eh; try done. cbn [read_bind].
  destruct (Z.ltb_spec (process_limit (kind_of header)) (size_of header)) as [|Hsize]; [done|].
  destruct (ReadFull _ body closed) as [p more| |] eqn:Ep; try done. cbn [read_bind]. intros [= <- <- <-].
  apply ReadFull_got in Eh as [-> Hh], Ep as [-> Hp]. pose proof (size_of_nonneg header).
  assert (blen p = size_of header) as Hb by (unfold blen; lia). split; [|lia].
  unfold frame_bytes. rewrite Hb. rewrite (header_canonical header Hh) at 1. done.
Qed.

(** Frames of [FramedConn] that a sender may emit. *)
Definition frame_ok (f : frame) : Prop :=
  match f with Some data => (0 < blen data <= maxFrameData)%Z | None => True end.

Lemma receive_frame_frame f rest closed :
  frame_ok f -> receive_frame false (encode_frame f ++ rest) closed = Got f rest.
Proof.
  unfold receive_frame, encode_frame. destruct f as [data|]; simpl frame_ok; intros Hok;
    rewrite frame_bytes_header, <- app_assoc, ReadFull_app by done; cbv zeta beta iota;
    rewrite (header_size _ _) by (unfold maxFrameData, blen in *; simpl; lia); [|done].
  change (kind_of (header_bytes frameData (List.length data))) with frameData.
  change (Ascii.eqb frameData frameData) with true. change (Ascii.eqb frameData frameEOF) with false. simpl negb. simpl andb.
  destruct (Z.ltb_spec (maxFrameData) (blen data)); [lia|].
  destruct (Z.eqb_spec (blen data) 0); [lia|]. simpl orb. cbv iota.
  unfold blen. by rewrite Nat2Z.id, ReadFull_app.
Qed.

(** A frame that has not fully arrived gives nothing: the reader blocks, or
    reports the break when the peer has closed. *)
Lemma receive_frame_partial f part more :
  frame_ok f -> encode_frame f = part ++ more -> more <> [] ->
  receive_frame false part false = Blocked /\ receive_frame false part true = Broken UnexpectedEOF.
Proof.
  intros Hok Henc Hmore. unfold encode_frame in Henc. assert (exists kind data,
    f = (if Ascii.eqb kind frameEOF then None else Some data) /\ (kind = frameEOF -> data = []) /\
    (kind = frameData \/ kind = frameEOF) /\ header_bytes kind (List.length data) ++ data = part ++ more) as
    (kind & data & Hf & Hnil & Hk & Hbytes).
  { destruct f as [data|]; [exists frameData, data|exists frameEOF, []]; rewrite <- frame_bytes_header, Henc;
      split_and!; auto; done. }
  clear Henc. assert (0 < List.length more)%nat as Hm by (destruct more; simpl; [done|lia]).
  assert (List.length part + List.length more = 5 + List.length data)%nat as Hlen.
  { rewrite <- length_app, <- Hbytes, length_app. done. }
  destruct (Nat.ltb_spec (List.length part) 5) as [Hs|Hs].
  - unfold receive_frame. rewrite ReadFull_short by done. split; [done|].
    unfold ReadFull. replace (5 <=? List.length part)%nat with false by (symmetry; apply Nat.leb_gt; lia).
    by destruct part.
  - assert (exists d1, part = header_bytes kind (List.length data) ++ d1 /\ data = d1 ++ more) as (d1 & -> & Hd).
    { exists (drop 5 part). apply (f_equal (take 5)) in Hbytes as H1. apply (f_equal (drop 5)) in Hbytes as H2.
      rewrite (take_app_le part) in H1 by done. rewrite (drop_app_le part) in H2 by done.
      change (take 5 (header_bytes kind (List.length data) ++ data)) with (header_bytes kind (List.length data)) in H1.
      change (drop 5 (header_bytes kind (List.length data) ++ data)) with data in H2.
      rewrite H1, take_drop. done. }
    destruct Hk as [-> | ->]; [|rewrite Hnil in Hd by done; by destruct d1, more].
    assert (0 < blen data <= maxFrameData)%Z as Hdata by (subst f; exact Hok).
    assert (List.length d1 < List.length data)%nat by (rewrite Hd, length_app; lia).
    unfold receive_frame. rewrite !ReadFull_app by done. cbv zeta beta iota.
    change (kind_of (header_bytes frameData (List.length data))) with frameData.
    change (Ascii.eqb frameData frameData) with true. change (Ascii.eqb frameData frameEOF) with false.
    rewrite header_size by (unfold maxFrameData, blen in *; lia). simpl negb. simpl andb.
    destruct (Z.ltb_spec (maxFrameData) (blen data)); [lia|].
    destruct (Z.eqb_spec (blen data) 0); [lia|]. simpl orb. cbv iota. unfold blen. rewrite Nat2Z.id.
    unfold ReadFull. replace (List.length data <=? List.length d1)%nat with false by (symmetry; apply Nat.leb_gt; lia).
    split; [done|]. simpl. by destruct d1.
Qed.
