(* ===== verification/FramedConn.v ===== *)
(** * Framed connections

    [src/internal/streamio/framed.go]: a byte stream with half-close over a
    pair of process pipes.  The state holds both directions; [receive], the
    goroutine that reads the input pipe, is three steps (read a frame, queue
    it, return), so that every interleaving with [Read], [Write], a failure or
    a timer is an execution. *)

From S2P Require Import Prelude GoText Frames.
From Stdlib Require Import Ascii String.
Open Scope list_scope.

Inductive conn_error :=
| ReadCause (e : read_error)
| ErrClosedConn
| ErrDeadline
| ErrShortWrite
| ErrClosedPipe
| ErrOutput.

#[export] Instance conn_error_eq_dec : EqDecision conn_error.
Proof. solve_decision. Defined.

(** [fc_input] is what has arrived on the input pipe and [fc_output] what was
    written to the output pipe; [fc_ended] and [fc_pending] are local to
    [receive]; [fc_frames] is the one-slot channel. *)
Record FramedConn := mkConn {
  fc_input : bytes;
  fc_closed : bool;
  fc_ended : bool;
  fc_pending : option frame;
  fc_stopped : bool;
  fc_frames : option frame;
  fc_buffer : bytes;
  fc_eof : bool;
  fc_cause : option conn_error;
  fc_output : bytes;
  fc_writeEOF : bool;
  fc_readGeneration : Z;
  fc_writeGeneration : Z }.

Definition NewFramedConn : FramedConn :=
  mkConn [] false false None false None [] false None [] false 0 0.

(** Assignments to the fields. *)
Definition set_input i c := mkConn i (fc_closed c) (fc_ended c) (fc_pending c) (fc_stopped c) (fc_frames c) (fc_buffer c) (fc_eof c) (fc_cause c) (fc_output c) (fc_writeEOF c) (fc_readGeneration c) (fc_writeGeneration c).
Definition set_closed b c := mkConn (fc_input c) b (fc_ended c) (fc_pending c) (fc_stopped c) (fc_frames c) (fc_buffer c) (fc_eof c) (fc_cause c) (fc_output c) (fc_writeEOF c) (fc_readGeneration c) (fc_writeGeneration c).
Definition set_ended b c := mkConn (fc_input c) (fc_closed c) b (fc_pending c) (fc_stopped c) (fc_frames c) (fc_buffer c) (fc_eof c) (fc_cause c) (fc_output c) (fc_writeEOF c) (fc_readGeneration c) (fc_writeGeneration c).
Definition set_pending f c := mkConn (fc_input c) (fc_closed c) (fc_ended c) f (fc_stopped c) (fc_frames c) (fc_buffer c) (fc_eof c) (fc_cause c) (fc_output c) (fc_writeEOF c) (fc_readGeneration c) (fc_writeGeneration c).
Definition set_stopped b c := mkConn (fc_input c) (fc_closed c) (fc_ended c) (fc_pending c) b (fc_frames c) (fc_buffer c) (fc_eof c) (fc_cause c) (fc_output c) (fc_writeEOF c) (fc_readGeneration c) (fc_writeGeneration c).
Definition set_frames f c := mkConn (fc_input c) (fc_closed c) (fc_ended c) (fc_pending c) (fc_stopped c) f (fc_buffer c) (fc_eof c) (fc_cause c) (fc_output c) (fc_writeEOF c) (fc_readGeneration c) (fc_writeGeneration c).
Definition set_buffer b c := mkConn (fc_input c) (fc_closed c) (fc_ended c) (fc_pending c) (fc_stopped c) (fc_frames c) b (fc_eof c) (fc_cause c) (fc_output c) (fc_writeEOF c) (fc_readGeneration c) (fc_writeGeneration c).
Definition set_eof b c := mkConn (fc_input c) (fc_closed c) (fc_ended c) (fc_pending c) (fc_stopped c) (fc_frames c) (fc_buffer c) b (fc_cause c) (fc_output c) (fc_writeEOF c) (fc_readGeneration c) (fc_writeGeneration c).
Definition set_cause e c := mkConn (fc_input c) (fc_closed c) (fc_ended c) (fc_pending c) (fc_stopped c) (fc_frames c) (fc_buffer c) (fc_eof c) e (fc_output c) (fc_writeEOF c) (fc_readGeneration c) (fc_writeGeneration c).
Definition set_output o c := mkConn (fc_input c) (fc_closed c) (fc_ended c) (fc_pending c) (fc_stopped c) (fc_frames c) (fc_buffer c) (fc_eof c) (fc_cause c) o (fc_writeEOF c) (fc_readGeneration c) (fc_writeGeneration c).
Definition set_writeEOF b c := mkConn (fc_input c) (fc_closed c) (fc_ended c) (fc_pending c) (fc_stopped c) (fc_frames c) (fc_buffer c) (fc_eof c) (fc_cause c) (fc_output c) b (fc_readGeneration c) (fc_writeGeneration c).
Definition set_generation (read : bool) g c := mkConn (fc_input c) (fc_closed c) (fc_ended c) (fc_pending c) (fc_stopped c) (fc_frames c) (fc_buffer c) (fc_eof c) (fc_cause c) (fc_output c) (fc_writeEOF c)
  (if read then g else fc_readGeneration c) (if read then fc_writeGeneration c else g).

(** ** Failure and deadlines *)

(** [failLocked] and, when it changed the state, [closePipes]. *)
Definition fail (err : conn_error) (c : FramedConn) : FramedConn :=
  match fc_cause c with
  | Some _ => c
  | None => set_closed true (set_cause (Some err) c)
  end.

Definition generation (read : bool) (c : FramedConn) : Z :=
  if read then fc_readGeneration c else fc_writeGeneration c.

(** [setDeadline]: the generation that a timer started here captures, [None]
    for the zero time; [Err] on a failed connection.  Generations are uint64. *)
Definition setDeadline (zero read : bool) (c : FramedConn) : FramedConn * (option Z + conn_error) :=
  match fc_cause c with
  | Some _ => (c, inr ErrClosedConn)
  | None =>
    let expected := ((generation read c + 1) mod 2 ^ 64)%Z in
    (set_generation read expected c, inl (if zero then None else Some expected))
  end.

(** The callback of a timer: only the latest deadline may fail the connection. *)
Definition timer_fired (expected : Z) (read : bool) (c : FramedConn) : FramedConn :=
  if (generation read c =? expected)%Z then fail ErrDeadline c else c.

(** ** The receiving goroutine *)

(** Read the next frame; [None] while it blocks (or has one to queue). *)
Definition receive_read (c : FramedConn) : option FramedConn :=
  if fc_stopped c then None else
  match fc_pending c with
  | Some _ => None
  | None =>
    match receive_frame (fc_ended c) (fc_input c) (fc_closed c) with
    | Blocked => None
    | Broken e => Some (set_stopped true (fail (ReadCause e) c))
    | Got f rest =>
      let c := set_pending (Some f) (set_input rest c) in
      Some (match f with None => set_ended true c | Some _ => c end)
    end
  end.

(** [case c.frames <- data]. *)
Definition receive_queue (c : FramedConn) : option FramedConn :=
  match fc_stopped c, fc_pending c, fc_frames c with
  | false, Some f, None => Some (set_pending None (set_frames (Some f) c))
  | _, _, _ => None
  end.

(** [case <-c.done]. *)
Definition receive_done (c : FramedConn) : option FramedConn :=
  match fc_stopped c, fc_pending c, fc_cause c with
  | false, Some _, Some _ => Some (set_stopped true c)
  | _, _, _ => None
  end.

(** ** Reading *)

Inductive read_outcome :=
| ReadData (data : bytes)
| ReadEOF
| ReadFailed (e : conn_error).

(** [Read] into a buffer of [n] bytes; [None] while it waits for a frame. *)
Definition Read (n : nat) (c : FramedConn) : option (FramedConn * read_outcome) :=
  if (n =? 0)%nat then Some (c, ReadData []) else
  if fc_eof c then Some (c, ReadEOF) else
  let copy c := Some (set_buffer (drop n (fc_buffer c)) c, ReadData (take n (fc_buffer c))) in
  match fc_buffer c with
  | _ :: _ => copy c
  | [] =>
    match fc_frames c with
    | Some None => Some (set_eof true (set_frames None c), ReadEOF)
    | Some (Some data) => copy (set_buffer data (set_frames None c))
    | None =>
      match fc_cause c with
      | Some e => Some (c, ReadFailed e)
      | None => None
      end
    end
  end.

(** ** Writing *)

(** What each [Write] of the output pipe returns; when the list is used up the
    pipe takes everything. *)
Notation responses := (list (Z * option conn_error)).

(** The inner loop of [writeFrame]: bytes that reached the pipe. *)
Fixpoint write_part (rs : responses) (part : bytes) : bytes * responses * option conn_error :=
  match part, rs with
  | [], _ => ([], rs, None)
  | _, [] => (part, [], None)
  | _, (n, err) :: rs =>
    let '(n, err) := if (n <? 0)%Z || (blen part <? n)%Z then (0%Z, Some ErrShortWrite) else (n, err) in
    let sent := take (Z.to_nat n) part in
    let err := match err with None => if (n =? 0)%Z then Some ErrShortWrite else None | Some e => Some e end in
    match err with
    | Some e => (sent, rs, Some e)
    | None => let '(more, rs, err) := write_part rs (drop (Z.to_nat n) part) in (sent ++ more, rs, err)
    end
  end.

Definition writeFrame (kind : ascii) (data : bytes) (rs : responses) (c : FramedConn)
  : FramedConn * responses * option conn_error :=
  let '(out, rs, err) := write_part rs (header_bytes kind (List.length data)) in
  let c := set_output (fc_output c ++ out) c in
  match err with
  | Some e => (fail e c, rs, Some e)
  | None =>
    let '(out, rs, err) := write_part rs data in
    let c := set_output (fc_output c ++ out) c in
    match err with
    | Some e => (fail e c, rs, Some e)
    | None => (c, rs, None)
    end
  end.

(** The loop of [Write]; every round but the last sends [maxFrameData] bytes,
    so the length of the data is enough fuel. *)
Fixpoint data_loop (fuel : nat) (p : bytes) (rs : responses) (n : nat) (c : FramedConn)
  : FramedConn * nat * option conn_error :=
  match fuel, p with
  | S fuel, _ :: _ =>
    let size := Nat.min (List.length p) (Z.to_nat maxFrameData) in
    let '(c, rs, err) := writeFrame frameData (take size p) rs c in
    match err with
    | Some e => (c, n, Some e)
    | None => data_loop fuel (drop size p) rs (n + size) c
    end
  | _, _ => (c, n, None)
  end.

Definition Write (p : bytes) (rs : responses) (c : FramedConn) : FramedConn * nat * option conn_error :=
  if fc_writeEOF c then (c, 0, Some ErrClosedPipe) else
  match fc_cause c with
  | Some e => (c, 0, Some e)
  | None => data_loop (List.length p) p rs 0 c
  end.

Definition CloseWrite (rs : responses) (c : FramedConn) : FramedConn * option conn_error :=
  if fc_writeEOF c then (c, None) else
  match fc_cause c with
  | Some e => (c, Some e)
  | None => let '(c, _, err) := writeFrame frameEOF [] rs (set_writeEOF true c) in (c, err)
  end.

(** [Close] fails the connection; it then waits for [receive] to return. *)
Definition Close (c : FramedConn) : FramedConn := fail ErrClosedConn c.

(** ** A stream between two connections *)

(** One direction: the bytes handed to [Write] so far, the connections, the
    bytes in the pipe between them, and what [Read] returned. *)
Record stream := mkStream {
  st_sent : bytes;
  st_sender : FramedConn;
  st_wire : bytes;
  st_receiver : FramedConn;
  st_received : bytes;
  st_ended : bool }.

Definition new_stream : stream := mkStream [] NewFramedConn [] NewFramedConn [] false.

(** What an operation of the sender put on the pipe. *)
Definition emitted (before after : FramedConn) : bytes :=
  drop (List.length (fc_output before)) (fc_output after).

(** A [Write] that got past its first checks. *)
Definition write_begins (c : FramedConn) : bool :=
  negb (fc_writeEOF c) && (match fc_cause c with None => true | Some _ => false end).

(** A failure from outside: [Close], a deadline, or the other direction. *)
Definition external (e : conn_error) : Prop := match e with ReadCause _ => False | _ => True end.

Inductive stream_step : stream -> stream -> Prop :=
| step_write s p rs c n err :
    Write p rs (st_sender s) = (c, n, err) ->
    stream_step s (mkStream (if write_begins (st_sender s) then st_sent s ++ p else st_sent s) c
      (st_wire s ++ emitted (st_sender s) c) (st_receiver s) (st_received s) (st_ended s))
| step_close_write s rs c err :
    CloseWrite rs (st_sender s) = (c, err) ->
    stream_step s (mkStream (st_sent s) c (st_wire s ++ emitted (st_sender s) c)
      (st_receiver s) (st_received s) (st_ended s))
| step_sender_fails s e :
    external e ->
    stream_step s (mkStream (st_sent s) (fail e (st_sender s)) (st_wire s) (st_receiver s) (st_received s) (st_ended s))
| step_deliver s now later :
    st_wire s = now ++ later -> fc_closed (st_receiver s) = false ->
    stream_step s (mkStream (st_sent s) (st_sender s) later
      (set_input (fc_input (st_receiver s) ++ now) (st_receiver s)) (st_received s) (st_ended s))
| step_cut s :
    stream_step s (mkStream (st_sent s) (st_sender s) (st_wire s) (set_closed true (st_receiver s))
      (st_received s) (st_ended s))
| step_receive s c :
    receive_read (st_receiver s) = Some c \/ receive_queue (st_receiver s) = Some c \/
    receive_done (st_receiver s) = Some c ->
    stream_step s (mkStream (st_sent s) (st_sender s) (st_wire s) c (st_received s) (st_ended s))
| step_receiver_fails s e :
    external e ->
    stream_step s (mkStream (st_sent s) (st_sender s) (st_wire s) (fail e (st_receiver s)) (st_received s) (st_ended s))
| step_read s n c out :
    Read n (st_receiver s) = Some (c, out) ->
    stream_step s (mkStream (st_sent s) (st_sender s) (st_wire s) c
      (match out with ReadData data => st_received s ++ data | _ => st_received s end)
      (match out with ReadEOF => true | _ => st_ended s end)).

Definition stream_reachable (s : stream) : Prop := rtc stream_step new_stream s.
