(* ===== verification/FramedProperties.v ===== *)
(** * Framed connections: properties

    A pair of framed connections is a byte stream: whatever the interleaving,
    the partial writes, the failures and the cut of the pipe, the reader gets a
    prefix of what was written, and end-of-file only after all of it. *)

From S2P Require Import Prelude GoText Frames FramedConn.
From Stdlib Require Import Ascii String.
Open Scope list_scope.

#[local] Arguments header_bytes : simpl never.
#[local] Arguments frame_bytes : simpl never.

(** ** Sequences of frames *)

Definition data_of (fs : list frame) : bytes := mjoin (default [] <$> fs).
Definition encode_frames (fs : list frame) : bytes := mjoin (encode_frame <$> fs).

Lemma data_of_app fs gs : data_of (fs ++ gs) = data_of fs ++ data_of gs.
Proof. unfold data_of. by rewrite fmap_app, join_app. Qed.
Lemma data_of_cons f fs : data_of (f :: fs) = default [] f ++ data_of fs.
Proof. done. Qed.
Lemma encode_frames_app fs gs : encode_frames (fs ++ gs) = encode_frames fs ++ encode_frames gs.
Proof. unfold encode_frames. by rewrite fmap_app, join_app. Qed.
Lemma encode_frames_cons f fs : encode_frames (f :: fs) = encode_frame f ++ encode_frames fs.
Proof. done. Qed.
Lemma encode_frame_long f : (5 <= List.length (encode_frame f))%nat.
Proof. destruct f as [data|]; unfold encode_frame, frame_bytes, PutUint32; simpl; lia. Qed.

(** ** Writing *)

Lemma write_part_spec rs part out rs' err :
  write_part rs part = (out, rs', err) -> exists more, part = out ++ more /\ (err = None -> more = []).
Proof.
  revert part out rs' err. induction rs as [|[n e] rs IH]; intros part out rs' err H.
  - destruct part; simpl in H; injection H as <- <- <-; exists []; by rewrite ?app_nil_r.
  - destruct part as [|c part]; simpl in H; [injection H as <- <- <-; by exists []|].
    destruct (if _ || _ then _ else _) as [n' e'] eqn:E1.
    destruct (match e' with Some _ => _ | None => _ end) as [x|] eqn:E2.
    + injection H as <- <- <-. exists (drop (Z.to_nat n') (c :: part)). by rewrite take_drop.
    + destruct (write_part rs (drop (Z.to_nat n') (c :: part))) as [[more rs2] err2] eqn:E3. injection H as <- <- <-.
      destruct (IH _ _ _ _ E3) as (rest & Hr & Hn). exists rest. split; [|done].
      rewrite <- app_assoc, <- Hr. by rewrite take_drop.
Qed.

(** The sender after a frame: all of it is on the pipe, or the connection has
    failed with a part of it there. *)
Lemma writeFrame_spec kind data rs c c' rs' err :
  fc_cause c = None -> writeFrame kind data rs c = (c', rs', err) ->
  exists out more, fc_output c' = fc_output c ++ out /\ frame_bytes kind data = out ++ more /\
    fc_writeEOF c' = fc_writeEOF c /\
    (err = None /\ more = [] /\ fc_cause c' = None \/ err <> None /\ fc_cause c' <> None).
Proof.
  intros Hc. unfold writeFrame. rewrite frame_bytes_header. generalize (header_bytes kind (List.length data)) as header.
  intros header.
  destruct (write_part rs _) as [[out1 rs1] err1] eqn:E1.
  destruct (write_part_spec _ _ _ _ _ E1) as (more1 & H1 & Hn1). destruct err1 as [e|].
  - intros [= <- _ <-]. exists out1, (more1 ++ data). unfold fail. simpl. rewrite Hc. simpl.
    rewrite H1, <- app_assoc. split_and!; [done..|by right].
  - rewrite Hn1, app_nil_r in H1 by done. destruct (write_part rs1 data) as [[out2 rs2] err2] eqn:E2.
    destruct (write_part_spec _ _ _ _ _ E2) as (more2 & H2 & Hn2). subst out1. destruct err2 as [e|].
    + intros [= <- _ <-]. exists (header ++ out2), more2. unfold fail. simpl. rewrite Hc. simpl.
      rewrite H2, <- !app_assoc. split_and!; [done..|by right].
    + intros [= <- _ <-]. exists (header ++ out2), more2. simpl. rewrite H2, <- !app_assoc.
      split_and!; [done..|left; auto].
Qed.

(** What a sender puts on the pipe: whole frames, and the beginning of one if
    it failed. *)
Definition tail_ok (tail : bytes) (failed : Prop) : Prop :=
  tail = [] \/ failed /\ exists f more, frame_ok f /\ encode_frame f = tail ++ more /\ more <> [].

Lemma data_loop_spec fuel p rs n c c' n' err :
  fc_cause c = None -> (List.length p <= fuel)%nat -> data_loop fuel p rs n c = (c', n', err) ->
  exists fs tail rem, fc_output c' = fc_output c ++ encode_frames fs ++ tail /\
    Forall frame_ok fs /\ None ∉ fs /\ p = data_of fs ++ rem /\ fc_writeEOF c' = fc_writeEOF c /\
    tail_ok tail (fc_cause c' <> None) /\ (rem <> [] -> fc_cause c' <> None).
Proof.
  revert p rs n c. induction fuel as [|fuel IH]; intros p rs n c Hc Hl H.
  { destruct p; simpl in *; [|lia]. injection H as <- _ _. exists [], [], []. rewrite !app_nil_r.
    split_and!; try done; [|by left]. intros Hin. by apply not_elem_of_nil in Hin. }
  destruct p as [|x p]; cbn [data_loop] in H.
  { injection H as <- _ _. exists [], [], []. rewrite !app_nil_r.
    split_and!; try done; [|by left]. intros Hin. by apply not_elem_of_nil in Hin. }
  set (size := Nat.min _ _) in H. set (chunk := take size (x :: p)) in *. set (rest := drop size (x :: p)) in *.
  assert (x :: p = chunk ++ rest) as Hp by (symmetry; apply take_drop).
  assert (frame_ok (Some chunk) /\ (List.length rest <= fuel)%nat) as [Hok Hrest].
  { unfold frame_ok, blen, chunk, rest. rewrite length_take, length_drop. unfold size, maxFrameData.
    cbn [List.length] in *. lia. }
  clearbody chunk rest size.
  destruct (writeFrame frameData chunk rs c) as [[c1 rs1] err1] eqn:E.
  destruct (writeFrame_spec _ _ _ _ _ _ _ Hc E) as (out & more & Hout & Hbytes & Hw & Hcases).
  destruct Hcases as [(-> & -> & Hc1)|[Herr Hc1]].
  - rewrite app_nil_r in Hbytes. apply IH in H as (fs & tail & rem & H1 & H2 & H3 & H4 & H5 & H6 & H7); [|done|done].
    exists (Some chunk :: fs), tail, rem. rewrite H1, Hout, encode_frames_cons, data_of_cons. simpl.
    rewrite Hp, H4, <- Hbytes, <- !app_assoc. split_and!; [done|by constructor| |done|congruence|done|done].
    by apply not_elem_of_cons.
  - destruct err1 as [e|]; [|done]. injection H as <- _ _.
    destruct (decide (more = [])) as [->|Hmore].
    + rewrite app_nil_r in Hbytes. exists [Some chunk], [], rest. rewrite Hout, encode_frames_cons, data_of_cons.
      simpl. rewrite <- Hbytes, !app_nil_r. split_and!; try done; [by constructor; [|constructor]| |by left].
      intros Hin. apply elem_of_cons in Hin as [?|Hin]; [done|]. by apply not_elem_of_nil in Hin.
    + exists [], out, (x :: p). rewrite Hout. split_and!; try done.
      * intros Hin. by apply not_elem_of_nil in Hin.
      * right. split; [done|]. by exists (Some chunk), more.
Qed.

(** ** The invariant *)

(** Frames between the receiving goroutine and [Read]. *)
Definition queued (c : FramedConn) : list frame := option_list (fc_frames c) ++ option_list (fc_pending c).

(** [fsr] are the frames [Read] has taken, [fs2] those still in the pipe. *)
Record stream_inv_at (s : stream) (fsr fs2 : list frame) (tail rem : bytes) : Prop := {
  inv_wire : fc_input (st_receiver s) ++ st_wire s = encode_frames fs2 ++ tail;
  inv_frames : Forall frame_ok (fsr ++ queued (st_receiver s) ++ fs2);
  inv_tail : tail_ok tail (fc_cause (st_sender s) <> None);
  inv_sent : st_sent s = data_of (fsr ++ queued (st_receiver s) ++ fs2) ++ rem;
  inv_rem : rem <> [] -> fc_cause (st_sender s) <> None;
  inv_eof_last : forall pre post, fsr ++ queued (st_receiver s) ++ fs2 = pre ++ None :: post ->
    post = [] /\ rem = [] /\ tail = [] /\ fc_writeEOF (st_sender s) = true;
  inv_received : st_received s ++ fc_buffer (st_receiver s) = data_of fsr;
  inv_eof : fc_eof (st_receiver s) = true <-> None ∈ fsr;
  inv_reported : st_ended s = true -> None ∈ fsr;
  inv_half : fc_writeEOF (st_sender s) = true -> fc_cause (st_sender s) = None ->
    None ∈ fsr ++ queued (st_receiver s) ++ fs2;
  inv_drained : None ∈ fsr -> fc_buffer (st_receiver s) = [];
  inv_ended : fc_ended (st_receiver s) = true <-> None ∈ fsr ++ queued (st_receiver s);
  inv_valid : fc_cause (st_receiver s) <> Some (ReadCause InvalidFrame) }.

Definition stream_inv (s : stream) : Prop := exists fsr fs2 tail rem, stream_inv_at s fsr fs2 tail rem.

Lemma new_stream_inv : stream_inv new_stream.
Proof.
  exists [], [], [], []. constructor; simpl; try done.
  - by left.
  - intros pre post H. by destruct pre.
  - split; [done|]. intros H. by apply not_elem_of_nil in H.
  - split; [done|]. intros H. by apply not_elem_of_nil in H.
Qed.

(** An end-of-file frame is the last frame of all. *)
Lemma eof_last s fsr fs2 tail rem :
  stream_inv_at s fsr fs2 tail rem -> None ∈ fsr ++ queued (st_receiver s) ++ fs2 ->
  fc_writeEOF (st_sender s) = true /\ rem = [] /\ tail = [].
Proof.
  intros Hinv (pre & post & E)%list_elem_of_split. by destruct (inv_eof_last _ _ _ _ _ Hinv pre post E) as (_ & ? & ? & ?).
Qed.

Lemma fail_same_output e c : fc_output (fail e c) = fc_output c /\ fc_writeEOF (fail e c) = fc_writeEOF c.
Proof. unfold fail. by destruct (fc_cause c). Qed.

Lemma fail_cause e c : fc_cause c <> None \/ fc_cause (fail e c) = Some e.
Proof. unfold fail. destruct (fc_cause c); [by left|by right]. Qed.

Lemma app_split_last {A} (l : list A) x pre y post :
  l ++ [x] = pre ++ y :: post -> (post = [] /\ l = pre /\ x = y) \/ exists post', post = post' ++ [x] /\ l = pre ++ y :: post'.
Proof.
  induction post as [|z post _] using rev_ind.
  - intros H. apply app_inj_tail in H as [-> ->]. by left.
  - rewrite app_comm_cons, app_assoc. intros H. apply app_inj_tail in H as [-> ->]. right. by exists post.
Qed.

(** The sender puts frames on the pipe: data while it is open, then at most one
    end of file. *)
Lemma sender_inv s fsr fs2 fs tail rem c p :
  stream_inv_at s fsr fs2 [] [] ->
  fc_output c = fc_output (st_sender s) ++ encode_frames fs ++ tail ->
  Forall frame_ok fs -> p = data_of fs ++ rem ->
  tail_ok tail (fc_cause c <> None) -> (rem <> [] -> fc_cause c <> None) ->
  None ∉ fsr ++ queued (st_receiver s) ++ fs2 ->
  (None ∉ fs \/ fs = [None] /\ tail = [] /\ rem = [] /\ fc_writeEOF c = true) ->
  (fc_writeEOF c = true -> fc_cause c = None -> None ∈ fs) ->
  stream_inv (mkStream (st_sent s ++ p) c (st_wire s ++ emitted (st_sender s) c) (st_receiver s)
                (st_received s) (st_ended s)).
Proof.
  intros Hinv Hout Hfs Hp Htail Hrem Hnone Hend Hclosed. exists fsr, (fs2 ++ fs), tail, rem.
  destruct Hinv as [H1 H2 H3 H4 H5 H6 H7 H8 Hrep Hhalf H9 H10 H11]. rewrite app_nil_r in H1, H4.
  assert (emitted (st_sender s) c = encode_frames fs ++ tail) as Hem.
  { unfold emitted. by rewrite Hout, drop_app_length. }
  constructor; simpl; try done.
  - by rewrite Hem, encode_frames_app, app_assoc, H1, <- !app_assoc.
  - rewrite !app_assoc, <- (app_assoc fsr). by apply Forall_app.
  - by rewrite H4, Hp, !app_assoc, <- (app_assoc fsr), (data_of_app _ fs), <- !app_assoc.
  - intros pre post E. rewrite !app_assoc, <- (app_assoc fsr) in E.
    destruct Hend as [Hn|(-> & -> & -> & Hw)].
    + exfalso. assert (None ∈ (fsr ++ queued (st_receiver s) ++ fs2) ++ fs) as Hin.
      { rewrite E. apply elem_of_app. right. by apply elem_of_cons; left. }
      apply elem_of_app in Hin as [?|?]; done.
    + apply app_split_last in E as [(-> & _ & _)|(post' & _ & E)]; [done|]. exfalso. apply Hnone. rewrite E.
      apply elem_of_app. right. by apply elem_of_cons; left.
  - intros Hw Hc. rewrite !elem_of_app. auto.
Qed.

Lemma write_inv s p rs c n err :
  stream_inv s -> Write p rs (st_sender s) = (c, n, err) ->
  stream_inv (mkStream (if write_begins (st_sender s) then st_sent s ++ p else st_sent s) c
    (st_wire s ++ emitted (st_sender s) c) (st_receiver s) (st_received s) (st_ended s)).
Proof.
  intros (fsr & fs2 & tail & rem & Hinv) H. unfold Write, write_begins in *.
  destruct (fc_writeEOF (st_sender s)) eqn:Hw; [|destruct (fc_cause (st_sender s)) eqn:Hc]; simpl.
  1,2: injection H as <- _ _; unfold emitted; rewrite drop_all, app_nil_r; exists fsr, fs2, tail, rem;
    destruct Hinv; by constructor.
  assert (tail = [] /\ rem = []) as [-> ->].
  { split; [destruct (inv_tail _ _ _ _ _ Hinv) as [?|[? _]]; [done|congruence]|].
    destruct rem; [done|]. by destruct (inv_rem _ _ _ _ _ Hinv). }
  apply data_loop_spec in H as (fs & tail & rem & Hout & Hok & Hn & Hp & Hweof & Htail & Hrem); [|done..].
  eapply sender_inv; try done; [|by left|congruence].
  intros Hin. apply (eof_last _ _ _ _ _ Hinv) in Hin as [? _]. congruence.
Qed.

Lemma close_write_inv s rs c err :
  stream_inv s -> CloseWrite rs (st_sender s) = (c, err) ->
  stream_inv (mkStream (st_sent s) c (st_wire s ++ emitted (st_sender s) c) (st_receiver s) (st_received s) (st_ended s)).
Proof.
  intros (fsr & fs2 & tail & rem & Hinv) H. unfold CloseWrite in *.
  destruct (fc_writeEOF (st_sender s)) eqn:Hw; [|destruct (fc_cause (st_sender s)) eqn:Hc].
  1,2: injection H as <- _; unfold emitted; rewrite drop_all, app_nil_r; exists fsr, fs2, tail, rem;
    destruct Hinv; by constructor.
  assert (tail = [] /\ rem = []) as [-> ->].
  { split; [destruct (inv_tail _ _ _ _ _ Hinv) as [?|[? _]]; [done|congruence]|].
    destruct rem; [done|]. by destruct (inv_rem _ _ _ _ _ Hinv). }
  destruct (writeFrame frameEOF [] rs _) as [[c1 rs1] err1] eqn:E. injection H as <- <-.
  apply writeFrame_spec in E as (out & more & Hout & Hbytes & Hweof & Hcases); [|done].
  assert (None ∉ fsr ++ queued (st_receiver s) ++ fs2) as Hnone.
  { intros Hin. apply (eof_last _ _ _ _ _ Hinv) in Hin as [? _]. congruence. }
  rewrite <- (app_nil_r (st_sent s)). destruct (decide (more = [])) as [->|Hmore].
  - rewrite app_nil_r in Hbytes.
    eapply (sender_inv s fsr fs2 [None] [] []); [done| |by repeat constructor|done|by left|done|done|by right|].
    2:{ intros _ _. by apply elem_of_cons; left. }
    rewrite Hout. change (encode_frames [None]) with (frame_bytes frameEOF [] ++ []).
    by rewrite !app_nil_r, Hbytes.
  - destruct Hcases as [(_ & ? & _)|[_ Hfail]]; [done|].
    eapply (sender_inv s fsr fs2 [] out []); [done|by rewrite Hout|constructor|done| |done|done| |done].
    + right. split; [done|]. exists None, more. done.
    + left. intros Hin. by apply not_elem_of_nil in Hin.
Qed.

(** The next thing the receiving goroutine sees: the next frame if it has fully
    arrived, otherwise nothing or a broken pipe. *)
Lemma receive_next fs2 tail failed input wire closed :
  input ++ wire = encode_frames fs2 ++ tail -> Forall frame_ok fs2 -> tail_ok tail failed ->
  (exists f fs2' rest, fs2 = f :: fs2' /\ rest ++ wire = encode_frames fs2' ++ tail /\
     receive_frame false input closed = Got f rest) \/
  receive_frame false input closed = (if closed then Broken UnexpectedEOF else Blocked).
Proof.
  intros Hw Hok Htail.
  assert (forall f more, frame_ok f -> encode_frame f = input ++ more -> more <> [] ->
    receive_frame false input closed = (if closed then Broken UnexpectedEOF else Blocked)) as Hpart.
  { intros f more Hf He Hm. destruct (receive_frame_partial f input more Hf He Hm) as [? ?]. by destruct closed. }
  destruct fs2 as [|f fs2].
  - right. simpl in Hw. destruct Htail as [->|(_ & f & more & Hf & He & Hm)].
    + apply app_nil in Hw as [-> ->]. by destruct closed.
    + apply (Hpart f (wire ++ more)); [done|by rewrite He, <- Hw, app_assoc|]. by intros [_ ?]%app_nil.
  - rewrite encode_frames_cons, <- app_assoc in Hw. apply Forall_cons in Hok as [Hf Hok].
    apply app_eq_inv in Hw as [(k & -> & Hk)|(k & He & Hk)].
    + left. exists f, fs2, k. by rewrite receive_frame_frame.
    + destruct (decide (k = [])) as [->|Hk0].
      * left. rewrite app_nil_r in He. exists f, fs2, []. split; [done|]. split; [by rewrite Hk|].
        rewrite <- He, <- (app_nil_r (encode_frame f)). by apply receive_frame_frame.
      * right. by apply (Hpart f k).
Qed.

(** Changes of the receiver that leave its frames alone. *)
Lemma receiver_inv s c fsr fs2 tail rem :
  stream_inv_at s fsr fs2 tail rem ->
  fc_input c = fc_input (st_receiver s) -> queued c = queued (st_receiver s) ->
  fc_buffer c = fc_buffer (st_receiver s) -> fc_eof c = fc_eof (st_receiver s) ->
  fc_ended c = fc_ended (st_receiver s) -> fc_cause c <> Some (ReadCause InvalidFrame) ->
  stream_inv (mkStream (st_sent s) (st_sender s) (st_wire s) c (st_received s) (st_ended s)).
Proof.
  intros [H1 H2 H3 H4 H5 H6 H7 H8 Hrep Hhalf H9 H10 H11] E1 E2 E3 E4 E5 E6. exists fsr, fs2, tail, rem.
  constructor; simpl; rewrite ?E1, ?E2, ?E3, ?E4, ?E5; done.
Qed.

Lemma fail_receiver_inv s e fsr fs2 tail rem :
  stream_inv_at s fsr fs2 tail rem -> e <> ReadCause InvalidFrame ->
  fc_cause (fail e (st_receiver s)) <> Some (ReadCause InvalidFrame).
Proof.
  intros Hinv He. pose proof (inv_valid _ _ _ _ _ Hinv). unfold fail.
  destruct (fc_cause (st_receiver s)) eqn:E; simpl; congruence.
Qed.

Lemma receive_read_inv s c :
  stream_inv s -> receive_read (st_receiver s) = Some c ->
  stream_inv (mkStream (st_sent s) (st_sender s) (st_wire s) c (st_received s) (st_ended s)).
Proof.
  intros (fsr & fs2 & tail & rem & Hinv) H. unfold receive_read in H.
  destruct (fc_stopped (st_receiver s)); [done|]. destruct (fc_pending (st_receiver s)) eqn:Hp; [done|].
  assert (Forall frame_ok fs2) as Hok2
    by (pose proof (inv_frames _ _ _ _ _ Hinv) as [_ [_ ?]%Forall_app]%Forall_app; done).
  assert (forall closed, (exists f fs2' rest, fc_ended (st_receiver s) = false /\ fs2 = f :: fs2' /\
      rest ++ st_wire s = encode_frames fs2' ++ tail /\
      receive_frame (fc_ended (st_receiver s)) (fc_input (st_receiver s)) closed = Got f rest) \/
    receive_frame (fc_ended (st_receiver s)) (fc_input (st_receiver s)) closed =
      (if closed then Broken UnexpectedEOF else Blocked)) as Hnext.
  { intros closed. destruct (fc_ended (st_receiver s)) eqn:Hend.
    - right. apply (inv_ended _ _ _ _ _ Hinv) in Hend. apply list_elem_of_split in Hend as (pre & post & E).
      assert (fsr ++ queued (st_receiver s) ++ fs2 = pre ++ None :: (post ++ fs2)) as E'
        by (by rewrite app_assoc, E, <- app_assoc).
      destruct (inv_eof_last _ _ _ _ _ Hinv _ _ E') as ([_ ->]%app_nil & _ & -> & _).
      pose proof (inv_wire _ _ _ _ _ Hinv) as Hw. apply app_nil in Hw as [-> _]. by destruct closed.
    - destruct (receive_next fs2 tail _ _ _ closed (inv_wire _ _ _ _ _ Hinv) Hok2 (inv_tail _ _ _ _ _ Hinv))
        as [(f & fs2' & rest & ? & ? & ?)|?]; [left; by exists f, fs2', rest|by right]. }
  destruct (Hnext (fc_closed (st_receiver s))) as [(f & fs2' & rest & Hend & -> & Hw & E)|E]; rewrite E in H.
  - assert (queued (st_receiver s) = option_list (fc_frames (st_receiver s))) as Hq
      by (unfold queued; by rewrite Hp, app_nil_r).
    destruct Hinv as [H1 H2 H3 H4 H5 H6 H7 H8 Hrep Hhalf H9 H10 H11]. rewrite Hq in *.
    assert (queued c = option_list (fc_frames (st_receiver s)) ++ [f]) as Hq'.
    { injection H as <-. by destruct f. }
    assert (fc_input c = rest /\ fc_buffer c = fc_buffer (st_receiver s) /\ fc_eof c = fc_eof (st_receiver s) /\
      fc_cause c = fc_cause (st_receiver s) /\
      fc_ended c = (match f with None => true | Some _ => false end)) as (E1 & E2 & E3 & E4 & E5).
    { injection H as <-. by destruct f. }
    assert (fsr ++ (option_list (fc_frames (st_receiver s)) ++ [f]) ++ fs2' =
            fsr ++ option_list (fc_frames (st_receiver s)) ++ f :: fs2') as Hall by (by rewrite <- app_assoc).
    exists fsr, fs2', tail, rem. constructor; simpl; rewrite ?Hq', ?E1, ?E2, ?E3, ?E4, ?E5, ?Hall; try done.
    rewrite app_assoc, elem_of_app, list_elem_of_singleton, <- H10, Hend. destruct f; naive_solver.
  - destruct (fc_closed (st_receiver s)); [|done]. injection H as <-.
    eapply receiver_inv; [done|..]; try (unfold fail; by destruct (fc_cause (st_receiver s))).
    simpl. by eapply fail_receiver_inv.
Qed.

Lemma read_inv s n c out :
  stream_inv s -> Read n (st_receiver s) = Some (c, out) ->
  stream_inv (mkStream (st_sent s) (st_sender s) (st_wire s) c
    (match out with ReadData data => st_received s ++ data | _ => st_received s end)
    (match out with ReadEOF => true | _ => st_ended s end)).
Proof.
  intros (fsr & fs2 & tail & rem & Hinv) H. pose proof Hinv as [H1 H2 H3 H4 H5 H6 H7 H8 Hrep Hhalf H9 H10 H11]. unfold Read in H.
  destruct (n =? 0)%nat eqn:Hn.
  { injection H as <- <-. rewrite app_nil_r. exists fsr, fs2, tail, rem. by destruct s. }
  destruct (fc_eof (st_receiver s)) eqn:Heof.
  { injection H as <- <-. exists fsr, fs2, tail, rem. constructor; simpl; try done; rewrite ?Heof; tauto. }
  destruct (fc_buffer (st_receiver s)) as [|x buf] eqn:Hbuf.
  - destruct (fc_frames (st_receiver s)) as [[data|]|] eqn:Hfr; simpl in H.
    + assert (queued (st_receiver s) = Some data :: option_list (fc_pending (st_receiver s))) as Hq
        by (unfold queued; by rewrite Hfr).
      assert (c = set_buffer (drop n data) (set_frames None (st_receiver s)) /\ out = ReadData (take n data)) as [-> ->]
        by (by injection H as <- <-).
      rewrite Hq in *. exists (fsr ++ [Some data]), fs2, tail, rem.
      constructor; simpl; unfold queued; simpl; rewrite <- ?(app_assoc fsr); try done.
      * rewrite <- app_assoc, take_drop, data_of_app, <- H7, app_nil_r. unfold data_of. simpl. by rewrite app_nil_r.
      * rewrite elem_of_app, list_elem_of_singleton, <- H8, Heof. naive_solver.
      * rewrite elem_of_app. auto.
      * intros Hin. exfalso. apply elem_of_app in Hin as [Hin|Hin].
        -- apply list_elem_of_split in Hin as (pre & post & E).
           assert (fsr ++ (Some data :: option_list (fc_pending (st_receiver s))) ++ fs2 =
             pre ++ None :: (post ++ (Some data :: option_list (fc_pending (st_receiver s))) ++ fs2)) as E'
             by (by rewrite E, <- app_assoc).
           apply H6 in E' as [E' _]. apply app_nil in E' as [_ ?]. done.
        -- by apply list_elem_of_singleton in Hin.
    + assert (queued (st_receiver s) = None :: option_list (fc_pending (st_receiver s))) as Hq
        by (unfold queued; by rewrite Hfr).
      injection H as <- <-. rewrite Hq in *. exists (fsr ++ [None]), fs2, tail, rem.
      constructor; simpl; unfold queued; simpl; rewrite <- ?(app_assoc fsr); try done.
      * rewrite data_of_app, <- H7, Hbuf. unfold data_of. simpl. by rewrite !app_nil_r.
      * split; [|done]. intros _. apply elem_of_app. right. by apply elem_of_cons; left.
      * intros _. apply elem_of_app. right. by apply elem_of_cons; left.
    + destruct (fc_cause (st_receiver s)); [|done]. injection H as <- <-. exists fsr, fs2, tail, rem. by destruct s.
  - injection H as <- <-. exists fsr, fs2, tail, rem.
    constructor; simpl; try done.
    + by rewrite <- app_assoc, take_drop.
    + by rewrite Heof.
    + intros Hin. by specialize (H9 Hin).
Qed.

Lemma stream_step_inv s s' : stream_inv s -> stream_step s s' -> stream_inv s'.
Proof.
  intros Hinv Hstep. destruct Hstep as [s p rs c n err H|s rs c err H|s e He|s now later Hw Hc|s|s c H|s e He|s n c out H].
  - by eapply write_inv.
  - by eapply close_write_inv.
  - destruct Hinv as (fsr & fs2 & tail & rem & [H1 H2 H3 H4 H5 H6 H7 H8 Hrep Hhalf H9 H10 H11]). exists fsr, fs2, tail, rem.
    assert (fc_cause (st_sender s) <> None -> fc_cause (fail e (st_sender s)) <> None) as Hcause.
    { unfold fail. destruct (fc_cause (st_sender s)) eqn:E; simpl; congruence. }
    constructor; simpl; try done.
    + destruct H3 as [?|[? ?]]; [by left|right; auto].
    + auto.
    + rewrite (proj2 (fail_same_output e _)). exact H6.
    + intros _ Hn. destruct (fail_cause e (st_sender s)); [by destruct Hcause|congruence].
  - destruct Hinv as (fsr & fs2 & tail & rem & [H1 H2 H3 H4 H5 H6 H7 H8 Hrep Hhalf H9 H10 H11]). exists fsr, fs2, tail, rem.
    constructor; simpl; try done. by rewrite <- app_assoc, <- Hw.
  - destruct Hinv as (fsr & fs2 & tail & rem & Hinv). eapply receiver_inv; try done. apply Hinv.
  - destruct H as [H|[H|H]]; [by apply receive_read_inv| |];
      destruct Hinv as (fsr & fs2 & tail & rem & Hinv); pose proof (inv_valid _ _ _ _ _ Hinv).
    + unfold receive_queue in H. destruct (fc_stopped (st_receiver s)); [done|].
      destruct (fc_pending (st_receiver s)) as [f|] eqn:Hp, (fc_frames (st_receiver s)) eqn:Hf; try done.
      injection H as <-. eapply receiver_inv; try done. unfold queued. simpl. by rewrite Hp, Hf.
    + unfold receive_done in H. destruct (fc_stopped (st_receiver s)), (fc_pending (st_receiver s)),
        (fc_cause (st_receiver s)) eqn:E; try done. injection H as <-.
      eapply receiver_inv; try done. simpl. by rewrite E.
  - destruct Hinv as (fsr & fs2 & tail & rem & Hinv).
    eapply receiver_inv; [done|..]; try (unfold fail; by destruct (fc_cause (st_receiver s))).
    eapply fail_receiver_inv; [done|]. by intros ->.
  - by eapply read_inv.
Qed.

Lemma stream_reachable_inv s : stream_reachable s -> stream_inv s.
Proof.
  unfold stream_reachable. intros H.
  assert (forall x y, rtc stream_step x y -> stream_inv x -> stream_inv y) as Hall.
  { induction 1 as [|x y z Hxy _ IH]; [done|]. intros Hx. by apply IH, (stream_step_inv x). }
  apply (Hall _ _ H), new_stream_inv.
Qed.

(** ** Progress *)

(** Nothing has failed and the pipe is not cut. *)
Definition healthy (s : stream) : Prop :=
  fc_cause (st_sender s) = None /\ fc_cause (st_receiver s) = None /\
  fc_closed (st_receiver s) = false /\ fc_stopped (st_receiver s) = false.


(** What is on its way; a step of the receiver or a [Read] of all that is
    buffered moves it one place further. *)
Definition backlog (s : stream) : nat :=
  3 * List.length (fc_input (st_receiver s)) + 2 * List.length (option_list (fc_pending (st_receiver s))) +
  List.length (option_list (fc_frames (st_receiver s))) +
  (match fc_buffer (st_receiver s) with [] => 0 | _ => 1 end).

(** Nothing follows the EOF frame. *)
Lemma nothing_after_eof s fsr fs2 tail rem l more :
  stream_inv_at s fsr fs2 tail rem -> fsr ++ queued (st_receiver s) ++ fs2 = l ++ more -> None ∈ l -> more = [].
Proof.
  intros Hinv E (pre & post & ->)%list_elem_of_split.
  destruct (inv_eof_last _ _ _ _ _ Hinv pre (post ++ more)) as [[_ ?]%app_nil _]; [by rewrite E, <- app_assoc|done].
Qed.

Lemma live_before_queued s fsr fs2 tail rem :
  stream_inv_at s fsr fs2 tail rem -> fc_buffer (st_receiver s) <> [] \/ queued (st_receiver s) <> [] ->
  fc_eof (st_receiver s) = false.
Proof.
  intros Hinv Hq. apply not_true_iff_false. intros Heof%(inv_eof _ _ _ _ _ Hinv). destruct Hq as [Hb|Hq].
  - by apply (inv_drained _ _ _ _ _ Hinv) in Heof.
  - by apply (nothing_after_eof _ _ _ _ _ _ _ Hinv eq_refl), app_nil in Heof as [? _].
Qed.

(** A [Read] with room for everything the last frame left. *)
Lemma read_everything c b0 b :
  fc_eof c = false -> fc_buffer c = b0 :: b ->
  Read (S (List.length b)) c = Some (set_buffer [] c, ReadData (b0 :: b)).
Proof.
  intros Heof Hb. unfold Read. rewrite Heof, Hb. cbn [Nat.eqb]. by rewrite drop_ge, take_ge by (simpl; lia).
Qed.

Lemma read_queued c f :
  fc_eof c = false -> fc_buffer c = [] -> fc_frames c = Some f ->
  Read (S (List.length (default [] f))) c =
    Some (match f with
          | Some data => (set_buffer [] (set_frames None c), ReadData data)
          | None => (set_eof true (set_frames None c), ReadEOF)
          end).
Proof.
  intros Heof Hb Hf. unfold Read. rewrite Heof, Hb, Hf. cbn [Nat.eqb]. destruct f as [data|]; [|done].
  cbn [fc_buffer set_buffer default]. rewrite drop_ge, take_ge by (simpl; lia). done.
Qed.

(** A receiver with bytes that begin a frame reads it. *)
Lemma receive_whole_frame s fsr fs2 rem :
  stream_inv_at s fsr fs2 [] rem -> healthy s -> st_wire s = [] ->
  fc_pending (st_receiver s) = None -> fc_input (st_receiver s) <> [] ->
  exists f rest, receive_read (st_receiver s) =
    Some (let c := set_pending (Some f) (set_input rest (st_receiver s)) in
          match f with None => set_ended true c | Some _ => c end) /\
    (5 + List.length rest <= List.length (fc_input (st_receiver s)))%nat.
Proof.
  intros Hinv (_ & _ & _ & Hst) Hwire Hp Hin.
  pose proof (inv_wire _ _ _ _ _ Hinv) as Hw. rewrite Hwire, !app_nil_r in Hw.
  destruct fs2 as [|f fs2]; [done|]. rewrite encode_frames_cons in Hw.
  assert (frame_ok f) as Hok.
  { pose proof (inv_frames _ _ _ _ _ Hinv) as [_ [_ [? _]%Forall_cons]%Forall_app]%Forall_app. done. }
  assert (fc_ended (st_receiver s) = false) as Hend.
  { apply not_true_iff_false. intros Hend%(inv_ended _ _ _ _ _ Hinv).
    by pose proof (nothing_after_eof _ _ _ _ _ _ (f :: fs2) Hinv (app_assoc _ _ _) Hend). }
  exists f, (encode_frames fs2). split.
  - unfold receive_read. by rewrite Hst, Hp, Hend, Hw, receive_frame_frame.
  - rewrite Hw, length_app. pose proof (encode_frame_long f). lia.
Qed.

(** With the pipe empty, whatever is on its way can move. *)
Lemma backlog_step s :
  stream_inv s -> healthy s -> st_wire s = [] ->
  (fc_input (st_receiver s) = [] /\ fc_pending (st_receiver s) = None /\ fc_frames (st_receiver s) = None /\
   fc_buffer (st_receiver s) = []) \/
  exists s', stream_step s s' /\ healthy s' /\ st_wire s' = [] /\ st_sent s' = st_sent s /\
    st_sender s' = st_sender s /\ (backlog s' < backlog s)%nat.
Proof.
  intros (fsr & fs2 & tail & rem & Hinv) Hh Hwire. pose proof Hh as (Hs & Hr & Hcl & Hst).
  destruct (inv_tail _ _ _ _ _ Hinv) as [->|[? _]]; [|done].
  pose proof (live_before_queued _ _ _ _ _ Hinv) as Hlive.
  destruct (fc_buffer (st_receiver s)) as [|b0 b] eqn:Hbuf.
  2: { right. eexists. split; [eapply (step_read s), read_everything; [apply Hlive; by left|done]|].
       unfold healthy, backlog. cbn. rewrite Hbuf. split_and!; try done. lia. }
  destruct (fc_frames (st_receiver s)) as [f|] eqn:Hfr.
  { right. unfold queued in Hlive. rewrite Hfr in Hlive.
    assert (fc_eof (st_receiver s) = false) as Heof by (apply Hlive; by right).
    pose proof (read_queued _ _ Heof Hbuf Hfr) as Hread.
    destruct f; (eexists; split; [eapply (step_read s), Hread|]);
      unfold healthy, backlog; cbn; rewrite Hfr, Hbuf; cbn; split_and!; try done; lia. }
  destruct (fc_pending (st_receiver s)) as [f|] eqn:Hp.
  { right. eexists. split; [eapply (step_receive s); right; left; unfold receive_queue; rewrite Hst, Hp, Hfr; reflexivity|].
    unfold healthy, backlog. cbn. rewrite Hfr, Hp, Hbuf. cbn. split_and!; try done. lia. }
  destruct (decide (fc_input (st_receiver s) = [])) as [Hin|Hin]; [by left|right].
  destruct (receive_whole_frame _ _ _ _ Hinv Hh Hwire Hp Hin) as (f & rest & Hread & Hlen).
  eexists. split; [eapply (step_receive s); left; exact Hread|].
  unfold healthy, backlog. destruct f; cbn; rewrite ?Hfr, ?Hp, ?Hbuf; cbn; split_and!; try done; lia.
Qed.

Lemma backlog_drains n s :
  stream_inv s -> healthy s -> st_wire s = [] -> (backlog s <= n)%nat ->
  exists s', rtc stream_step s s' /\ stream_inv s' /\ healthy s' /\ st_sent s' = st_sent s /\
    st_sender s' = st_sender s /\ st_wire s' = [] /\ fc_input (st_receiver s') = [] /\
    fc_pending (st_receiver s') = None /\ fc_frames (st_receiver s') = None /\ fc_buffer (st_receiver s') = [].
Proof.
  revert s; induction n as [|n IH]; intros s Hinv Hh Hw Hn;
    (destruct (backlog_step s Hinv Hh Hw) as [(? & ? & ? & ?)|(s1 & Hs & Hh1 & Hw1 & Hsent & Hsend & Hlt)];
      [exists s; split_and!; try done; apply rtc_refl|]).
  - lia.
  - destruct (IH s1) as (s' & Hsteps & Hinv' & Hh' & E1 & E2 & Hrest); [by eapply stream_step_inv|done|done|lia|].
    exists s'. split_and!; try apply Hrest; try congruence; try done. by eapply rtc_l.
Qed.

(** ** Claims *)

(** What has been read is a prefix of what was written, and the end is the end. *)
Lemma framed_prefix s :
  stream_reachable s ->
  (exists rest, st_sent s = st_received s ++ rest) /\
  (st_ended s = true -> st_received s = st_sent s /\ fc_writeEOF (st_sender s) = true) /\
  fc_cause (st_receiver s) <> Some (ReadCause InvalidFrame).
Proof.
  intros (fsr & fs2 & tail & rem & Hinv)%stream_reachable_inv. split_and!; [| |apply Hinv].
  - rewrite (inv_sent _ _ _ _ _ Hinv), data_of_app, <- (inv_received _ _ _ _ _ Hinv), <- !app_assoc. eauto.
  - intros Hend. apply (inv_reported _ _ _ _ _ Hinv) in Hend as Hin.
    pose proof (inv_drained _ _ _ _ _ Hinv Hin) as Hbuf. pose proof (inv_received _ _ _ _ _ Hinv) as Hrec.
    apply list_elem_of_split in Hin as (pre & post & E).
    destruct (inv_eof_last _ _ _ _ _ Hinv pre (post ++ queued (st_receiver s) ++ fs2)) as (E' & -> & _ & Hw);
      [by rewrite E, <- app_assoc|]. apply app_nil in E' as [_ E'].
    split; [|done]. by rewrite (inv_sent _ _ _ _ _ Hinv), E', !app_nil_r, <- Hrec, Hbuf, app_nil_r.
Qed.

(** From a state without failures everything under way can be read. *)
Lemma framed_drains s :
  stream_reachable s -> healthy s ->
  exists s', rtc stream_step s s' /\ st_sent s' = st_sent s /\ st_received s' = st_sent s /\
    (fc_writeEOF (st_sender s) = true -> st_ended s' = true).
Proof.
  intros Hr Hh. set (s0 := mkStream (st_sent s) (st_sender s) []
    (set_input (fc_input (st_receiver s) ++ st_wire s) (st_receiver s)) (st_received s) (st_ended s)).
  assert (stream_step s s0) as Hstep.
  { apply step_deliver; [by rewrite app_nil_r|apply Hh]. }
  destruct (backlog_drains (backlog s0) s0) as (s1 & Hsteps & Hinv & Hh1 & E1 & E2 & Ew & Ei & Ep & Ef & Eb);
    [by eapply stream_step_inv, Hstep; apply stream_reachable_inv|apply Hh|done|done|].
  destruct Hinv as (fsr & fs2 & tail & rem & Hinv).
  destruct (inv_tail _ _ _ _ _ Hinv) as [->|[Hf _]]; [|by destruct Hh1].
  destruct rem as [|x rem]; [|destruct (inv_rem _ _ _ _ _ Hinv); [done|by destruct Hh1]].
  assert (fs2 = []) as ->.
  { pose proof (inv_wire _ _ _ _ _ Hinv) as Hw. rewrite Ew, Ei in Hw. destruct fs2 as [|f fs2]; [done|].
    rewrite encode_frames_cons in Hw. pose proof (encode_frame_long f). apply (f_equal List.length) in Hw.
    rewrite !length_app in Hw. simpl in Hw. lia. }
  assert (queued (st_receiver s1) = []) as Hq by (unfold queued; by rewrite Ep, Ef).
  assert (st_received s1 = st_sent s1) as Hall.
  { rewrite (inv_sent _ _ _ _ _ Hinv), Hq, !app_nil_r, <- (inv_received _ _ _ _ _ Hinv), Eb. by rewrite app_nil_r. }
  destruct (fc_eof (st_receiver s1)) eqn:Heof.
  - eexists. split; [eapply rtc_l; [exact Hstep|]; eapply rtc_r; [exact Hsteps|];
      apply (step_read s1 1 (st_receiver s1) ReadEOF); unfold Read; by rewrite Heof|].
    simpl. split_and!; [by rewrite E1|by rewrite Hall, E1|done].
  - exists s1. split; [by eapply rtc_l|]. split_and!; [by rewrite E1|by rewrite Hall, E1|].
    intros Hw. exfalso. assert (fc_writeEOF (st_sender s1) = true) as Hw1 by (by rewrite E2).
    apply (inv_half _ _ _ _ _ Hinv) in Hw1; [|apply Hh1]. rewrite Hq, !app_nil_r in Hw1.
    apply (inv_eof _ _ _ _ _ Hinv) in Hw1. congruence.
Qed.

(** Sending "hi", half-closing, and the frames under way. *)
Definition demo_sender : FramedConn := fst (fst (Write (list_ascii_of_string "hi") [] NewFramedConn)).
Definition demo_stream : stream :=
  mkStream (list_ascii_of_string "hi") demo_sender (fc_output demo_sender) NewFramedConn [] false.

Lemma demo_stream_reachable : stream_reachable demo_stream.
Proof.
  eapply rtc_l; [eapply (step_write new_stream (list_ascii_of_string "hi") []); vm_compute; reflexivity|].
  apply rtc_refl.
Qed.

(** C37: through a pair of framed connections, whatever the interleaving of
    writes, deliveries, reads, partial writes, failures of either side and a
    cut of the pipe at any byte: what [Read] has returned is a prefix of what
    was given to [Write]; [Read] reports end of file only when the writer has
    half-closed and every byte has been read; and the receiver never rejects a
    frame of its peer as invalid.  Nothing gets stuck: as long as no side has
    failed, the bytes under way can be delivered and read, so that [Read] has
    returned all that was written and, if the writer half-closed, reports end
    of file. *)
Theorem framed_stream_is_faithful s :
  stream_reachable s ->
  (exists rest, st_sent s = st_received s ++ rest) /\
  (st_ended s = true -> st_received s = st_sent s /\ fc_writeEOF (st_sender s) = true) /\
  fc_cause (st_receiver s) <> Some (ReadCause InvalidFrame) /\
  (healthy s -> exists s', rtc stream_step s s' /\ st_sent s' = st_sent s /\ st_received s' = st_sent s /\
     (fc_writeEOF (st_sender s) = true -> st_ended s' = true)).
Proof. intros Hs. destruct (framed_prefix s Hs) as (H1 & H2 & H3). split_and!; [done..|]. by apply framed_drains. Qed.

Lemma framed_stream_is_faithful_witness :
  (exists rest, list_ascii_of_string "hi" = [] ++ rest) /\
  exists s', rtc stream_step demo_stream s' /\ st_received s' = list_ascii_of_string "hi".
Proof.
  destruct (framed_stream_is_faithful demo_stream demo_stream_reachable) as (H1 & _ & _ & H2). split; [exact H1|].
  destruct (H2 ltac:(by repeat split)) as (s' & H3 & _ & H4 & _). exists s'. exact (conj H3 H4).
Defined.
