(* ===== verification/ProcessSession.v ===== *)
(** * Process sessions

    [process_frames.go], [process_client.go] and [process_server.go] of
    [src/internal/controller/transport]: standard input under a credit window,
    the two outputs and one final receipt over one connection.  Each goroutine
    (the client's [Write] and [Read], the server's wire reader, [ServeProcess]
    itself, the operation's reads and output writes) is cut at the points where
    it takes or releases a mutex or waits, so that every interleaving is an
    execution. *)

From S2P Require Import Prelude GoText Frames FramedConn.
From Stdlib Require Import Ascii String.
Open Scope list_scope.

Inductive process_error :=
| ErrProtocol
| ErrConn (e : conn_error)
| ErrOperation
| ErrCanceled.

(** ** Writing frames *)

(** [writeProcessBytes]: the bytes that reached the writer. *)
Fixpoint writeProcessBytes (rs : responses) (data : bytes) : bytes * responses * option conn_error :=
  match data, rs with
  | [], _ => ([], rs, None)
  | _, [] => (data, [], None)
  | _, (n, err) :: rs =>
    if (n <? 0)%Z || (blen data <? n)%Z then ([], rs, Some ErrShortWrite) else
    let sent := take (Z.to_nat n) data in
    match err with
    | Some e => (sent, rs, Some e)
    | None =>
      if (n =? 0)%Z then (sent, rs, Some ErrShortWrite) else
      let '(more, rs, err) := writeProcessBytes rs (drop (Z.to_nat n) data) in (sent ++ more, rs, err)
    end
  end.

(** A frame: its kind and its payload. *)
Notation pframe := (ascii * bytes)%type.

(** The last two fields record the history: the frames that reached the
    connection in full, and whether one failed. *)
Record processWriter := mkWriter {
  pw_finished : bool;
  pw_inputStopped : bool;
  pw_sent : list pframe;
  pw_torn : bool }.

Definition newWriter : processWriter := mkWriter false false [] false.
Definition pw_record (f : pframe) (w : processWriter) : processWriter :=
  mkWriter (pw_finished w) (pw_inputStopped w) (pw_sent w ++ [f]) (pw_torn w).
Definition pw_tear (w : processWriter) : processWriter :=
  mkWriter (pw_finished w) (pw_inputStopped w) (pw_sent w) true.

(** How the connection treats one frame: an error of [SetWriteDeadline], and
    the outcome of each write. *)
Record conn_faults := mkConnFaults {
  cf_deadline : option conn_error;
  cf_writes : responses }.

Definition noConnFaults : conn_faults := mkConnFaults None [].

Inductive frame_outcome :=
| FrameSent
| FrameRefused
| FrameFailed (e : conn_error).

(** [processWriter.frame]: the bytes that reached the connection.  A refusal
    is [io.ErrClosedPipe]; only a failure calls [fail]. *)
Definition writer_frame (kind : ascii) (payload : bytes) (flt : conn_faults) (w : processWriter)
  : processWriter * bytes * frame_outcome :=
  if pw_finished w then (w, [], FrameRefused) else
  if pw_inputStopped w && negb (Ascii.eqb kind processResult) then (w, [], FrameRefused) else
  let w := mkWriter (pw_finished w || Ascii.eqb kind processResult)
                    (pw_inputStopped w || Ascii.eqb kind processInputStop) (pw_sent w) (pw_torn w) in
  match cf_deadline flt with
  | Some e => (pw_tear w, [], FrameFailed e)
  | None =>
    let '(out, rs, err) := writeProcessBytes (cf_writes flt) (header_bytes kind (List.length payload)) in
    let '(out, err) := match err with
                       | Some e => (out, Some e)
                       | None => let '(out', _, err) := writeProcessBytes rs payload in (out ++ out', err)
                       end in
    let w := if bool_decide (out = frame_bytes kind payload) then pw_record (kind, payload) w else w in
    match err with
    | Some e => (pw_tear w, out, FrameFailed e)
    | None => (w, out, FrameSent)
    end
  end.

(** ** The client *)

(** [pc_stderr] is what reached the writer [stderr]; [wait] is an argument of
    [Read]. *)
Record ProcessConn := mkProcessConn {
  pc_frames : processWriter;
  pc_stderr : bytes;
  pc_output : bytes;
  pc_result : bytes;
  pc_complete : bool;
  pc_inputEOF : bool;
  pc_credit : Z;
  pc_wake : bool;
  pc_closed : bool;
  pc_inputStopped : bool;
  pc_stopSeen : bool }.

Definition NewProcessConn : ProcessConn :=
  mkProcessConn newWriter [] [] [] false false 0 false false false false.

Definition pc_set_frames w c := mkProcessConn w (pc_stderr c) (pc_output c) (pc_result c) (pc_complete c) (pc_inputEOF c) (pc_credit c) (pc_wake c) (pc_closed c) (pc_inputStopped c) (pc_stopSeen c).
Definition pc_set_stderr b c := mkProcessConn (pc_frames c) b (pc_output c) (pc_result c) (pc_complete c) (pc_inputEOF c) (pc_credit c) (pc_wake c) (pc_closed c) (pc_inputStopped c) (pc_stopSeen c).
Definition pc_set_output b c := mkProcessConn (pc_frames c) (pc_stderr c) b (pc_result c) (pc_complete c) (pc_inputEOF c) (pc_credit c) (pc_wake c) (pc_closed c) (pc_inputStopped c) (pc_stopSeen c).
Definition pc_set_result b c := mkProcessConn (pc_frames c) (pc_stderr c) (pc_output c) b (pc_complete c) (pc_inputEOF c) (pc_credit c) (pc_wake c) (pc_closed c) (pc_inputStopped c) (pc_stopSeen c).
Definition pc_set_complete b c := mkProcessConn (pc_frames c) (pc_stderr c) (pc_output c) (pc_result c) b (pc_inputEOF c) (pc_credit c) (pc_wake c) (pc_closed c) (pc_inputStopped c) (pc_stopSeen c).
Definition pc_set_inputEOF b c := mkProcessConn (pc_frames c) (pc_stderr c) (pc_output c) (pc_result c) (pc_complete c) b (pc_credit c) (pc_wake c) (pc_closed c) (pc_inputStopped c) (pc_stopSeen c).
Definition pc_set_credit n c := mkProcessConn (pc_frames c) (pc_stderr c) (pc_output c) (pc_result c) (pc_complete c) (pc_inputEOF c) n (pc_wake c) (pc_closed c) (pc_inputStopped c) (pc_stopSeen c).
Definition pc_set_wake b c := mkProcessConn (pc_frames c) (pc_stderr c) (pc_output c) (pc_result c) (pc_complete c) (pc_inputEOF c) (pc_credit c) b (pc_closed c) (pc_inputStopped c) (pc_stopSeen c).
Definition pc_set_closed b c := mkProcessConn (pc_frames c) (pc_stderr c) (pc_output c) (pc_result c) (pc_complete c) (pc_inputEOF c) (pc_credit c) (pc_wake c) b (pc_inputStopped c) (pc_stopSeen c).
Definition pc_set_stop c := mkProcessConn (pc_frames c) (pc_stderr c) (pc_output c) (pc_result c) (pc_complete c) (pc_inputEOF c) (pc_credit c) (pc_wake c) (pc_closed c) true true.

Definition ProcessConn_Close (c : ProcessConn) : ProcessConn := pc_set_closed true c.

(** A frame of the client; a failure closes the connection, and a closed
    [net.Conn] refuses the deadline. *)
Definition client_send (kind : ascii) (payload : bytes) (flt : conn_faults) (c : ProcessConn)
  : ProcessConn * bytes * frame_outcome :=
  let flt := if pc_closed c then mkConnFaults (Some ErrClosedConn) [] else flt in
  let '(w, out, r) := writer_frame kind payload flt (pc_frames c) in
  let c := pc_set_frames w c in
  (match r with FrameFailed _ => ProcessConn_Close c | _ => c end, out, r).

(** A call of [Write], which holds [writeMu]: at the head of its loop, waiting
    for credit, or with the credit of a chunk taken. *)
Inductive write_call :=
| WriteLoop (written : Z) (data : bytes)
| WriteWait (written : Z) (data : bytes)
| WriteFrame (written : Z) (chunk data : bytes).

(** The call goes on, or returns its count, with [net.ErrClosed] or without. *)
Inductive write_next :=
| WriteOn (w : write_call)
| WriteReturns (written : Z) (failed : bool).

Definition ProcessConn_Write_begin (data : bytes) (c : ProcessConn) : write_next :=
  if pc_inputEOF c then WriteReturns 0 true else WriteOn (WriteLoop 0 data).

(** From the head of the loop to the frame. *)
Definition ProcessConn_Write_loop (written : Z) (data : bytes) (c : ProcessConn) : ProcessConn * write_next :=
  match data with
  | [] => (c, WriteReturns written false)
  | _ =>
    if pc_closed c || pc_inputStopped c then (c, WriteReturns written true) else
    let n := Z.min (Z.min (blen data) (pc_credit c)) processChunk in
    let c := pc_set_credit (pc_credit c - n) c in
    if (n =? 0)%Z then (c, WriteOn (WriteWait written data))
    else (c, WriteOn (WriteFrame written (take (Z.to_nat n) data) (drop (Z.to_nat n) data)))
  end.

(** The select without a default: [stop] picks a ready case that returns. *)
Definition ProcessConn_Write_wait (stop : bool) (written : Z) (data : bytes) (c : ProcessConn)
  : option (ProcessConn * write_next) :=
  if stop then
    if pc_closed c || pc_inputStopped c then Some (c, WriteReturns written true) else None
  else if pc_wake c then Some (pc_set_wake false c, WriteOn (WriteLoop written data)) else None.

Definition ProcessConn_Write_frame (written : Z) (chunk data : bytes) (flt : conn_faults) (c : ProcessConn)
  : ProcessConn * bytes * write_next :=
  let '(c, out, r) := client_send processInput chunk flt c in
  (c, out, match r with
           | FrameSent => WriteOn (WriteLoop (written + blen chunk) data)
           | _ => WriteReturns written true
           end).

(** [CloseWrite], which needs [writeMu]. *)
Definition ProcessConn_CloseWrite (flt : conn_faults) (c : ProcessConn) : ProcessConn * bytes * bool :=
  if pc_inputEOF c then (c, [], true) else
  let '(c, out, r) := client_send processInputEOF [] flt (pc_set_inputEOF true c) in
  (c, out, match r with FrameSent => true | _ => false end).

(** What the body of the loop of [Read] does with a frame or a read error. *)
Inductive read_next :=
| ReadOn
| ReadCloses           (* [CloseWrite] comes next *)
| ReadEnds             (* [io.EOF] *)
| ReadError (e : process_error).

Definition client_frame (kind : ascii) (data : bytes) (rs : responses) (c : ProcessConn) : ProcessConn * read_next :=
  let violation := (ProcessConn_Close c, ReadError ErrProtocol) in
  if bool_decide (pc_result c <> []) then violation else
  if pc_stopSeen c && negb (Ascii.eqb kind processResult) then violation else
  if Ascii.eqb kind processInputStop then
    if bool_decide (data <> []) then violation else (pc_set_stop c, ReadCloses)
  else if Ascii.eqb kind processCredit then
    if negb (blen data =? 4)%Z then violation else
    let credit := Uint32 data in
    if (0 <? credit)%Z && (credit <=? processChunk)%Z && (pc_credit c + credit <=? processChunk)%Z
    then (pc_set_wake true (pc_set_credit (pc_credit c + credit) c), ReadOn)
    else violation
  else if Ascii.eqb kind processOutput then
    if bool_decide (data = []) then violation else (pc_set_output data c, ReadOn)
  else if Ascii.eqb kind processErrorOutput then
    if bool_decide (data = []) then violation else
    let '(out, _, err) := writeProcessBytes rs data in
    let c := pc_set_stderr (pc_stderr c ++ out) c in
    match err with
    | Some e => (ProcessConn_Close c, ReadError (ErrConn e))
    | None => (c, ReadOn)
    end
  else if Ascii.eqb kind processResult then
    if bool_decide (data = []) || negb (pc_stopSeen c) then violation else (pc_set_result data c, ReadOn)
  else violation.

(** A read error; [waited] is what [wait] returns. *)
Definition client_read_error (e : read_error) (waited : option process_error) (c : ProcessConn) : ProcessConn * read_next :=
  let c := ProcessConn_Close c in
  match e with
  | InvalidFrame => (c, ReadError ErrProtocol)
  | UnexpectedEOF => (c, ReadError ErrProtocol)
  | EOF =>
    if bool_decide (pc_result c <> []) then
      match waited with
      | Some e => (c, ReadError e)
      | None => (pc_set_complete true c, ReadEnds)
      end
    else (c, ReadError ErrProtocol)
  end.

(** The end of [Read]: [copy] into [n] bytes. *)
Definition client_copy (n : nat) (c : ProcessConn) : ProcessConn * bytes :=
  (pc_set_output (drop n (pc_output c)) c, take n (pc_output c)).

Definition ProcessConn_Result (c : ProcessConn) : process_error + bytes :=
  if pc_complete c then inr (pc_result c) else inl ErrProtocol.

(** ** The server *)

(** [processInputReader] with the rest of the state of [ServeProcess]: the
    cause of its context, whether the connection is closed and whether the
    wire reader has returned. [drained] is closed exactly when [eof] is set. *)
Record processServer := mkServer {
  ps_frames : processWriter;
  ps_data : bytes;
  ps_credit : Z;
  ps_eof : bool;
  ps_finished : bool;
  ps_wake : bool;
  ps_cause : option process_error;
  ps_closed : bool;
  ps_stopped : bool }.

Definition newServer : processServer := mkServer newWriter [] processChunk false false false None false false.

Definition ps_set_frames w s := mkServer w (ps_data s) (ps_credit s) (ps_eof s) (ps_finished s) (ps_wake s) (ps_cause s) (ps_closed s) (ps_stopped s).
Definition ps_set_data b n s := mkServer (ps_frames s) b n (ps_eof s) (ps_finished s) (ps_wake s) (ps_cause s) (ps_closed s) (ps_stopped s).
Definition ps_set_eof b s := mkServer (ps_frames s) (ps_data s) (ps_credit s) b (ps_finished s) (ps_wake s) (ps_cause s) (ps_closed s) (ps_stopped s).
Definition ps_set_finished b s := mkServer (ps_frames s) (ps_data s) (ps_credit s) (ps_eof s) b (ps_wake s) (ps_cause s) (ps_closed s) (ps_stopped s).
Definition ps_set_wake b s := mkServer (ps_frames s) (ps_data s) (ps_credit s) (ps_eof s) (ps_finished s) b (ps_cause s) (ps_closed s) (ps_stopped s).
Definition ps_set_cause e s := mkServer (ps_frames s) (ps_data s) (ps_credit s) (ps_eof s) (ps_finished s) (ps_wake s) e (ps_closed s) (ps_stopped s).
Definition ps_set_closed b s := mkServer (ps_frames s) (ps_data s) (ps_credit s) (ps_eof s) (ps_finished s) (ps_wake s) (ps_cause s) b (ps_stopped s).
Definition ps_set_stopped b s := mkServer (ps_frames s) (ps_data s) (ps_credit s) (ps_eof s) (ps_finished s) (ps_wake s) (ps_cause s) (ps_closed s) b.

(** [cancel(err)] of [context.WithCancelCause]: the first cause stays. *)
Definition cancel (e : process_error) (s : processServer) : processServer :=
  match ps_cause s with Some _ => s | None => ps_set_cause (Some e) s end.

(** A frame of the server; a failure cancels the context. *)
Definition server_send (kind : ascii) (payload : bytes) (flt : conn_faults) (s : processServer)
  : processServer * bytes * frame_outcome :=
  let '(w, out, r) := writer_frame kind payload flt (ps_frames s) in
  let s := ps_set_frames w s in
  (match r with FrameFailed e => cancel (ErrConn e) s | _ => s end, out, r).

Definition outcome_error (r : frame_outcome) : option process_error :=
  match r with
  | FrameSent => None
  | FrameRefused => Some (ErrConn ErrClosedPipe)
  | FrameFailed e => Some (ErrConn e)
  end.

Definition finish (s : processServer) : processServer := ps_set_wake true (ps_set_finished true s).

(** [accept]; [None] is [ErrProtocol]. *)
Definition accept (kind : ascii) (data : bytes) (s : processServer) : option processServer :=
  if ps_eof s then None else
  if Ascii.eqb kind processInput then
    if bool_decide (data = []) || (ps_credit s <? blen data)%Z then None
    else Some (ps_set_wake true (ps_set_data (ps_data s ++ data) (ps_credit s - blen data) s))
  else if Ascii.eqb kind processInputEOF then
    if bool_decide (data <> []) then None else Some (ps_set_wake true (ps_set_eof true s))
  else None.

(** The wire reader of [ServeProcess] with a frame or a read error. *)
Definition server_frame (kind : ascii) (data : bytes) (s : processServer) : processServer :=
  match accept kind data s with
  | Some s => s
  | None => ps_set_stopped true (cancel ErrProtocol s)
  end.

Definition server_read_error (e : read_error) (s : processServer) : processServer :=
  ps_set_stopped true (cancel (match e with InvalidFrame => ErrProtocol | _ => ErrConn (ReadCause e) end) s).

(** A call of [processInputReader.Read]: at the head of its loop, waiting, or
    with bytes copied and their credit still to be sent. *)
Inductive input_call :=
| InputLoop (n : nat)
| InputWait (n : nat)
| InputCredit (data : bytes).

Inductive input_next :=
| InputOn (c : input_call)
| InputReturns (data : bytes) (e : option process_error)
| InputEOF.

Definition input_Read_loop (n : nat) (s : processServer) : processServer * input_next :=
  match ps_cause s with
  | Some e => (s, InputReturns [] (Some e))
  | None =>
    if ps_finished s then (s, InputEOF) else
    match ps_data s with
    | _ :: _ =>
      let data := take n (ps_data s) in
      (ps_set_data (drop n (ps_data s)) (ps_credit s + blen data) s, InputOn (InputCredit data))
    | [] => (s, if ps_eof s then InputEOF else InputOn (InputWait n))
    end
  end.

Definition input_Read_wait (canceled : bool) (n : nat) (s : processServer) : option (processServer * input_next) :=
  if canceled then
    match ps_cause s with Some e => Some (s, InputReturns [] (Some e)) | None => None end
  else if ps_wake s then Some (ps_set_wake false s, InputOn (InputLoop n)) else None.

Definition input_Read_credit (data : bytes) (flt : conn_faults) (s : processServer)
  : processServer * bytes * input_next :=
  let '(s, out, r) := server_send processCredit (PutUint32 (blen data)) flt s in
  (s, out, InputReturns data (outcome_error r)).

(** One round of [processOutputWriter.Write]; [inl] when it returns. *)
Definition output_Write_round (kind : ascii) (data : bytes) (flt : conn_faults) (s : processServer)
  : processServer * bytes * (option process_error + bytes) :=
  match data with
  | [] => (s, [], inl None)
  | _ =>
    let n := Nat.min (List.length data) (Z.to_nat processChunk) in
    let '(s, out, r) := server_send kind (take n data) flt s in
    (s, out, match outcome_error r with Some e => inl (Some e) | None => inr (drop n data) end)
  end.

(** The body of [ServeProcess]: before the first credit, in the operation,
    with its result, after [processInputStop], and returned. *)
Inductive phase :=
| Starting
| Operating
| Finished (result : process_error + bytes)
| Stopping (result : bytes)
| Returned (e : option process_error).

Definition serve_start (flt : conn_faults) (s : processServer) : processServer * bytes * phase :=
  let '(s, out, r) := server_send processCredit (PutUint32 processChunk) flt s in
  (s, out, match outcome_error r with Some e => Returned (Some e) | None => Operating end).

(** The checks after the operation, and [processInputStop]; [deadline] is an
    error of [SetReadDeadline]. *)
Definition serve_stop (result : process_error + bytes) (deadline : option conn_error) (flt : conn_faults)
    (s : processServer) : processServer * bytes * phase :=
  match result with
  | inl e => (s, [], Returned (Some e))
  | inr result =>
    match ps_cause s with
    | Some e => (s, [], Returned (Some e))
    | None =>
      if bool_decide (result = []) || (MaxProcessResult <? blen result)%Z then (s, [], Returned (Some ErrProtocol)) else
      match deadline with
      | Some e => (s, [], Returned (Some (ErrConn e)))
      | None =>
        let '(s, out, r) := server_send processInputStop [] flt s in
        (s, out, match outcome_error r with Some e => Returned (Some e) | None => Stopping result end)
      end
    end
  end.

(** The last select; [canceled] picks the case of the context. *)
Definition serve_result (result : bytes) (canceled : bool) (flt : conn_faults) (s : processServer)
  : option (processServer * bytes * phase) :=
  if canceled then
    match ps_cause s with Some e => Some (s, [], Returned (Some e)) | None => None end
  else if ps_eof s then
    let '(s, out, r) := server_send processResult result flt s in
    Some (s, out, Returned (outcome_error r))
  else None.

(** ** A session *)

(** One direction of the connection; nothing enters a closed pipe. *)
Record pipe := mkPipe {
  p_bytes : bytes;
  p_closed : bool }.

Definition push (out : bytes) (p : pipe) : pipe := if p_closed p then p else mkPipe (p_bytes p ++ out) false.
Definition seal (b : bool) (p : pipe) : pipe := mkPipe (p_bytes p) (p_closed p || b).

(** The client with its goroutines: a [Write] in progress, and whether [Read]
    is at its [CloseWrite].  The last three fields record the history:
    frames read, bytes given to [Write] and returned by [Read]. *)
Record client_side := mkClientSide {
  cs_conn : ProcessConn;
  cs_write : option write_call;
  cs_closing : bool;
  cs_seen : list pframe;
  cs_written : bytes;
  cs_shown : bytes }.

(** The server with its goroutines: [ServeProcess], a [Read] of the operation
    and its output writes.  The last three fields record the history: frames
    read, bytes handed to the operation and what it returned. *)
Record server_side := mkServerSide {
  sv_server : processServer;
  sv_phase : phase;
  sv_input : option input_call;
  sv_outputs : list (ascii * bytes);
  sv_seen : list pframe;
  sv_consumed : bytes;
  sv_returned : option (process_error + bytes) }.

Definition next_write (next : write_next) : option write_call :=
  match next with WriteOn w => Some w | WriteReturns _ _ => None end.
Definition next_input (next : input_next) : option input_call :=
  match next with InputOn c => Some c | _ => None end.

(** A step of the client, reading from the pipe [down] and emitting [out]. *)
Inductive client_step : client_side -> pipe -> client_side -> pipe -> bytes -> Prop :=
| cl_write_begin c closing seen written shown down data w :
    ProcessConn_Write_begin data c = WriteOn w ->
    client_step (mkClientSide c None closing seen written shown) down
                (mkClientSide c (Some w) closing seen (written ++ data) shown) down []
| cl_write_loop c closing seen written shown down k data c' next :
    ProcessConn_Write_loop k data c = (c', next) ->
    client_step (mkClientSide c (Some (WriteLoop k data)) closing seen written shown) down
                (mkClientSide c' (next_write next) closing seen written shown) down []
| cl_write_wait c closing seen written shown down k data stop c' next :
    ProcessConn_Write_wait stop k data c = Some (c', next) ->
    client_step (mkClientSide c (Some (WriteWait k data)) closing seen written shown) down
                (mkClientSide c' (next_write next) closing seen written shown) down []
| cl_write_frame c closing seen written shown down k chunk data flt c' out next :
    ProcessConn_Write_frame k chunk data flt c = (c', out, next) ->
    client_step (mkClientSide c (Some (WriteFrame k chunk data)) closing seen written shown) down
                (mkClientSide c' (next_write next) closing seen written shown) down out
| cl_close_write c closing seen written shown down flt c' out ok :
    ProcessConn_CloseWrite flt c = (c', out, ok) ->
    client_step (mkClientSide c None closing seen written shown) down
                (mkClientSide c' None closing seen written shown) down out
| cl_read_frame c w seen written shown down kind data rest rs c' next :
    pc_closed c = false -> pc_complete c = false -> pc_output c = [] ->
    readProcessFrame (p_bytes down) (p_closed down) = Got (kind, data) rest ->
    client_frame kind data rs c = (c', next) ->
    client_step (mkClientSide c w false seen written shown) down
                (mkClientSide c' w (match next with ReadCloses => true | _ => false end)
                   (seen ++ [(kind, data)]) written shown) (mkPipe rest (p_closed down)) []
| cl_read_closes c seen written shown down flt c' out ok :
    ProcessConn_CloseWrite flt c = (c', out, ok) ->
    client_step (mkClientSide c None true seen written shown) down
                (mkClientSide c' None false seen written shown) down out
| cl_read_error c w seen written shown down e waited c' next :
    pc_closed c = false -> pc_complete c = false -> pc_output c = [] ->
    readProcessFrame (p_bytes down) (p_closed down) = Broken e ->
    client_read_error e waited c = (c', next) ->
    client_step (mkClientSide c w false seen written shown) down
                (mkClientSide c' w false seen written shown) down []
| cl_read_copy c w seen written shown down n c' data :
    pc_output c <> [] -> client_copy n c = (c', data) ->
    client_step (mkClientSide c w false seen written shown) down
                (mkClientSide c' w false seen written (shown ++ data)) down []
| cl_close c w closing seen written shown down :
    client_step (mkClientSide c w closing seen written shown) down
                (mkClientSide (ProcessConn_Close c) w closing seen written shown) down [].

(** A step of the server, reading from the pipe [up] and emitting [out]. *)
Inductive server_step : server_side -> pipe -> server_side -> pipe -> bytes -> Prop :=
| sv_start s input outputs seen consumed returned up flt s' out ph :
    serve_start flt s = (s', out, ph) ->
    server_step (mkServerSide s Starting input outputs seen consumed returned) up
                (mkServerSide s' ph input outputs seen consumed returned) up out
| sv_return s input outputs seen consumed returned up result :
    server_step (mkServerSide s Operating input outputs seen consumed returned) up
                (mkServerSide (finish s) (Finished result) input outputs seen consumed (Some result)) up []
| sv_stop s input outputs seen consumed returned up result deadline flt s' out ph :
    serve_stop result deadline flt s = (s', out, ph) ->
    server_step (mkServerSide s (Finished result) input outputs seen consumed returned) up
                (mkServerSide s' ph input outputs seen consumed returned) up out
| sv_result s input outputs seen consumed returned up result canceled flt s' out ph :
    serve_result result canceled flt s = Some (s', out, ph) ->
    server_step (mkServerSide s (Stopping result) input outputs seen consumed returned) up
                (mkServerSide s' ph input outputs seen consumed returned) up out
| sv_close s e input outputs seen consumed returned up :
    server_step (mkServerSide s (Returned e) input outputs seen consumed returned) up
                (mkServerSide (ps_set_closed true s) (Returned e) input outputs seen consumed returned) up []
| sv_watch s ph input outputs seen consumed returned up :
    ps_cause s <> None ->
    server_step (mkServerSide s ph input outputs seen consumed returned) up
                (mkServerSide (ps_set_closed true s) ph input outputs seen consumed returned) up []
| sv_cancel s ph input outputs seen consumed returned up e :
    server_step (mkServerSide s ph input outputs seen consumed returned) up
                (mkServerSide (cancel e s) ph input outputs seen consumed returned) up []
| sv_read_frame s ph input outputs seen consumed returned up kind data rest :
    ps_stopped s = false -> ps_closed s = false ->
    readProcessFrame (p_bytes up) (p_closed up) = Got (kind, data) rest ->
    server_step (mkServerSide s ph input outputs seen consumed returned) up
                (mkServerSide (server_frame kind data s) ph input outputs (seen ++ [(kind, data)]) consumed returned)
                (mkPipe rest (p_closed up)) []
| sv_read_error s ph input outputs seen consumed returned up e :
    ps_stopped s = false -> readProcessFrame (p_bytes up) (p_closed up) = Broken e \/ ps_closed s = true ->
    server_step (mkServerSide s ph input outputs seen consumed returned) up
                (mkServerSide (server_read_error e s) ph input outputs seen consumed returned) up []
| sv_input_begin s ph outputs seen consumed returned up n :
    ph <> Starting -> (0 < n)%nat ->
    server_step (mkServerSide s ph None outputs seen consumed returned) up
                (mkServerSide s ph (Some (InputLoop n)) outputs seen consumed returned) up []
| sv_input_loop s ph n outputs seen consumed returned up s' next :
    input_Read_loop n s = (s', next) ->
    server_step (mkServerSide s ph (Some (InputLoop n)) outputs seen consumed returned) up
                (mkServerSide s' ph (next_input next) outputs seen
                   (match next with InputOn (InputCredit data) => consumed ++ data | _ => consumed end) returned) up []
| sv_input_wait s ph n outputs seen consumed returned up canceled s' next :
    input_Read_wait canceled n s = Some (s', next) ->
    server_step (mkServerSide s ph (Some (InputWait n)) outputs seen consumed returned) up
                (mkServerSide s' ph (next_input next) outputs seen consumed returned) up []
| sv_input_credit s ph data outputs seen consumed returned up flt s' out next :
    input_Read_credit data flt s = (s', out, next) ->
    server_step (mkServerSide s ph (Some (InputCredit data)) outputs seen consumed returned) up
                (mkServerSide s' ph (next_input next) outputs seen consumed returned) up out
| sv_output_begin s ph input outputs seen consumed returned up kind data :
    ph <> Starting -> kind = processOutput \/ kind = processErrorOutput ->
    server_step (mkServerSide s ph input outputs seen consumed returned) up
                (mkServerSide s ph input (outputs ++ [(kind, data)]) seen consumed returned) up []
| sv_output_round s ph input before after seen consumed returned up kind data flt s' out next :
    output_Write_round kind data flt s = (s', out, next) ->
    server_step (mkServerSide s ph input (before ++ (kind, data) :: after) seen consumed returned) up
                (mkServerSide s' ph input
                   (match next with inl _ => before ++ after | inr data => before ++ (kind, data) :: after end)
                   seen consumed returned) up out.

(** Both sides and the pipes between them; closing the connection at either
    end seals both. *)
Record session := mkSession {
  ss_client : client_side;
  ss_server : server_side;
  ss_up : pipe;
  ss_down : pipe }.

Inductive session_step : session -> session -> Prop :=
| step_client cs sv up down cs' down' out :
    client_step cs down cs' down' out ->
    session_step (mkSession cs sv up down)
      (mkSession cs' sv (seal (pc_closed (cs_conn cs')) (push out up)) (seal (pc_closed (cs_conn cs')) down'))
| step_server cs sv up down sv' up' out :
    server_step sv up sv' up' out ->
    session_step (mkSession cs sv up down)
      (mkSession cs sv' (seal (ps_closed (sv_server sv')) up') (seal (ps_closed (sv_server sv')) (push out down)))
| step_cut_up cs sv now later closed down :
    session_step (mkSession cs sv (mkPipe (now ++ later) closed) down) (mkSession cs sv (mkPipe now true) down)
| step_cut_down cs sv up now later closed :
    session_step (mkSession cs sv up (mkPipe (now ++ later) closed)) (mkSession cs sv up (mkPipe now true)).

Definition new_session : session :=
  mkSession (mkClientSide NewProcessConn None false [] [] [])
            (mkServerSide newServer Starting None [] [] [] None) (mkPipe [] false) (mkPipe [] false).

Definition session_reachable (s : session) : Prop := rtc session_step new_session s.
