(* ===== verification/ProcessProofs.v ===== *)
(** * Process sessions: lemmas

    What the pipes carry, the invariants of each side and of the session. *)

From S2P Require Import Prelude GoText Frames FramedConn FramedProperties ProcessSession.
From Stdlib Require Import Ascii String.
Open Scope list_scope.

#[local] Arguments header_bytes : simpl never.
#[local] Arguments frame_bytes : simpl never.
#[local] Arguments processInput : simpl never.
#[local] Arguments processInputEOF : simpl never.
#[local] Arguments processOutput : simpl never.
#[local] Arguments processErrorOutput : simpl never.
#[local] Arguments processCredit : simpl never.
#[local] Arguments processResult : simpl never.
#[local] Arguments processInputStop : simpl never.
#[local] Arguments processChunk : simpl never.
#[local] Arguments blen : simpl never.

(** ** Writing *)

Lemma writeProcessBytes_part rs data : writeProcessBytes rs data = write_part rs data.
Proof.
  revert data. induction rs as [|[n e] rs IH]; intros [|c data]; try done. cbn [writeProcessBytes write_part].
  destruct ((n <? 0)%Z || (blen (c :: data) <? n)%Z); [done|]. destruct e; [done|].
  destruct (n =? 0)%Z; [done|]. by rewrite IH.
Qed.

(** What a frame leaves on the connection: all of it, or its beginning when it
    failed, or nothing when it was refused. *)
Lemma writer_frame_spec kind payload flt w w' out r :
  writer_frame kind payload flt w = (w', out, r) ->
  (r = FrameRefused /\ w' = w /\ out = [] /\
   (pw_finished w = true \/ pw_inputStopped w = true /\ kind <> processResult)) \/
  (exists more, frame_bytes kind payload = out ++ more /\ (r = FrameSent -> more = []) /\ r <> FrameRefused /\
    pw_finished w = false /\ (pw_inputStopped w = true -> kind = processResult) /\
    w' = mkWriter (Ascii.eqb kind processResult) (pw_inputStopped w || Ascii.eqb kind processInputStop)
           (pw_sent w ++ match more with [] => [(kind, payload)] | _ => [] end)
           (pw_torn w || match r with FrameFailed _ => true | _ => false end)).
Proof.
  unfold writer_frame. destruct (pw_finished w) eqn:Hf; [intros [= <- <- <-]; left; eauto|].
  destruct (pw_inputStopped w && negb (Ascii.eqb kind processResult)) eqn:Hs.
  { intros [= <- <- <-]. left. apply andb_true_iff in Hs as [Hs Hk%negb_true_iff%Ascii.eqb_neq]. auto 6. }
  assert (pw_inputStopped w = true -> kind = processResult) as Hst.
  { intros E. rewrite E in Hs. by apply negb_false_iff, Ascii.eqb_eq in Hs. }
  intros H. right. destruct (cf_deadline flt) as [e|].
  { injection H as <- <- <-. exists (frame_bytes kind payload). unfold pw_tear. cbn.
    rewrite app_nil_r, orb_true_r. split_and!; done. }
  rewrite writeProcessBytes_part in H. rewrite frame_bytes_header in *. revert H. generalize (header_bytes kind (List.length payload)) as h.
  intros h H. destruct (write_part _ h) as [[out1 rs] err1] eqn:E1. destruct (write_part_spec _ _ _ _ _ E1) as (m1 & -> & Hn1).
  assert (exists o2 m2 err2, (out1 ++ m1) ++ payload = (out1 ++ o2) ++ m2 /\ (err2 = None -> m2 = []) /\
    (match err1 with
     | Some e => (out1, Some e)
     | None => let '(out', _, err) := writeProcessBytes rs payload in (out1 ++ out', err)
     end) = (out1 ++ o2, err2)) as (o2 & m2 & err2 & Hm & Hn & E).
  { destruct err1 as [e|].
    - exists [], (m1 ++ payload), (Some e). by rewrite app_nil_r, <- app_assoc.
    - rewrite writeProcessBytes_part. destruct (write_part rs payload) as [[o2 rs2] err2] eqn:E2.
      destruct (write_part_spec _ _ _ _ _ E2) as (m2 & -> & Hn2). exists o2, m2, err2.
      rewrite Hn1, app_nil_r by done. by rewrite <- app_assoc. }
  rewrite E in H. clear E. exists m2.
  assert (bool_decide (out1 ++ o2 = (out1 ++ m1) ++ payload) = bool_decide (m2 = [])) as Hfull.
  { apply bool_decide_ext. rewrite Hm. split; [|by intros ->; rewrite app_nil_r].
    intros E. rewrite <- (app_nil_r (out1 ++ o2)) in E at 1. by apply app_inv_head in E. }
  rewrite Hfull in H. destruct err2 as [e|]; injection H as <- <- <-; split_and!; auto; try done;
    destruct m2; cbn; by rewrite ?app_nil_r, ?orb_true_r, ?orb_false_r.
Qed.

(** ** What a pipe carries *)

Definition encode (fs : list pframe) : bytes := mjoin ((fun f => frame_bytes f.1 f.2) <$> fs).
Definition pframe_ok (f : pframe) : Prop := (blen f.2 <= process_limit f.1)%Z.

Lemma encode_cons f fs : encode (f :: fs) = frame_bytes f.1 f.2 ++ encode fs.
Proof. done. Qed.
Lemma encode_app fs gs : encode (fs ++ gs) = encode fs ++ encode gs.
Proof. unfold encode. by rewrite fmap_app, join_app. Qed.

(** The beginning of one frame. *)
Definition partial (tail : bytes) : Prop :=
  tail = [] \/ exists f more, pframe_ok f /\ frame_bytes f.1 f.2 = tail ++ more /\ more <> [].

(** The frames [sent] and not yet [seen] are in the pipe; once it is closed,
    the last of them may be lost and one be cut short. *)
Definition wire_ok (sent seen : list pframe) (p : pipe) : Prop :=
  exists fs dropped tail, sent = seen ++ fs ++ dropped /\ p_bytes p = encode fs ++ tail /\
    (p_closed p = false -> dropped = [] /\ tail = []) /\ partial tail.

Lemma wire_seal sent seen p b : wire_ok sent seen p -> wire_ok sent seen (seal b p).
Proof.
  intros (fs & dropped & tail & Hs & Hb & Hc & Hp). exists fs, dropped, tail. split_and!; try done.
  unfold seal. simpl. intros [? _]%orb_false_iff. auto.
Qed.

Lemma wire_push sent seen p f out more b :
  wire_ok sent seen p -> pframe_ok f -> frame_bytes f.1 f.2 = out ++ more -> (more <> [] -> b = true) ->
  wire_ok (sent ++ match more with [] => [f] | _ => [] end) seen (seal b (push out p)).
Proof.
  intros (fs & dropped & tail & Hs & Hb & Hc & Hp) Hok Hf Hmore. unfold push. destruct (p_closed p) eqn:Hcl.
  - apply wire_seal. exists fs, (dropped ++ match more with [] => [f] | _ => [] end), tail. rewrite Hcl.
    split_and!; try done. by rewrite Hs, <- !app_assoc.
  - destruct Hc as [-> ->]; [done|]. rewrite app_nil_r in Hs, Hb. destruct more as [|x more].
    + apply wire_seal. exists (fs ++ [f]), [], []. rewrite app_nil_r in Hf. simpl.
      rewrite encode_app, encode_cons, Hf, Hb, Hs, !app_nil_r, app_assoc. split_and!; try done; by left.
    + rewrite (Hmore ltac:(done)). exists fs, [], out. simpl. rewrite Hb, Hs, !app_nil_r. split_and!; try done.
      right. exists f, (x :: more). done.
Qed.

Lemma encode_cut fs tail now later :
  Forall pframe_ok fs -> partial tail -> encode fs ++ tail = now ++ later ->
  exists fs1 fs2 tail', fs = fs1 ++ fs2 /\ now = encode fs1 ++ tail' /\ partial tail'.
Proof.
  revert now. induction fs as [|f fs IH]; intros now Hok Hp E.
  - exists [], [], now. split_and!; try done. simpl in E. destruct Hp as [->|(f & more & Hf & Hb & Hm)].
    + left. by destruct now.
    + right. exists f, (later ++ more). rewrite Hb, E, <- app_assoc. split_and!; try done.
      by intros [_ ?]%app_nil.
  - apply Forall_cons in Hok as [Hf Hok]. rewrite encode_cons, <- app_assoc in E.
    apply app_eq_app in E as (k & [[E1 E2]|[E1 E2]]).
    + destruct k as [|x k].
      * rewrite app_nil_r in E1. exists [f], fs, []. rewrite encode_cons, !app_nil_r. split_and!; try done. by left.
      * exists [], (f :: fs), now. split_and!; try done. right. by exists f, (x :: k).
    + subst now. destruct (IH k Hok Hp E2) as (fs1 & fs2 & tail' & -> & -> & Ht).
      exists (f :: fs1), fs2, tail'. rewrite encode_cons, <- app_assoc. done.
Qed.

Lemma wire_cut sent seen now later closed :
  Forall pframe_ok sent -> wire_ok sent seen (mkPipe (now ++ later) closed) -> wire_ok sent seen (mkPipe now true).
Proof.
  intros Hok (fs & dropped & tail & Hs & Hb & Hc & Hp). simpl in *.
  assert (Forall pframe_ok fs) as Hfs by (rewrite Hs in Hok; by apply Forall_app in Hok as [_ [? _]%Forall_app]).
  destruct (encode_cut fs tail now later Hfs Hp (eq_sym Hb)) as (fs1 & fs2 & tail' & -> & -> & Ht).
  exists fs1, (fs2 ++ dropped), tail'. by rewrite Hs, <- !app_assoc.
Qed.

(** A rejected frame is rejected however it continues. *)
Lemma invalid_frame_app b c closed closed' :
  readProcessFrame b closed = Broken InvalidFrame -> readProcessFrame (b ++ c) closed' = Broken InvalidFrame.
Proof.
  unfold readProcessFrame. intros H.
  assert (forall n i cl, ReadFull n i cl <> Broken InvalidFrame) as Hno.
  { intros n i cl. unfold ReadFull. destruct (n <=? _)%nat; [done|]. by destruct cl, i. }
  destruct (ReadFull 5 b closed) as [h rest| |e] eqn:E; cbn [read_bind] in H; [|done|].
  - apply ReadFull_got in E as [-> Hl]. rewrite <- app_assoc, ReadFull_app by done. cbn [read_bind].
    destruct (_ <? _)%Z; [done|]. destruct (ReadFull _ rest closed) eqn:E2; cbn [read_bind] in H; [done|done|].
    injection H as ->. by apply Hno in E2.
  - injection H as ->. by apply Hno in E.
Qed.

(** A reader sees the next frame that was sent, or part of one. *)
Lemma wire_read sent seen p :
  Forall pframe_ok sent -> wire_ok sent seen p ->
  match readProcessFrame (p_bytes p) (p_closed p) with
  | Got f rest => wire_ok sent (seen ++ [f]) (mkPipe rest (p_closed p)) /\ exists more, sent = seen ++ f :: more
  | Blocked => True
  | Broken e => e <> InvalidFrame /\ p_closed p = true
  end.
Proof.
  intros Hok (fs & dropped & tail & Hs & Hb & Hc & Hp). destruct fs as [|f fs].
  - simpl in Hb. assert (forall f more, frame_bytes f.1 f.2 = tail ++ more -> pframe_ok f -> more <> [] ->
      readProcessFrame (tail ++ more) true = Got f []) as Hwhole.
    { intros [k d] more Hf Ho _. rewrite <- Hf, <- (app_nil_r (frame_bytes _ _)). by apply readProcessFrame_frame. }
    destruct (readProcessFrame (p_bytes p) (p_closed p)) as [[k d] rest| |e] eqn:E; [| done |].
    + exfalso. rewrite Hb in E. apply readProcessFrame_exact in E as [E Hl]. destruct Hp as [->|(f & more & Ho & Hf & Hm)]; [done|].
      pose proof (Hwhole f more Hf Ho Hm) as Hr. rewrite E, <- app_assoc, readProcessFrame_frame in Hr by done.
      injection Hr as _ [_ ?]%app_nil. done.
    + split.
      * intros ->. rewrite Hb in E. destruct Hp as [->|(f & more & Ho & Hf & Hm)].
        { unfold readProcessFrame, ReadFull in E. simpl in E. by destruct (p_closed p). }
        pose proof (Hwhole f more Hf Ho Hm) as Hr. by rewrite (invalid_frame_app _ _ _ _ E) in Hr.
      * destruct (p_closed p) eqn:Hcl; [done|]. destruct Hc as [_ ->]; [done|]. by rewrite Hb in E.
  - destruct f as [k d]. rewrite Hb, encode_cons, <- app_assoc. cbn [fst snd]. rewrite readProcessFrame_frame.
    + split; [|rewrite Hs; by eexists]. exists fs, dropped, tail. rewrite Hs, <- app_assoc. done.
    + rewrite Hs in Hok. apply Forall_app in Hok as [_ Hok]. by apply Forall_cons in Hok as [? _].
Qed.

(** ** Histories *)

Definition payload_of (kind : ascii) (fs : list pframe) : bytes :=
  mjoin ((fun f : pframe => if Ascii.eqb f.1 kind then f.2 else []) <$> fs).
Definition credit_of (f : pframe) : Z := if Ascii.eqb f.1 processCredit then Uint32 f.2 else 0%Z.
Definition credit_sum (fs : list pframe) : Z := foldr (fun f n => credit_of f + n)%Z 0%Z fs.
Definition has (kind : ascii) (fs : list pframe) : Prop := exists data, (kind, data) ∈ fs.

#[local] Arguments payload_of : simpl never.
#[local] Arguments credit_sum : simpl never.
#[local] Arguments credit_of : simpl never.

Lemma payload_of_app k fs gs : payload_of k (fs ++ gs) = payload_of k fs ++ payload_of k gs.
Proof. unfold payload_of. by rewrite fmap_app, join_app. Qed.
Lemma payload_of_one k f : payload_of k [f] = if Ascii.eqb f.1 k then f.2 else [].
Proof. unfold payload_of. simpl. by rewrite app_nil_r. Qed.
Lemma credit_sum_app fs gs : credit_sum (fs ++ gs) = (credit_sum fs + credit_sum gs)%Z.
Proof. unfold credit_sum. induction fs as [|f fs IH]; simpl; [done|]. rewrite IH. lia. Qed.
Lemma credit_sum_one f : credit_sum [f] = credit_of f.
Proof. unfold credit_sum. simpl. lia. Qed.
Lemma has_app k fs gs : has k (fs ++ gs) <-> has k fs \/ has k gs.
Proof. unfold has. setoid_rewrite elem_of_app. naive_solver. Qed.
Lemma has_one k f : has k [f] <-> f.1 = k.
Proof.
  unfold has. setoid_rewrite list_elem_of_singleton. destruct f as [k' d]. simpl. split; [by intros [? [= -> _]]|].
  intros ->. by exists d.
Qed.
Lemma blen_app a b : blen (a ++ b) = (blen a + blen b)%Z.
Proof. unfold blen. rewrite length_app. lia. Qed.
Lemma blen_nil : blen [] = 0%Z.
Proof. done. Qed.
Lemma blen_nonneg a : (0 <= blen a)%Z.
Proof. unfold blen. lia. Qed.
Lemma blen_pos a : a <> [] -> (0 < blen a)%Z.
Proof. destruct a; [done|]. unfold blen. simpl. lia. Qed.

Lemma Uint32_credit n : (0 < n <= processChunk)%Z -> Uint32 (PutUint32 n) = n.
Proof.
  intros H. rewrite <- (app_nil_r (PutUint32 n)), Uint32_PutUint32. apply Z.mod_small. unfold processChunk in H. lia.
Qed.

(** ** The client *)

Definition chunk_of (w : option write_call) : bytes :=
  match w with Some (WriteFrame _ chunk _) => chunk | _ => [] end.
Definition rest_of (w : option write_call) : bytes :=
  match w with
  | Some (WriteFrame _ _ data) | Some (WriteLoop _ data) | Some (WriteWait _ data) => data
  | None => []
  end.

(** Frames a client may send. *)
Definition up_frame (f : pframe) : Prop :=
  f.1 = processInput /\ (0 < blen f.2 <= processChunk)%Z \/ f = (processInputEOF, []).

Record client_inv (cs : client_side) : Prop := {
  ci_writer : pw_finished (pc_frames (cs_conn cs)) = false /\ pw_inputStopped (pc_frames (cs_conn cs)) = false;
  ci_credit : (0 <= pc_credit (cs_conn cs))%Z;
  ci_window : (pc_credit (cs_conn cs) + blen (chunk_of (cs_write cs)) +
               blen (payload_of processInput (pw_sent (pc_frames (cs_conn cs)))) <= credit_sum (cs_seen cs))%Z;
  ci_chunk : forall k chunk data, cs_write cs = Some (WriteFrame k chunk data) -> (0 < blen chunk <= processChunk)%Z;
  ci_sent : Forall up_frame (pw_sent (pc_frames (cs_conn cs)));
  ci_eof : has processInputEOF (pw_sent (pc_frames (cs_conn cs))) -> pc_inputEOF (cs_conn cs) = true;
  ci_eof_sent : pc_inputEOF (cs_conn cs) = true -> pc_closed (cs_conn cs) = false ->
    has processInputEOF (pw_sent (pc_frames (cs_conn cs)));
  ci_last : forall pre data post, pw_sent (pc_frames (cs_conn cs)) = pre ++ (processInputEOF, data) :: post -> post = [];
  ci_half : pc_inputEOF (cs_conn cs) = true -> cs_write cs = None;
  ci_output : cs_shown cs ++ pc_output (cs_conn cs) = payload_of processOutput (cs_seen cs);
  ci_stderr : pc_closed (cs_conn cs) = false \/ pc_complete (cs_conn cs) = true ->
              pc_stderr (cs_conn cs) = payload_of processErrorOutput (cs_seen cs);
  ci_stop : pc_stopSeen (cs_conn cs) = true <-> has processInputStop (cs_seen cs);
  ci_stopped : pc_inputStopped (cs_conn cs) = pc_stopSeen (cs_conn cs);
  ci_result : pc_result (cs_conn cs) = payload_of processResult (cs_seen cs);
  ci_complete : pc_complete (cs_conn cs) = true -> pc_result (cs_conn cs) <> [];
  ci_prefix : payload_of processInput (pw_sent (pc_frames (cs_conn cs))) ++ chunk_of (cs_write cs) `prefix_of` cs_written cs;
  ci_written : pc_closed (cs_conn cs) = false -> pc_inputStopped (cs_conn cs) = false ->
    cs_written cs = payload_of processInput (pw_sent (pc_frames (cs_conn cs))) ++ chunk_of (cs_write cs) ++ rest_of (cs_write cs);
  ci_whole : has processInputEOF (pw_sent (pc_frames (cs_conn cs))) ->
    pc_inputStopped (cs_conn cs) = true \/ cs_written cs = payload_of processInput (pw_sent (pc_frames (cs_conn cs)));
  ci_wait : forall k data, cs_write cs = Some (WriteWait k data) ->
    pc_credit (cs_conn cs) = 0%Z \/ pc_wake (cs_conn cs) = true;
  ci_closing : cs_closing cs = true -> pc_stopSeen (cs_conn cs) = true;
  ci_closed : pc_stopSeen (cs_conn cs) = true -> cs_closing cs = true \/ pc_inputEOF (cs_conn cs) = true }.

Lemma client_inv_new : client_inv (ss_client new_session).
Proof.
  constructor; cbn; try done.
  - intros [d H]. by apply elem_of_nil in H.
  - intros pre d post E. by destruct pre.
  - split; [done|]. intros [d H]. by apply elem_of_nil in H.
  - intros [d H]. by apply elem_of_nil in H.
Qed.

Lemma up_kinds : processInput <> processResult /\ processInput <> processInputStop /\
  processInputEOF <> processResult /\ processInputEOF <> processInputStop.
Proof. by vm_compute. Qed.

Lemma client_send_spec kind payload flt c c' out r :
  pw_finished (pc_frames c) = false -> pw_inputStopped (pc_frames c) = false ->
  kind <> processResult -> kind <> processInputStop ->
  client_send kind payload flt c = (c', out, r) ->
  exists more torn b, frame_bytes kind payload = out ++ more /\
    c' = pc_set_closed b (pc_set_frames (mkWriter false false
           (pw_sent (pc_frames c) ++ match more with [] => [(kind, payload)] | _ => [] end) torn) c) /\
    (r = FrameSent /\ b = pc_closed c /\ more = [] \/ r <> FrameSent /\ b = true) /\ (pc_closed c = true -> b = true) /\
    (pc_closed c = true -> more <> []).
Proof.
  intros Hf Hs Hk1 Hk2. unfold client_send. set (flt' := if pc_closed c then _ else flt).
  destruct (writer_frame kind payload flt' (pc_frames c)) as [[w o] r'] eqn:E.
  assert (pc_closed c = true -> o = []) as Ho.
  { subst flt'. intros Hc. rewrite Hc in E. unfold writer_frame in E. rewrite Hf, Hs in E. cbn in E. by injection E as _ <- _. }
  intros [= <- <- <-]. destruct (writer_frame_spec _ _ _ _ _ _ _ E) as [(-> & _ & _ & [?|[? _]])|(more & Hb & Hm & Hr & _ & _ & ->)];
    [congruence..|]. apply Ascii.eqb_neq in Hk1 as E1, Hk2 as E2. rewrite E1, E2, Hs.
  exists more, (pw_torn (pc_frames c) || match r' with FrameFailed _ => true | _ => false end),
    (match r' with FrameFailed _ => true | _ => pc_closed c end). split; [done|].
  assert (pc_closed c = true -> more <> []) as Hopen by (intros Hc ->; by rewrite Ho in Hb by done).
  destruct r'; [|done|]; (split; [by destruct c|]); [|split_and!; [by right|done|done]]. split_and!; [left; auto|done|done].
Qed.

(** Unpacking [client_inv] after a step has been named. *)
Ltac client_goal Hinv :=
  destruct Hinv as [[Hw1 Hw2] Hc0 Hwin Hchunk Hsent Heofs Heofc Hlast Hhalf Hout Herr Hstop Hstopped Hres Hcomp Hpre Hwr Hwhole Hwait Hclosing Hclosed];
  cbn in Hw1, Hw2, Hc0, Hwin, Hchunk, Hsent, Heofs, Heofc, Hlast, Hhalf, Hout, Herr, Hstop, Hstopped, Hres, Hcomp, Hpre, Hwr, Hwhole, Hwait, Hclosing, Hclosed.

Lemma client_write_begin_inv c closing seen written shown data w :
  client_inv (mkClientSide c None closing seen written shown) -> ProcessConn_Write_begin data c = WriteOn w ->
  client_inv (mkClientSide c (Some w) closing seen (written ++ data) shown).
Proof.
  intros Hinv. unfold ProcessConn_Write_begin. destruct (pc_inputEOF c) eqn:Heof; [done|]. intros [= <-]. client_goal Hinv.
  constructor; cbn; try done; try congruence; auto.
  - by apply prefix_app_r.
  - intros H1 H2. rewrite (Hwr H1 H2). by rewrite !app_nil_r.
  - intros H. rewrite Heofs in Heof by done. done.
Qed.

Lemma client_write_loop_inv c closing seen written shown k data c' next :
  client_inv (mkClientSide c (Some (WriteLoop k data)) closing seen written shown) ->
  ProcessConn_Write_loop k data c = (c', next) ->
  client_inv (mkClientSide c' (next_write next) closing seen written shown).
Proof.
  intros Hinv. unfold ProcessConn_Write_loop. destruct data as [|x data].
  { intros [= <- <-]. client_goal Hinv. by constructor. }
  destruct (pc_closed c || pc_inputStopped c) eqn:Hdead.
  { intros [= <- <-]. client_goal Hinv. constructor; cbn; try done.
    intros H1 H2. by rewrite H1, H2 in Hdead. }
  apply orb_false_iff in Hdead as [Hcl Hst].
  assert (0 < blen (x :: data))%Z as Hlen by by apply blen_pos. client_goal Hinv.
  set (n := Z.min (Z.min (blen (x :: data)) (pc_credit c)) processChunk).
  assert (0 <= n <= pc_credit c)%Z as Hn by (unfold n, processChunk; lia).
  destruct (Z.eqb_spec n 0) as [E|E]; intros [= <- <-].
  - constructor; cbn; try done; try lia.
    + intros H. by specialize (Hhalf H).
    + intros _ _ _. left. unfold n, processChunk in *. lia.
  - assert (blen (take (Z.to_nat n) (x :: data)) = n) as Ht.
    { unfold blen. rewrite length_take. unfold n, blen in *. lia. }
    constructor; cbn -[take drop];
      try done; try lia.
    + rewrite Ht. simpl in Hwin. change (blen []) with 0%Z in Hwin. lia.
    + intros ? ? ? [= <- <- <-]. rewrite Ht. unfold n in *. lia.
    + intros H. by specialize (Hhalf H).
    + rewrite (Hwr Hcl Hst). rewrite <- (take_drop (Z.to_nat n) (x :: data)) at 2. simpl app at 2. rewrite app_assoc. by apply prefix_app_r.
    + intros _ _. rewrite (Hwr Hcl Hst). by rewrite take_drop.
Qed.

Lemma client_write_wait_inv c closing seen written shown k data stop c' next :
  client_inv (mkClientSide c (Some (WriteWait k data)) closing seen written shown) ->
  ProcessConn_Write_wait stop k data c = Some (c', next) ->
  client_inv (mkClientSide c' (next_write next) closing seen written shown).
Proof.
  intros Hinv. unfold ProcessConn_Write_wait. destruct stop.
  - destruct (pc_closed c || pc_inputStopped c) eqn:Hdead; [|done]. intros [= <- <-]. client_goal Hinv.
    constructor; cbn; try done. intros H1 H2. by rewrite H1, H2 in Hdead.
  - destruct (pc_wake c); [|done]. intros [= <- <-]. client_goal Hinv. constructor; cbn; try done.
    intros H. by specialize (Hhalf H).
Qed.

Lemma client_write_frame_inv c closing seen written shown k chunk data flt c' out next :
  client_inv (mkClientSide c (Some (WriteFrame k chunk data)) closing seen written shown) ->
  ProcessConn_Write_frame k chunk data flt c = (c', out, next) ->
  client_inv (mkClientSide c' (next_write next) closing seen written shown).
Proof.
  intros Hinv. unfold ProcessConn_Write_frame. destruct (client_send _ _ _ _) as [[c1 o1] r] eqn:E. intros [= <- <- <-].
  pose proof (ci_writer _ Hinv) as [Hf Hs]. destruct (client_send_spec _ _ _ _ _ _ _ Hf Hs
    (proj1 up_kinds) (proj1 (proj2 up_kinds)) E) as (more & torn & b & Hb & -> & Hr & Hcb & Hopen). client_goal Hinv. specialize (Hchunk _ _ _ eq_refl).
  assert (pc_inputEOF c = false) as Heof by (apply not_true_iff_false; intros H; by specialize (Hhalf H)).
  assert (forall t, payload_of processInput (t ++ match more with [] => [(processInput, chunk)] | _ => [] end) =
    payload_of processInput t ++ match more with [] => chunk | _ => [] end) as Hpay.
  { intros t. rewrite payload_of_app. destruct more; [by rewrite payload_of_one|done]. }
  constructor; cbn; try done.
  - rewrite Hpay, blen_app. destruct Hr as [(-> & -> & ->)|(Hn & ->)]; cbn; rewrite ?blen_nil;
    [lia|]. destruct r; cbn; [done|..]; destruct more; rewrite ?blen_nil; lia.
  - destruct r; by cbn.
  - apply Forall_app. split; [done|]. destruct more; [|done]. apply Forall_singleton. left. done.
  - rewrite has_app. intros [H|H]; [by apply Heofs|]. destruct more; [by apply has_one in H|].
    destruct H as [d H]. by apply elem_of_nil in H.
  - congruence.
  - intros pre d post E'. exfalso.
    assert (has processInputEOF (pw_sent (pc_frames c) ++ match more with [] => [(processInput, chunk)] | _ => [] end)) as H.
    { exists d. rewrite E'. apply elem_of_app. right. by left. }
    rewrite has_app in H. destruct H as [H|H]; [rewrite Heofs in Heof by done; done|].
    destruct more; [by apply has_one in H|]. destruct H as [? H]. by apply elem_of_nil in H.
  - congruence.
  - intros [->|H]; [|by auto]. apply Herr. left. destruct Hr as [(_ & -> & _)|[_ ?]]; done.
  - rewrite Hpay. destruct Hr as [(-> & -> & ->)|(Hn & ->)]; cbn; rewrite ?app_nil_r; [done|].
    destruct r; cbn; [done|..]; rewrite ?app_nil_r; destruct more; rewrite ?app_nil_r; try done;
      (etrans; [|exact Hpre]; by apply prefix_app_r).
  - intros -> H2. destruct Hr as [(-> & Hbc & ->)|(Hn & ?)]; [|done]. cbn. rewrite Hpay.
    rewrite Hwr by done. by rewrite <- !app_assoc.
  - rewrite has_app. intros [H|H]; [rewrite Heofs in Heof by done; done|].
    destruct more; [by apply has_one in H|]. destruct H as [? H]. by apply elem_of_nil in H.
  - destruct r; by cbn.
Qed.

Lemma client_close_write_inv c closing closing' seen written shown flt c' out ok :
  client_inv (mkClientSide c None closing seen written shown) -> (closing' = true -> closing = true) ->
  ProcessConn_CloseWrite flt c = (c', out, ok) ->
  client_inv (mkClientSide c' None closing' seen written shown).
Proof.
  intros Hinv Hcl. unfold ProcessConn_CloseWrite. destruct (pc_inputEOF c) eqn:Heof.
  { intros [= <- _ _]. client_goal Hinv. constructor; cbn; auto. }
  destruct (client_send _ _ _ _) as [[c1 o1] r] eqn:E. intros [= <- <- <-].
  pose proof (ci_writer _ Hinv) as [Hf Hs]. destruct (client_send_spec _ _ _ (pc_set_inputEOF true c) _ _ _ Hf Hs
    (proj1 (proj2 (proj2 up_kinds))) (proj2 (proj2 (proj2 up_kinds))) E) as (more & torn & b & Hb & -> & Hr & Hcb & Hopen).
  client_goal Hinv.
  assert (forall t, payload_of processInput (t ++ match more with [] => [(processInputEOF, [])] | _ => [] end) =
    payload_of processInput t) as Hpay.
  { intros t. rewrite payload_of_app. destruct more; [rewrite payload_of_one|]; by rewrite app_nil_r. }
  constructor; cbn; rewrite ?Hpay; auto.
  - apply Forall_app. split; [done|]. destruct more; [|done]. apply Forall_singleton. by right.
  - intros _ ->. destruct Hr as [(_ & _ & ->)|[_ ?]]; [|done]. apply has_app. right. by apply has_one.
  - intros pre d post E'. destruct post as [|z l _] using rev_ind; [done|]. exfalso.
    assert (has processInputEOF (pw_sent (pc_frames c))) as H; [|rewrite Heofs in Heof by done; done].
    exists d. destruct more; [|rewrite app_nil_r in E'; rewrite E'; apply elem_of_app; right; by left].
    rewrite app_comm_cons, app_assoc in E'. apply app_inj_tail in E' as [-> _]. apply elem_of_app. right. by left.
  - intros [->|H]; [|by auto]. apply Herr. left. destruct Hr as [(_ & Hc & _)|[_ ?]]; done.
  - intros ->. intros H. apply Hwr; [|done]. destruct Hr as [(_ & Hc & _)|[_ ?]]; done.
  - intros H. destruct (pc_inputStopped c); [by left|right]. destruct (pc_closed c) eqn:Hclo.
    + specialize (Hopen Hclo). destruct more; [done|]. rewrite app_nil_r in H. rewrite Heofs in Heof by done. done.
    + rewrite Hwr by done. cbn. by rewrite app_nil_r.
Qed.

(** The frame a client reads next, when the server keeps to the protocol. *)
Definition frame_fits (cs : client_side) (f : pframe) : Prop :=
  (~ has processResult (cs_seen cs)) /\
  (has processInputStop (cs_seen cs) -> f.1 = processResult) /\
  ((f.1 = processInputStop /\ f.2 = []) \/
   (exists n, f = (processCredit, PutUint32 n) /\ (0 < n <= processChunk)%Z /\
     (credit_sum (cs_seen cs) + n <= processChunk + blen (payload_of processInput (pw_sent (pc_frames (cs_conn cs)))))%Z) \/
   ((f.1 = processOutput \/ f.1 = processErrorOutput) /\ f.2 <> []) \/
   (f.1 = processResult /\ f.2 <> [] /\ has processInputStop (cs_seen cs))).

(** Such a frame is not a violation. *)
Definition accepted (next : read_next) : Prop :=
  match next with ReadError ErrProtocol => False | _ => True end.

Lemma payload_none kind fs : ~ has kind fs -> payload_of kind fs = [].
Proof.
  intros H. induction fs as [|[k d] fs IH]; [done|]. change ((k, d) :: fs) with ([(k, d)] ++ fs).
  rewrite payload_of_app, payload_of_one, IH.
  - simpl. destruct (Ascii.eqb_spec k kind) as [->|]; [|done]. exfalso. apply H. exists d. by left.
  - intros [d' ?]. apply H. exists d'. by right.
Qed.

(** How each history grows with a frame of a given kind. *)
Lemma grow_history seen kind data :
  credit_sum (seen ++ [(kind, data)]) = (credit_sum seen + if Ascii.eqb kind processCredit then Uint32 data else 0)%Z /\
  (forall k, payload_of k (seen ++ [(kind, data)]) = payload_of k seen ++ if Ascii.eqb kind k then data else []) /\
  (forall k, has k (seen ++ [(kind, data)]) <-> has k seen \/ Ascii.eqb kind k = true).
Proof.
  rewrite credit_sum_app, credit_sum_one. split_and!; [done|intros k..].
  - by rewrite payload_of_app, payload_of_one.
  - by rewrite has_app, has_one, Ascii.eqb_eq.
Qed.

(** Comparing two kinds. *)
Ltac kinds :=
  repeat match goal with
  | |- context [Ascii.eqb ?a ?b] => let v := eval vm_compute in (Ascii.eqb a b) in
      match v with true => idtac | false => idtac end; change (Ascii.eqb a b) with v
  | H : context [Ascii.eqb ?a ?b] |- _ => let v := eval vm_compute in (Ascii.eqb a b) in
      match v with true => idtac | false => idtac end; change (Ascii.eqb a b) with v in H
  end; cbv iota in *.

(** The histories of [client_inv] after one more frame. *)
Ltac grow :=
  repeat match goal with
  | H : forall k, payload_of k _ = payload_of k _ ++ _ |- context [payload_of ?k (?l ++ [_])] => rewrite (H k)
  | H : forall k, has k _ <-> _ |- context [has ?k (?l ++ [_])] => rewrite (H k)
  | H : credit_sum (?l ++ [_]) = _ |- context [credit_sum (?l ++ [_])] => rewrite H
  end; kinds; rewrite ?app_nil_r.

Lemma client_read_frame_inv c w seen written shown kind data rs c' next :
  client_inv (mkClientSide c w false seen written shown) ->
  frame_fits (mkClientSide c w false seen written shown) (kind, data) ->
  pc_closed c = false -> pc_complete c = false -> pc_output c = [] ->
  client_frame kind data rs c = (c', next) ->
  accepted next /\
  client_inv (mkClientSide c' w (match next with ReadCloses => true | _ => false end) (seen ++ [(kind, data)]) written shown).
Proof.
  intros Hinv (Hnres & Hafter & Hkind) Hcl Hco Hno. destruct (grow_history seen kind data) as (Hg1 & Hg2 & Hg3).
  client_goal Hinv. cbn in Hnres, Hafter, Hkind. unfold client_frame.
  rewrite bool_decide_false by (rewrite Hres, payload_none by done; auto).
  destruct (pc_stopSeen c && negb (Ascii.eqb kind processResult)) eqn:Hs.
  { exfalso. apply andb_true_iff in Hs as [Hs Hk%negb_true_iff%Ascii.eqb_neq]. by apply Hk, Hafter, Hstop. }
  assert (shown = payload_of processOutput seen) as Hshown by (by rewrite <- Hout, Hno, app_nil_r).
  destruct Hkind as [[-> ->]|[(n & [= -> ->] & Hn & Hsum)|[[[->| ->] Hd]|(-> & Hd & Hst)]]]; kinds.
  - intros [= <- <-]. split; [done|]. constructor; cbn; grow; try done; try tauto; try (intuition congruence). lia.
  - rewrite Uint32_credit in * by done. pose proof (blen_nonneg (chunk_of w)).
    change (negb (blen (PutUint32 n) =? 4)%Z) with false. cbv iota.
    replace ((0 <? n)%Z && (n <=? processChunk)%Z && (pc_credit c + n <=? processChunk)%Z) with true
      by (symmetry; rewrite !andb_true_iff, Z.ltb_lt, !Z.leb_le; lia).
    intros [= <- <-]. split; [done|]. constructor; cbn; grow; try done; try tauto; try (intuition congruence); try lia; auto.
  - rewrite bool_decide_false by done. intros [= <- <-]. split; [done|].
    constructor; cbn; grow; try done; try tauto; try (intuition congruence); lia.
  - rewrite bool_decide_false by done. rewrite writeProcessBytes_part.
    destruct (write_part rs data) as [[out rs'] err] eqn:E. destruct (write_part_spec _ _ _ _ _ E) as (more & -> & Hm).
    destruct err as [e|]; intros [= <- <-]; (split; [done|]); constructor; cbn; grow; try done; try tauto; try (intuition congruence); try lia.
    intros _. by rewrite Herr, Hm, !app_nil_r by auto.
  - rewrite bool_decide_false by done. rewrite (proj2 Hstop) by done. intros [= <- <-]. split; [done|].
    constructor; cbn; grow; try done; try tauto; try (intuition congruence); [lia|].
    by rewrite (payload_none _ _ Hnres).
Qed.

Lemma client_step_inv cs down cs' down' out :
  client_inv cs -> client_step cs down cs' down' out ->
  (forall f rest, readProcessFrame (p_bytes down) (p_closed down) = Got f rest -> frame_fits cs f) ->
  client_inv cs'.
Proof.
  intros Hinv Hstep Hfits. destruct Hstep.
  - by eapply client_write_begin_inv.
  - by eapply client_write_loop_inv.
  - by eapply client_write_wait_inv.
  - by eapply client_write_frame_inv.
  - by eapply client_close_write_inv.
  - eapply client_read_frame_inv; try done. by eapply Hfits.
  - by eapply client_close_write_inv.
  - client_goal Hinv. match goal with H : client_read_error _ _ _ = _ |- _ => unfold client_read_error in H; rename H into Hf end.
    destruct e; [|by injection Hf as <- <-; constructor; cbn; auto; intros [?|?]; auto; congruence..].
    case_bool_decide; [destruct waited|]; injection Hf as <- <-; constructor; cbn; auto; intros [?|?]; auto; congruence.
  - client_goal Hinv. match goal with H : client_copy _ _ = _ |- _ => injection H as <- <- end.
    constructor; cbn; auto. by rewrite <- app_assoc, take_drop.
  - client_goal Hinv. constructor; cbn; auto; try done. intros [?|?]; [done|auto].
Qed.

(** What a step of the client does to the two pipes. *)
Definition emits (sent sent' : list pframe) (out : bytes) (closed : bool) (ok : pframe -> Prop) : Prop :=
  (out = [] /\ sent' = sent) \/
  (exists f more, ok f /\ frame_bytes f.1 f.2 = out ++ more /\ (more <> [] -> closed = true) /\
    sent' = sent ++ match more with [] => [f] | _ => [] end).

Definition takes (seen seen' : list pframe) (p p' : pipe) : Prop :=
  (seen' = seen /\ p' = p) \/
  (exists f rest, readProcessFrame (p_bytes p) (p_closed p) = Got f rest /\ seen' = seen ++ [f] /\
    p' = mkPipe rest (p_closed p)).

Lemma client_send_emits kind payload flt c c' out r :
  pw_finished (pc_frames c) = false -> pw_inputStopped (pc_frames c) = false ->
  kind <> processResult -> kind <> processInputStop -> up_frame (kind, payload) ->
  client_send kind payload flt c = (c', out, r) ->
  emits (pw_sent (pc_frames c)) (pw_sent (pc_frames c')) out (pc_closed c') up_frame /\
  (pc_closed c = true -> pc_closed c' = true).
Proof.
  intros Hf Hs Hk1 Hk2 Hup E.
  destruct (client_send_spec _ _ _ _ _ _ _ Hf Hs Hk1 Hk2 E) as (more & torn & b & Hb & -> & Hr & Hcb & Hopen).
  split; [|exact Hcb]. right. exists (kind, payload), more. split_and!; try done.
  intros Hm. destruct Hr as [(_ & _ & ?)|[_ ->]]; done.
Qed.

Lemma client_close_write_emits flt c c' out ok :
  pw_finished (pc_frames c) = false -> pw_inputStopped (pc_frames c) = false ->
  ProcessConn_CloseWrite flt c = (c', out, ok) ->
  emits (pw_sent (pc_frames c)) (pw_sent (pc_frames c')) out (pc_closed c') up_frame /\
  (pc_closed c = true -> pc_closed c' = true).
Proof.
  intros Hf Hs. unfold ProcessConn_CloseWrite.
  destruct (pc_inputEOF c); [intros [= <- <- <-]; split; [by left|done]|].
  destruct (client_send _ _ _ _) as [[c1 o1] r] eqn:E. intros [= <- <- <-]. destruct up_kinds as (_ & _ & Hk1 & Hk2).
  refine (client_send_emits _ _ _ (pc_set_inputEOF true c) _ _ _ Hf Hs Hk1 Hk2 _ E). by right.
Qed.

(** Steps that touch neither the writer nor, except to set it, [closed]. *)
Definition quiet (c c' : ProcessConn) : Prop :=
  pc_frames c' = pc_frames c /\ (pc_closed c = true -> pc_closed c' = true).

Lemma client_frame_quiet kind data rs c c' next : client_frame kind data rs c = (c', next) -> quiet c c'.
Proof.
  unfold client_frame, quiet. intros H.
  repeat match type of H with
  | (if ?b then _ else _) = _ => destruct b
  | (let '(_, _) := ?p in _) = _ => destruct p as [[] []]
  end; injection H as <- _; done.
Qed.

Lemma client_read_error_quiet e waited c c' next : client_read_error e waited c = (c', next) -> quiet c c'.
Proof.
  unfold client_read_error, quiet. destruct e; [case_bool_decide; [destruct waited|]|..]; by intros [= <- _].
Qed.

Lemma client_write_loop_quiet k data c c' next : ProcessConn_Write_loop k data c = (c', next) -> quiet c c'.
Proof.
  unfold ProcessConn_Write_loop, quiet. destruct data; [by intros [= <- _]|].
  destruct (pc_closed c || pc_inputStopped c); [by intros [= <- _]|]. by destruct (_ =? 0)%Z; intros [= <- _].
Qed.

Lemma client_write_wait_quiet stop k data c c' next : ProcessConn_Write_wait stop k data c = Some (c', next) -> quiet c c'.
Proof.
  unfold ProcessConn_Write_wait, quiet.
  destruct stop; [destruct (pc_closed c || pc_inputStopped c)|destruct (pc_wake c)]; try done; by intros [= <- _].
Qed.

Lemma client_step_wire cs down cs' down' out :
  client_inv cs -> client_step cs down cs' down' out ->
  emits (pw_sent (pc_frames (cs_conn cs))) (pw_sent (pc_frames (cs_conn cs'))) out (pc_closed (cs_conn cs')) up_frame /\
  takes (cs_seen cs) (cs_seen cs') down down' /\ (pc_closed (cs_conn cs) = true -> pc_closed (cs_conn cs') = true).
Proof.
  intros Hinv Hstep. pose proof (ci_writer _ Hinv) as [Hf Hs].
  assert (forall c c', quiet c c' ->
    emits (pw_sent (pc_frames c)) (pw_sent (pc_frames c')) [] (pc_closed c') up_frame /\
    (pc_closed c = true -> pc_closed c' = true)) as Hquiet.
  { intros c c' [-> Hc]. split; [by left|done]. }
  destruct Hstep; cbn [cs_conn cs_seen] in *.
  - split_and!; [by left..|done].
  - split_and!; [|by left|]; by eapply Hquiet, client_write_loop_quiet.
  - split_and!; [|by left|]; by eapply Hquiet, client_write_wait_quiet.
  - match goal with H : ProcessConn_Write_frame _ _ _ _ _ = _ |- _ => rename H into E end. unfold ProcessConn_Write_frame in E.
    destruct (client_send _ _ _ _) as [[c1 o1] r] eqn:E1. injection E as <- <- _.
    eapply client_send_emits in E1 as [? ?]; [split_and!; [done|by left|done]|done|done|apply up_kinds..|].
    left. split; [done|]. by eapply (ci_chunk _ Hinv).
  - edestruct client_close_write_emits as [? ?]; [done..|]. split_and!; [done|by left|done].
  - split_and!; [|right; eauto|]; by eapply Hquiet, client_frame_quiet.
  - edestruct client_close_write_emits as [? ?]; [done..|]. split_and!; [done|by left|done].
  - split_and!; [|by left|]; by eapply Hquiet, client_read_error_quiet.
  - match goal with H : client_copy _ _ = _ |- _ => injection H as <- <- end. split_and!; [by left..|done].
  - split_and!; [by left..|done].
Qed.

(** ** The server *)

(** Frames a server may send before it stops the input. *)
Definition plain_frame (f : pframe) : Prop :=
  (exists n, f = (processCredit, PutUint32 n) /\ (0 < n <= processChunk)%Z) \/
  ((f.1 = processOutput \/ f.1 = processErrorOutput) /\ (0 < blen f.2 <= processChunk)%Z).

Definition receipt (r : bytes) : Prop := (0 < blen r <= MaxProcessResult)%Z.

(** The frames of a server that has had no failure: plain ones, then the stop,
    then the receipt. *)
Definition down_shape (stopped finished : bool) (returned : option (process_error + bytes)) (sent : list pframe) : Prop :=
  exists plain, Forall plain_frame plain /\
    match stopped, finished with
    | false, false => sent = plain
    | true, false => sent = plain ++ [(processInputStop, [])]
    | true, true => exists r, sent = plain ++ [(processInputStop, []); (processResult, r)] /\ returned = Some (inr r) /\ receipt r
    | false, true => False
    end.

Definition pending_credit (i : option input_call) : bytes :=
  match i with Some (InputCredit data) => data | _ => [] end.

Definition phase_ok (sv : server_side) : Prop :=
  let w := ps_frames (sv_server sv) in
  match sv_phase sv with
  | Starting => pw_inputStopped w = false /\ pw_finished w = false /\ pw_sent w = [] /\ sv_input sv = None /\
      sv_outputs sv = [] /\ ps_finished (sv_server sv) = false
  | Operating => pw_inputStopped w = false /\ pw_finished w = false /\ ps_finished (sv_server sv) = false
  | Finished r => pw_inputStopped w = false /\ pw_finished w = false /\ ps_finished (sv_server sv) = true /\
      sv_returned sv = Some r
  | Stopping r => pw_inputStopped w = true /\ pw_finished w = false /\ ps_finished (sv_server sv) = true /\
      sv_returned sv = Some (inr r) /\ receipt r
  | Returned _ => pw_inputStopped w = true -> ps_finished (sv_server sv) = true
  end.

Record server_inv (sv : server_side) : Prop := {
  si_torn : pw_torn (ps_frames (sv_server sv)) = false;
  si_window : (ps_credit (sv_server sv) + blen (ps_data (sv_server sv)) = processChunk)%Z /\ (0 <= ps_credit (sv_server sv))%Z;
  si_input : payload_of processInput (sv_seen sv) = sv_consumed sv ++ ps_data (sv_server sv);
  si_eof : ps_eof (sv_server sv) = true <-> has processInputEOF (sv_seen sv);
  si_sum : (credit_sum (pw_sent (ps_frames (sv_server sv))) + blen (pending_credit (sv_input sv)) <=
            match sv_phase sv with Starting => 0 | _ => processChunk end + blen (sv_consumed sv))%Z;
  si_pending : forall data, sv_input sv = Some (InputCredit data) -> (0 < blen data <= processChunk)%Z;
  si_length : forall n, sv_input sv = Some (InputLoop n) \/ sv_input sv = Some (InputWait n) -> (0 < n)%nat;
  si_shape : down_shape (pw_inputStopped (ps_frames (sv_server sv))) (pw_finished (ps_frames (sv_server sv)))
               (sv_returned sv) (pw_sent (ps_frames (sv_server sv)));
  si_drained : pw_finished (ps_frames (sv_server sv)) = true -> ps_eof (sv_server sv) = true;
  si_phase : phase_ok sv;
  si_wait : forall n, sv_input sv = Some (InputWait n) ->
    ps_wake (sv_server sv) = true \/
    (ps_data (sv_server sv) = [] /\ ps_eof (sv_server sv) = false /\ ps_finished (sv_server sv) = false);
  si_outputs : Forall (fun o => o.1 = processOutput \/ o.1 = processErrorOutput) (sv_outputs sv) }.

Lemma server_inv_new : server_inv (ss_server new_session).
Proof.
  constructor; cbn; try done.
  - split; [done|]. intros [d H]. by apply elem_of_nil in H.
  - naive_solver.
  - by exists [].
Qed.

Lemma server_send_spec kind payload flt s s' out r :
  server_send kind payload flt s = (s', out, r) -> pw_torn (ps_frames s') = false ->
  (r = FrameRefused /\ s' = s /\ out = [] /\
   (pw_finished (ps_frames s) = true \/ pw_inputStopped (ps_frames s) = true /\ kind <> processResult)) \/
  (r = FrameSent /\ out = frame_bytes kind payload /\ pw_finished (ps_frames s) = false /\
   (pw_inputStopped (ps_frames s) = true -> kind = processResult) /\
   s' = ps_set_frames (mkWriter (Ascii.eqb kind processResult)
          (pw_inputStopped (ps_frames s) || Ascii.eqb kind processInputStop)
          (pw_sent (ps_frames s) ++ [(kind, payload)]) false) s).
Proof.
  unfold server_send. destruct (writer_frame _ _ _ _) as [[w o] r'] eqn:E. intros [= <- <- <-].
  destruct (writer_frame_spec _ _ _ _ _ _ _ E) as [(-> & -> & -> & Hw)|(more & Hb & Hm & Hr & Hf & Hs & ->)].
  - intros _. left. split_and!; try done. by destruct s.
  - destruct r'; [|done|].
    + cbn. rewrite orb_false_r. intros ->. right. rewrite Hm in * by done. rewrite app_nil_r in Hb.
      by rewrite <- Hb.
    + cbn. unfold cancel. destruct (ps_cause _); cbn; rewrite orb_true_r; done.
Qed.

Ltac server_goal Hinv :=
  destruct Hinv as [Htorn [Hwin Hc0] Hin Heof Hsum Hpend Hlen Hshape Hdrain Hphase Hwait Houts];
  cbn in Htorn, Hwin, Hc0, Hin, Heof, Hsum, Hpend, Hlen, Hshape, Hdrain, Hphase, Hwait, Houts.

(** One more plain frame. *)
Lemma down_shape_plain returned sent f :
  down_shape false false returned sent -> plain_frame f -> down_shape false false returned (sent ++ [f]).
Proof. intros (plain & Hp & ->) Hf. exists (plain ++ [f]). split; [|done]. by apply Forall_app, conj, Forall_singleton. Qed.

Lemma credit_of_put n : (0 < n <= processChunk)%Z -> credit_of (processCredit, PutUint32 n) = n.
Proof. intros H. unfold credit_of. kinds. by apply Uint32_credit. Qed.

Lemma server_start_inv s input outputs seen consumed returned flt s' out ph :
  server_inv (mkServerSide s Starting input outputs seen consumed returned) ->
  serve_start flt s = (s', out, ph) -> pw_torn (ps_frames s') = false ->
  server_inv (mkServerSide s' ph input outputs seen consumed returned).
Proof.
  intros Hinv. unfold serve_start. destruct (server_send _ _ _ _) as [[s1 o1] r] eqn:E. intros [= <- <- <-] Ht.
  server_goal Hinv. destruct Hphase as (Hst & Hfi & Hse & -> & -> & Hps).
  destruct (server_send_spec _ _ _ _ _ _ _ E Ht) as [(_ & _ & _ & [?|[? _]])|(-> & _ & _ & _ & ->)]; [congruence..|].
  rewrite Hst, Hse in *. constructor; cbn; kinds; try done.
  - rewrite credit_sum_one, credit_of_put by done. pose proof (blen_nonneg consumed). rewrite blen_nil. lia.
  - exists [(processCredit, PutUint32 processChunk)]. split; [|done]. apply Forall_singleton. left. by exists processChunk.
Qed.

Lemma server_return_inv s input outputs seen consumed returned result :
  server_inv (mkServerSide s Operating input outputs seen consumed returned) ->
  server_inv (mkServerSide (finish s) (Finished result) input outputs seen consumed (Some result)).
Proof.
  intros Hinv. server_goal Hinv. destruct Hphase as (Hst & Hfi & Hps). constructor; cbn; try done; [|by auto].
  rewrite Hst, Hfi in *. done.
Qed.

Lemma server_stop_inv s input outputs seen consumed returned result deadline flt s' out ph :
  server_inv (mkServerSide s (Finished result) input outputs seen consumed returned) ->
  serve_stop result deadline flt s = (s', out, ph) -> pw_torn (ps_frames s') = false ->
  server_inv (mkServerSide s' ph input outputs seen consumed returned).
Proof.
  intros Hinv. server_goal Hinv. destruct Hphase as (Hst & Hfi & Hps & Hret).
  assert (forall e, server_inv (mkServerSide s (Returned e) input outputs seen consumed returned)) as Hreturned.
  { constructor; cbn; try done. }
  unfold serve_stop. destruct result as [e|r]; [intros [= <- <- <-]; auto|].
  destruct (ps_cause s); [intros [= <- <- <-]; auto|].
  destruct (bool_decide (r = []) || (MaxProcessResult <? blen r)%Z) eqn:Hr; [intros [= <- <- <-]; auto|].
  apply orb_false_iff in Hr as [Hne%bool_decide_eq_false Hle%Z.ltb_ge].
  destruct deadline; [intros [= <- <- <-]; auto|].
  destruct (server_send _ _ _ _) as [[s1 o1] r1] eqn:E. intros [= <- <- <-] Ht.
  destruct (server_send_spec _ _ _ _ _ _ _ E Ht) as [(_ & _ & _ & [?|[? _]])|(-> & _ & _ & _ & ->)]; [congruence..|].
  rewrite Hst, Hfi in *. constructor; cbn; kinds; try done.
  - rewrite credit_sum_app, credit_sum_one. unfold credit_of. kinds. lia.
  - destruct Hshape as (plain & Hp & ->). by exists plain.
  - split_and!; try done. split; [by apply blen_pos|done].
Qed.

Lemma server_result_inv s input outputs seen consumed returned result canceled flt s' out ph :
  server_inv (mkServerSide s (Stopping result) input outputs seen consumed returned) ->
  serve_result result canceled flt s = Some (s', out, ph) -> pw_torn (ps_frames s') = false ->
  server_inv (mkServerSide s' ph input outputs seen consumed returned).
Proof.
  intros Hinv. server_goal Hinv. destruct Hphase as (Hst & Hfi & Hps & Hret & Hr). unfold serve_result. destruct canceled.
  { destruct (ps_cause s); [|done]. intros [= <- <- <-] _. constructor; cbn; done. }
  destruct (ps_eof s) eqn:Heof'; [|done]. destruct (server_send _ _ _ _) as [[s1 o1] r1] eqn:E. intros [= <- <- <-] Ht.
  destruct (server_send_spec _ _ _ _ _ _ _ E Ht) as [(_ & _ & _ & [?|[_ ?]])|(-> & _ & _ & _ & ->)]; [congruence|done|].
  rewrite Hst, Hfi in *. constructor; cbn; kinds; try done.
  - by rewrite Heof'.
  - rewrite credit_sum_app, credit_sum_one. unfold credit_of. kinds. lia.
  - destruct Hshape as (plain & Hp & ->). exists plain. split; [done|]. exists result. by rewrite <- app_assoc.
  - by rewrite Heof'.
Qed.

(** Changes of the context and the connection only. *)
Lemma server_quiet_inv s s' ph input outputs seen consumed returned :
  server_inv (mkServerSide s ph input outputs seen consumed returned) ->
  ps_frames s' = ps_frames s -> ps_data s' = ps_data s -> ps_credit s' = ps_credit s -> ps_eof s' = ps_eof s ->
  ps_finished s' = ps_finished s -> ps_wake s' = ps_wake s ->
  server_inv (mkServerSide s' ph input outputs seen consumed returned).
Proof.
  intros Hinv E1 E2 E3 E4 E5 E6. server_goal Hinv.
  constructor; cbn; rewrite ?E1, ?E2, ?E3, ?E4, ?E6; try done.
  - unfold phase_ok in *. cbn in *. by rewrite E1, E5.
  - by rewrite E5.
Qed.

(** The frame a server reads next, when the client keeps to the protocol. *)
Definition input_fits (sv : server_side) (f : pframe) : Prop :=
  up_frame f /\ (~ has processInputEOF (sv_seen sv)) /\ (blen f.2 <= ps_credit (sv_server sv))%Z.

Lemma server_read_frame_inv s ph input outputs seen consumed returned kind data :
  server_inv (mkServerSide s ph input outputs seen consumed returned) ->
  input_fits (mkServerSide s ph input outputs seen consumed returned) (kind, data) ->
  (exists s', accept kind data s = Some s') /\
  server_inv (mkServerSide (server_frame kind data s) ph input outputs (seen ++ [(kind, data)]) consumed returned).
Proof.
  intros Hinv (Hup & Hne & Hfit). destruct (grow_history seen kind data) as (_ & Hg2 & Hg3). server_goal Hinv. cbn in Hne, Hfit.
  assert (ps_eof s = false) as He by (apply not_true_iff_false; tauto).
  unfold server_frame, accept. rewrite He. destruct Hup as [[Hk Hd]|[= -> ->]]; cbn [fst snd] in *.
  - subst kind. kinds. rewrite bool_decide_false by (intros ->; rewrite blen_nil in Hd; lia).
    destruct (Z.ltb_spec (ps_credit s) (blen data)); [lia|]. simpl orb. cbv iota. split; [by eexists|].
    constructor; cbn; grow; try done.
    + rewrite blen_app. lia.
    + by rewrite Hin, app_assoc.
    + rewrite He. intuition congruence.
    + auto.
  - kinds. simpl. split; [by eexists|]. constructor; cbn; grow; try done; [tauto|auto].
Qed.

(** While the operation reads, the first credit has been sent. *)
Lemma phase_reading s ph i outputs seen consumed returned i' :
  phase_ok (mkServerSide s ph (Some i) outputs seen consumed returned) ->
  ph <> Starting /\ phase_ok (mkServerSide s ph i' outputs seen consumed returned).
Proof. unfold phase_ok. cbn. destruct ph; naive_solver. Qed.

(** The phase depends only on the writer and on [finished]. *)
Lemma phase_same s s' ph i outputs outputs' seen consumed consumed' returned :
  phase_ok (mkServerSide s ph i outputs seen consumed returned) ->
  ps_frames s' = ps_frames s -> ps_finished s' = ps_finished s -> (outputs = [] -> outputs' = []) ->
  phase_ok (mkServerSide s' ph i outputs' seen consumed' returned).
Proof. unfold phase_ok. cbn. intros H -> ->. destruct ph; naive_solver. Qed.

Lemma server_input_loop_inv s ph n outputs seen consumed returned s' next :
  server_inv (mkServerSide s ph (Some (InputLoop n)) outputs seen consumed returned) ->
  input_Read_loop n s = (s', next) ->
  server_inv (mkServerSide s' ph (next_input next) outputs seen
    (match next with InputOn (InputCredit data) => consumed ++ data | _ => consumed end) returned).
Proof.
  intros Hinv. server_goal Hinv. specialize (Hlen n (or_introl eq_refl)).
  assert (server_inv (mkServerSide s ph None outputs seen consumed returned)) as Hidle.
  { constructor; cbn; try done; [by intros ? [?|?]; simplify_eq|]. by eapply phase_reading. }
  unfold input_Read_loop. destruct (ps_cause s); [by intros [= <- <-]|]. destruct (ps_finished s) eqn:Hf; [by intros [= <- <-]|].
  destruct (ps_data s) as [|x data] eqn:Hd.
  - destruct (ps_eof s) eqn:He; [by intros [= <- <-]|]. intros [= <- <-].
    constructor; cbn; rewrite ?He, ?Hd; try done; [by intros ? [?|?]; simplify_eq| |auto]. by eapply phase_reading.
  - rewrite <- Hd in *. intros [= <- <-].
    assert (0 < blen (take n (ps_data s)))%Z by (rewrite Hd; destruct n; [lia|]; by apply blen_pos).
    assert (blen (take n (ps_data s)) + blen (drop n (ps_data s)) = blen (ps_data s))%Z as Hsplit
      by (by rewrite <- blen_app, take_drop).
    pose proof (blen_nonneg (drop n (ps_data s))). rewrite blen_nil in Hsum.
    constructor; cbn; try done.
    + lia.
    + by rewrite <- app_assoc, take_drop.
    + rewrite blen_app. lia.
    + intros ? [= <-]. lia.
    + by intros ? [?|?]; simplify_eq.
    + apply (phase_same s _ ph _ outputs outputs seen consumed); [|done..]. by eapply phase_reading.
Qed.

Lemma server_input_wait_inv s ph n outputs seen consumed returned canceled s' next :
  server_inv (mkServerSide s ph (Some (InputWait n)) outputs seen consumed returned) ->
  input_Read_wait canceled n s = Some (s', next) ->
  server_inv (mkServerSide s' ph (next_input next) outputs seen consumed returned).
Proof.
  intros Hinv. server_goal Hinv. unfold input_Read_wait. destruct canceled.
  - destruct (ps_cause s); [|done]. intros [= <- <-]. constructor; cbn; try done; [by intros ? [?|?]; simplify_eq|]. by eapply phase_reading.
  - destruct (ps_wake s); [|done]. intros [= <- <-]. constructor; cbn; try done; [intros ? [?|?]; simplify_eq; auto|].
    apply (phase_same s _ ph _ outputs outputs seen consumed); [|done..]. by eapply phase_reading.
Qed.

(** A plain frame of a running operation is sent, or refused after the stop. *)
Lemma server_plain_inv s ph i outputs seen consumed returned kind payload flt s' out r i' :
  server_inv (mkServerSide s ph i outputs seen consumed returned) -> ph <> Starting ->
  plain_frame (kind, payload) -> server_send kind payload flt s = (s', out, r) -> pw_torn (ps_frames s') = false ->
  (credit_of (kind, payload) + blen (pending_credit i') <= blen (pending_credit i))%Z -> (i' = i \/ i' = None) ->
  server_inv (mkServerSide s' ph i' outputs seen consumed returned).
Proof.
  intros Hinv Hph Hplain E Ht Hcredit Hi. server_goal Hinv.
  assert (kind <> processResult /\ kind <> processInputStop) as [Hk1 Hk2].
  { destruct Hplain as [(n & [= -> _] & _)|[[Hk|Hk] _]]; [|cbn in Hk; subst kind..]; by vm_compute. }
  assert (0 <= credit_of (kind, payload))%Z as Hnn.
  { unfold credit_of. cbn. destruct (Ascii.eqb kind processCredit); [|lia]. apply (size_of_nonneg (NUL :: payload)). }
  destruct (server_send_spec _ _ _ _ _ _ _ E Ht) as [(_ & -> & _ & _)|(_ & _ & Hf & Hs & ->)].
  - destruct Hi as [->| ->]; constructor; cbn; try done; try lia.
    + cbn in Hcredit. lia.
    + by intros ? [].
    + by destruct i; [eapply phase_reading|].
  - assert (pw_inputStopped (ps_frames s) = false) as Hst by (apply not_true_iff_false; auto).
    apply Ascii.eqb_neq in Hk1, Hk2. rewrite Hst, Hf in *.
    assert (phase_ok (mkServerSide s ph i' outputs seen consumed returned)) as Hphase'.
    { destruct Hi as [->| ->]; [done|]. by destruct i; [eapply phase_reading|]. }
    constructor; cbn; rewrite ?Hk1, ?Hk2, ?Hst; try done.
    + rewrite credit_sum_app, credit_sum_one. lia.
    + destruct Hi as [->| ->]; done.
    + destruct Hi as [->| ->]; [done|by intros ? []].
    + by apply down_shape_plain.
    + clear - Hphase' Hph Hk1 Hk2 Hst Hf. unfold phase_ok in *. cbn in *. destruct ph; cbn; rewrite ?Hk1, ?Hk2, ?Hst, ?Hf in *; cbn; intuition congruence.
    + destruct Hi as [->| ->]; done.
Qed.

Lemma server_outputs_inv s ph i outputs outputs' seen consumed returned :
  server_inv (mkServerSide s ph i outputs seen consumed returned) -> ph <> Starting ->
  Forall (fun o => o.1 = processOutput \/ o.1 = processErrorOutput) outputs' ->
  server_inv (mkServerSide s ph i outputs' seen consumed returned).
Proof.
  intros Hinv Hph Ho. server_goal Hinv. constructor; cbn; try done.
  unfold phase_ok in *. cbn in *. by destruct ph.
Qed.

Lemma phase_outputs s ph i outputs seen consumed returned o :
  phase_ok (mkServerSide s ph i outputs seen consumed returned) -> o ∈ outputs -> ph <> Starting.
Proof. intros H Ho ->. unfold phase_ok in H. cbn in H. destruct H as (_ & _ & _ & _ & -> & _). by apply elem_of_nil in Ho. Qed.

Lemma chunk_size (l : bytes) c :
  (0 < c)%Z -> l <> [] -> (0 < blen (take (Nat.min (List.length l) (Z.to_nat c)) l) <= c)%Z.
Proof.
  intros Hc Hl. apply blen_pos in Hl. unfold blen in *. rewrite length_take. lia.
Qed.

Lemma server_output_inv s ph i before after seen consumed returned kind data flt s' out next :
  server_inv (mkServerSide s ph i (before ++ (kind, data) :: after) seen consumed returned) ->
  output_Write_round kind data flt s = (s', out, next) -> pw_torn (ps_frames s') = false ->
  server_inv (mkServerSide s' ph i
    (match next with inl _ => before ++ after | inr data => before ++ (kind, data) :: after end) seen consumed returned).
Proof.
  intros Hinv. pose proof (si_outputs _ Hinv) as Ho. cbn in Ho. apply Forall_app in Ho as [Ho1 [Hk Ho2]%Forall_cons].
  assert (ph <> Starting) as Hph.
  { eapply (phase_outputs _ _ _ _ _ _ _ (kind, data)); [exact (si_phase _ Hinv)|]. apply elem_of_app. right. by left. }
  assert (forall s' o, server_inv (mkServerSide s' ph i (before ++ (kind, data) :: after) seen consumed returned) ->
    Forall (fun o => o.1 = processOutput \/ o.1 = processErrorOutput) o ->
    server_inv (mkServerSide s' ph i o seen consumed returned)) as Hout by (intros; by eapply server_outputs_inv).
  unfold output_Write_round. destruct data as [|x data].
  { intros [= <- <- <-] _. apply Hout; [done|]. by apply Forall_app. }
  cbv zeta. pose proof (chunk_size (x :: data) processChunk eq_refl ltac:(done)) as Hn. revert Hn.
  generalize (Nat.min (List.length (x :: data)) (Z.to_nat processChunk)) as n. intros n Hn.
  destruct (server_send _ _ _ _) as [[s1 o1] r] eqn:E. intros [= <- <- <-] Ht.
  apply Hout.
  - eapply (server_plain_inv _ _ _ _ _ _ _ _ _ _ _ _ _ i Hinv Hph _ E Ht); [|by left]. Unshelve.
    + unfold credit_of. destruct Hk as [Hk|Hk]; cbn in Hk; subst kind; kinds; cbn [fst]; kinds; lia.
    + by right.
  - destruct (outcome_error r); apply Forall_app; split; try done. by apply Forall_cons.
Qed.

Lemma cancel_same e s :
  ps_frames (cancel e s) = ps_frames s /\ ps_data (cancel e s) = ps_data s /\ ps_credit (cancel e s) = ps_credit s /\
  ps_eof (cancel e s) = ps_eof s /\ ps_finished (cancel e s) = ps_finished s /\ ps_wake (cancel e s) = ps_wake s.
Proof. unfold cancel. by destruct (ps_cause s). Qed.

Lemma server_step_inv sv up sv' up' out :
  server_inv sv -> server_step sv up sv' up' out -> pw_torn (ps_frames (sv_server sv')) = false ->
  (forall f rest, readProcessFrame (p_bytes up) (p_closed up) = Got f rest -> input_fits sv f) ->
  server_inv sv'.
Proof.
  intros Hinv Hstep Ht Hfits. destruct Hstep; cbn [sv_server] in Ht.
  - by eapply server_start_inv.
  - by apply server_return_inv with returned.
  - by eapply server_stop_inv.
  - by eapply server_result_inv.
  - by eapply server_quiet_inv.
  - by eapply server_quiet_inv.
  - eapply server_quiet_inv; [done|apply cancel_same..].
  - eapply server_read_frame_inv; [done|by eapply Hfits].
  - eapply server_quiet_inv; [done|apply cancel_same..].
  - server_goal Hinv. constructor; cbn; try done; [intros ? [?|?]; by simplify_eq|].
    unfold phase_ok in *. cbn in *. by destruct ph.
  - by eapply server_input_loop_inv.
  - by eapply server_input_wait_inv.
  - match goal with H : input_Read_credit _ _ _ = _ |- _ => rename H into E end. unfold input_Read_credit in E.
    destruct (server_send _ _ _ _) as [[s1 o1] r] eqn:E1. injection E as <- <- <-.
    pose proof (si_pending _ Hinv data eq_refl) as Hd.
    eapply (server_plain_inv _ _ _ _ _ _ _ _ _ _ _ _ _ None Hinv); [|left; eauto|exact E1|done| |by right].
    + eapply (phase_reading _ _ _ _ _ _ _ None), Hinv.
    + rewrite credit_of_put by done. cbn. rewrite blen_nil. lia.
  - eapply server_outputs_inv; [done..|]. apply Forall_app. split; [exact (si_outputs _ Hinv)|]. by apply Forall_singleton.
  - by eapply server_output_inv.

Qed.

(** The frames a server may send. *)
Definition down_frame (f : pframe) : Prop :=
  plain_frame f \/ f = (processInputStop, []) \/ (f.1 = processResult /\ receipt f.2).

(** A frame of a server that stays whole reaches the pipe. *)
Lemma server_send_emits kind payload flt s s' out r :
  server_send kind payload flt s = (s', out, r) -> pw_torn (ps_frames s') = false -> down_frame (kind, payload) ->
  forall b, emits (pw_sent (ps_frames s)) (pw_sent (ps_frames s')) out b down_frame.
Proof.
  intros E Ht Hd b. destruct (server_send_spec _ _ _ _ _ _ _ E Ht) as [(_ & -> & -> & _)|(_ & -> & _ & _ & ->)]; [by left|].
  right. exists (kind, payload), []. by rewrite app_nil_r.
Qed.

Lemma server_send_closed kind payload flt s s' out r :
  server_send kind payload flt s = (s', out, r) -> ps_closed s' = ps_closed s /\ (pw_torn (ps_frames s) = true -> pw_torn (ps_frames s') = true).
Proof.
  unfold server_send. destruct (writer_frame _ _ _ _) as [[w o] r'] eqn:E. intros [= <- <- <-].
  assert (pw_torn (ps_frames s) = true -> pw_torn w = true) as Hw.
  { destruct (writer_frame_spec _ _ _ _ _ _ _ E) as [(_ & -> & _)|(more & _ & _ & _ & _ & _ & ->)]; [done|]. cbn. by intros ->. }
  destruct r'; try done. unfold cancel. by destruct (ps_cause _).
Qed.

(** A step of the server keeps its frames or sends one frame of its protocol. *)
Definition sends (s s' : processServer) (out : bytes) (ok : pframe -> Prop) : Prop :=
  (out = [] /\ ps_frames s' = ps_frames s /\ (ps_closed s = true -> ps_closed s' = true)) \/
  (exists kind payload flt r s1, ok (kind, payload) /\ server_send kind payload flt s = (s1, out, r) /\
     ps_frames s' = ps_frames s1 /\ ps_closed s' = ps_closed s1).

Lemma serve_start_sends flt s s' out ph : serve_start flt s = (s', out, ph) -> sends s s' out down_frame.
Proof.
  unfold serve_start. destruct (server_send _ _ _ _) as [[s1 o1] r] eqn:E. intros [= <- <- <-]. right.
  eexists _, _, _, _, _. split_and!; [|exact E|done..]. left. left. by exists processChunk.
Qed.

Lemma serve_stop_sends result deadline flt s s' out ph :
  serve_stop result deadline flt s = (s', out, ph) -> sends s s' out down_frame.
Proof.
  unfold serve_stop. destruct result as [|r]; [intros [= <- <- <-]; by left|].
  destruct (ps_cause s); [intros [= <- <- <-]; by left|]. destruct (_ || _); [intros [= <- <- <-]; by left|].
  destruct deadline; [intros [= <- <- <-]; by left|]. destruct (server_send _ _ _ _) as [[s1 o1] r1] eqn:E.
  intros [= <- <- <-]. right. eexists _, _, _, _, _. split_and!; [|exact E|done..]. right. by left.
Qed.

Lemma serve_result_sends result canceled flt s s' out ph :
  receipt result -> serve_result result canceled flt s = Some (s', out, ph) -> sends s s' out down_frame.
Proof.
  intros Hr. unfold serve_result. destruct canceled; [destruct (ps_cause s); [|done]; intros [= <- <- <-]; by left|].
  destruct (ps_eof s); [|done]. destruct (server_send _ _ _ _) as [[s1 o1] r1] eqn:E.
  intros [= <- <- <-]. right. eexists _, _, _, _, _. split_and!; [|exact E|done..]. right. by right.
Qed.

Lemma output_Write_sends kind data flt s s' out next :
  kind = processOutput \/ kind = processErrorOutput ->
  output_Write_round kind data flt s = (s', out, next) -> sends s s' out down_frame.
Proof.
  intros Hk. unfold output_Write_round. destruct data as [|x data]; [intros [= <- <- <-]; by left|].
  cbv zeta. pose proof (chunk_size (x :: data) processChunk eq_refl ltac:(done)) as Hn. revert Hn.
  generalize (Nat.min (List.length (x :: data)) (Z.to_nat processChunk)) as n. intros n Hn.
  destruct (server_send _ _ _ _) as [[s1 o1] r1] eqn:E.
  intros [= <- <- <-]. right. eexists _, _, _, _, _. split_and!; [|exact E|done..]. left. by right.
Qed.

Lemma input_Read_sends i s s' next : input_Read_loop i s = (s', next) -> sends s s' [] down_frame.
Proof.
  unfold input_Read_loop. destruct (ps_cause s); [intros [= <- <-]; by left|].
  destruct (ps_finished s); [intros [= <- <-]; by left|]. destruct (ps_data s); intros [= <- <-]; by left.
Qed.

Lemma server_frame_same kind data s :
  ps_frames (server_frame kind data s) = ps_frames s /\ ps_closed (server_frame kind data s) = ps_closed s.
Proof.
  unfold server_frame. destruct (accept kind data s) as [s'|] eqn:E.
  - unfold accept in E. destruct (ps_eof s); [done|]. destruct (Ascii.eqb kind processInput); [by destruct (_ || _); simplify_eq|].
    destruct (Ascii.eqb kind processInputEOF); [|done]. by destruct (bool_decide _); simplify_eq.
  - unfold cancel. by destruct (ps_cause s).
Qed.

Lemma server_step_sends sv up sv' up' out :
  server_inv sv -> server_step sv up sv' up' out ->
  sends (sv_server sv) (sv_server sv') out down_frame /\ takes (sv_seen sv) (sv_seen sv') up up'.
Proof.
  intros Hinv Hstep. destruct Hstep; cbn [sv_server sv_seen];
    (split; [|first [left; done | right; eexists _, _; done]]).
  - by eapply serve_start_sends.
  - by left.
  - by eapply serve_stop_sends.
  - eapply serve_result_sends; [|done]. apply (si_phase _ Hinv).
  - by left.
  - by left.
  - left. split_and!; [done|apply cancel_same|]. unfold cancel. by destruct (ps_cause s).
  - left. destruct (server_frame_same kind data s) as [-> ->]. done.
  - left. split_and!; [done|apply cancel_same|]. cbn. unfold cancel. by destruct (ps_cause s).
  - by left.
  - by eapply input_Read_sends.
  - match goal with H : input_Read_wait _ _ _ = _ |- _ => rename H into E end. unfold input_Read_wait in E.
    destruct canceled; [destruct (ps_cause s)|destruct (ps_wake s)]; try done; injection E as <- _; by left.
  - match goal with H : input_Read_credit _ _ _ = _ |- _ => rename H into E end. unfold input_Read_credit in E.
    destruct (server_send _ _ _ _) as [[s1 o1] r] eqn:E1. injection E as <- <- <-.
    right. eexists _, _, _, _, _. split_and!; [|exact E1|done..]. left. left. eexists. split; [done|]. by apply (si_pending _ Hinv).
  - by left.
  - eapply output_Write_sends; [|done]. pose proof (si_outputs _ Hinv) as Ho. cbn in Ho.
    by apply Forall_app in Ho as [_ [? _]%Forall_cons].
Qed.

(** The same, seen from the pipes, while no frame fails. *)
Lemma server_step_wire sv up sv' up' out :
  server_inv sv -> server_step sv up sv' up' out -> pw_torn (ps_frames (sv_server sv')) = false ->
  (forall b, emits (pw_sent (ps_frames (sv_server sv))) (pw_sent (ps_frames (sv_server sv'))) out b down_frame) /\
  takes (sv_seen sv) (sv_seen sv') up up' /\ (ps_closed (sv_server sv) = true -> ps_closed (sv_server sv') = true).
Proof.
  intros Hinv Hstep Ht. destruct (server_step_sends _ _ _ _ _ Hinv Hstep) as [Hs Htakes].
  destruct Hs as [(-> & Ef & Hc)|(kind & payload & flt & r & s1 & Hk & E & Ef & Ec)].
  - split_and!; [intros b; rewrite Ef; by left|done|done].
  - split_and!; [|done|].
    + intros b. rewrite Ef. eapply server_send_emits; [done|by rewrite <- Ef|done].
    + rewrite Ec. intros H. by rewrite (proj1 (server_send_closed _ _ _ _ _ _ _ E)).
Qed.

(** ** The session *)

Record session_inv (s : session) : Prop := {
  sn_client : client_inv (ss_client s);
  sn_server : server_inv (ss_server s);
  sn_up : wire_ok (pw_sent (pc_frames (cs_conn (ss_client s)))) (sv_seen (ss_server s)) (ss_up s);
  sn_down : wire_ok (pw_sent (ps_frames (sv_server (ss_server s)))) (cs_seen (ss_client s)) (ss_down s) }.

Lemma credit_sum_nonneg fs : (0 <= credit_sum fs)%Z.
Proof.
  induction fs as [|f fs IH]; [done|]. change (f :: fs) with ([f] ++ fs). rewrite credit_sum_app, credit_sum_one.
  unfold credit_of. destruct (Ascii.eqb _ _); [|lia]. pose proof (size_of_nonneg (NUL :: f.2)). unfold size_of in *. cbn in *. lia.
Qed.

Lemma plain_has l : Forall plain_frame l -> (~ has processInputStop l) /\ (~ has processResult l).
Proof.
  intros Hl. rewrite Forall_forall in Hl.
  split; intros [d Hd]; destruct (Hl _ Hd) as [(n & E & _)|[[E|E] _]]; vm_compute in E; congruence.
Qed.

Lemma plain_down f : plain_frame f -> pframe_ok f.
Proof.
  unfold pframe_ok, process_limit. intros [(n & -> & Hn)|[Hk [_ Hl]]].
  - cbn. kinds. by vm_compute.
  - by destruct Hk as [-> | ->]; kinds.
Qed.
Lemma up_ok f : up_frame f -> pframe_ok f.
Proof. unfold pframe_ok, process_limit. intros [[-> [_ H]]| ->]; cbn; by kinds. Qed.
Lemma down_ok f : down_frame f -> pframe_ok f.
Proof.
  intros [H|[->|[Hk [_ Hr]]]]; [by apply plain_down|by vm_compute|]. unfold pframe_ok, process_limit. by rewrite Hk; kinds.
Qed.

(** Splitting a list at one of its elements. *)
Lemma split_at {A} (seen more plain tail : list A) f :
  seen ++ f :: more = plain ++ tail ->
  (exists k, plain = seen ++ f :: k) \/ (exists k, seen = plain ++ k /\ tail = k ++ f :: more).
Proof.
  intros E. apply app_eq_app in E as (k & [[-> E]|[-> E]]); [right; eauto|].
  destruct k as [|x k]; [|left; injection E as -> _; eauto].
  right. exists []. by rewrite !app_nil_r in *.
Qed.

Lemma down_shape_next stopped finished returned sent seen f more :
  down_shape stopped finished returned sent -> sent = seen ++ f :: more ->
  (~ has processResult seen) /\ (has processInputStop seen -> f.1 = processResult) /\
  (plain_frame f \/ f = (processInputStop, []) \/ (f.1 = processResult /\ receipt f.2 /\ has processInputStop seen)).
Proof.
  intros (plain & Hp & Hsh) E.
  assert (exists tail, sent = plain ++ tail /\
    (tail = [] \/ tail = [(processInputStop, [])] \/ exists r, tail = [(processInputStop, []); (processResult, r)] /\ receipt r))
    as (tail & Et & Htail).
  { destruct stopped, finished; [destruct Hsh as (r & -> & _ & Hr)|..]; try done; subst;
      [|eexists; split; [done|by auto]|exists []; by rewrite app_nil_r; auto]. eexists. split; [done|]. eauto. }
  rewrite E in Et. destruct (split_at _ _ _ _ _ Et) as [(k & Ek)|(k & -> & Ek)].
  - rewrite Ek in Hp. apply Forall_app in Hp as [Hp [Hf _]%Forall_cons]. destruct (plain_has _ Hp). split_and!; [done..|by left].
  - destruct (plain_has _ Hp) as [Hn1 Hn2]. rewrite !has_app.
    destruct Htail as [->|[->|(r & -> & Hr)]]; [by destruct k| |].
    + destruct k as [|x [|y k]]; [|done..]. injection Ek as <- <-. rewrite !app_nil_r in *.
      split_and!; [by intros [?|[? ?%elem_of_nil]]|by intros [?|[? ?%elem_of_nil]]|by right; left].
    + destruct k as [|x [|y k]]; [|injection Ek as <- <- <-|injection Ek as _ _ Ek; by destruct k].
      * injection Ek as <- <-. split_and!; [by intros [?|[? ?%elem_of_nil]]|by intros [?|[? ?%elem_of_nil]]|by right; left].
      * split_and!; [|done|right; right; split_and!; [done..|]; right; by apply has_one].
        intros [?|?%has_one]; done.
Qed.

Lemma down_shape_ok stopped finished returned sent :
  down_shape stopped finished returned sent -> Forall pframe_ok sent.
Proof.
  intros Hsh. apply Forall_forall. intros f (pre & post & ->)%list_elem_of_split. apply down_ok.
  destruct (down_shape_next _ _ _ _ _ _ _ Hsh eq_refl) as (_ & _ & [?|[?|(? & ? & _)]]); [by left|by right; left|by right; right].
Qed.

(** The next frame of each pipe is one its reader accepts. *)
Lemma session_frame_fits s f rest :
  session_inv s -> readProcessFrame (p_bytes (ss_down s)) (p_closed (ss_down s)) = Got f rest -> frame_fits (ss_client s) f.
Proof.
  intros [Hc Hs Hup Hdown] E.
  pose proof (wire_read _ _ _ (down_shape_ok _ _ _ _ (si_shape _ Hs)) Hdown) as Hr. rewrite E in Hr. destruct Hr as [_ [more Hm]].
  destruct (down_shape_next _ _ _ _ _ _ _ (si_shape _ Hs) Hm) as (Hn & Hst & Hk).
  split; [done|split; [done|]]. destruct Hk as [[(n & -> & Hb)|[Hk Hl]]|[->|(Hk & [Hl _] & Hi)]].
  - right. left. exists n. split_and!; try done; try lia.
    pose proof (si_sum _ Hs) as Hsum. pose proof (si_input _ Hs) as Hin. destruct Hup as (fs & dropped & tail & Hsent & _).
    rewrite Hm, credit_sum_app in Hsum. change ((processCredit, PutUint32 n) :: more) with ([(processCredit, PutUint32 n)] ++ more) in Hsum.
    rewrite credit_sum_app, credit_sum_one, credit_of_put in Hsum by done. pose proof (credit_sum_nonneg more).
    pose proof (blen_nonneg (pending_credit (sv_input (ss_server s)))).
    rewrite Hsent, payload_of_app, blen_app, Hin, blen_app.
    pose proof (blen_nonneg (payload_of processInput (fs ++ dropped))). pose proof (blen_nonneg (ps_data (sv_server (ss_server s)))).
    assert (match sv_phase (ss_server s) with Starting => 0 | _ => processChunk end <= processChunk)%Z
      by (destruct (sv_phase _); vm_compute; done). lia.
  - right. right. left. split; [done|]. intros E'. rewrite E', blen_nil in Hl. lia.
  - by left.
  - right. right. right. split_and!; try done. intros E'. rewrite E', blen_nil in Hl. lia.
Qed.

Lemma session_input_fits s f rest :
  session_inv s -> readProcessFrame (p_bytes (ss_up s)) (p_closed (ss_up s)) = Got f rest -> input_fits (ss_server s) f.
Proof.
  intros [Hc Hs Hup Hdown] E.
  assert (Forall pframe_ok (pw_sent (pc_frames (cs_conn (ss_client s))))) as Hok
    by (eapply Forall_impl; [apply (ci_sent _ Hc)|apply up_ok]).
  pose proof (wire_read _ _ _ Hok Hup) as Hr. rewrite E in Hr. destruct Hr as [_ [more Hm]].
  assert (up_frame f) as Hf.
  { pose proof (ci_sent _ Hc) as Hu. rewrite Hm in Hu. by apply Forall_app in Hu as [_ [? _]%Forall_cons]. }
  split_and!; [done|..].
  - intros [d (pre & post & Ed)%list_elem_of_split]. rewrite Ed in Hm.
    rewrite <- app_assoc in Hm. apply (ci_last _ Hc) in Hm. by destruct post.
  - destruct Hf as [[Hk Hl]| ->]; [|apply (si_window _ Hs)].
    pose proof (ci_window _ Hc) as Hw. rewrite Hm, payload_of_app in Hw.
    change (f :: more) with ([f] ++ more) in Hw. rewrite payload_of_app, payload_of_one, Hk in Hw. kinds.
    rewrite !blen_app, (si_input _ Hs), blen_app in Hw. pose proof (ci_credit _ Hc).
    pose proof (blen_nonneg (chunk_of (cs_write (ss_client s)))). pose proof (blen_nonneg (payload_of processInput more)).
    destruct Hdown as (fs & dropped & tail & Hsent & _). pose proof (si_sum _ Hs) as Hsum.
    rewrite Hsent, credit_sum_app in Hsum. pose proof (credit_sum_nonneg (fs ++ dropped)).
    pose proof (blen_nonneg (pending_credit (sv_input (ss_server s)))). destruct (si_window _ Hs) as [Hwin _].
    assert (match sv_phase (ss_server s) with Starting => 0 | _ => processChunk end <= processChunk)%Z
      by (destruct (sv_phase _); vm_compute; done). lia.
Qed.

Lemma wire_emits sent sent' seen p out b (ok : pframe -> Prop) :
  wire_ok sent seen p -> (forall f, ok f -> pframe_ok f) -> emits sent sent' out b ok ->
  wire_ok sent' seen (seal b (push out p)).
Proof.
  intros Hw Hok [[-> ->]|(f & more & Hf & Hb & Hm & ->)].
  - apply wire_seal. unfold push. destruct (p_closed p) eqn:E; [done|]. rewrite app_nil_r. destruct p; cbn in *. by subst.
  - apply wire_push; auto.
Qed.

Lemma wire_takes sent seen seen' p p' b :
  Forall pframe_ok sent -> wire_ok sent seen p -> takes seen seen' p p' -> wire_ok sent seen' (seal b p').
Proof.
  intros Hok Hw [[-> ->]|(f & rest & E & -> & ->)]; apply wire_seal; [done|].
  pose proof (wire_read _ _ _ Hok Hw) as Hr. rewrite E in Hr. apply Hr.
Qed.

(** A step keeps the invariant, or a frame of the server has failed. *)
Lemma session_step_inv s s' :
  session_inv s -> session_step s s' ->
  pw_torn (ps_frames (sv_server (ss_server s'))) = true \/ session_inv s'.
Proof.
  intros Hinv Hstep. pose proof Hinv as [Hc Hs Hup Hdown].
  assert (Forall pframe_ok (pw_sent (pc_frames (cs_conn (ss_client s))))) as Hok
    by (eapply Forall_impl; [apply (ci_sent _ Hc)|apply up_ok]).
  pose proof (down_shape_ok _ _ _ _ (si_shape _ Hs)) as Hok'.
  destruct Hstep as [cs sv up down cs' down' out H|cs sv up down sv' up' out H|cs sv now later closed down|cs sv up now later closed];
    cbn [ss_client ss_server ss_up ss_down] in *.
  - right. destruct (client_step_wire _ _ _ _ _ Hc H) as (He & Ht & _). constructor; cbn; [|done|..].
    + eapply client_step_inv; [done..|]. intros f rest E. by eapply (session_frame_fits (mkSession cs sv up down)).
    + eapply wire_emits; [done|exact up_ok|done].
    + by eapply wire_takes.
  - destruct (pw_torn (ps_frames (sv_server sv'))) eqn:Htorn; [by left|right].
    destruct (server_step_wire _ _ _ _ _ Hs H Htorn) as (He & Ht & _). constructor; cbn; [done|..].
    + eapply server_step_inv; [done..|]. intros f rest E. by eapply (session_input_fits (mkSession cs sv up down)).
    + by eapply wire_takes.
    + eapply wire_emits; [done|exact down_ok|done].
  - right. constructor; cbn; try done. by eapply wire_cut.
  - right. constructor; cbn; try done. by eapply wire_cut.
Qed.

Lemma server_send_torn kind payload flt s s' out r :
  server_send kind payload flt s = (s', out, r) -> pw_torn (ps_frames s) = true -> pw_torn (ps_frames s') = true.
Proof. intros E. apply (server_send_closed _ _ _ _ _ _ _ E). Qed.

Lemma server_step_torn sv up sv' up' out :
  server_step sv up sv' up' out -> pw_torn (ps_frames (sv_server sv)) = true -> pw_torn (ps_frames (sv_server sv')) = true.
Proof.
  intros Hstep Ht. destruct Hstep; cbn [sv_server] in *; try done;
    try match goal with
    | H : serve_start _ _ = _ |- _ => unfold serve_start in H
    | H : serve_stop _ _ _ _ = _ |- _ => unfold serve_stop in H
    | H : serve_result _ _ _ _ = _ |- _ => unfold serve_result in H
    | H : input_Read_loop _ _ = _ |- _ => unfold input_Read_loop in H
    | H : input_Read_wait _ _ _ = _ |- _ => unfold input_Read_wait in H
    | H : input_Read_credit _ _ _ = _ |- _ => unfold input_Read_credit in H
    | H : output_Write_round _ _ _ _ = _ |- _ => unfold output_Write_round in H; cbv zeta in H
    end; repeat case_match; simplify_eq; try done; try by eapply server_send_torn.
  - by rewrite (proj1 (cancel_same e s)).
  - by rewrite (proj1 (server_frame_same kind data s)).
  - unfold server_read_error. cbn [ps_frames ps_set_stopped]. by rewrite (proj1 (cancel_same _ s)).
Qed.

Lemma session_reachable_inv s :
  session_reachable s -> pw_torn (ps_frames (sv_server (ss_server s))) = true \/ session_inv s.
Proof.
  intros H. assert (forall x y, rtc session_step x y -> pw_torn (ps_frames (sv_server (ss_server x))) = true \/ session_inv x ->
    pw_torn (ps_frames (sv_server (ss_server y))) = true \/ session_inv y) as Hall.
  { induction 1 as [|x y z Hxy _ IH]; [done|]. intros [Ht|Hx]; apply IH.
    - left. destruct Hxy; cbn in *; try done. by eapply server_step_torn.
    - by apply (session_step_inv x). }
  apply (Hall _ _ H). right. constructor; [exact client_inv_new|exact server_inv_new|..];
    exists [], [], []; (split_and!; [done..|by left]).
Qed.
