(* ===== verification/ProcessProperties.v ===== *)
(** * Process sessions: properties *)

From S2P Require Import Prelude GoText Frames FramedConn ProcessSession ProcessProofs.
From Stdlib Require Import Ascii String.
Open Scope list_scope.

#[local] Arguments header_bytes : simpl never.
#[local] Arguments frame_bytes : simpl never.
#[local] Arguments processChunk : simpl never.
#[local] Arguments blen : simpl never.
#[local] Arguments payload_of : simpl never.

(** The server has had no failed frame. *)
Definition whole (s : session) : Prop := pw_torn (ps_frames (sv_server (ss_server s))) = false.

Lemma whole_inv s : session_reachable s -> whole s -> session_inv s.
Proof. intros [Ht|?]%session_reachable_inv Hw; [|done]. unfold whole in Hw. congruence. Qed.

Lemma payload_some kind fs : payload_of kind fs <> [] -> has kind fs.
Proof.
  induction fs as [|[k d] fs IH]; [done|]. change ((k, d) :: fs) with ([(k, d)] ++ fs).
  rewrite payload_of_app, payload_of_one, has_app, has_one. simpl. destruct (Ascii.eqb_spec k kind); [by left|]. auto.
Qed.

(** Nothing follows the receipt. *)
Lemma receipt_last stopped finished returned seen more :
  down_shape stopped finished returned (seen ++ more) -> has processResult seen ->
  more = [] /\ finished = true /\ exists r, returned = Some (inr r) /\ payload_of processResult seen = r.
Proof.
  intros Hsh Hseen. assert (more = []) as ->.
  { destruct more as [|f more]; [done|]. by destruct (down_shape_next _ _ _ _ _ _ _ Hsh eq_refl) as [? _]. }
  split; [done|]. rewrite app_nil_r in Hsh. destruct Hsh as (plain & Hp & Hsh).
  destruct (plain_has _ Hp) as [_ Hn]. destruct stopped, finished.
  - destruct Hsh as (r & -> & -> & _). split; [done|]. exists r. split; [done|].
    rewrite payload_of_app, (payload_none _ _ Hn). unfold payload_of. cbn. by rewrite app_nil_r.
  - subst seen. apply has_app in Hseen as [?|?%has_one]; done.
  - done.
  - by subst seen.
Qed.

(** The input is stopped only after the operation has returned. *)
Lemma stop_finished sv :
  server_inv sv -> has processInputStop (pw_sent (ps_frames (sv_server sv))) -> ps_finished (sv_server sv) = true.
Proof.
  intros Hs Hst. assert (pw_inputStopped (ps_frames (sv_server sv)) = true) as Hw.
  { destruct (si_shape _ Hs) as (plain & Hp & Hsh). destruct (pw_inputStopped _); [done|].
    destruct (pw_finished _); [done|]. subst. by destruct (plain_has _ Hp). }
  pose proof (si_phase _ Hs) as Hph. unfold phase_ok in Hph. cbv zeta in Hph. rewrite Hw in Hph.
  destruct (sv_phase sv); naive_solver.
Qed.

(** ** Claims *)

(** C33: two ends of a process session never accuse each other: whatever the
    interleaving and wherever the connection is cut, as long as no frame of the
    server failed half-way, every frame the client reads is accepted by its
    switch, every frame the server reads is accepted by the input window, and
    neither reader ever meets an oversized frame. *)
Theorem session_never_disagrees s :
  session_reachable s -> whole s ->
  let c := cs_conn (ss_client s) in let sv := sv_server (ss_server s) in
  (forall kind data rest rs, readProcessFrame (p_bytes (ss_down s)) (p_closed (ss_down s)) = Got (kind, data) rest ->
     cs_closing (ss_client s) = false -> pc_closed c = false -> pc_complete c = false -> pc_output c = [] ->
     (client_frame kind data rs c).2 <> ReadError ErrProtocol) /\
  (forall kind data rest, readProcessFrame (p_bytes (ss_up s)) (p_closed (ss_up s)) = Got (kind, data) rest ->
     accept kind data sv <> None) /\
  readProcessFrame (p_bytes (ss_down s)) (p_closed (ss_down s)) <> Broken InvalidFrame /\
  readProcessFrame (p_bytes (ss_up s)) (p_closed (ss_up s)) <> Broken InvalidFrame.
Proof.
  intros Hr Hw. pose proof (whole_inv s Hr Hw) as Hinv. pose proof Hinv as [Hc Hs Hup Hdown]. cbv zeta. split_and!.
  - intros kind data rest rs E Hcl H1 H2 H3. pose proof (session_frame_fits _ _ _ Hinv E) as Hf.
    destruct (ss_client s) as [c w cl seen written shown] eqn:Ecs. cbn in Hcl, H1, H2, H3 |- *. subst cl.
    destruct (client_frame kind data rs c) as [c' next] eqn:Ef.
    destruct (client_read_frame_inv _ _ _ _ _ _ _ _ _ _ Hc Hf H1 H2 H3 Ef) as [Ha _]. cbn. by intros ->.
  - intros kind data rest E. pose proof (session_input_fits _ _ _ Hinv E) as Hf.
    destruct (ss_server s) as [sv ph input outputs seen consumed returned] eqn:Esv.
    destruct (server_read_frame_inv _ _ _ _ _ _ _ _ _ Hs Hf) as [[s' Ea] _]. cbn. congruence.
  - intros E. pose proof (wire_read _ _ _ (down_shape_ok _ _ _ _ (si_shape _ Hs)) Hdown) as H. rewrite E in H. by destruct H.
  - intros E. assert (Forall pframe_ok (pw_sent (pc_frames (cs_conn (ss_client s))))) as Hok
      by (eapply Forall_impl; [apply (ci_sent _ Hc)|apply up_ok]).
    pose proof (wire_read _ _ _ Hok Hup) as H. rewrite E in H. by destruct H.
Qed.

(** A receipt vouches for everything. *)
Lemma receipt_is_complete s r :
  session_reachable s -> whole s -> ProcessConn_Result (cs_conn (ss_client s)) = inr r ->
  sv_returned (ss_server s) = Some (inr r) /\
  cs_shown (ss_client s) ++ pc_output (cs_conn (ss_client s)) =
    payload_of processOutput (pw_sent (ps_frames (sv_server (ss_server s)))) /\
  pc_stderr (cs_conn (ss_client s)) = payload_of processErrorOutput (pw_sent (ps_frames (sv_server (ss_server s)))) /\
  ps_eof (sv_server (ss_server s)) = true.
Proof.
  intros Hr Hw. pose proof (whole_inv s Hr Hw) as [Hc Hs Hup Hdown]. unfold ProcessConn_Result.
  destruct (pc_complete _) eqn:Hco; [|done]. intros [= <-].
  pose proof (ci_complete _ Hc Hco) as Hne. rewrite (ci_result _ Hc) in Hne.
  pose proof (payload_some _ _ Hne) as Hd. destruct Hdown as (fs & dropped & tail & Hsent & _).
  pose proof (si_shape _ Hs) as Hsh. pose proof Hsh as Hsh'. rewrite Hsent in Hsh'.
  destruct (receipt_last _ _ _ _ _ Hsh' Hd) as (Hmore & Hfin & r & Hret & Hpay). rewrite Hmore, app_nil_r in Hsent.
  rewrite Hsent, (ci_result _ Hc), Hpay, Hret. split_and!; [done|apply (ci_output _ Hc)| |by apply (si_drained _ Hs)].
  apply (ci_stderr _ Hc). by right.
Qed.

(** The operation reads what the client wrote. *)
Lemma session_input_is_faithful s :
  session_reachable s -> whole s ->
  sv_consumed (ss_server s) `prefix_of` cs_written (ss_client s) /\
  (blen (ps_data (sv_server (ss_server s))) <= processChunk)%Z /\
  (forall n sv', input_Read_loop n (sv_server (ss_server s)) = (sv', InputEOF) ->
     ps_finished (sv_server (ss_server s)) = false ->
     sv_consumed (ss_server s) = cs_written (ss_client s) /\ pc_inputEOF (cs_conn (ss_client s)) = true).
Proof.
  intros Hr Hw. pose proof (whole_inv s Hr Hw) as [Hc Hs Hup Hdown]. destruct Hup as (fs & dropped & tail & Hsent & _).
  pose proof (si_input _ Hs) as Hin. split_and!.
  - pose proof (ci_prefix _ Hc) as Hp. rewrite Hsent, payload_of_app, Hin, <- !app_assoc in Hp.
    etrans; [|exact Hp]. by apply prefix_app_r.
  - pose proof (si_window _ Hs) as [Hw1 Hw2]. lia.
  - intros n sv' E Hf. unfold input_Read_loop in E. rewrite Hf in E. destruct (ps_cause _); [done|].
    destruct (ps_data (sv_server (ss_server s))) eqn:Hd; [|done]. destruct (ps_eof (sv_server (ss_server s))) eqn:He; [|done].
    apply (si_eof _ Hs) in He as (d & Hed). apply list_elem_of_split in Hed as (pre & post & Hed).
    assert (has processInputEOF (pw_sent (pc_frames (cs_conn (ss_client s))))) as Hhas.
    { exists d. rewrite Hsent, Hed. apply elem_of_app. left. apply elem_of_app. right. by left. }
    assert (fs ++ dropped = []) as Hnil.
    { pose proof Hsent as H. rewrite Hed, <- app_assoc in H. apply (ci_last _ Hc) in H. by apply app_nil in H as [_ ?]. }
    rewrite Hnil, app_nil_r in Hsent. split; [|by apply (ci_eof _ Hc)].
    destruct (ci_whole _ Hc Hhas) as [Hst|Hwr]; [|by rewrite Hwr, Hsent, Hin, app_nil_r].
    exfalso. rewrite (ci_stopped _ Hc) in Hst. apply (ci_stop _ Hc) in Hst.
    destruct Hdown as (fs' & dropped' & tail' & Hsent' & _). rewrite (stop_finished _ Hs) in Hf; [done|].
    rewrite Hsent'. apply has_app. by left.
Qed.

(** C34: as long as no frame of the server failed half-way, the session is
    faithful in both directions.  The bytes handed to the operation are always a
    prefix of those given to Write, the ones buffered for it never exceed the
    window, and when it is told that its input has ended while it is still running,
    it has been given all of them and the client has half-closed.  A receipt
    vouches for everything: once the client's Result succeeds, it is the value the
    operation returned, every byte of both outputs that the server has sent has
    reached the client in order, and the server has read the client's end of
    input. *)
Theorem session_is_faithful s :
  session_reachable s -> whole s ->
  (sv_consumed (ss_server s) `prefix_of` cs_written (ss_client s) /\
   (blen (ps_data (sv_server (ss_server s))) <= processChunk)%Z /\
   (forall n sv', input_Read_loop n (sv_server (ss_server s)) = (sv', InputEOF) ->
      ps_finished (sv_server (ss_server s)) = false ->
      sv_consumed (ss_server s) = cs_written (ss_client s) /\ pc_inputEOF (cs_conn (ss_client s)) = true)) /\
  (forall r, ProcessConn_Result (cs_conn (ss_client s)) = inr r ->
     sv_returned (ss_server s) = Some (inr r) /\
     cs_shown (ss_client s) ++ pc_output (cs_conn (ss_client s)) =
       payload_of processOutput (pw_sent (ps_frames (sv_server (ss_server s)))) /\
     pc_stderr (cs_conn (ss_client s)) = payload_of processErrorOutput (pw_sent (ps_frames (sv_server (ss_server s)))) /\
     ps_eof (sv_server (ss_server s)) = true).
Proof. intros Hr Hw. split; [by apply session_input_is_faithful|]. intros r. by apply receipt_is_complete. Qed.

#[local] Arguments encode : simpl never.
#[local] Arguments processInput : simpl never.
#[local] Arguments processInputEOF : simpl never.
#[local] Arguments processOutput : simpl never.
#[local] Arguments processErrorOutput : simpl never.
#[local] Arguments processCredit : simpl never.
#[local] Arguments processResult : simpl never.
#[local] Arguments processInputStop : simpl never.

(** ** Progress *)

(** Nothing has failed or closed. *)
Definition live (s : session) : Prop :=
  pc_closed (cs_conn (ss_client s)) = false /\ pc_complete (cs_conn (ss_client s)) = false /\
  ps_closed (sv_server (ss_server s)) = false /\ ps_cause (sv_server (ss_server s)) = None /\
  ps_stopped (sv_server (ss_server s)) = false /\ p_closed (ss_up s) = false /\ p_closed (ss_down s) = false.

Lemma live_wires s :
  session_inv s -> live s ->
  exists up down, pw_sent (pc_frames (cs_conn (ss_client s))) = sv_seen (ss_server s) ++ up /\ p_bytes (ss_up s) = encode up /\
    pw_sent (ps_frames (sv_server (ss_server s))) = cs_seen (ss_client s) ++ down /\ p_bytes (ss_down s) = encode down.
Proof.
  intros [_ _ (fs & d1 & t1 & H1 & H2 & H3 & _) (gs & d2 & t2 & H4 & H5 & H6 & _)] (_ & _ & _ & _ & _ & Hu & Hd).
  destruct (H3 Hu) as [-> ->]. destruct (H6 Hd) as [-> ->]. rewrite !app_nil_r in *. eauto 8.
Qed.

(** A step of the client keeps the server, and so the invariant. *)
Lemma client_step_keeps cs sv up down cs' down' out :
  session_inv (mkSession cs sv up down) -> client_step cs down cs' down' out ->
  session_inv (mkSession cs' sv (seal (pc_closed (cs_conn cs')) (push out up)) (seal (pc_closed (cs_conn cs')) down')).
Proof.
  intros Hinv H. destruct (session_step_inv _ _ Hinv (step_client _ _ _ _ _ _ _ H)) as [Ht|?]; [|done].
  pose proof (si_torn _ (sn_server _ Hinv)). cbn in *. congruence.
Qed.

Lemma writer_frame_clean kind payload w :
  pw_finished w = false -> (pw_inputStopped w = true -> kind = processResult) ->
  exists w', writer_frame kind payload noConnFaults w = (w', frame_bytes kind payload, FrameSent) /\
    w' = mkWriter (Ascii.eqb kind processResult) (pw_inputStopped w || Ascii.eqb kind processInputStop)
           (pw_sent w ++ [(kind, payload)]) (pw_torn w).
Proof.
  intros Hf Hs. unfold writer_frame. rewrite Hf.
  replace (pw_inputStopped w && negb (Ascii.eqb kind processResult)) with false.
  2: { destruct (pw_inputStopped w); [|done]. rewrite Hs by done. by rewrite Ascii.eqb_refl. }
  cbn [cf_deadline noConnFaults cf_writes]. rewrite frame_bytes_header.
  assert (forall d, writeProcessBytes [] d = (d, [], None)) as Hw by (by intros []). rewrite !Hw.
  rewrite bool_decide_true by done. by eexists.
Qed.

(** A frame that fits, with a writer of errors that takes everything. *)
Lemma client_frame_clean c w closing seen written shown kind data c' next :
  client_inv (mkClientSide c w closing seen written shown) ->
  frame_fits (mkClientSide c w closing seen written shown) (kind, data) ->
  pc_output c = [] -> client_frame kind data [] c = (c', next) ->
  accepted next -> pc_closed c' = pc_closed c /\ pc_complete c' = pc_complete c /\
  (match next with ReadCloses => true | _ => false end) = Ascii.eqb kind processInputStop /\
  (pc_output c' = [] \/ kind = processOutput).
Proof.
  intros Hinv (_ & _ & Hk) Hout E Hacc. unfold client_frame in E. cbn in Hk.
  destruct (bool_decide (pc_result c <> [])); [by injection E as <- <-|].
  destruct (pc_stopSeen c && _); [by injection E as <- <-|].
  assert (forall d, writeProcessBytes [] d = (d, [], None)) as Hw by (by intros []). rewrite Hw in E.
  destruct Hk as [[-> ->]|[(n & [= -> ->] & _)|[[[->| ->] _]|(-> & _ & _)]]]; kinds; cbn in E;
    repeat match type of E with (if ?b then _ else _) = _ => destruct b end; injection E as <- <-; cbn; auto; by cbn in Hacc.
Qed.

(** Reading one frame of the server. *)
Lemma client_reads s kind data gs :
  session_inv s -> live s -> cs_closing (ss_client s) = false -> pc_output (cs_conn (ss_client s)) = [] ->
  p_bytes (ss_down s) = encode ((kind, data) :: gs) ->
  pw_sent (ps_frames (sv_server (ss_server s))) = cs_seen (ss_client s) ++ (kind, data) :: gs ->
  exists s', session_step s s' /\ session_inv s' /\ live s' /\ ss_server s' = ss_server s /\ ss_up s' = ss_up s /\
    cs_write (ss_client s') = cs_write (ss_client s) /\ p_bytes (ss_down s') = encode gs /\
    cs_seen (ss_client s') = cs_seen (ss_client s) ++ [(kind, data)] /\
    cs_closing (ss_client s') = Ascii.eqb kind processInputStop /\
    (pc_output (cs_conn (ss_client s')) = [] \/ kind = processOutput).
Proof.
  intros Hinv Hl Hcl Hout Hb Hsent. pose proof Hl as (H1 & H2 & H3 & H4 & H5 & H6 & H7).
  destruct s as [[c w closing seen written shown] sv up down]. cbn in *. subst closing.
  assert (readProcessFrame (p_bytes down) (p_closed down) = Got (kind, data) (encode gs)) as E.
  { rewrite Hb, encode_cons. cbn [fst snd]. apply readProcessFrame_frame.
    pose proof (down_shape_ok _ _ _ _ (si_shape _ (sn_server _ Hinv))) as Hok. cbn in Hok. rewrite Hsent in Hok.
    by apply Forall_app in Hok as [_ [? _]%Forall_cons]. }
  pose proof (session_frame_fits _ _ _ Hinv E) as Hfits.
  destruct (client_frame kind data [] c) as [c' next] eqn:Ef.
  destruct (client_read_frame_inv _ _ _ _ _ _ _ _ _ _ (sn_client _ Hinv) Hfits H1 H2 Hout Ef) as [Hacc Hci].
  assert (pc_closed c' = false /\ pc_complete c' = false /\ (match next with ReadCloses => true | _ => false end) = Ascii.eqb kind processInputStop
    /\ (pc_output c' = [] \/ kind = processOutput)) as (Hc' & Hco' & Hn & Ho').
  { destruct (client_frame_clean _ _ _ _ _ _ _ _ _ _ (sn_client _ Hinv) Hfits Hout Ef Hacc) as (-> & -> & ? & ?). done. }
  pose proof (cl_read_frame c w seen written shown down kind data _ [] c' next H1 H2 Hout E Ef) as Hstep.
  eexists. split; [exact (step_client _ _ _ _ _ _ _ Hstep)|]. split; [by eapply client_step_keeps|].
  unfold live. cbn. destruct up, down; cbn in *; subst. rewrite Hc', Hco', Hn. unfold push, seal. cbn. rewrite app_nil_r. split_and!; done.
Qed.

(** [Read] hands over what it holds. *)
Lemma client_flush s :
  session_inv s -> live s -> cs_closing (ss_client s) = false ->
  exists s', rtc session_step s s' /\ session_inv s' /\ live s' /\ ss_server s' = ss_server s /\ ss_up s' = ss_up s /\
    cs_write (ss_client s') = cs_write (ss_client s) /\ ss_down s' = ss_down s /\
    cs_seen (ss_client s') = cs_seen (ss_client s) /\ cs_closing (ss_client s') = false /\ pc_output (cs_conn (ss_client s')) = [].
Proof.
  intros Hinv Hl Hcl. destruct (decide (pc_output (cs_conn (ss_client s)) = [])) as [Ho|Ho].
  { exists s. split; [apply rtc_refl|]. done. }
  pose proof Hl as (H1 & H2 & H3 & H4 & H5 & H6 & H7).
  destruct s as [[c w closing seen written shown] sv up down]. cbn in *. subst closing.
  pose proof (cl_read_copy c w seen written shown down (List.length (pc_output c)) _ _ Ho eq_refl) as Hstep.
  eexists. split; [apply rtc_once; exact (step_client _ _ _ _ _ _ _ Hstep)|]. split; [by eapply client_step_keeps|].
  unfold live, push, seal. destruct up, down. cbn in *. subst. rewrite H1, H2, H3, H4, H5, app_nil_r. cbn.
  split_and!; try done. apply drop_all.
Qed.

(** The client reads up to the stop of its input. *)
Lemma client_drains gs s :
  session_inv s -> live s -> cs_closing (ss_client s) = false -> ~ has processInputStop gs ->
  p_bytes (ss_down s) = encode (gs ++ [(processInputStop, [])]) ->
  pw_sent (ps_frames (sv_server (ss_server s))) = cs_seen (ss_client s) ++ gs ++ [(processInputStop, [])] ->
  exists s', rtc session_step s s' /\ session_inv s' /\ live s' /\ ss_server s' = ss_server s /\ ss_up s' = ss_up s /\
    p_bytes (ss_down s') = [] /\ cs_closing (ss_client s') = true /\ pc_output (cs_conn (ss_client s')) = [].
Proof.
  revert s. induction gs as [|[kind data] gs IH]; intros s Hinv Hl Hcl Hno Hb Hsent;
    destruct (client_flush s Hinv Hl Hcl) as (s1 & Hs1 & Hinv1 & Hl1 & Esv & Eup & Ew & Edn & Eseen & Hcl1 & Hout1);
    rewrite <- Edn in Hb; rewrite <- Esv, <- Eseen in Hsent.
  - destruct (client_reads s1 _ _ _ Hinv1 Hl1 Hcl1 Hout1 Hb Hsent) as (s2 & Hs2 & Hinv2 & Hl2 & Esv2 & Eup2 & _ & Edn2 & _ & Hcl2 & Ho).
    exists s2. split; [by eapply rtc_r|]. rewrite Esv2, Eup2, Hcl2. destruct Ho as [?|Hk]; [|by vm_compute in Hk]. done.
  - cbn [app] in Hb, Hsent.
    destruct (client_reads s1 _ _ _ Hinv1 Hl1 Hcl1 Hout1 Hb Hsent) as (s2 & Hs2 & Hinv2 & Hl2 & Esv2 & Eup2 & _ & Edn2 & Eseen2 & Hcl2 & _).
    destruct (IH s2) as (s3 & Hs3 & Hinv3 & Hl3 & Esv3 & Eup3 & Hrest); [done|done|..].
    + rewrite Hcl2. apply Ascii.eqb_neq. intros ->. apply Hno. exists data. by left.
    + intros [d Hd]. apply Hno. exists d. by right.
    + done.
    + by rewrite Esv2, Eseen2, Hsent, <- app_assoc.
    + exists s3. split; [etrans; [exact Hs1|]; by eapply rtc_l|]. rewrite Esv3, Eup3, Esv2, Eup2. done.
Qed.

(** A [Write] in progress returns once the input is stopped. *)
Lemma client_write_ends s :
  session_inv s -> live s -> cs_closing (ss_client s) = true -> pc_output (cs_conn (ss_client s)) = [] ->
  exists s', rtc session_step s s' /\ session_inv s' /\ live s' /\ ss_server s' = ss_server s /\ ss_down s' = ss_down s /\
    cs_closing (ss_client s') = true /\ pc_output (cs_conn (ss_client s')) = [] /\ cs_write (ss_client s') = None.
Proof.
  assert (forall k data s, session_inv s -> live s -> cs_closing (ss_client s) = true -> pc_output (cs_conn (ss_client s)) = [] ->
    cs_write (ss_client s) = Some (WriteLoop k data) \/ cs_write (ss_client s) = Some (WriteWait k data) ->
    exists s', rtc session_step s s' /\ session_inv s' /\ live s' /\ ss_server s' = ss_server s /\ ss_down s' = ss_down s /\
    cs_closing (ss_client s') = true /\ pc_output (cs_conn (ss_client s')) = [] /\ cs_write (ss_client s') = None) as Hloop.
  { intros k data s' Hinv Hl Hcl Hout Hw. pose proof (ci_closing _ (sn_client _ Hinv) Hcl) as Hst.
    rewrite <- (ci_stopped _ (sn_client _ Hinv)) in Hst. pose proof Hl as (H1 & H2 & H3 & H4 & H5 & H6 & H7).
    destruct s' as [[c w closing seen written shown] sv up down]. cbn in *. subst closing.
    assert (client_step (mkClientSide c w true seen written shown) down (mkClientSide c None true seen written shown) down []) as Hstep.
    { destruct Hw as [-> | ->].
      - eapply (cl_write_loop c true seen written shown down k data c (WriteReturns k (match data with [] => false | _ => true end))).
        unfold ProcessConn_Write_loop. rewrite Hst, orb_true_r. by destruct data.
      - eapply (cl_write_wait c true seen written shown down k data true c (WriteReturns k true)).
        unfold ProcessConn_Write_wait. by rewrite Hst, orb_true_r. }
    eexists. split; [apply rtc_once; exact (step_client _ _ _ _ _ _ _ Hstep)|]. split; [by eapply client_step_keeps|].
    unfold live, push, seal. destruct up, down. cbn in *. subst. rewrite H1, H2, app_nil_r. split_and!; done. }
  intros Hinv Hl Hcl Hout. destruct (cs_write (ss_client s)) as [[k data|k data|k chunk data]|] eqn:Hw; [by eauto..| |].
  - pose proof Hl as (H1 & H2 & H3 & H4 & H5 & H6 & H7).
    destruct s as [[c w closing seen written shown] sv up down]. cbn in *. subst closing w.
    pose proof (ci_writer _ (sn_client _ Hinv)) as [Hf Hs]. cbn in Hf, Hs.
    destruct (writer_frame_clean processInput chunk (pc_frames c) Hf ltac:(congruence)) as (w' & Ew & _).
    pose proof (cl_write_frame c true seen written shown down k chunk data noConnFaults (pc_set_frames w' c)
      (frame_bytes processInput chunk) (WriteOn (WriteLoop (k + blen chunk) data))) as Hstep.
    unfold ProcessConn_Write_frame, client_send in Hstep. rewrite H1, Ew in Hstep. specialize (Hstep eq_refl).
    pose proof (client_step_keeps _ _ _ _ _ _ _ Hinv Hstep) as Hinv'.
    edestruct (Hloop (k + blen chunk)%Z data _ Hinv') as (s2 & Hs2 & Hi2 & Hl2 & E1 & E2 & E3 & E4); try done.
    + unfold live, push, seal. cbn. rewrite H6. cbn. rewrite H1, H7. done.
    + by left.
    + exists s2. split; [eapply rtc_l; [exact (step_client _ _ _ _ _ _ _ Hstep)|exact Hs2]|].
      split_and!; try done; [|apply E4..]. rewrite E2. cbn. rewrite H1. destruct down; cbn in *. by subst.
  - exists s. split; [apply rtc_refl|]. done.
Qed.

(** [Read] half-closes the input. *)
Lemma client_closes s :
  session_inv s -> live s -> cs_closing (ss_client s) = true -> pc_output (cs_conn (ss_client s)) = [] ->
  cs_write (ss_client s) = None ->
  exists s', rtc session_step s s' /\ session_inv s' /\ live s' /\ ss_server s' = ss_server s /\ ss_down s' = ss_down s /\
    cs_closing (ss_client s') = false /\ pc_output (cs_conn (ss_client s')) = [] /\
    has processInputEOF (pw_sent (pc_frames (cs_conn (ss_client s')))).
Proof.
  intros Hinv Hl Hcl Hout Hw. pose proof Hl as (H1 & H2 & H3 & H4 & H5 & H6 & H7).
  destruct s as [[c w closing seen written shown] sv up down]. cbn in *. subst closing w.
  assert (exists c' out, ProcessConn_CloseWrite noConnFaults c = (c', out, true) /\ pc_closed c' = false /\
    pc_complete c' = false /\ pc_output c' = [] /\ pc_inputEOF c' = true) as (c' & out & E & Hc' & Hco' & Ho' & Hi').
  { unfold ProcessConn_CloseWrite, client_send. destruct (pc_inputEOF c) eqn:Hi; [by exists c, []|].
    pose proof (ci_writer _ (sn_client _ Hinv)) as [Hf Hs]. cbn in Hf, Hs.
    destruct (writer_frame_clean processInputEOF [] (pc_frames c) Hf ltac:(congruence)) as (w' & Ew & _).
    cbn [pc_closed pc_set_inputEOF pc_frames]. rewrite H1, Ew. by eexists _, _. }
  pose proof (cl_read_closes c seen written shown down noConnFaults c' out true E) as Hstep.
  pose proof (client_step_keeps _ _ _ _ _ _ _ Hinv Hstep) as Hinv'.
  eexists. split; [apply rtc_once; exact (step_client _ _ _ _ _ _ _ Hstep)|]. split; [exact Hinv'|].
  split_and!; try done.
  - unfold live, push, seal. cbn. rewrite Hc', Hco', H6, H7. done.
  - cbn. rewrite Hc'. destruct down; cbn in *. by subst.
  - by apply (ci_eof_sent _ (sn_client _ Hinv')).
Qed.

(** The server reads up to the end of its input. *)
Lemma server_drains fs s :
  session_inv s -> live s -> p_bytes (ss_up s) = encode fs ->
  pw_sent (pc_frames (cs_conn (ss_client s))) = sv_seen (ss_server s) ++ fs ->
  exists s', rtc session_step s s' /\ session_inv s' /\ live s' /\ ss_client s' = ss_client s /\ ss_down s' = ss_down s /\
    sv_phase (ss_server s') = sv_phase (ss_server s) /\ sv_seen (ss_server s') = sv_seen (ss_server s) ++ fs.
Proof.
  revert s. induction fs as [|[kind data] fs IH]; intros s Hinv Hl Hb Hsent.
  { exists s. rewrite app_nil_r. split; [apply rtc_refl|]. done. }
  pose proof Hl as (H1 & H2 & H3 & H4 & H5 & H6 & H7).
  destruct s as [cs [sv ph input outputs seen consumed returned] up down]. cbn in *.
  assert (readProcessFrame (p_bytes up) (p_closed up) = Got (kind, data) (encode fs)) as E.
  { rewrite Hb, encode_cons. cbn [fst snd]. apply readProcessFrame_frame, (up_ok (kind, data)).
    pose proof (ci_sent _ (sn_client _ Hinv)) as Hok. cbn in Hok. rewrite Hsent in Hok.
    by apply Forall_app in Hok as [_ [? _]%Forall_cons]. }
  pose proof (session_input_fits _ _ _ Hinv E) as Hfits.
  destruct (server_read_frame_inv _ _ _ _ _ _ _ _ _ (sn_server _ Hinv) Hfits) as [[s' Ea] _].
  pose proof (sv_read_frame sv ph input outputs seen consumed returned up kind data _ H5 H3 E) as Hstep.
  pose proof (server_frame_same kind data sv) as [Ef Ec].
  assert (ps_cause (server_frame kind data sv) = None /\ ps_stopped (server_frame kind data sv) = false) as [Hcause Hstop].
  { unfold server_frame. rewrite Ea. unfold accept in Ea. destruct (ps_eof sv); [done|].
    repeat match type of Ea with (if ?b then _ else _) = _ => destruct b end; simplify_eq; done. }
  destruct (session_step_inv _ _ Hinv (step_server _ _ _ _ _ _ _ Hstep)) as [Ht|Hinv'].
  { exfalso. cbn in Ht. rewrite Ef in Ht. pose proof (si_torn _ (sn_server _ Hinv)). cbn in *. congruence. }
  destruct (IH _ Hinv') as (s3 & Hs3 & Hi3 & Hl3 & E1 & E2 & E3 & E4).
  - unfold live, push, seal. cbn. rewrite Hcause, Hstop, Ec, H3, H6, H7. done.
  - done.
  - cbn. by rewrite Hsent, <- app_assoc.
  - exists s3. split; [eapply rtc_l; [exact (step_server _ _ _ _ _ _ _ Hstep)|exact Hs3]|].
    split_and!; try done.
    + rewrite E2. cbn. rewrite Ec, H3. destruct down; cbn in *; subst. unfold push, seal. cbn. by rewrite app_nil_r.
    + rewrite E4. cbn. by rewrite <- app_assoc.
Qed.

(** [ServeProcess] sends a frame of its own. *)
Lemma server_phase_step s kind payload sv' out ph' :
  session_inv s -> live s -> pw_finished (ps_frames (sv_server (ss_server s))) = false ->
  (pw_inputStopped (ps_frames (sv_server (ss_server s))) = true -> kind = processResult) ->
  server_send kind payload noConnFaults (sv_server (ss_server s)) = (sv', out, FrameSent) ->
  server_step (ss_server s) (ss_up s)
    (mkServerSide sv' ph' (sv_input (ss_server s)) (sv_outputs (ss_server s)) (sv_seen (ss_server s))
       (sv_consumed (ss_server s)) (sv_returned (ss_server s))) (ss_up s) out ->
  exists s', rtc session_step s s' /\ session_inv s' /\ live s' /\ ss_client s' = ss_client s /\ ss_up s' = ss_up s /\
    sv_phase (ss_server s') = ph' /\ sv_seen (ss_server s') = sv_seen (ss_server s) /\
    p_bytes (ss_down s') = p_bytes (ss_down s) ++ frame_bytes kind payload /\
    pw_sent (ps_frames (sv_server (ss_server s'))) = pw_sent (ps_frames (sv_server (ss_server s))) ++ [(kind, payload)].
Proof.
  intros Hinv Hl Hf Hs Hsend Hstep. pose proof Hl as (H1 & H2 & H3 & H4 & H5 & H6 & H7).
  destruct (writer_frame_clean kind payload _ Hf Hs) as (w' & Ew & Hw'). unfold server_send in Hsend. rewrite Ew in Hsend.
  injection Hsend as <- <-. destruct s as [cs sv up down]. cbn in *.
  destruct (session_step_inv _ _ Hinv (step_server _ _ _ _ _ _ _ Hstep)) as [Ht|Hinv'].
  { exfalso. cbn in Ht. rewrite Hw' in Ht. pose proof (si_torn _ (sn_server _ Hinv)). cbn in *. congruence. }
  eexists. split; [apply rtc_once; exact (step_server _ _ _ _ _ _ _ Hstep)|]. split; [exact Hinv'|].
  unfold live, push, seal. cbn. rewrite H3, H4, H5, H7, Hw'. destruct up; cbn in *. subst. split_and!; done.
Qed.

Lemma server_stops s r :
  session_inv s -> live s -> sv_phase (ss_server s) = Finished (inr r) -> receipt r ->
  exists s', rtc session_step s s' /\ session_inv s' /\ live s' /\ ss_client s' = ss_client s /\ ss_up s' = ss_up s /\
    sv_phase (ss_server s') = Stopping r /\ sv_seen (ss_server s') = sv_seen (ss_server s) /\
    p_bytes (ss_down s') = p_bytes (ss_down s) ++ frame_bytes processInputStop [] /\
    pw_sent (ps_frames (sv_server (ss_server s'))) = pw_sent (ps_frames (sv_server (ss_server s))) ++ [(processInputStop, [])].
Proof.
  intros Hinv Hl Hph [Hr1 Hr2]. pose proof Hl as (_ & _ & _ & H4 & _).
  pose proof (si_phase _ (sn_server _ Hinv)) as Hok. unfold phase_ok in Hok. rewrite Hph in Hok. destruct Hok as (Hst & Hfi & _ & _).
  destruct (writer_frame_clean processInputStop [] _ Hfi ltac:(congruence)) as (w' & Ew & Hw').
  eapply server_phase_step; [done|done|done|congruence|unfold server_send; by rewrite Ew|].
  destruct (ss_server s) as [sv ph input outputs seen consumed returned]. cbn in *. subst ph.
  apply (sv_stop sv input outputs seen consumed returned (ss_up s) (inr r) None noConnFaults).
  unfold serve_stop, server_send. rewrite H4, Ew.
  rewrite bool_decide_false by (intros ->; rewrite blen_nil in Hr1; lia).
  destruct (Z.ltb_spec MaxProcessResult (blen r)); [lia|]. done.
Qed.

Lemma server_finishes s r :
  session_inv s -> live s -> sv_phase (ss_server s) = Stopping r -> ps_eof (sv_server (ss_server s)) = true ->
  exists s', rtc session_step s s' /\ session_inv s' /\ live s' /\ ss_client s' = ss_client s /\ ss_up s' = ss_up s /\
    sv_phase (ss_server s') = Returned None /\ sv_seen (ss_server s') = sv_seen (ss_server s) /\
    p_bytes (ss_down s') = p_bytes (ss_down s) ++ frame_bytes processResult r /\
    pw_sent (ps_frames (sv_server (ss_server s'))) = pw_sent (ps_frames (sv_server (ss_server s))) ++ [(processResult, r)].
Proof.
  intros Hinv Hl Hph Heof.
  pose proof (si_phase _ (sn_server _ Hinv)) as Hok. unfold phase_ok in Hok. rewrite Hph in Hok. destruct Hok as (Hst & Hfi & _ & _).
  destruct (writer_frame_clean processResult r _ Hfi ltac:(done)) as (w' & Ew & Hw').
  eapply server_phase_step; [done|done|done|done|unfold server_send; by rewrite Ew|].
  destruct (ss_server s) as [sv ph input outputs seen consumed returned]. cbn in *. subst ph.
  apply (sv_result sv input outputs seen consumed returned (ss_up s) r false noConnFaults).
  unfold serve_result, server_send. by rewrite Heof, Ew.
Qed.

(** The server closes the connection and the client sees the end. *)
Lemma session_ends s :
  session_inv s -> live s -> sv_phase (ss_server s) = Returned None -> cs_closing (ss_client s) = false ->
  pc_output (cs_conn (ss_client s)) = [] -> p_bytes (ss_down s) = [] -> pc_result (cs_conn (ss_client s)) <> [] ->
  exists s', rtc session_step s s' /\
    ProcessConn_Result (cs_conn (ss_client s')) = inr (pc_result (cs_conn (ss_client s))).
Proof.
  intros Hinv Hl Hph Hcl Hout Hb Hres. pose proof Hl as (H1 & H2 & H3 & H4 & H5 & H6 & H7).
  destruct s as [[c w closing seen written shown] [sv ph input outputs seen' consumed returned] up [db dc]].
  cbn in *. subst closing ph db dc.
  eexists. split.
  - eapply rtc_l; [eapply step_server; apply sv_close|]. eapply rtc_once, step_client.
    eapply (cl_read_error c w seen written shown _ EOF None); try done. unfold client_read_error.
    rewrite bool_decide_true by done. reflexivity.
  - done.
Qed.

(** ** Completion *)

(** C35: a session can always be completed: from every reachable state in which
    the operation has returned a receipt and nothing has failed, some
    continuation ends with the client holding exactly this receipt.  No
    interleaving of pending writes, unread output, missing credit and
    half-closes can block it. *)
Theorem session_can_complete s r :
  session_reachable s -> whole s -> live s -> sv_phase (ss_server s) = Finished (inr r) -> receipt r ->
  exists s', rtc session_step s s' /\ ProcessConn_Result (cs_conn (ss_client s')) = inr r.
Proof.
  intros Hr Hw Hl Hph Hrec. pose proof (whole_inv s Hr Hw) as Hinv.
  destruct (live_wires s Hinv Hl) as (up & down & _ & _ & Hd1 & Hd2).
  assert (~ has processInputStop (pw_sent (ps_frames (sv_server (ss_server s))))) as Hnostop.
  { pose proof (si_phase _ (sn_server _ Hinv)) as Hok. unfold phase_ok in Hok. rewrite Hph in Hok. destruct Hok as (Hst & Hfi & _).
    destruct (si_shape _ (sn_server _ Hinv)) as (plain & Hp & Hsh). rewrite Hst, Hfi in Hsh. rewrite Hsh. by apply plain_has. }
  assert (cs_closing (ss_client s) = false) as Hcl.
  { apply not_true_iff_false. intros H%(ci_closing _ (sn_client _ Hinv))%(ci_stop _ (sn_client _ Hinv)).
    apply Hnostop. rewrite Hd1. apply has_app. by left. }
  destruct (server_stops s r Hinv Hl Hph Hrec) as (s1 & S1 & I1 & L1 & C1 & U1 & P1 & _ & B1 & W1).
  destruct (client_drains down s1 I1 L1) as (s2 & S2 & I2 & L2 & V2 & U2 & B2 & K2 & O2).
  { by rewrite C1. } { intros H. apply Hnostop. rewrite Hd1. apply has_app. by right. }
  { by rewrite B1, Hd2, encode_app. } { by rewrite W1, Hd1, C1, <- app_assoc. }
  destruct (client_write_ends s2 I2 L2 K2 O2) as (s3 & S3 & I3 & L3 & V3 & D3 & K3 & O3 & N3).
  destruct (client_closes s3 I3 L3 K3 O3 N3) as (s4 & S4 & I4 & L4 & V4 & D4 & K4 & O4 & E4).
  destruct (live_wires s4 I4 L4) as (up4 & down4 & Hu1 & Hu2 & _ & _).
  destruct (server_drains up4 s4 I4 L4 Hu2 Hu1) as (s5 & S5 & I5 & L5 & C5 & D5 & P5 & V5).
  assert (sv_phase (ss_server s5) = Stopping r) as P5' by (by rewrite P5, V4, V3, V2).
  destruct (server_finishes s5 r I5 L5 P5') as (s6 & S6 & I6 & L6 & C6 & U6 & P6 & V6 & B6 & W6).
  { apply (si_eof _ (sn_server _ I5)). by rewrite V5, <- Hu1. }
  assert (pw_sent (ps_frames (sv_server (ss_server s5))) = cs_seen (ss_client s5)) as Hsent5.
  { destruct (live_wires s5 I5 L5) as (u & d & _ & _ & Hd & Hb). rewrite D5, D4, D3, B2 in Hb.
    destruct d as [|f d]; [by rewrite app_nil_r in Hd|]. by rewrite encode_cons in Hb. }
  destruct (client_reads s6 processResult r [] I6 L6) as (s7 & S7 & I7 & L7 & V7 & _ & _ & B7 & Q7 & K7 & O7).
  { by rewrite C6, C5. } { by rewrite C6, C5. } { by rewrite B6, D5, D4, D3, B2, encode_cons, app_nil_r. }
  { by rewrite W6, Hsent5, C6. }
  assert (pc_result (cs_conn (ss_client s7)) = r) as R7.
  { rewrite (ci_result _ (sn_client _ I7)), Q7, payload_of_app, payload_of_one. cbn. rewrite C6, payload_none; [done|].
    pose proof (si_shape _ (sn_server _ I6)) as Hsh. rewrite W6, Hsent5 in Hsh.
    by destruct (down_shape_next _ _ _ _ _ _ _ Hsh eq_refl) as [? _]. }
  destruct (session_ends s7 I7 L7) as (s8 & S8 & R8).
  { by rewrite V7. } { by rewrite K7. } { destruct O7 as [?|Hk]; [done|by vm_compute in Hk]. } { done. }
  { rewrite R7. intros ->. destruct Hrec as [Hrec _]. rewrite blen_nil in Hrec. lia. }
  exists s8. split.
  - do 6 (etrans; [eassumption|]). by eapply rtc_l.
  - by rewrite R8, R7.
Qed.

(** ** Bounds against any peer *)

Definition server_run (sv sv' : server_side) : Prop := exists up up' out, server_step sv up sv' up' out.
Definition client_run (cs cs' : client_side) : Prop := exists down down' out, client_step cs down cs' down' out.

Definition window (s : processServer) : Prop := (ps_credit s + blen (ps_data s) = processChunk)%Z /\ (0 <= ps_credit s)%Z.

Lemma server_send_window kind payload flt s s' out r :
  server_send kind payload flt s = (s', out, r) -> window s -> window s'.
Proof.
  unfold server_send, window. destruct (writer_frame _ _ _ _) as [[w o] r']. intros [= <- _ _].
  destruct r'; try done. unfold cancel. by destruct (ps_cause _).
Qed.

Lemma accept_window kind data s s' : accept kind data s = Some s' -> window s -> window s'.
Proof.
  unfold accept, window. destruct (ps_eof s); [done|]. destruct (Ascii.eqb kind processInput).
  - destruct (bool_decide _); [done|]. destruct (Z.ltb_spec (ps_credit s) (blen data)); [done|].
    intros [= <-]. cbn. rewrite blen_app. lia.
  - destruct (Ascii.eqb kind processInputEOF); [|done]. destruct (bool_decide _); [done|]. by intros [= <-].
Qed.

Lemma input_Read_loop_window n s s' next : input_Read_loop n s = (s', next) -> window s -> window s'.
Proof.
  unfold input_Read_loop, window. destruct (ps_cause s); [by intros [= <- _]|]. destruct (ps_finished s); [by intros [= <- _]|].
  destruct (ps_data s) eqn:Hd; [intros [= <- _]; by rewrite Hd|]. rewrite <- Hd. intros [= <- _]. cbn.
  pose proof (blen_nonneg (take n (ps_data s))).
  assert (blen (take n (ps_data s)) + blen (drop n (ps_data s)) = blen (ps_data s))%Z by (by rewrite <- blen_app, take_drop). lia.
Qed.

Lemma server_step_window sv up sv' up' out :
  server_step sv up sv' up' out -> window (sv_server sv) -> window (sv_server sv').
Proof.
  intros Hstep Hw. destruct Hstep; cbn [sv_server] in *; try done;
    try match goal with
    | H : serve_start _ _ = _ |- _ => unfold serve_start in H
    | H : serve_stop _ _ _ _ = _ |- _ => unfold serve_stop in H
    | H : serve_result _ _ _ _ = _ |- _ => unfold serve_result in H
    | H : input_Read_wait _ _ _ = _ |- _ => unfold input_Read_wait in H
    | H : input_Read_credit _ _ _ = _ |- _ => unfold input_Read_credit in H
    | H : output_Write_round _ _ _ _ = _ |- _ => unfold output_Write_round in H; cbv zeta in H
    end; repeat case_match; simplify_eq; try done; try by eapply server_send_window.
  - unfold cancel. by destruct (ps_cause s).
  - unfold server_frame. destruct (accept kind data s) eqn:E; [by eapply accept_window|]. unfold cancel. by destruct (ps_cause s).
  - unfold server_read_error, cancel. by destruct (ps_cause s).
  - by eapply input_Read_loop_window.
Qed.

Lemma client_send_credit kind payload flt c c' out r :
  client_send kind payload flt c = (c', out, r) -> pc_credit c' = pc_credit c.
Proof. unfold client_send. destruct (writer_frame _ _ _ _) as [[w o] r']. intros [= <- _ _]. by destruct r'. Qed.

Lemma close_write_credit flt c c' out ok : ProcessConn_CloseWrite flt c = (c', out, ok) -> pc_credit c' = pc_credit c.
Proof.
  unfold ProcessConn_CloseWrite. destruct (pc_inputEOF c); [by intros [= <- _ _]|].
  destruct (client_send _ _ _ _) as [[c1 o1] r] eqn:E. intros [= <- _ _]. by apply client_send_credit in E.
Qed.

Definition allowance (c : ProcessConn) : Prop := (0 <= pc_credit c <= processChunk)%Z.

Lemma client_frame_allowance kind data rs c c' next :
  client_frame kind data rs c = (c', next) -> allowance c -> allowance c'.
Proof.
  unfold client_frame, allowance. intros H Hc.
  destruct (bool_decide (pc_result c <> [])); [by injection H as <- _|]. destruct (pc_stopSeen c && _); [by injection H as <- _|].
  destruct (Ascii.eqb kind processInputStop); [destruct (bool_decide _); by injection H as <- _|].
  destruct (Ascii.eqb kind processCredit).
  - destruct (negb (blen data =? 4)%Z); [by injection H as <- _|].
    destruct ((0 <? Uint32 data)%Z && (Uint32 data <=? processChunk)%Z && (pc_credit c + Uint32 data <=? processChunk)%Z) eqn:E;
      injection H as <- _; [|done]. rewrite !andb_true_iff, Z.ltb_lt, !Z.leb_le in E. cbn. lia.
  - repeat match type of H with
    | (if ?b then _ else _) = _ => destruct b
    | (let '(_, _) := ?p in _) = _ => destruct p as [[] []]
    end; by injection H as <- _.
Qed.

Lemma client_step_allowance cs down cs' down' out :
  client_step cs down cs' down' out -> allowance (cs_conn cs) -> allowance (cs_conn cs').
Proof.
  intros Hstep Hc. destruct Hstep; cbn [cs_conn] in *; try done.
  - match goal with H : ProcessConn_Write_loop _ _ _ = _ |- _ => rename H into E end. unfold ProcessConn_Write_loop in E.
    destruct data as [|x data]; [by injection E as <- _|]. destruct (pc_closed c || pc_inputStopped c); [by injection E as <- _|].
    pose proof (blen_nonneg (x :: data)). unfold allowance in *.
    destruct (_ =? 0)%Z; injection E as <- _; cbn [pc_credit pc_set_credit]; lia.
  - match goal with H : ProcessConn_Write_wait _ _ _ _ = _ |- _ => rename H into E end. unfold ProcessConn_Write_wait in E.
    destruct stop; [destruct (pc_closed c || pc_inputStopped c)|destruct (pc_wake c)]; try done; by injection E as <- _.
  - match goal with H : ProcessConn_Write_frame _ _ _ _ _ = _ |- _ => rename H into E end. unfold ProcessConn_Write_frame in E.
    destruct (client_send _ _ _ _) as [[c1 o1] r] eqn:E1. injection E as <- _ _. unfold allowance.
    by rewrite (client_send_credit _ _ _ _ _ _ _ E1).
  - match goal with H : ProcessConn_CloseWrite _ _ = _ |- _ => apply close_write_credit in H; unfold allowance; by rewrite H end.
  - by eapply client_frame_allowance.
  - match goal with H : ProcessConn_CloseWrite _ _ = _ |- _ => apply close_write_credit in H; unfold allowance; by rewrite H end.
  - match goal with H : client_read_error _ _ _ = _ |- _ => rename H into E end. unfold client_read_error in E.
    destruct e; [case_bool_decide; [destruct waited|]|..]; by injection E as <- _.
  - match goal with H : client_copy _ _ = _ |- _ => by injection H as <- _ end.
Qed.

(** C36: no peer can make either side hold more than its window: whatever bytes
    arrive, the server buffers at most 32 KiB of input and the client's credit
    stays between zero and 32 KiB. *)
Theorem window_holds_against_any_peer :
  (forall sv, rtc server_run (ss_server new_session) sv ->
     (0 <= ps_credit (sv_server sv) /\ blen (ps_data (sv_server sv)) <= processChunk)%Z) /\
  (forall cs, rtc client_run (ss_client new_session) cs -> (0 <= pc_credit (cs_conn cs) <= processChunk)%Z).
Proof.
  split.
  - assert (forall x y, rtc server_run x y -> window (sv_server x) -> window (sv_server y)) as Hall.
    { induction 1 as [|x y z (up & up' & out & Hxy) _ IH]; [done|]. intros Hx. by apply IH, (server_step_window _ _ _ _ _ Hxy). }
    intros sv H. destruct (Hall _ _ H) as [H1 H2]; [done|]. lia.
  - assert (forall x y, rtc client_run x y -> allowance (cs_conn x) -> allowance (cs_conn y)) as Hall.
    { induction 1 as [|x y z (up & up' & out & Hxy) _ IH]; [done|]. intros Hx. by apply IH, (client_step_allowance _ _ _ _ _ Hxy). }
    intros cs H. by apply (Hall _ _ H).
Qed.

(** ** A cut frame *)

Definition text (s : string) : bytes := list_ascii_of_string s.
Definition short_write : conn_faults := mkConnFaults None [(5, None); (1, Some ErrDeadline)]%Z.

(** C40: when a frame of the server fails half-way, its context is canceled but
    the connection is closed by another goroutine; until then a second writer
    still gets its frame through.  A client can therefore decode an output
    frame that no writer of the server ever sent. *)
Theorem cut_frame_is_overwritten :
  exists s data rest, session_reachable s /\
    readProcessFrame (p_bytes (ss_down s)) (p_closed (ss_down s)) = Got (processOutput, data) rest /\
    ~ has processOutput (pw_sent (ps_frames (sv_server (ss_server s)))).
Proof.
  eexists _, _, _. split; [|split].
  - eapply rtc_l; [eapply step_server, (sv_start _ _ _ _ _ _ _ noConnFaults); vm_compute; reflexivity|].
    eapply rtc_l; [eapply step_client, (cl_read_frame _ _ _ _ _ _ processCredit (PutUint32 processChunk) [] []); vm_compute; reflexivity|].
    eapply rtc_l; [eapply step_server, (sv_output_begin _ _ _ _ _ _ _ _ processOutput (text "ab")); [done|by left]|].
    eapply rtc_l; [eapply step_server, (sv_output_round _ _ _ [] [] _ _ _ _ _ _ short_write); vm_compute; reflexivity|].
    eapply rtc_l; [eapply step_server, (sv_output_begin _ _ _ _ _ _ _ _ processErrorOutput (text "x")); [done|by right]|].
    eapply rtc_l; [eapply step_server, (sv_output_round _ _ _ [] [] _ _ _ _ _ _ noConnFaults); vm_compute; reflexivity|].
    apply rtc_refl.
  - vm_compute. reflexivity.
  - intros [d Hd]. vm_compute in Hd. repeat (apply elem_of_cons in Hd as [Hd|Hd]; [discriminate Hd|]). by apply elem_of_nil in Hd.
Qed.

(** ** Witnesses *)

(** A session in which the operation has read "hi", written "ok" and returned
    a receipt, with the client's half-close still to come. *)
Lemma demo_finished :
  exists s, session_reachable s /\ whole s /\ live s /\ sv_phase (ss_server s) = Finished (inr (text "done")) /\
    sv_consumed (ss_server s) = text "hi".
Proof.
  eexists. split; [|split; [|split; [|split]]].
  - eapply rtc_l; [eapply step_server, (sv_start _ _ _ _ _ _ _ noConnFaults); vm_compute; reflexivity|].
    eapply rtc_l; [eapply step_client, (cl_read_frame _ _ _ _ _ _ processCredit (PutUint32 processChunk) [] []); vm_compute; reflexivity|].
    eapply rtc_l; [eapply step_client, (cl_write_begin _ _ _ _ _ _ (text "hi")); vm_compute; reflexivity|].
    eapply rtc_l; [eapply step_client, cl_write_loop; vm_compute; reflexivity|].
    eapply rtc_l; [eapply step_client, (cl_write_frame _ _ _ _ _ _ _ _ _ noConnFaults); vm_compute; reflexivity|].
    eapply rtc_l; [eapply step_server, (sv_read_frame _ _ _ _ _ _ _ _ processInput (text "hi") []); vm_compute; reflexivity|].
    eapply rtc_l; [eapply step_server, (sv_input_begin _ _ _ _ _ _ _ 10); [discriminate|lia]|].
    eapply rtc_l; [eapply step_server, sv_input_loop; vm_compute; reflexivity|].
    eapply rtc_l; [eapply step_server, (sv_input_credit _ _ _ _ _ _ _ _ noConnFaults); vm_compute; reflexivity|].
    eapply rtc_l; [eapply step_server, (sv_output_begin _ _ _ _ _ _ _ _ processOutput (text "ok")); [discriminate|by left]|].
    eapply rtc_l; [eapply step_server, (sv_output_round _ _ _ [] [] _ _ _ _ _ _ noConnFaults); vm_compute; reflexivity|].
    eapply rtc_l; [eapply step_server, (sv_return _ _ _ _ _ _ _ (inr (text "done")))|].
    apply rtc_refl.
  - vm_compute. reflexivity.
  - repeat split.
  - reflexivity.
  - vm_compute. reflexivity.
Qed.

Lemma session_can_complete_witness :
  exists s s', session_reachable s /\ rtc session_step s s' /\ ProcessConn_Result (cs_conn (ss_client s')) = inr (text "done").
Proof.
  destruct demo_finished as (s & Hr & Hw & Hl & Hp & _).
  destruct (session_can_complete s (text "done") Hr Hw Hl Hp) as (s' & Hs & He); [split; vm_compute; done|].
  exists s, s'. split_and!; [exact Hr|exact Hs|exact He].
Defined.

Lemma session_never_disagrees_witness :
  exists s, session_reachable s /\
    readProcessFrame (p_bytes (ss_up s)) (p_closed (ss_up s)) <> Broken InvalidFrame.
Proof.
  destruct demo_finished as (s & Hr & Hw & _). exists s. split; [exact Hr|].
  exact (proj2 (proj2 (proj2 (session_never_disagrees s Hr Hw)))).
Defined.

(** A whole session: the client reads the output and the receipt. *)
Lemma demo_completed :
  exists s, session_reachable s /\ whole s /\ ProcessConn_Result (cs_conn (ss_client s)) = inr (text "done") /\
    cs_shown (ss_client s) = text "ok".
Proof.
  eexists. split; [|split; [|split]].
  - eapply rtc_l; [eapply step_server, (sv_start _ _ _ _ _ _ _ noConnFaults); vm_compute; reflexivity|].
    eapply rtc_l; [eapply step_server, (sv_output_begin _ _ _ _ _ _ _ _ processOutput (text "ok")); [discriminate|by left]|].
    eapply rtc_l; [eapply step_server, (sv_output_round _ _ _ [] [] _ _ _ _ _ _ noConnFaults); vm_compute; reflexivity|].
    eapply rtc_l; [eapply step_server, (sv_return _ _ _ _ _ _ _ (inr (text "done")))|].
    eapply rtc_l; [eapply step_server, (sv_stop _ _ _ _ _ _ _ _ None noConnFaults); vm_compute; reflexivity|].
    eapply rtc_l; [eapply step_client, (cl_read_frame _ _ _ _ _ _ processCredit (PutUint32 processChunk) _ []); vm_compute; reflexivity|].
    eapply rtc_l; [eapply step_client, (cl_read_frame _ _ _ _ _ _ processOutput (text "ok") _ []); vm_compute; reflexivity|].
    eapply rtc_l; [eapply step_client, (cl_read_copy _ _ _ _ _ _ 10); [discriminate|vm_compute; reflexivity]|].
    eapply rtc_l; [eapply step_client, (cl_read_frame _ _ _ _ _ _ processInputStop [] _ []); vm_compute; reflexivity|].
    eapply rtc_l; [eapply step_client, (cl_read_closes _ _ _ _ _ noConnFaults); vm_compute; reflexivity|].
    eapply rtc_l; [eapply step_server, (sv_read_frame _ _ _ _ _ _ _ _ processInputEOF [] []); vm_compute; reflexivity|].
    eapply rtc_l; [eapply step_server, (sv_result _ _ _ _ _ _ _ _ false noConnFaults); vm_compute; reflexivity|].
    eapply rtc_l; [eapply step_client, (cl_read_frame _ _ _ _ _ _ processResult (text "done") _ []); vm_compute; reflexivity|].
    eapply rtc_l; [eapply step_server, sv_close|].
    eapply rtc_l; [eapply step_client, (cl_read_error _ _ _ _ _ _ EOF None); vm_compute; reflexivity|].
    apply rtc_refl.
  - vm_compute. reflexivity.
  - vm_compute. reflexivity.
  - vm_compute. reflexivity.
Qed.

Lemma session_is_faithful_witness :
  exists s, session_reachable s /\ sv_returned (ss_server s) = Some (inr (text "done")).
Proof.
  destruct demo_completed as (s & Hr & Hw & He & _). exists s. split; [exact Hr|].
  exact (proj1 (proj2 (session_is_faithful s Hr Hw) (text "done") He)).
Defined.
