(* ===== verification/GoStrings.v ===== *)
(** * Go strings and numbers

    What the network packages use of Go's [strings], [strconv], [sort] and
    [net]: case folding, splitting and joining, cut sets, decimal numbers and
    the address classes of [net/netip], with the round trips between printing
    and reading that the network authority depends on. *)

From S2P Require Import Prelude GoText GoNet.
From Stdlib Require Import Ascii String DecimalString DecimalN DecimalZ.
Open Scope string_scope.

(** ** Cutting and joining *)

Definition eq_char (a c : ascii) : bool := Ascii.eqb a c.
Definition one_of (cut : string) (c : ascii) : bool := existsb (eq_char c) (list_ascii_of_string cut).

(** [strings.ContainsAny] with ASCII characters. *)
Definition ContainsAny (s cut : string) : bool := ContainsByte s (one_of cut).

(** [strings.Split] with a one-byte separator. *)
Fixpoint Split (s : string) (sep : ascii) : list string :=
  match s with
  | "" => [""]
  | String c s =>
    if Ascii.eqb c sep then "" :: Split s sep else
    match Split s sep with
    | [] => [String c ""]
    | w :: ws => String c w :: ws
    end
  end.

(** [strings.Join]. *)
Definition strings_Join (l : list string) (sep : string) : string := String.concat sep l.

Fixpoint HasSuffixByte (s : string) (b : ascii) : bool :=
  match s with
  | "" => false
  | String c "" => Ascii.eqb c b
  | String _ s => HasSuffixByte s b
  end.

(** [strings.TrimSuffix] with a one-byte suffix. *)
Fixpoint TrimSuffixByte (s : string) (b : ascii) : string :=
  match s with
  | "" => ""
  | String c "" => if Ascii.eqb c b then "" else String c ""
  | String c s => String c (TrimSuffixByte s b)
  end.

(** [strings.Trim] with a cut set of ASCII characters. *)
Fixpoint drop_while (p : ascii -> bool) (l : list ascii) : list ascii :=
  match l with
  | [] => []
  | c :: l' => if p c then drop_while p l' else l
  end.
Definition Trim (s cut : string) : string :=
  string_of_list_ascii
    (rev (drop_while (one_of cut) (rev (drop_while (one_of cut) (list_ascii_of_string s))))).

(** ** Letter case *)

Definition is_upper (c : ascii) : bool := in_range "A" "Z" c.
Definition lower_byte (c : ascii) : ascii := if is_upper c then ascii_of_N (byte c + 32) else c.

Definition bytes_string (l : list N) : string := string_of_list_ascii (ascii_of_N <$> l).
Definition replacement : string := bytes_string [0xEF; 0xBF; 0xBD]%N.

(** [unicode.ToLower] of one rune.  Two runes outside ASCII have an ASCII lower
    case, U+212A (the Kelvin sign) and U+0130; every other rune outside ASCII
    keeps a lower case outside ASCII and is left as it is here, since the only
    caller refuses all of those alike. *)
Definition lower_segment (seg : string) : string :=
  match runes seg with
  | [Some r] =>
    if (r <? 0x80)%N then
      match seg with String c _ => String (lower_byte c) "" | "" => "" end
    else if (r =? 0x212A)%N then "k"
    else if (r =? 0x130)%N then "i"
    else seg
  | _ => replacement
  end.

(** [strings.ToLower]. *)
Definition ToLower (s : string) : string :=
  String.concat "" (lower_segment <$> rune_segments (String.length s) s).

(** ** Numbers *)

(** [strconv.Itoa]. *)
Definition Itoa (z : Z) : string := NilZero.string_of_int (Z.to_int z).

(** [strconv.Atoi] on a 64-bit platform: an optional sign and decimal digits,
    within the range of [int]. *)
Definition Atoi (s : string) : option Z :=
  let '(neg, digits) :=
    match s with
    | String c rest => if Ascii.eqb c "-" then (true, rest) else if Ascii.eqb c "+" then (false, rest) else (false, s)
    | "" => (false, "")
    end in
  match NilZero.uint_of_string digits with
  | None => None
  | Some u =>
    let n := Z.of_N (N.of_uint u) in
    let z := if neg then (- n)%Z else n in
    if (-2 ^ 63 <=? z)%Z && (z <? 2 ^ 63)%Z then Some z else None
  end.

(** ** Addresses *)

(** [net.ParseIP(s) != nil]. *)
Definition is_IP (s : string) : bool :=
  match ParseAddr s with
  | Some a => Zone a == ""
  | None => false
  end.

(** ** ASCII text *)

Definition plain (c : ascii) : bool := (byte c <? 0x80)%N.
Definition single (c : ascii) : string := String c "".

Lemma all_chars_impl (p q : ascii -> bool) s :
  (forall c, p c = true -> q c = true) -> all_chars p s = true -> all_chars q s = true.
Proof.
  intros Himp. induction s as [|c s IH]; simpl; [done|]. rewrite !andb_true_iff.
  intros [? ?]. eauto.
Qed.

Lemma all_chars_Forall p s :
  all_chars p s = true <-> Forall (fun c => p c = true) (list_ascii_of_string s).
Proof.
  induction s as [|c s IH]; simpl; [split; auto|]. rewrite andb_true_iff, Forall_cons, IH. done.
Qed.

Lemma all_chars_ContainsByte p s : ContainsByte s p = negb (all_chars (fun c => negb (p c)) s).
Proof. induction s as [|c s IH]; simpl; [done|]. rewrite IH. by destruct (p c). Qed.

Lemma ContainsByte_false p s : ContainsByte s p = false <-> all_chars (fun c => negb (p c)) s = true.
Proof. rewrite all_chars_ContainsByte. destruct (all_chars _ _); simpl; split; congruence. Qed.

Lemma plain_segments s n :
  all_chars plain s = true -> (String.length s <= n)%nat ->
  rune_segments n s = single <$> list_ascii_of_string s.
Proof.
  revert n; induction s as [|c s IH]; intros [|n] Hp Hn; simpl in *; try done; [lia|].
  apply andb_true_iff in Hp as [Hc Hp]. unfold plain in Hc.
  unfold rune_width. rewrite Hc. simpl. f_equal. apply IH; [done|lia].
Qed.

Lemma plain_runes s :
  all_chars plain s = true -> runes s = (fun c => Some (byte c)) <$> list_ascii_of_string s.
Proof.
  induction s as [|c s IH]; simpl; [done|]. rewrite andb_true_iff. intros [Hc Hp].
  unfold plain in Hc. rewrite Hc. by rewrite IH.
Qed.

Lemma concat_singles l : String.concat "" (single <$> l) = string_of_list_ascii l.
Proof.
  induction l as [|a [|b l] IH]; simpl in *; try done.
  by rewrite IH.
Qed.

Ltac bytes_lia :=
  unfold between, cont, low6 in *; rewrite ?andb_true_iff, ?N.leb_le, ?N.eqb_eq in *;
  repeat match goal with
  | |- context [(?x mod ?m)%N] =>
    let q := fresh in let Hq := fresh in let Hr := fresh in
    pose proof (N.div_mod' x m) as Hq; assert (x mod m < m)%N as Hr by (apply N.mod_lt; done);
    generalize dependent (x mod m)%N; generalize dependent (x / m)%N; intros
  end; lia.

(** Runes of more than one byte are not ASCII. *)
Lemma rune2_wide a b :
  between 0xC2 0xDF (byte a) && cont b = true -> (0x80 <= byte a mod 32 * 64 + low6 b)%N.
Proof. intros. bytes_lia. Qed.
Lemma rune3_wide a b c :
  second_ok3 a b && cont c = true -> (0x80 <= byte a mod 16 * 4096 + low6 b * 64 + low6 c)%N.
Proof.
  unfold second_ok3. intros H. apply andb_true_iff in H as [H _].
  destruct (byte a =? 0xE0)%N eqn:E1; [bytes_lia|].
  apply N.eqb_neq in E1. destruct (byte a =? 0xED)%N eqn:E2; bytes_lia.
Qed.
Lemma rune4_wide a b c d :
  second_ok4 a b && cont c && cont d = true ->
  (0x80 <= byte a mod 8 * 262144 + low6 b * 4096 + low6 c * 64 + low6 d)%N.
Proof.
  unfold second_ok4. rewrite !andb_true_iff. intros [[H _] _].
  destruct (byte a =? 0xF0)%N eqn:E1; [bytes_lia|].
  apply N.eqb_neq in E1. destruct (byte a =? 0xF4)%N eqn:E2; bytes_lia.
Qed.

(** A test on runes that only ASCII passes is the same test on bytes. *)
Lemma runes_plain (p : N -> bool) s :
  (forall r, p r = true -> (r < 0x80)%N) ->
  forallb (fun r => p (rune_value r)) (runes s) = all_chars (fun c => p (byte c)) s.
Proof.
  intros Hp. assert (forall r k, (0x80 <= r)%N -> p r && k = false) as Hno.
  { intros r k ?. destruct (p r) eqn:Hr; [apply Hp in Hr; lia|done]. }
  remember (String.length s) as n eqn:Hn. assert (String.length s <= n)%nat as Hle by lia. clear Hn.
  revert s Hle; induction n as [|n IH]; intros [|a s] Hle; cbn [String.length] in Hle; try done; [lia|].
  cbn [all_chars runes]. destruct (byte a <? 0x80)%N eqn:Ha.
  { cbn [forallb rune_value default from_option id]. rewrite IH by lia. done. }
  apply N.ltb_ge in Ha. rewrite (Hno (byte a)) by done.
  repeat match goal with
  | |- context [match ?s with "" => _ | String _ _ => _ end] => is_var s; destruct s
  | |- context [if ?c then _ else _] =>
    let H := fresh in destruct c eqn:H; cbn [forallb rune_value default from_option id];
    [apply Hno; first [by apply rune2_wide | by apply rune3_wide | by apply rune4_wide]|]
  end; cbn [forallb rune_value default from_option id]; by apply Hno.
Qed.

Definition is_space (c : ascii) : bool := IsSpace (byte c).

Lemma space_single c : plain c = true -> space_segment (single c) = is_space c.
Proof. unfold plain, space_segment, single. intros H. simpl. by rewrite H. Qed.

Lemma drop_segments_id l :
  Forall (fun seg => space_segment seg = false) l -> drop_segments l = l.
Proof. destruct 1 as [|seg l H _]; simpl; [done|]. by rewrite H. Qed.

(** [strings.TrimSpace] leaves text without blanks alone. *)
Lemma TrimSpace_id s : all_chars (fun c => plain c && negb (is_space c)) s = true -> TrimSpace s = s.
Proof.
  intros H. unfold TrimSpace.
  assert (all_chars plain s = true) as Hp by (eapply all_chars_impl; [|exact H]; intros c; by intros [??]%andb_true_iff).
  rewrite plain_segments by (done || lia).
  assert (Forall (fun seg => space_segment seg = false) (single <$> list_ascii_of_string s)) as Hs.
  { apply Forall_fmap. apply all_chars_Forall in H. eapply Forall_impl; [exact H|].
    intros c [? ?%negb_true_iff]%andb_true_iff. simpl. by rewrite space_single. }
  rewrite (drop_segments_id _ Hs), drop_segments_id by (by apply Forall_rev).
  rewrite rev_involutive, concat_singles. apply string_of_list_ascii_of_string.
Qed.

(** [strings.ToLower] leaves text without capitals alone. *)
Lemma ToLower_id s : all_chars (fun c => plain c && negb (is_upper c)) s = true -> ToLower s = s.
Proof.
  intros H. unfold ToLower.
  assert (all_chars plain s = true) as Hp by (eapply all_chars_impl; [|exact H]; intros c; by intros [??]%andb_true_iff).
  rewrite plain_segments by (done || lia). rewrite <- list_fmap_compose.
  rewrite (list_fmap_ext _ single); [rewrite concat_singles; apply string_of_list_ascii_of_string|].
  intros i c Hc. apply all_chars_Forall in H. rewrite Forall_lookup in H.
  apply H, andb_true_iff in Hc as [Hc Hu%negb_true_iff]. unfold compose, lower_segment, single.
  cbn [runes]. unfold plain in Hc. rewrite !Hc. unfold lower_byte. by rewrite Hu.
Qed.

Lemma Trim_id s cut : ContainsAny s cut = false -> Trim s cut = s.
Proof.
  unfold ContainsAny. rewrite ContainsByte_false, all_chars_Forall. intros H. unfold Trim.
  assert (forall l, Forall (fun c => negb (one_of cut c) = true) l -> drop_while (one_of cut) l = l) as Hd.
  { intros l [|c l' Hc _]; simpl; [done|]. by rewrite (proj1 (negb_true_iff _) Hc). }
  rewrite !Hd, rev_involutive; [apply string_of_list_ascii_of_string|done|by rewrite Hd; [apply Forall_rev|]].
Qed.

(** ** Splitting and joining *)

Definition no_sep (sep : ascii) (s : string) : Prop := all_chars (fun c => negb (Ascii.eqb c sep)) s = true.

Lemma Split_nonempty s sep : Split s sep <> [].
Proof. destruct s as [|c s]; simpl; [done|]. destruct (Ascii.eqb c sep); [done|]. by destruct (Split s sep). Qed.

Lemma Split_app a b sep : Split (a +:+ String sep b) sep = (Split a sep ++ Split b sep)%list.
Proof.
  induction a as [|c a IH]; str_simpl; simpl; [by rewrite Ascii.eqb_refl|].
  destruct (Ascii.eqb c sep); [by rewrite IH|]. rewrite IH.
  pose proof (Split_nonempty a sep). by destruct (Split a sep).
Qed.

Lemma Split_word w sep : no_sep sep w -> Split w sep = [w].
Proof.
  induction w as [|c w IH]; intros Hw; simpl; [done|].
  unfold no_sep in Hw. simpl in Hw. apply andb_true_iff in Hw as [Hc%negb_true_iff Hw].
  by rewrite Hc, IH.
Qed.

(** Splitting undoes joining. *)
Lemma Split_Join l sep :
  l <> [] -> Forall (no_sep sep) l -> Split (strings_Join l (single sep)) sep = l.
Proof.
  intros Hne Hl. unfold strings_Join. induction Hl as [|w l Hw Hl IH]; [done|].
  destruct l as [|w' l]; [by apply Split_word|].
  change (String.concat (single sep) (w :: w' :: l)) with (w +:+ single sep +:+ String.concat (single sep) (w' :: l)).
  unfold single at 1. str_simpl. by rewrite Split_app, Split_word, IH.
Qed.

(** Joining undoes splitting. *)
Lemma Join_Split s sep : strings_Join (Split s sep) (single sep) = s.
Proof.
  unfold strings_Join. induction s as [|c s IH]; simpl; [done|].
  pose proof (Split_nonempty s sep) as Hne.
  destruct (Ascii.eqb c sep) eqn:Hc.
  - apply Ascii.eqb_eq in Hc as ->. destruct (Split s sep) as [|w ws]; [done|].
    change (String.concat (single sep) ("" :: w :: ws)) with ("" +:+ single sep +:+ String.concat (single sep) (w :: ws)).
    rewrite IH. done.
  - destruct (Split s sep) as [|w [|w' ws]]; [done|simpl in *; by rewrite IH|].
    simpl in *. unfold single in *. simpl in *. by rewrite <- IH.
Qed.

Lemma all_chars_Split p s sep :
  p sep = true -> all_chars p s = true <-> Forall (fun w => all_chars p w = true) (Split s sep).
Proof.
  intros Hsep. induction s as [|c s IH]; simpl; [by repeat constructor|].
  rewrite andb_true_iff, IH. pose proof (Split_nonempty s sep) as Hne.
  destruct (Ascii.eqb c sep) eqn:Hc.
  - apply Ascii.eqb_eq in Hc as ->. rewrite Forall_cons. naive_solver.
  - destruct (Split s sep) as [|w ws]; [done|]. rewrite !Forall_cons. simpl. rewrite andb_true_iff. tauto.
Qed.

(** ** Decimal numbers *)

Lemma Atoi_Itoa z : (0 <= z < 2 ^ 63)%Z -> Atoi (Itoa z) = Some z.
Proof.
  intros Hz. unfold Itoa.
  assert (exists u, Z.to_int z = Decimal.Pos u /\ N.of_uint u = Z.to_N z) as (u & Hu & Hn).
  { destruct z as [|q|q]; [exists (Decimal.D0 Decimal.Nil); done| |lia].
    exists (Pos.to_uint q). split; [done|]. apply (Unsigned.of_to (Npos q)). }
  rewrite Hu. simpl.
  pose proof (NilZero.usu u) as Hs.
  assert (u <> Decimal.Nil) as Hnil.
  { destruct z as [|q|q]; simpl in Hu; [congruence| |lia]. injection Hu as <-. intros E.
    apply (DecimalPos.Unsigned.to_uint_nonnil q E). }
  specialize (Hs Hnil). unfold Atoi.
  destruct (NilZero.string_of_uint u) as [|c rest] eqn:Hstr; [done|].
  assert (Ascii.eqb c "-" = false /\ Ascii.eqb c "+" = false) as [-> ->].
  { destruct u; simpl in Hstr; try done; injection Hstr as <- _; done. }
  rewrite Hs, Hn, Z2N.id by lia.
  assert ((-2 ^ 63 <=? z)%Z = true) as -> by (apply Z.leb_le; lia).
  assert ((z <? 2 ^ 63)%Z = true) as -> by (apply Z.ltb_lt; lia). done.
Qed.

Lemma str_app_assoc a b c : (a +:+ b) +:+ c = a +:+ b +:+ c.
Proof. induction a as [|x a IH]; [done|]. by rewrite !str_app_cons, IH. Qed.
