(* ===== verification/GoURL.v ===== *)
(** * Go's net/url and the remaining string functions

    What the Git component uses of [net/url] ([Parse], the fields of [URL],
    [Userinfo.String]) and of [strings] ([Contains], [Cut], [SplitN], [Fields],
    suffixes, case folding of ASCII text).  A bracketed host is kept as written:
    its address is not parsed, since no caller accepts such a host. *)

From S2P Require Import Prelude GoText GoStrings.
From Stdlib Require Import Ascii String.
Open Scope string_scope.

(** ** strings *)

(** [strings.Contains]. *)
Fixpoint Contains (s sub : string) : bool :=
  HasPrefix s sub || match s with "" => false | String _ s => Contains s sub end.

Definition HasSuffix (s suffix : string) : bool :=
  (String.length suffix <=? String.length s)%nat &&
  (drop_chars (String.length s - String.length suffix) s == suffix).

Definition TrimSuffix (s suffix : string) : string :=
  if HasSuffix s suffix then take_chars (String.length s - String.length suffix) s else s.

(** [strings.Cut] at one byte: before, after and whether it was found. *)
Fixpoint Cut (s : string) (sep : ascii) : string * string * bool :=
  match s with
  | "" => ("", "", false)
  | String c s =>
    if Ascii.eqb c sep then ("", s, true) else
    let '(before, after, found) := Cut s sep in (String c before, after, found)
  end.

(** [strings.SplitN(s, sep, n)] for a positive [n]. *)
Fixpoint SplitN (s : string) (sep : ascii) (n : nat) : list string :=
  match n with
  | 0 => []
  | 1 => [s]
  | S n => let '(before, after, found) := Cut s sep in if found then before :: SplitN after sep n else [s]
  end.

(** [strings.LastIndex] of one byte, as the text before and after it. *)
Definition CutLast (s : string) (sep : ascii) : option (string * string) :=
  match rev (Split s sep) with
  | last :: (_ :: _) as rest => Some (strings_Join (rev (List.tl rest)) (single sep), last)
  | _ => None
  end.

Definition TrimRightByte (s : string) (b : ascii) : string :=
  string_of_list_ascii (rev (drop_while (Ascii.eqb b) (rev (list_ascii_of_string s)))).

(** [strings.EqualFold] against a text of ASCII letters without [k] and [s] (whose
    foldings leave ASCII), digits and punctuation. *)
Definition EqualFold (s t : string) : bool := String.eqb (string_of_list_ascii (lower_byte <$> list_ascii_of_string s)) t.

(** [strings.Fields]. *)
Fixpoint fields_of (segments : list string) (word : string) : list string :=
  match segments with
  | [] => if word == "" then [] else [word]
  | seg :: rest =>
    if space_segment seg then if word == "" then fields_of rest "" else word :: fields_of rest ""
    else fields_of rest (word +:+ seg)
  end.
Definition Fields (s : string) : list string := fields_of (rune_segments (String.length s) s) "".

(** ** Escapes *)

Inductive encoding := encodePath | encodeUserPassword | encodeHost | encodeFragment.

Definition alphanumeric (c : ascii) : bool := in_range "a" "z" c || in_range "A" "Z" c || in_range "0" "9" c.
Definition quote : ascii := "034".

Definition shouldEscape (c : ascii) (mode : encoding) : bool :=
  if alphanumeric c then false else
  if (match mode with encodeHost => one_of "!$&'()*+,;=:[]<>" c || Ascii.eqb c quote | _ => false end) then false else
  if one_of "-_.~" c then false else
  if one_of "$&+,/:;=?@" c then
    match mode with
    | encodePath => Ascii.eqb c "?"
    | encodeUserPassword => one_of "@/?:" c
    | encodeFragment => false
    | encodeHost => true
    end
  else if (match mode with encodeFragment => one_of "!()*" c | _ => false end) then false
  else true.

Definition ishex (c : ascii) : bool := in_range "0" "9" c || in_range "a" "f" c || in_range "A" "F" c.
Definition unhex (c : ascii) : N :=
  if in_range "0" "9" c then byte c - 48 else if in_range "a" "f" c then byte c - 87 else byte c - 55.

(** [unescape]; the error is one of its two. *)
Fixpoint unescape (s : string) (mode : encoding) : option string :=
  match s with
  | "" => Some ""
  | String "%" (String a (String b rest)) =>
    if negb (ishex a) || negb (ishex b) then None else
    if (match mode with encodeHost => (unhex a <? 8)%N && negb (Ascii.eqb a "2" && Ascii.eqb b "5") | _ => false end) then None
    else String (ascii_of_N (16 * unhex a + unhex b)) <$> unescape rest mode
  | String "%" _ => None
  | String c rest =>
    if (match mode with encodeHost => plain c && shouldEscape c mode | _ => false end) then None
    else String c <$> unescape rest mode
  end.

Definition upper_hex (n : N) : ascii := if (n <? 10)%N then ascii_of_N (48 + n) else ascii_of_N (55 + n).

Fixpoint escape (s : string) (mode : encoding) : string :=
  match s with
  | "" => ""
  | String c rest =>
    if shouldEscape c mode
    then String "%" (String (upper_hex (byte c / 16)) (String (upper_hex (byte c mod 16)) (escape rest mode)))
    else String c (escape rest mode)
  end.

(** ** URLs *)

Record Userinfo := mkUserinfo { ui_username : string; ui_password : option string }.

Definition Userinfo_String (u : Userinfo) : string :=
  escape (ui_username u) encodeUserPassword +:+
  match ui_password u with Some p => ":" +:+ escape p encodeUserPassword | None => "" end.

Record URL := mkURL {
  u_Scheme : string; u_Opaque : string; u_User : option Userinfo; u_Host : string;
  u_Path : string; u_RawPath : string; u_RawQuery : string; u_Fragment : string }.

(** [getScheme]: [None] is the missing scheme before a colon. *)
Fixpoint getScheme_loop (first : bool) (s : string) : option (option (string * string)) :=
  match s with
  | "" => Some None
  | String c rest =>
    let next := match getScheme_loop false rest with
                | Some (Some (scheme, path)) => Some (Some (String c scheme, path))
                | r => r
                end in
    if in_range "a" "z" c || in_range "A" "Z" c then next
    else if in_range "0" "9" c || one_of "+-." c then if first then Some None else next
    else if Ascii.eqb c ":" then if first then None else Some (Some ("", rest))
    else Some None
  end.

Definition getScheme (s : string) : option (string * string) :=
  match getScheme_loop true s with
  | None => None
  | Some None => Some ("", s)
  | Some (Some r) => Some r
  end.

Definition validOptionalPort (port : string) : bool :=
  match port with "" => true | String c digits => Ascii.eqb c ":" && all_chars (in_range "0" "9") digits end.

Definition validUserinfo (s : string) : bool :=
  all_chars (fun c => alphanumeric c || one_of "-._:~!$&'()*+,;=%@" c) s.

Definition parseHost (host : string) : option string :=
  if HasPrefix host "[" then Some host else
  match CutLast host ":" with
  | Some (_, port) => if validOptionalPort (":" +:+ port) then unescape host encodeHost else None
  | None => unescape host encodeHost
  end.

Definition parseAuthority (authority : string) : option (option Userinfo * string) :=
  match CutLast authority "@" with
  | None => host ← parseHost authority; Some (None, host)
  | Some (userinfo, host) =>
    host ← parseHost host;
    if negb (validUserinfo userinfo) then None else
    let '(username, password, found) := Cut userinfo ":" in
    username ← unescape username encodeUserPassword;
    password ← unescape password encodeUserPassword;
    Some (Some (mkUserinfo username (if found then Some password else None)), host)
  end.

(** [stringContainsCTLByte]. *)
Definition ContainsCTLByte (s : string) : bool := ContainsByte s (fun c => (byte c <? 0x20)%N || (byte c =? 0x7F)%N).

(** The authority after two slashes, and the rest. *)
Definition cut_authority (rest : string) : string * string :=
  let '(authority, after, found) := Cut rest "/" in (authority, if found then "/" +:+ after else "").

Definition parse_url (raw : string) : option URL :=
  if ContainsCTLByte raw then None else
  if raw == "*" then Some (mkURL "" "" None "" "*" "" "" "") else
  scheme ← getScheme raw;
  let '(scheme, rest) := (ToLower scheme.1, scheme.2) in
  let '(rest, query) := if HasSuffix rest "?" && negb (ContainsByte (TrimSuffix rest "?") (Ascii.eqb "?"))
                        then (TrimSuffix rest "?", "") else (Cut rest "?").1 in
  if negb (HasPrefix rest "/") && (scheme != "") then Some (mkURL scheme rest None "" "" "" query "") else
  if negb (HasPrefix rest "/") && ContainsByte ((Cut rest "/").1.1) (Ascii.eqb ":") then None else
  authority ← (if ((scheme != "") || negb (HasPrefix rest "///")) && HasPrefix rest "//" then
                 let '(authority, after) := cut_authority (drop_chars 2 rest) in
                 parsed ← parseAuthority authority; Some (parsed, after)
               else Some ((None, ""), rest));
  let '((user, host), rest) := authority in
  path ← unescape rest encodePath;
  Some (mkURL scheme "" user host path (if rest == escape path encodePath then "" else rest) query "").

(** [url.Parse]. *)
Definition url_Parse (raw : string) : option URL :=
  let '(u, fragment, _) := Cut raw "#" in
  url ← parse_url u;
  if fragment == "" then Some url else
  fragment ← unescape fragment encodeFragment;
  Some (mkURL (u_Scheme url) (u_Opaque url) (u_User url) (u_Host url) (u_Path url) (u_RawPath url) (u_RawQuery url) fragment).
