(* ===== verification/GoNetProofs.v ===== *)
(** * Addresses survive printing and reading

    [ParseAddr (a.String()) = a] for every address without a zone that is not
    IPv4-mapped: the form in which the network authority writes the
    destinations of a connection into a capability request and reads them back. *)

From S2P Require Import Prelude GoText GoNet GoStrings.
From Stdlib Require Import Ascii String.
Open Scope string_scope.

(** [Addr.IsValid]: the values of the Go type.  Its zero value is any other. *)
Definition IsValid (a : Addr) : bool :=
  match a with
  | V4 b => (List.length b =? 4)%nat && forallb (fun n => n <? 256)%N b
  | V6 g _ => (List.length g =? 8)%nat && forallb (fun n => n <? 65536)%N g
  end.

(** ** IPv4 *)

Lemma byte_ascii n : (n < 256)%N -> byte (ascii_of_N n) = n.
Proof. intros. unfold byte. by apply N_ascii_embedding. Qed.

Lemma dec_value_digit d : (d < 10)%N -> dec_value (dec_digit d) = Some d.
Proof.
  intros Hd. unfold dec_value, dec_digit, in_range. rewrite byte_ascii by lia.
  change (byte "0") with 48%N. change (byte "9") with 57%N.
  assert ((48 <=? 48 + d)%N = true) as -> by (apply N.leb_le; lia).
  assert ((48 + d <=? 57)%N = true) as -> by (apply N.leb_le; lia). simpl. f_equal. lia.
Qed.

Definition is_dec (c : ascii) : bool := match dec_value c with Some _ => true | None => false end.

Lemma dec_string_chars n : (n < 256)%N -> all_chars is_dec (dec_string n) = true.
Proof.
  intros Hn. assert (forall d, (d < 10)%N -> is_dec (dec_digit d) = true) as Hd
    by (intros d Hd; unfold is_dec; by rewrite dec_value_digit).
  assert (n / 100 < 10)%N by (apply N.Div0.div_lt_upper_bound; lia).
  unfold dec_string. destruct (n <? 10)%N eqn:E1; [|destruct (n <? 100)%N eqn:E2]; rewrite ?N.ltb_lt in *; simpl.
  - by rewrite Hd.
  - rewrite !Hd; [done|by apply N.mod_lt|apply N.Div0.div_lt_upper_bound; lia].
  - rewrite !Hd; [done|by apply N.mod_lt|by apply N.mod_lt|done].
Qed.

Lemma parse_digit d rest fields val digLen :
  (d < 10)%N -> ((digLen =? 1)%nat && (val =? 0)%N) = false -> (val * 10 + d < 256)%N ->
  parseIPv4Fields (String (dec_digit d) rest) fields val digLen =
  parseIPv4Fields rest fields (val * 10 + d)%N (S digLen).
Proof.
  intros Hd Hlead Hval. cbn [parseIPv4Fields]. rewrite dec_value_digit, Hlead by done.
  by assert ((255 <? val * 10 + d)%N = false) as -> by (apply N.ltb_ge; lia).
Qed.

Lemma parse_octet n rest fields :
  (n < 256)%N -> exists k, (0 < k)%nat /\
  parseIPv4Fields (dec_string n +:+ rest) fields 0 0 = parseIPv4Fields rest fields n k.
Proof.
  intros Hn. pose proof (N.div_mod' n 10) as H1. pose proof (N.mod_lt n 10 ltac:(done)) as H2.
  pose proof (N.div_mod' (n / 10) 10) as H3. pose proof (N.mod_lt (n / 10) 10 ltac:(done)) as H4.
  assert (n / 100 = n / 10 / 10)%N as H5 by (rewrite N.Div0.div_div; done).
  unfold dec_string. rewrite H5. clear H5.
  generalize dependent (n mod 10)%N; generalize dependent (n / 10)%N; intros q.
  generalize dependent (q mod 10)%N; generalize dependent (q / 10)%N; intros.
  destruct (n <? 10)%N eqn:E1; [|destruct (n <? 100)%N eqn:E2];
    rewrite ?N.ltb_lt, ?N.ltb_ge in *; str_simpl.
  - exists 1. split; [lia|]. rewrite parse_digit by (done || lia). f_equal; lia.
  - exists 2. split; [lia|]. rewrite parse_digit by (done || lia).
    rewrite parse_digit; [|lia| |lia].
    + f_equal; lia.
    + apply andb_false_iff. right. apply N.eqb_neq. lia.
  - exists 3. split; [lia|]. rewrite parse_digit by (done || lia).
    rewrite parse_digit; [|lia| |lia].
    2: { apply andb_false_iff. right. apply N.eqb_neq. lia. }
    rewrite parse_digit; [|lia|done|lia].
    f_equal; lia.
Qed.

Lemma parse_dot rest fields val k :
  (0 < k)%nat -> rest <> "" -> (List.length fields < 3)%nat ->
  parseIPv4Fields (String "." rest) fields val k = parseIPv4Fields rest (val :: fields) 0 0.
Proof.
  intros Hk Hr Hf. cbn [parseIPv4Fields]. change (dec_value ".") with (@None N). cbn iota.
  assert ((k =? 0)%nat = false) as -> by (apply Nat.eqb_neq; lia).
  assert ((List.length fields =? 3)%nat = false) as -> by (apply Nat.eqb_neq; lia).
  by rewrite (bool_decide_eq_false_2 _ Hr).
Qed.

Lemma str_app_nil_r s : s +:+ "" = s.
Proof. induction s as [|c s IH]; [done|]. by rewrite str_app_cons, IH. Qed.

Lemma dec_string_nonempty n rest : dec_string n +:+ rest <> "".
Proof. unfold dec_string. by destruct (n <? 10)%N, (n <? 100)%N. Qed.

Lemma parse_string4 b :
  List.length b = 4%nat -> Forall (fun n => n < 256)%N b -> parseIPv4Fields (string4 b) [] 0 0 = Some b.
Proof.
  intros Hl Hb. destruct b as [|b1 [|b2 [|b3 [|b4 [|]]]]]; try done.
  rewrite !Forall_cons in Hb. destruct Hb as (H1 & H2 & H3 & H4 & _).
  change (string4 [b1; b2; b3; b4]) with
    (dec_string b1 +:+ String "." (dec_string b2 +:+ String "." (dec_string b3 +:+ String "." (dec_string b4)))).
  destruct (parse_octet b1 (String "." (dec_string b2 +:+ String "." (dec_string b3 +:+ String "." (dec_string b4)))) [] H1)
    as (k1 & ? & ->).
  rewrite parse_dot by (simpl; try apply dec_string_nonempty; lia).
  destruct (parse_octet b2 (String "." (dec_string b3 +:+ String "." (dec_string b4))) [b1] H2) as (k2 & ? & ->).
  rewrite parse_dot by (simpl; try apply dec_string_nonempty; lia).
  destruct (parse_octet b3 (String "." (dec_string b4)) [b2; b1] H3) as (k3 & ? & ->).
  assert (dec_string b4 = dec_string b4 +:+ "") as E by (by rewrite str_app_nil_r).
  rewrite E, parse_dot by (simpl; try apply dec_string_nonempty; lia).
  destruct (parse_octet b4 "" [b3; b2; b1] H4) as (k4 & Hk & ->).
  destruct k4; [lia|done].
Qed.

(** ** IPv6 *)

Lemma hex_value_digit d : (d < 16)%N -> hex_value (hex_digit d) = Some d.
Proof.
  intros Hd. assert (d = 0 \/ d = 1 \/ d = 2 \/ d = 3 \/ d = 4 \/ d = 5 \/ d = 6 \/ d = 7 \/ d = 8 \/ d = 9 \/
    d = 10 \/ d = 11 \/ d = 12 \/ d = 13 \/ d = 14 \/ d = 15)%N as H by lia.
  by repeat (destruct H as [->|H]; [done|]); subst.
Qed.

(** Text that no hexadecimal digit begins. *)
Definition group_end (rest : string) : Prop :=
  match rest with "" => True | String c _ => hex_value c = None end.

Lemma hex_group_step d rest acc off :
  (d < 16)%N -> (off <= 3)%nat -> (acc * 16 + d < 65536)%N ->
  hex_group (String (hex_digit d) rest) acc off = hex_group rest (acc * 16 + d)%N (S off).
Proof.
  intros Hd Hoff Hacc. cbn [hex_group]. rewrite hex_value_digit by done. cbn zeta.
  assert ((3 <? off)%nat = false) as -> by (apply Nat.ltb_ge; lia).
  by assert ((0xFFFF <? acc * 16 + d)%N = false) as -> by (apply N.ltb_ge; lia).
Qed.

Lemma hex_group_end rest acc off : group_end rest -> hex_group rest acc off = Some (acc, off, rest).
Proof. destruct rest as [|c rest]; simpl; [done|]. by intros ->. Qed.

Lemma hex_group_print g rest :
  (g < 65536)%N -> group_end rest ->
  exists k, hex_group (hex_string g +:+ rest) 0 0 = Some (g, S k, rest).
Proof.
  intros Hg Hr. unfold hex_string.
  pose proof (N.div_mod' g 16) as H1. pose proof (N.mod_lt g 16 ltac:(done)) as H2.
  pose proof (N.div_mod' (g / 16) 16) as H3. pose proof (N.mod_lt (g / 16) 16 ltac:(done)) as H4.
  pose proof (N.div_mod' (g / 16 / 16) 16) as H5. pose proof (N.mod_lt (g / 16 / 16) 16 ltac:(done)) as H6.
  assert (g / 256 = g / 16 / 16)%N as -> by (rewrite N.Div0.div_div; done).
  assert (g / 4096 = g / 16 / 16 / 16)%N as -> by (rewrite !N.Div0.div_div; done).
  generalize dependent (g mod 16)%N; generalize dependent (g / 16)%N; intros q1.
  generalize dependent (q1 mod 16)%N; generalize dependent (q1 / 16)%N; intros q2.
  generalize dependent (q2 mod 16)%N; generalize dependent (q2 / 16)%N; intros.
  destruct (g <? 16)%N eqn:E1; [|destruct (g <? 256)%N eqn:E2; [|destruct (g <? 4096)%N eqn:E3]];
    rewrite ?N.ltb_lt, ?N.ltb_ge in *; str_simpl; [exists 0|exists 1|exists 2|exists 3];
    repeat (rewrite hex_group_step by lia); rewrite hex_group_end by done;
    do 3 f_equal; lia.
Qed.

(** The groups of an address, in text. *)
Definition groups_text (l : list N) : string := String.concat ":" (hex_string <$> l).
Notation small l := (Forall (fun g => g < 65536)%N l).

Lemma groups_text_cons g g' l : groups_text (g :: g' :: l) = hex_string g +:+ String ":" (groups_text (g' :: l)).
Proof. done. Qed.

Lemma hex_string_head g : (g < 65536)%N ->
  exists c s, hex_string g = String c s /\ c <> ":"%char /\ c <> "."%char /\ c <> "%"%char.
Proof.
  intros Hg. assert (forall d, (d < 16)%N -> hex_digit d <> ":"%char /\ hex_digit d <> "."%char /\ hex_digit d <> "%"%char) as Hd.
  { intros d Hd. apply hex_value_digit in Hd. repeat split; intros E; by rewrite E in Hd. }
  unfold hex_string.
  destruct (g <? 16)%N eqn:E1; [|destruct (g <? 256)%N eqn:E2; [|destruct (g <? 4096)%N eqn:E3]];
    do 2 eexists; (split; [done|]); apply Hd; first [by apply N.mod_lt | apply N.Div0.div_lt_upper_bound; lia].
Qed.

Lemma groups_text_head g l : (g < 65536)%N ->
  exists c s, groups_text (g :: l) = String c s /\ c <> ":"%char.
Proof.
  intros Hg. destruct (hex_string_head g Hg) as (c & s & E & Hc & _).
  destruct l as [|g' l]; [exists c, s; by rewrite <- E|].
  rewrite groups_text_cons, E. str_simpl. eauto.
Qed.

(** One round of the loop of [parseIPv6]. *)
Lemma groups_round fuel g rest groups ell :
  (g < 65536)%N ->
  (rest = "" -> ipv6_groups (S fuel) (hex_string g +:+ rest) groups ell = Some (g :: groups, ell, "")) /\
  (forall c s, rest = String ":" (String c s) -> c <> ":"%char ->
     ipv6_groups (S fuel) (hex_string g +:+ rest) groups ell = ipv6_groups fuel (String c s) (g :: groups) ell) /\
  (forall s, rest = String ":" (String ":" s) -> ell = None ->
     ipv6_groups (S fuel) (hex_string g +:+ rest) groups ell =
     if s == "" then Some (g :: groups, Some (S (List.length groups)), "")
     else ipv6_groups fuel s (g :: groups) (Some (S (List.length groups)))).
Proof.
  intros Hg. cbn [ipv6_groups].
  assert (group_end rest -> exists k, hex_group (hex_string g +:+ rest) 0 0 = Some (g, S k, rest)) as Hr
    by (intros; by apply hex_group_print).
  split; [|split].
  - intros ->. by destruct (Hr I) as [k ->].
  - intros c s -> Hc. destruct (Hr eq_refl) as [k ->]. simpl.
    by rewrite (proj2 (Ascii.eqb_neq c ":") Hc).
  - intros s -> ->. by destruct (Hr eq_refl) as [k ->].
Qed.

Lemma groups_read l g fuel groups ell :
  small (g :: l) -> (List.length (g :: l) <= fuel)%nat ->
  ipv6_groups fuel (groups_text (g :: l)) groups ell = Some ((rev (g :: l) ++ groups)%list, ell, "").
Proof.
  revert g fuel groups; induction l as [|g' l IH]; intros g fuel groups Hs Hf; simpl in Hf.
  all: destruct fuel as [|fuel]; [lia|]; apply Forall_cons in Hs as [Hg Hs].
  - rewrite <- (str_app_nil_r (groups_text [g])). by apply groups_round.
  - rewrite groups_text_cons. apply Forall_cons in Hs as Hg'. destruct Hg' as [Hg' _].
    destruct (groups_text_head g' l Hg') as (c & s & E & Hc). rewrite E.
    rewrite (proj1 (proj2 (groups_round fuel g _ groups ell Hg)) c s eq_refl Hc), <- E.
    rewrite IH by (simpl; done || lia). simpl. by rewrite <- !app_assoc.
Qed.

Lemma groups_read_ellipsis l g fuel groups t :
  small (g :: l) -> (List.length (g :: l) <= fuel)%nat ->
  let gs := (rev (g :: l) ++ groups)%list in
  ipv6_groups fuel (groups_text (g :: l) +:+ "::" +:+ t) groups None =
  if t == "" then Some (gs, Some (List.length gs), "")
  else ipv6_groups (fuel - List.length (g :: l)) t gs (Some (List.length gs)).
Proof.
  revert g fuel groups; induction l as [|g' l IH]; intros g fuel groups Hs Hf; simpl in Hf.
  all: destruct fuel as [|fuel]; [lia|]; apply Forall_cons in Hs as [Hg Hs].
  - change (groups_text [g]) with (hex_string g). change ("::" +:+ t) with (String ":" (String ":" t)).
    rewrite (proj2 (proj2 (groups_round fuel g (String ":" (String ":" t)) groups None Hg)) t eq_refl eq_refl).
    simpl. by rewrite Nat.sub_0_r.
  - rewrite groups_text_cons, str_app_assoc, str_app_cons. apply Forall_cons in Hs as Hg'. destruct Hg' as [Hg' _].
    destruct (groups_text_head g' l Hg') as (c & s & E & Hc). rewrite E. str_simpl.
    rewrite (proj1 (proj2 (groups_round fuel g _ groups None Hg)) c _ eq_refl Hc).
    rewrite <- str_app_cons, <- E. change (String ":" (String ":" t)) with ("::" +:+ t).
    rewrite IH by (simpl; done || lia). cbn [List.length rev]. simpl. by rewrite <- !app_assoc.
Qed.

(** ** The run of zeros *)

Lemma zero_run_zeros l : take (zero_run l) l = repeat 0%N (zero_run l).
Proof.
  induction l as [|g l IH]; simpl; [done|]. destruct (g =? 0)%N eqn:E; simpl; [|done].
  apply N.eqb_eq in E as ->. by rewrite IH.
Qed.

Lemma zero_run_length l : (zero_run l <= List.length l)%nat.
Proof. induction l as [|g l IH]; simpl; [done|]. destruct (g =? 0)%N; simpl; lia. Qed.

Definition zeros_at (all : list N) (best : option (nat * nat)) : Prop :=
  match best with
  | None => True
  | Some (i, n) => (2 <= n)%nat /\ (i + n <= List.length all)%nat /\
                   exists a c, all = (a ++ repeat 0%N n ++ c)%list /\ List.length a = i
  end.

Lemma longest_zeros_at all pre l best :
  all = (pre ++ l)%list -> zeros_at all best -> zeros_at all (longest_zeros (List.length pre) l best).
Proof.
  revert pre best; induction l as [|g l IH]; intros pre best Hall Hb; [done|].
  cbn [longest_zeros]. replace (S (List.length pre)) with (List.length (pre ++ [g])%list) by (rewrite length_app; simpl; lia).
  apply IH; [by rewrite <- app_assoc|].
  destruct (_ && _) eqn:E; [|done]. apply andb_true_iff in E as [E _]. apply Nat.leb_le in E.
  pose proof (zero_run_length (g :: l)) as Hz. repeat split; [done|subst all; rewrite length_app; lia|].
  exists pre, (drop (zero_run (g :: l)) (g :: l)). split; [|done].
  by rewrite <- zero_run_zeros, take_drop.
Qed.

(** ** The whole address *)

#[local] Arguments ipv6_groups : simpl never.
#[local] Arguments groups_text : simpl never.

Lemma body_leading_ellipsis t :
  parseIPv6_body (String ":" (String ":" t)) =
  if t == "" then Some (repeat 0%N 8) else
  match ipv6_groups 8 t [] (Some 0%nat) with
  | Some (groups, ellipsis, "") => ipv6_expand (rev groups) ellipsis
  | _ => None
  end.
Proof. unfold parseIPv6_body, HasPrefix. by destruct t. Qed.

Lemma body_digit c t :
  c <> ":"%char ->
  parseIPv6_body (String c t) =
  match ipv6_groups 8 (String c t) [] None with
  | Some (groups, ellipsis, "") => ipv6_expand (rev groups) ellipsis
  | _ => None
  end.
Proof.
  intros Hc. unfold parseIPv6_body, HasPrefix. cbn [String.prefix].
  destruct (ascii_dec ":" c); [by subst|]. cbn iota beta zeta. by rewrite bool_decide_eq_false_2.
Qed.

(** An ellipsis between [a] and [c] is read as the zeros that were cut out. *)
Lemma parse_ellipsis a n c :
  (2 <= n)%nat -> (List.length a + (n + List.length c) = 8)%nat -> small a -> small c ->
  parseIPv6_body (groups_text a +:+ "::" +:+ groups_text c) = Some (a ++ repeat 0%N n ++ c)%list.
Proof.
  intros Hn Hl Ha Hc.
  assert (ipv6_expand (a ++ c) (Some (List.length a)) = Some (a ++ repeat 0%N n ++ c)%list) as Hexp.
  { unfold ipv6_expand. rewrite length_app.
    assert ((List.length a + List.length c <? 8)%nat = true) as -> by (apply Nat.ltb_lt; lia).
    rewrite take_app_length, drop_app_length. do 4 f_equal. lia. }
  assert (c <> [] -> groups_text c <> "") as Hne.
  { destruct c as [|y c]; [done|]. intros _.
    destruct (groups_text_head y c) as (h & t & -> & _); [by apply Forall_cons in Hc as [? _]|done]. }
  destruct a as [|x a].
  - change (groups_text [] +:+ "::" +:+ groups_text c) with (String ":" (String ":" (groups_text c))).
    rewrite body_leading_ellipsis. destruct c as [|y c].
    + simpl in Hl. assert (n = 8)%nat as -> by lia. done.
    + rewrite bool_decide_eq_false_2, groups_read by (simpl in *; auto; lia).
      by rewrite app_nil_r, rev_involutive.
  - destruct (groups_text_head x a) as (h & t & E & Hh); [by apply Forall_cons in Ha as [? _]|].
    rewrite E, str_app_cons, body_digit, <- str_app_cons, <- E by done.
    rewrite groups_read_ellipsis, app_nil_r, length_rev by (simpl in *; done || lia).
    destruct c as [|y c].
    + rewrite app_nil_r in Hexp. change (groups_text []) with "". simpl.
      by rewrite rev_app_distr, rev_involutive.
    + rewrite bool_decide_eq_false_2, groups_read by (simpl in *; auto; lia).
      by rewrite rev_app_distr, !rev_involutive.
Qed.

Lemma parse_string6 g : List.length g = 8%nat -> small g -> parseIPv6_body (string6 g) = Some g.
Proof.
  intros Hl Hs. unfold string6. pose proof (longest_zeros_at g [] g None eq_refl I) as Hz.
  simpl in Hz. destruct (longest_zeros 0 g None) as [[i n]|].
  - destruct Hz as (Hn & Hin & a & c & -> & <-). rewrite take_app_length.
    rewrite app_assoc, drop_app_length', <- app_assoc by (rewrite length_app, repeat_length; lia).
    rewrite !length_app, repeat_length in Hl. rewrite !Forall_app in Hs. destruct Hs as (Ha & _ & Hc).
    by apply parse_ellipsis.
  - fold (groups_text g). destruct g as [|x g]; [done|].
    destruct (groups_text_head x g) as (h & t & E & Hh); [by apply Forall_cons in Hs as [? _]|].
    rewrite E, body_digit, <- E, groups_read, app_nil_r, rev_involutive by (done || lia).
    unfold ipv6_expand. by rewrite Hl.
Qed.

Definition hex_or_colon (c : ascii) : bool :=
  match hex_value c with Some _ => true | None => Ascii.eqb c ":" end.

Lemma hex_string_chars g : (g < 65536)%N -> all_chars hex_or_colon (hex_string g) = true.
Proof.
  intros Hg. assert (forall d, (d < 16)%N -> hex_or_colon (hex_digit d) = true) as Hd
    by (intros d Hd; unfold hex_or_colon; by rewrite hex_value_digit).
  assert (g / 4096 < 16)%N by (apply N.Div0.div_lt_upper_bound; lia).
  unfold hex_string. destruct (g <? 16)%N; [|destruct (g <? 256)%N; [|destruct (g <? 4096)%N]];
    simpl; by rewrite !Hd by (done || by apply N.mod_lt).
Qed.

Lemma groups_text_chars l : small l -> all_chars hex_or_colon (groups_text l) = true.
Proof.
  induction 1 as [|g l Hg Hl IH]; [done|]. destruct l as [|g' l]; [by apply hex_string_chars|].
  rewrite groups_text_cons, all_chars_app, hex_string_chars by done. exact IH.
Qed.

Lemma string6_chars g : small g -> all_chars hex_or_colon (string6 g) = true.
Proof.
  intros Hs. unfold string6. destruct (longest_zeros 0 g None) as [[i n]|].
  - fold (groups_text (take i g)) (groups_text (drop (i + n) g)).
    rewrite !all_chars_app, !groups_text_chars; [done|by apply Forall_drop|by apply Forall_take].
  - by apply groups_text_chars.
Qed.

Lemma string6_colon g : List.length g = 8%nat -> ContainsByte (string6 g) (Ascii.eqb ":") = true.
Proof.
  assert (forall a s b, ContainsByte (a +:+ s +:+ b) (Ascii.eqb ":") =
    ContainsByte a (Ascii.eqb ":") || ContainsByte s (Ascii.eqb ":") || ContainsByte b (Ascii.eqb ":")) as Happ.
  { assert (forall a b, ContainsByte (a +:+ b) (Ascii.eqb ":") = ContainsByte a (Ascii.eqb ":") || ContainsByte b (Ascii.eqb ":")) as H2.
    { intros a b. induction a as [|c a IH]; [done|]. str_simpl. simpl. rewrite IH. by rewrite orb_assoc. }
    intros. by rewrite !H2, orb_assoc. }
  intros Hl. unfold string6. destruct (longest_zeros 0 g None) as [[i n]|].
  - by rewrite Happ, orb_true_r.
  - destruct g as [|x [|y g]]; try done. fold (groups_text (x :: y :: g)). rewrite groups_text_cons.
    change (String ":" (groups_text (y :: g))) with (":" +:+ groups_text (y :: g)). by rewrite Happ, orb_true_r.
Qed.

Lemma colon_family s :
  all_chars hex_or_colon s = true -> ContainsByte s (Ascii.eqb ":") = true -> address_family s = Some ":"%char.
Proof.
  induction s as [|c s IH]; [done|]. cbn [ContainsByte all_chars address_family].
  rewrite andb_true_iff. intros [Hc Hs] Hin. destruct (Ascii.eqb c ":") eqn:E; [apply Ascii.eqb_eq in E as ->; done|].
  assert (Ascii.eqb c "." = false /\ Ascii.eqb c "%" = false) as [-> ->].
  { split; apply Ascii.eqb_neq; intros ->; done. }
  simpl. apply IH; [done|]. rewrite Ascii.eqb_sym, E in Hin. done.
Qed.

Lemma colon_zone s : all_chars hex_or_colon s = true -> split_zone s = (s, None).
Proof.
  induction s as [|c s IH]; [done|]. simpl. rewrite andb_true_iff. intros [Hc Hs].
  destruct (Ascii.eqb c "%") eqn:E; [apply Ascii.eqb_eq in E as ->; done|]. by rewrite IH.
Qed.

Lemma dot_family b : List.length b = 4%nat -> Forall (fun n => n < 256)%N b -> address_family (string4 b) = Some "."%char.
Proof.
  intros Hl Hb. destruct b as [|b1 [|b2 [|b3 [|b4 [|]]]]]; try done. apply Forall_cons in Hb as [Hb _].
  change (string4 [b1; b2; b3; b4]) with (dec_string b1 +:+ String "." (string4 [b2; b3; b4])).
  generalize (string4 [b2; b3; b4]). intros s. apply dec_string_chars in Hb.
  induction (dec_string b1) as [|c w IH]; [done|]. simpl in Hb. apply andb_true_iff in Hb as [Hc Hw].
  str_simpl. cbn [address_family].
  assert (Ascii.eqb c "." = false /\ Ascii.eqb c ":" = false /\ Ascii.eqb c "%" = false) as (-> & -> & ->)
    by (repeat split; apply Ascii.eqb_neq; by intros ->).
  by apply IH.
Qed.

(** Reading a printed address gives it back. *)
Lemma ParseAddr_String a :
  IsValid a = true -> Zone a = "" -> Is4In6 a = false -> ParseAddr (addr_String a) = Some a.
Proof.
  destruct a as [b|g z]; cbn [IsValid Zone].
  - rewrite andb_true_iff, Nat.eqb_eq, forallb_forall. intros [Hl Hb] _ _.
    assert (Forall (fun n => n < 256)%N b) as Hb' by (apply List.Forall_forall; intros x Hx; by apply N.ltb_lt, Hb).
    unfold ParseAddr. cbn [addr_String]. rewrite dot_family by done. simpl. by rewrite parse_string4.
  - rewrite andb_true_iff, Nat.eqb_eq, forallb_forall. intros [Hl Hg] -> H4.
    assert (small g) as Hg' by (apply List.Forall_forall; intros x Hx; by apply N.ltb_lt, Hg).
    unfold ParseAddr, addr_String. rewrite H4. cbn [bool_decide]. rewrite bool_decide_eq_true_2 by done.
    rewrite str_app_nil_r, colon_family by (by apply string6_chars || by apply string6_colon).
    unfold parseIPv6. simpl. rewrite colon_zone by (by apply string6_chars). by rewrite parse_string6.
Qed.

(** A printed address has no comma, the separator of the request's list. *)
Lemma addr_no_comma a : IsValid a = true -> Zone a = "" -> Is4In6 a = false -> no_sep "," (addr_String a).
Proof.
  intros Hv Hz H4. unfold no_sep. destruct a as [b|g z]; cbn [IsValid Zone] in *; subst.
  - cbn [addr_String]. unfold string4. apply andb_true_iff in Hv as [_ Hb]. rewrite forallb_forall in Hb.
    assert (forall n, (n < 256)%N -> all_chars (fun c => negb (Ascii.eqb c ",")) (dec_string n) = true) as Hd.
    { intros n Hn. eapply all_chars_impl; [|by apply dec_string_chars].
      intros c Hc. apply negb_true_iff, Ascii.eqb_neq. by intros ->. }
    assert (Forall (fun n => n < 256)%N b) as Hb' by (apply List.Forall_forall; intros x Hx; by apply N.ltb_lt, Hb).
    clear Hb H4. induction Hb' as [|x b Hx Hb IH]; [done|]. destruct b as [|y b]; [by apply Hd|].
    change (String.concat "." (dec_string <$> x :: y :: b)) with (dec_string x +:+ String "." (String.concat "." (dec_string <$> y :: b))).
    rewrite all_chars_app, Hd by done. exact IH.
  - unfold addr_String. rewrite H4, bool_decide_eq_true_2, str_app_nil_r by done.
    apply andb_true_iff in Hv as [_ Hg]. rewrite forallb_forall in Hg.
    eapply all_chars_impl; [|apply string6_chars; apply List.Forall_forall; intros x Hx; by apply N.ltb_lt, Hg].
    intros c Hc. apply negb_true_iff, Ascii.eqb_neq. by intros ->.
Qed.
