(* ===== verification/Egress.v ===== *)
(** * Hostname-scoped egress

    [src/internal/network/egress]: the canonical form of a host name, the
    normalized egress request, the broker that sends it through the capability
    boundary, the provider that grants it, and the resolver that binds a source
    address to one persisted Environment. *)

From S2P Require Import Prelude GoText GoNet GoStrings Core CoreChecks Policy CapabilityService.
From Stdlib Require Import Ascii String.
Open Scope string_scope.

(** ** Host names *)

Definition host_rune (r : N) : bool := between 97 122 r || between 48 57 r || (r =? 45)%N.

(** The body of the loop over the labels. *)
Definition host_label (label : string) : result unit :=
  reject (label == "") || (63 <? len label)%Z || HasPrefix label "-" || HasSuffixByte label "-"
    with ErrInvalidArgument ;;
  range_check (fun r => if host_rune (rune_value r) then Ok tt else Err ErrInvalidArgument) (runes label).

(** The cut set of [CanonicalHost], in the order of the source. *)
Definition host_cut : string := String CR (String LF (String NUL "/@%")).

Definition CanonicalHost (raw : string) : result string :=
  reject (raw == "") || (TrimSpace raw != raw) || ContainsAny raw host_cut with ErrInvalidArgument ;;
  let host := ToLower raw in
  let host := if HasSuffixByte host "." then TrimSuffixByte host "." else host in
  reject (host == "") || (253 <? len host)%Z || is_IP (Trim host "[]") || ContainsAny host ":"
    with ErrInvalidArgument ;;
  _ ← range_check host_label (Split host ".");
  Ok host.

(** ** Requests *)

Definition EgressHTTP := "http".
Definition EgressHTTPS := "https".

Record EgressRequest := mkEgressRequest {
  er_Environment : string;
  er_Host : string;
  er_Port : Z;
  er_Protocol : string }.

Record EgressGrant := mkEgressGrant {
  eg_RequestID : string;
  eg_Environment : string;
  eg_Host : string;
  eg_Port : Z;
  eg_Protocol : string }.

Definition NormalizeRequest (request : EgressRequest) : result EgressRequest :=
  reject (TrimSpace (er_Environment request) == "") ||
         (TrimSpace (er_Environment request) != er_Environment request) ||
         ContainsLineOrNUL (er_Environment request) with ErrInvalidArgument ;;
  host ← CanonicalHost (er_Host request);
  reject (er_Port request <? 1)%Z || (65535 <? er_Port request)%Z with ErrInvalidArgument ;;
  reject (er_Protocol request != EgressHTTP) && (er_Protocol request != EgressHTTPS) with ErrUnsupported ;;
  Ok (mkEgressRequest (er_Environment request) host (er_Port request) (er_Protocol request)).

Definition egress_Capability := "network.egress".
Definition egress_ActionConnect := "connect".

(** The capability request that [Broker.Authorize] builds. *)
Definition egress_request (normalized : EgressRequest) : CapabilityRequest :=
  mkRequest "" egress_Capability egress_ActionConnect (er_Host normalized) (er_Environment normalized)
    (<["protocol" := er_Protocol normalized]> (<["port" := Itoa (er_Port normalized)]> ∅)) ∅.

(** [Broker.Authorize]; the capability boundary is a function on an arbitrary
    world, [None] where the broker has none. *)
Definition Authorize {W} (capabilities : option (CapabilityRequest -> W -> W * finished))
    (request : EgressRequest) (w : W) : W * answer EgressGrant :=
  match capabilities with
  | None => (w, inr (Wrapped (Plain ErrPolicyDenied)))
  | Some Request =>
    match NormalizeRequest request with
    | Err e => (w, inr (Plain e))
    | Ok normalized =>
      match Request (egress_request normalized) w with
      | (w, (_, Some err)) => (w, inr err)
      | (w, (result, None)) =>
        (w, inl (mkEgressGrant (cr_RequestID result) (er_Environment normalized) (er_Host normalized)
                               (er_Port normalized) (er_Protocol normalized)))
      end
    end
  end.

(** [Provider.Execute]: the name of the provider that granted, or an error. *)
Definition egress_Execute (req : CapabilityRequest) : result string :=
  reject (req_Capability req != egress_Capability) || (req_Action req != egress_ActionConnect) ||
         (size (req_Parameters req) != 0) with ErrInvalidArgument ;;
  reject size (req_Attributes req) != 2 with ErrInvalidArgument ;;
  match Atoi (read_or "" (req_Attributes req) "port") with
  | None => Err ErrInvalidArgument
  | Some port =>
    normalized ← NormalizeRequest (mkEgressRequest (req_Environment req) (req_Resource req) port
                                                   (read_or "" (req_Attributes req) "protocol"));
    reject (er_Environment normalized != req_Environment req) || (er_Host normalized != req_Resource req) ||
           (Itoa (er_Port normalized) != read_or "" (req_Attributes req) "port") ||
           (er_Protocol normalized != read_or "" (req_Attributes req) "protocol") with ErrInvalidArgument ;;
    Ok "standard.egress.authorization"
  end.

(** ** The grammar of host names *)

Definition alnum (c : ascii) : bool := in_range "a" "z" c || in_range "0" "9" c.
Definition ldh (c : ascii) : bool := alnum c || Ascii.eqb c "-".

(** [a-z0-9]([a-z0-9-]{0,61}[a-z0-9])?, one label of a DNS host name. *)
Definition label_pattern : regexp := Seq (Cls alnum) (Opt (Seq (Rep ldh 0 61) (Cls alnum))).

(** A host name in lower case: labels between dots, at most 253 bytes in all,
    and not an IP address. *)
Definition hostname (h : string) : bool :=
  forallb (MatchString label_pattern) (Split h ".") && (len h <=? 253)%Z && negb (is_IP h).
