(* ===== verification/EgressProofs.v ===== *)
(** * Egress: lemmas

    The labels that [CanonicalHost] accepts are those of the DNS grammar, what
    [strings.ToLower] can turn into a host name, and the fixed points of the
    normalization. *)

From S2P Require Import Prelude GoText GoNet GoStrings Core CoreChecks Policy CapabilityService Egress.
From Stdlib Require Import Ascii String.
Open Scope string_scope.

(** ** Labels *)

Lemma host_rune_ldh c : host_rune (byte c) = ldh c.
Proof.
  unfold host_rune, ldh, alnum, in_range, between. f_equal.
  destruct (Ascii.eqb c "-") eqn:E; [apply Ascii.eqb_eq in E as ->; done|].
  apply N.eqb_neq. intros H. apply Ascii.eqb_neq in E. apply E.
  unfold byte in H. rewrite <- (ascii_N_embedding c), H. done.
Qed.

Lemma runes_ldh s :
  range_check (fun r => if host_rune (rune_value r) then Ok tt else Err ErrInvalidArgument) (runes s) = Ok tt <->
  all_chars ldh s = true.
Proof.
  rewrite range_check_ok.
  assert (all_chars ldh s = forallb (fun r => host_rune (rune_value r)) (runes s)) as ->.
  { rewrite runes_plain.
    - clear. induction s as [|c s IH]; [done|]. cbn [all_chars]. by rewrite host_rune_ldh, IH.
    - intros r. unfold host_rune, between. rewrite !orb_true_iff, !andb_true_iff, !N.leb_le, N.eqb_eq. lia. }
  rewrite forallb_forall. split.
  - intros H x Hx. specialize (H x). rewrite list_elem_of_In in H. specialize (H Hx).
    by destruct (host_rune (rune_value x)).
  - intros H x Hx. apply list_elem_of_In in Hx. by rewrite H.
Qed.

Lemma last_byte s b : HasSuffixByte s b = true <-> exists t, s = t +:+ single b.
Proof.
  induction s as [|c s IH]; simpl.
  - split; [done|]. by intros [[|] ?].
  - destruct s as [|d s].
    + rewrite Ascii.eqb_eq. split; [intros ->; by exists ""|].
      intros [[|x t] E]; [by injection E|]. injection E as _ E. by destruct t.
    + rewrite IH. split; [intros [t ->]; by exists (String c t)|].
      intros [[|x t] E]; [by injection E|]. injection E as _ E. eauto.
Qed.

Lemma snoc_string c s : exists t d, String c s = t +:+ single d.
Proof.
  revert c; induction s as [|e s IH]; intros c; [by exists "", c|].
  destruct (IH e) as (t & d & ->). by exists (String c t), d.
Qed.

Lemma ldh_not_alnum c : ldh c = true -> alnum c = negb (Ascii.eqb c "-").
Proof.
  unfold ldh. destruct (Ascii.eqb c "-") eqn:E; [apply Ascii.eqb_eq in E as ->; done|].
  by rewrite orb_false_r.
Qed.

(** The checks of the loop accept exactly the labels of the grammar. *)
Lemma host_label_pattern w : host_label w = Ok tt <-> MatchString label_pattern w = true.
Proof.
  rewrite MatchString_lang. unfold host_label. rewrite reject_ok, runes_ldh, !orb_false_iff.
  split.
  - intros ((((Hne & Hlen) & Hpre) & Hsuf) & Hall). destruct w as [|c w]; [done|].
    simpl in Hall. apply andb_true_iff in Hall as [Hc Hall].
    assert (alnum c = true) as Hc'.
    { rewrite ldh_not_alnum by done. unfold HasPrefix in Hpre. simpl in Hpre.
      destruct (Ascii.eqb c "-") eqn:E; [|done]. apply Ascii.eqb_eq in E as ->. by destruct w. }
    exists (single c), w. split; [done|]. split; [by exists c|].
    destruct w as [|d w]; [by left|right].
    destruct (snoc_string d w) as (m & e & E). rewrite E in *.
    rewrite all_chars_app in Hall. apply andb_true_iff in Hall as [Hm He]. simpl in He. rewrite andb_true_r in He.
    exists m, (single e). split; [done|]. split.
    + split; [|done]. unfold len in Hlen. cbn [String.length] in Hlen.
      rewrite length_app_string in Hlen. simpl in Hlen. apply Z.ltb_ge in Hlen. lia.
    + exists e. split; [done|]. rewrite ldh_not_alnum by done.
      destruct (Ascii.eqb e "-") eqn:E'; [|done]. apply Ascii.eqb_eq in E' as ->.
      assert (HasSuffixByte (String c (m +:+ single "-")) "-" = true); [|congruence].
      apply last_byte. by exists (String c m).
  - intros (s1 & s2 & -> & (c & -> & Hc) & Hs2).
    assert (exists t e, String c s2 = t +:+ single e /\ alnum e = true /\ all_chars ldh (String c s2) = true /\
      (String.length s2 <= 62)%nat) as (t & e & Ht & He & Hall & Hlen).
    { assert (forall c, alnum c = true -> ldh c = true) as Himp by (intros ? H; unfold ldh; by rewrite H).
      destruct Hs2 as [->|(m & r & -> & [Hm Hall] & (e & -> & He))].
      - exists "", c. simpl. rewrite Himp by done. repeat split; [done|lia].
      - exists (String c m), e. repeat split; [done| |].
        + cbn [all_chars]. rewrite Himp, all_chars_app, Hall by done. simpl. by rewrite Himp.
        + rewrite length_app_string. simpl. lia. }
    change (String c "" +:+ s2) with (String c s2). repeat split; [| | |done].
    + unfold len. apply Z.ltb_ge. cbn [String.length]. lia.
    + unfold HasPrefix. cbn [String.prefix]. destruct (ascii_dec "-" c) as [<-|]; [done|done].
    + apply not_true_is_false. rewrite last_byte. intros [t' E]. rewrite E in Ht. 
      assert (e = "-"%char) as ->; [|done].
      clear -Ht. revert t Ht; induction t' as [|x t' IH]; intros [|y t] H; simpl in H; try (injection H; done).
      * injection H as _ H. by destruct t.
      * injection H as _ H. by destruct t'.
      * injection H as _ H. eauto.
Qed.

(** ** Text and its runes *)

Lemma take_drop_chars n s : take_chars n s +:+ drop_chars n s = s.
Proof. revert s; induction n as [|n IH]; intros [|c s]; try done. simpl. str_simpl. by rewrite IH. Qed.

Lemma length_drop_chars n s : String.length (drop_chars n s) = (String.length s - n)%nat.
Proof. revert s; induction n as [|n IH]; intros [|c s]; simpl; auto. Qed.

Lemma rune_width_pos c s : (1 <= rune_width (String c s))%nat.
Proof. cbn [rune_width]. repeat case_match; lia. Qed.

Lemma concat_cons x l : String.concat "" (x :: l) = x +:+ String.concat "" l.
Proof.
  destruct l; simpl; [|done]. induction x as [|c x IH]; [done|]. rewrite str_app_cons. by f_equal.
Qed.

Lemma segments_concat n s : (String.length s <= n)%nat -> String.concat "" (rune_segments n s) = s.
Proof.
  revert s; induction n as [|n IH]; intros [|c s] Hn; try done; [simpl in Hn; lia|].
  cbn [rune_segments]. rewrite concat_cons, IH.
  - apply take_drop_chars.
  - rewrite length_drop_chars. pose proof (rune_width_pos c s). lia.
Qed.

(** A rune is one ASCII byte or bytes that are none. *)
Definition segment_shape (seg : string) : Prop :=
  (exists c, seg = single c /\ plain c = true) \/
  (seg <> "" /\ all_chars (fun c => negb (plain c)) seg = true).

Lemma cont_wide c : cont c = true -> negb (plain c) = true.
Proof. unfold cont, between, plain. rewrite andb_true_iff, !N.leb_le, negb_true_iff, N.ltb_ge. lia. Qed.

Lemma second3_wide a b : second_ok3 a b = true -> negb (plain b) = true.
Proof.
  unfold second_ok3, plain. rewrite negb_true_iff, N.ltb_ge.
  repeat case_match; unfold cont, between; rewrite ?andb_true_iff, ?N.leb_le; lia.
Qed.

Lemma second4_wide a b : second_ok4 a b = true -> negb (plain b) = true.
Proof.
  unfold second_ok4, plain. rewrite negb_true_iff, N.ltb_ge.
  repeat case_match; unfold cont, between; rewrite ?andb_true_iff, ?N.leb_le; lia.
Qed.

Lemma first_segment_shape c s : segment_shape (take_chars (rune_width (String c s)) (String c s)).
Proof.
  unfold segment_shape. cbn [rune_width]. destruct (byte c <? 0x80)%N eqn:Hc.
  { left. exists c. by split. }
  right. assert (negb (plain c) = true) as Hp by (unfold plain; by rewrite Hc).
  repeat match goal with
  | |- context [match ?s with "" => _ | String _ _ => _ end] => is_var s; destruct s
  | |- context [if ?b then _ else _] => let H := fresh in destruct b eqn:H; [rewrite ?andb_true_iff in H|clear H]
  end; cbn [take_chars all_chars]; rewrite Hp; split; try done;
  destruct_and?; repeat match goal with
  | H : cont _ = true |- _ => apply cont_wide in H; rewrite H
  | H : second_ok3 _ _ = true |- _ => apply second3_wide in H; rewrite H
  | H : second_ok4 _ _ = true |- _ => apply second4_wide in H; rewrite H
  end; done.
Qed.

Lemma segments_shape n s : Forall segment_shape (rune_segments n s).
Proof.
  revert s; induction n as [|n IH]; intros [|c s]; try done.
  cbn [rune_segments]. constructor; [apply first_segment_shape|apply IH].
Qed.

Lemma all_chars_concat p l : all_chars p (String.concat "" l) = forallb (all_chars p) l.
Proof. induction l as [|x l IH]; [done|]. rewrite concat_cons, all_chars_app, IH. done. Qed.

(** The characters of a host name. *)
Definition host_char (c : ascii) : bool := ldh c || Ascii.eqb c ".".

Lemma host_char_plain c :
  host_char c = true -> plain c && negb (is_space c) && negb (is_upper c) && negb (one_of host_cut c) &&
                        negb (one_of ":" c) && negb (one_of "[]" c) = true.
Proof. destruct c as [[] [] [] [] [] [] [] []]; vm_compute; done. Qed.

Lemma lower_host_char c : host_char (lower_byte c) = true -> plain c && negb (is_space c) && negb (one_of host_cut c) = true.
Proof. destruct c as [[] [] [] [] [] [] [] []]; vm_compute; done. Qed.

Lemma cut_plain c : one_of host_cut c = true -> plain c = true.
Proof. destruct c as [[] [] [] [] [] [] [] []]; vm_compute; done. Qed.

(** A rune whose lower case is part of a host name. *)
Lemma lower_segment_host seg :
  segment_shape seg -> all_chars host_char (lower_segment seg) = true ->
  space_segment seg = false /\ all_chars (fun c => negb (one_of host_cut c)) seg = true.
Proof.
  intros [(c & -> & Hc)|[Hne Hw]] Hl.
  - unfold lower_segment in Hl. cbn [single runes] in Hl. unfold plain in Hc. rewrite !Hc in Hl.
    cbn [all_chars] in Hl. rewrite andb_true_r in Hl. apply lower_host_char in Hl.
    rewrite !andb_true_iff, !negb_true_iff in Hl. destruct Hl as [[? ?] Hcut].
    rewrite space_single by done. split; [done|]. simpl. by rewrite Hcut.
  - split; [|eapply all_chars_impl; [|exact Hw]; intros c Hc; cbn beta in Hc; apply negb_true_iff, not_true_is_false;
             intros H%cut_plain; by rewrite H in Hc].
    unfold lower_segment in Hl. unfold space_segment. destruct (runes seg) as [|[r|] [|]]; try done.
    destruct seg as [|c seg]; [done|]. cbn [all_chars] in Hw. apply andb_true_iff in Hw as [Hc Hw].
    destruct (r <? 0x80)%N eqn:Hr.
    { cbn [all_chars] in Hl. rewrite andb_true_r in Hl. apply lower_host_char in Hl. rewrite !andb_true_iff in Hl.
      destruct Hl as [[Hp _] _]. by rewrite Hp in Hc. }
    destruct (r =? 0x212A)%N eqn:H1; [apply N.eqb_eq in H1 as ->; done|].
    destruct (r =? 0x130)%N eqn:H2; [apply N.eqb_eq in H2 as ->; done|].
    cbn [all_chars] in Hl. apply andb_true_iff in Hl as [Hl _]. apply host_char_plain in Hl.
    rewrite !andb_true_iff in Hl. destruct Hl as [[[[[Hp _] _] _] _] _]. by rewrite Hp in Hc.
Qed.

(** What folds to a host name passes the first checks of [CanonicalHost]. *)
Lemma lower_host raw :
  all_chars host_char (ToLower raw) = true -> TrimSpace raw = raw /\ ContainsAny raw host_cut = false.
Proof.
  intros Hl. unfold ToLower in Hl. rewrite all_chars_concat, forallb_forall in Hl.
  pose proof (segments_shape (String.length raw) raw) as Hsh.
  assert (Forall (fun seg => space_segment seg = false /\ all_chars (fun c => negb (one_of host_cut c)) seg = true)
    (rune_segments (String.length raw) raw)) as Hseg.
  { rewrite Forall_forall in Hsh |- *. intros seg Hin. apply lower_segment_host; [by apply Hsh|].
    apply Hl. apply in_map. by apply list_elem_of_In. }
  split.
  - assert (Forall (fun seg => space_segment seg = false) (rune_segments (String.length raw) raw)) as Hns
      by (eapply Forall_impl; [exact Hseg|]; by intros ? [? _]).
    unfold TrimSpace. rewrite (drop_segments_id _ Hns), drop_segments_id by (by apply Forall_rev).
    rewrite rev_involutive. by apply segments_concat.
  - unfold ContainsAny. apply ContainsByte_false.
    rewrite <- (segments_concat (String.length raw) raw) at 1 by done.
    rewrite all_chars_concat. apply forallb_forall. intros seg Hin. rewrite Forall_forall in Hseg.
    by apply Hseg, list_elem_of_In.
Qed.

(** ** Host names *)

Lemma hostname_chars h : hostname h = true -> all_chars host_char h = true.
Proof.
  unfold hostname. rewrite !andb_true_iff, forallb_forall. intros [[Hl _] _].
  apply (all_chars_Split host_char h "."); [done|]. apply List.Forall_forall. intros w Hw.
  apply Hl, host_label_pattern in Hw. unfold host_label in Hw. apply reject_ok in Hw as [_ Hw].
  apply runes_ldh in Hw. eapply all_chars_impl; [|exact Hw]. intros c Hc. unfold host_char. by rewrite Hc.
Qed.

Lemma TrimSuffix_last s b : TrimSuffixByte (s +:+ single b) b = s.
Proof.
  induction s as [|c s IH]; simpl; [by rewrite Ascii.eqb_refl|]. str_simpl. cbn [TrimSuffixByte].
  destruct s as [|d s]; [simpl; by rewrite Ascii.eqb_refl|]. str_simpl. by rewrite IH.
Qed.

Lemma hostname_no_dot h : hostname h = true -> HasSuffixByte h "." = false.
Proof.
  intros H. apply not_true_is_false. rewrite last_byte. intros [t ->].
  unfold hostname in H. change (t +:+ single ".") with (t +:+ String "." "") in H.
  rewrite Split_app, forallb_app in H. simpl in H. by rewrite andb_false_r in H.
Qed.

Lemma host_no s cut :
  (forall c, host_char c = true -> negb (one_of cut c) = true) -> all_chars host_char s = true -> ContainsAny s cut = false.
Proof. intros Hcut Hs. apply ContainsByte_false. by eapply all_chars_impl. Qed.

Lemma host_no_colon c : host_char c = true -> negb (one_of ":" c) = true.
Proof. intros H%host_char_plain. rewrite !andb_true_iff in H. tauto. Qed.
Lemma host_no_bracket c : host_char c = true -> negb (one_of "[]" c) = true.
Proof. intros H%host_char_plain. rewrite !andb_true_iff in H. tauto. Qed.

(** The checks on the folded name are the grammar. *)
Lemma folded_host_ok h :
  ((h == "") || (253 <? len h)%Z || is_IP (Trim h "[]") || ContainsAny h ":") = false /\
  range_check host_label (Split h ".") = Ok tt <-> hostname h = true.
Proof.
  rewrite range_check_ok. split.
  - intros [Hc Hl]. rewrite !orb_false_iff in Hc. destruct Hc as [[[_ Hlen] Hip] _].
    assert (forallb (MatchString label_pattern) (Split h ".") = true) as Hlab.
    { apply forallb_forall. intros w Hw. apply host_label_pattern, Hl, list_elem_of_In, Hw. }
    assert (all_chars host_char h = true) as Hch.
    { apply (all_chars_Split host_char h "."); [done|]. apply List.Forall_forall. intros w Hw.
      apply list_elem_of_In, Hl in Hw. unfold host_label in Hw. apply reject_ok in Hw as [_ Hw].
      apply runes_ldh in Hw. eapply all_chars_impl; [|exact Hw]. intros c Hc. unfold host_char. by rewrite Hc. }
    unfold hostname. rewrite Trim_id in Hip by (by apply host_no; [apply host_no_bracket|]).
    rewrite Hlab, Hip, andb_true_r. simpl. apply Z.leb_le. apply Z.ltb_ge in Hlen. lia.
  - intros H. pose proof (hostname_chars h H) as Hch. unfold hostname in H.
    rewrite !andb_true_iff, negb_true_iff, forallb_forall in H. destruct H as [[Hl Hlen] Hip]. split.
    + rewrite Trim_id by (by apply host_no; [apply host_no_bracket|]).
      rewrite Hip, (host_no h ":" host_no_colon Hch), !orb_false_r. apply orb_false_iff. split.
      * apply bool_decide_eq_false_2. intros ->. by specialize (Hl "" (or_introl eq_refl)).
      * apply Z.ltb_ge. by apply Z.leb_le.
    + intros w Hw. apply host_label_pattern, Hl. by apply list_elem_of_In.
Qed.

(** [CanonicalHost] answers with a host name that the text folds to, up to a
    final dot, ... *)
Lemma CanonicalHost_sound raw h :
  CanonicalHost raw = Ok h -> hostname h = true /\ (ToLower raw = h \/ ToLower raw = h +:+ ".").
Proof.
  unfold CanonicalHost. rewrite reject_ok. intros [_ H]. cbn zeta in H.
  rewrite reject_ok in H. destruct H as [Hc H]. apply bind_unit_ok in H as [Hl H].
  apply ok_inj in H as <-. split; [by apply folded_host_ok|].
  destruct (HasSuffixByte (ToLower raw) ".") eqn:E; [right|by left].
  apply last_byte in E as [t ->]. by rewrite TrimSuffix_last.
Qed.

(** ... and with every such name. *)
Lemma CanonicalHost_complete raw h :
  hostname h = true -> ToLower raw = h \/ ToLower raw = h +:+ "." -> CanonicalHost raw = Ok h.
Proof.
  intros Hh Hraw. pose proof (hostname_chars h Hh) as Hch.
  assert (all_chars host_char (ToLower raw) = true) as Hl.
  { destruct Hraw as [->| ->]; [done|]. by rewrite all_chars_app, Hch. }
  apply lower_host in Hl as [Htrim Hcut]. unfold CanonicalHost. apply reject_ok. split.
  - rewrite Htrim, Hcut, (bool_decide_eq_true_2 (raw = raw)) by done. simpl. rewrite !orb_false_r.
    apply bool_decide_eq_false_2. intros ->. destruct Hraw as [<-|E]; [by vm_compute in Hh|].
    by destruct h.
  - cbn zeta. set (host := if HasSuffixByte _ _ then _ else _).
    assert (host = h) as ->.
    { unfold host. destruct Hraw as [->| ->]; [by rewrite hostname_no_dot|].
      assert (HasSuffixByte (h +:+ ".") "." = true) as -> by (apply last_byte; by exists h).
      apply TrimSuffix_last. }
    apply folded_host_ok in Hh as [Hc Hl]. rewrite Hc, Hl. done.
Qed.

Lemma CanonicalHost_fixed h : hostname h = true -> CanonicalHost h = Ok h.
Proof.
  intros Hh. apply CanonicalHost_complete; [done|]. left. apply ToLower_id.
  eapply all_chars_impl; [|by apply hostname_chars]. intros c H%host_char_plain.
  rewrite !andb_true_iff in H. cbn beta. rewrite andb_true_iff. tauto.
Qed.

(** ** Requests *)

Lemma NormalizeRequest_fixed r n : NormalizeRequest r = Ok n -> NormalizeRequest n = Ok n.
Proof.
  unfold NormalizeRequest. rewrite reject_ok. intros [H1 H].
  apply bind_ok in H as (host & Hh & H). rewrite reject_ok in H. destruct H as [H2 H].
  rewrite reject_ok in H. destruct H as [H3 H]. apply ok_inj in H as <-. cbn [er_Environment er_Host er_Port er_Protocol].
  apply CanonicalHost_sound in Hh as [Hh _]. rewrite H1, (CanonicalHost_fixed _ Hh). cbn [mbind result_bind].
  by rewrite H2, H3.
Qed.

Lemma NormalizeRequest_hostname r n : NormalizeRequest r = Ok n -> hostname (er_Host n) = true.
Proof.
  unfold NormalizeRequest. rewrite reject_ok. intros [_ H]. apply bind_ok in H as (host & Hh & H).
  rewrite !reject_ok in H. destruct H as (_ & _ & H). apply ok_inj in H as <-.
  by apply CanonicalHost_sound in Hh as [Hh _].
Qed.

Lemma NormalizeRequest_port r n : NormalizeRequest r = Ok n -> (1 <= er_Port n <= 65535)%Z.
Proof.
  unfold NormalizeRequest. rewrite reject_ok. intros [_ H].
  apply bind_ok in H as (host & _ & H). rewrite reject_ok, orb_false_iff, !Z.ltb_ge in H. destruct H as [H2 H].
  rewrite reject_ok in H. destruct H as [_ H]. apply ok_inj in H as <-. simpl. lia.
Qed.

Lemma egress_request_attributes n :
  req_Attributes (egress_request n) !! "protocol" = Some (er_Protocol n) /\
  req_Attributes (egress_request n) !! "port" = Some (Itoa (er_Port n)) /\
  size (req_Attributes (egress_request n)) = 2%nat.
Proof.
  cbn [egress_request req_Attributes]. split; [by rewrite lookup_insert_eq|].
  split; [by rewrite lookup_insert_ne, lookup_insert_eq|].
  rewrite !map_size_insert_None; [by rewrite map_size_empty|..]; by rewrite ?lookup_insert_ne, ?lookup_empty.
Qed.

(** The provider grants what the broker sends, ... *)
Lemma egress_request_granted n :
  NormalizeRequest n = Ok n -> forall i, egress_Execute (req_with_Instance i (egress_request n)) = Ok "standard.egress.authorization".
Proof.
  intros Hn i. destruct (egress_request_attributes n) as (E1 & E2 & E3).
  pose proof (NormalizeRequest_port _ _ Hn) as Hport. unfold egress_Execute.
  change (req_Attributes (req_with_Instance i (egress_request n))) with (req_Attributes (egress_request n)).
  rewrite E3. unfold read_or. rewrite E1, E2. cbn [default from_option id]. rewrite Atoi_Itoa by lia.
  destruct n as [env host port proto].
  cbn [req_with_Instance egress_request req_Capability req_Action req_Parameters req_Environment req_Resource
       er_Environment er_Host er_Port er_Protocol] in *.
  rewrite map_size_empty, Hn. cbn [mbind result_bind er_Environment er_Host er_Port er_Protocol].
  by rewrite !bool_decide_eq_true_2.
Qed.

(** Two attributes with the values of the broker are those of the broker. *)
Lemma egress_attributes_exact (m : strings_map) n :
  size m = 2%nat ->
  Itoa (er_Port n) = read_or "" m "port" /\ er_Protocol n = read_or "" m "protocol" ->
  m !! "protocol" <> None -> m !! "port" <> None -> m = req_Attributes (egress_request n).
Proof.
  intros Hs [Hport Hproto] H1 H2. destruct (egress_request_attributes n) as (_ & _ & E).
  symmetry. apply map_subseteq_size_eq; [|by rewrite E, Hs]. apply map_subseteq_spec. intros k v Hk.
  clear E. cbn [egress_request req_Attributes] in Hk. unfold read_or in Hport, Hproto.
  rewrite lookup_insert_Some, lookup_insert_Some, lookup_empty in Hk.
  destruct Hk as [[<- <-]|[_ [[<- <-]|[_ [=]]]]].
  - destruct (m !! "protocol"); [rewrite Hproto; reflexivity|destruct (H1 eq_refl)].
  - destruct (m !! "port"); [rewrite Hport; reflexivity|destruct (H2 eq_refl)].
Qed.

Lemma NormalizeRequest_protocol r n :
  NormalizeRequest r = Ok n -> ((er_Protocol r != EgressHTTP) && (er_Protocol r != EgressHTTPS)) = false.
Proof.
  unfold NormalizeRequest. rewrite reject_ok. intros [_ H].
  apply bind_ok in H as (host & _ & H). rewrite !reject_ok in H. tauto.
Qed.

(** ... and nothing else. *)
Lemma egress_granted_request req p :
  egress_Execute req = Ok p ->
  exists n, NormalizeRequest n = Ok n /\ req_with_Instance "" req = egress_request n.
Proof.
  unfold egress_Execute. rewrite !reject_ok. intros (H1 & H2 & H).
  destruct (Atoi _) as [port|] eqn:Ep; [|done].
  apply bind_ok in H as (n & Hn & H). rewrite reject_ok in H. destruct H as [H3 _].
  rewrite !orb_false_iff, !negb_false_iff, !bool_decide_eq_true in H1.
  rewrite !orb_false_iff, !negb_false_iff, !bool_decide_eq_true in H3. rewrite negb_false_iff, bool_decide_eq_true in H2.
  destruct H1 as [[Hcap Hact] Hpar%map_size_empty_iff], H3 as [[[He Hh] Hport] Hproto].
  exists n. split; [by eapply NormalizeRequest_fixed|].
  destruct (egress_request_attributes n) as (E1 & E2 & E3).
  assert (req_Attributes req = req_Attributes (egress_request n)) as Hattr
    by (apply egress_attributes_exact; [exact H2|split; assumption| |];
        [intros E; unfold read_or in Hn; rewrite E in Hn; discriminate (NormalizeRequest_protocol _ _ Hn)
        |intros E; unfold read_or in Ep; rewrite E in Ep; discriminate Ep]).
  destruct req as [inst cap act res env attrs par].
  cbn [req_Capability req_Action req_Parameters req_Environment req_Resource req_Attributes] in *.
  unfold req_with_Instance. cbn [req_Capability req_Action req_Parameters req_Environment req_Resource req_Attributes].
  subst. reflexivity.
Qed.
