(* ===== verification/NetworkAuthority.v ===== *)
(** * Network authority

    [src/internal/network/model.go], [authority.go], [configured.go] and
    [rules.go]: the connection a guest may ask for, the canonical capability
    request of a resolved connection, the provider that grants exactly those,
    the targets and the authority that the running configuration defines, and
    the administrator's rules. *)

From S2P Require Import Prelude GoText GoNet GoStrings GoNetProofs Core CoreChecks Policy CapabilityService Egress.
From Stdlib Require Import Ascii String.
Open Scope string_scope.

(** ** Types *)

Definition network_Capability := "network.connect".
Definition network_Action := "connect".
Definition MaxDuration : Z := 3600.
Definition MaxUDPDurations : Z := 300.
Definition MaxDatagram : Z := 65507.

Record Spec := mkSpec {
  spec_Kind : string;
  spec_Target : string;
  spec_Protocol : string;
  spec_Port : Z;
  spec_DurationSeconds : Z }.

Record Source := mkSource {
  src_Environment : string;
  src_Instance : string }.

Record Target := mkTarget {
  tgt_Kind : string;
  tgt_Name : string;
  tgt_Protocol : string;
  tgt_Port : Z;
  tgt_Addresses : list Addr;
  tgt_Owner : string }.

#[export] Instance Source_eq_dec : EqDecision Source.
Proof. solve_decision. Defined.
#[export] Instance Target_eq_dec : EqDecision Target.
Proof. solve_decision. Defined.

(** ** Checks on what the guest asks for *)

Definition validName (s : string) : bool :=
  if (len s <? 1)%Z || (63 <? len s)%Z || HasPrefix s "-" then false
  else forallb (fun r => host_rune (rune_value r)) (runes s).

Definition spec_cut : string := String NUL (String CR (String LF "/@%")).

Definition validateSpec (s : Spec) : result unit :=
  reject (spec_DurationSeconds s <? 1)%Z || (MaxDuration <? spec_DurationSeconds s)%Z ||
         ((spec_Protocol s != "tcp") && (spec_Protocol s != "udp")) with ErrInvalidArgument ;;
  reject (spec_Protocol s == "udp") && (MaxUDPDurations <? spec_DurationSeconds s)%Z with ErrInvalidArgument ;;
  reject (spec_Target s == "") || (253 <? len (spec_Target s))%Z || (TrimSpace (spec_Target s) != spec_Target s) ||
         ContainsAny (spec_Target s) spec_cut with ErrInvalidArgument ;;
  if spec_Kind s == "external" then
    reject (spec_Port s <? 1)%Z || (65535 <? spec_Port s)%Z with ErrInvalidArgument ;;
    match ParseAddr (spec_Target s) with
    | Some a =>
      reject (Zone a != "") || negb (IsGlobalUnicast a) || IsLoopback a || IsLinkLocalUnicast a with ErrPolicyDenied ;;
      Ok tt
    | None =>
      reject (match CanonicalHost (spec_Target s) with Ok host => host != spec_Target s | Err _ => true end)
        with ErrInvalidArgument ;;
      Ok tt
    end
  else if (spec_Kind s == "host") || (spec_Kind s == "environment") then
    reject negb (validName (spec_Target s)) || (spec_Port s <? 0)%Z || (65535 <? spec_Port s)%Z ||
           ((spec_Kind s == "environment") && (spec_Port s =? 0)%Z) with ErrInvalidArgument ;;
    Ok tt
  else Err ErrInvalidArgument.

(** ** The canonical capability request *)

(** The body of the loop over [target.Addresses]: addresses seen and printed. *)
Definition address_body (kind : string) (address : Addr) (st : list Addr * list string)
  : result (list Addr * list string) :=
  reject negb (IsValid address) || (Zone address != "") || IsUnspecified address || IsMulticast address ||
         IsLinkLocalUnicast address || bool_decide (address ∈ st.1) with ErrInvalidArgument ;;
  reject Is4In6 address with ErrInvalidArgument ;;
  reject (kind == "external") && IsLoopback address with ErrPolicyDenied ;;
  Ok (address :: st.1, st.2 ++ [addr_String address])%list.

Definition connection_attributes (target : Target) (addresses : list string) (duration : Z) : strings_map :=
  <["destination_kind" := tgt_Kind target]> (<["destination_instance" := tgt_Owner target]>
  (<["protocol" := tgt_Protocol target]> (<["port" := Itoa (tgt_Port target)]>
  (<["addresses" := strings_Join addresses ","]> (<["duration_seconds" := Itoa duration]> ∅))))).

(** The switch on the kind of destination. *)
Definition destination_check (target : Target) (duration : Z) : result unit :=
  if tgt_Kind target == "external" then
    reject tgt_Owner target != "" with ErrInvalidArgument ;;
    validateSpec (mkSpec (tgt_Kind target) (tgt_Name target) (tgt_Protocol target) (tgt_Port target) duration)
  else if tgt_Kind target == "host" then
    match tgt_Addresses target with
    | [address] =>
      reject negb (is_ok (ValidateNetworkService
               (mkService (tgt_Name target) (tgt_Owner target) (tgt_Protocol target) (addr_String address)
                          (tgt_Port target)))) with ErrInvalidArgument ;;
      Ok tt
    | _ => Err ErrInvalidArgument
    end
  else if tgt_Kind target == "environment" then
    reject negb (validName (tgt_Name target)) || negb (ValidEnvironmentInstanceID (tgt_Owner target))
      with ErrInvalidArgument ;;
    Ok tt
  else Err ErrInvalidArgument.

Definition requestFor (source : Source) (target : Target) (duration : Z) : result CapabilityRequest :=
  reject negb (validName (src_Environment source)) || negb (ValidEnvironmentInstanceID (src_Instance source)) ||
         (duration <? 1)%Z || (MaxDuration <? duration)%Z ||
         ((tgt_Protocol target != "tcp") && (tgt_Protocol target != "udp")) ||
         (tgt_Port target <? 1)%Z || (65535 <? tgt_Port target)%Z ||
         (List.length (tgt_Addresses target) =? 0)%nat || (32 <? List.length (tgt_Addresses target))%nat
    with ErrInvalidArgument ;;
  reject (tgt_Protocol target == "udp") && (MaxUDPDurations <? duration)%Z with ErrInvalidArgument ;;
  _ ← destination_check target duration;
  st ← range_loop (address_body (tgt_Kind target)) (tgt_Addresses target) ([], []);
  let addresses := sort_by id st.2 in
  Ok (mkRequest (src_Instance source) network_Capability network_Action (tgt_Name target) (src_Environment source)
        (connection_attributes target addresses duration) ∅).

(** ** The provider *)

Definition parse_body (raw : string) (addresses : list Addr) : result (list Addr) :=
  match ParseAddr raw with
  | Some address => Ok (addresses ++ [address])%list
  | None => Err ErrInvalidArgument
  end.

(** The body of the final loop over the canonical attributes. *)
Definition same_attribute (attributes : strings_map) (key value : string) : result unit :=
  reject read_or "" attributes key != value with ErrInvalidArgument ;; Ok tt.

(** [Provider.Execute]: the name of the provider that granted, or an error. *)
Definition network_Execute (req : CapabilityRequest) : result string :=
  let attribute key := read_or "" (req_Attributes req) key in
  reject (req_Capability req != network_Capability) || (req_Action req != network_Action) ||
         (size (req_Attributes req) != 6) || (size (req_Parameters req) != 0) with ErrInvalidArgument ;;
  match Atoi (attribute "port"), Atoi (attribute "duration_seconds") with
  | Some port, Some duration =>
    addresses ← range_loop parse_body (Split (attribute "addresses") ",") [];
    let target := mkTarget (attribute "destination_kind") (req_Resource req) (attribute "protocol") port
                           addresses (attribute "destination_instance") in
    canonical ← requestFor (mkSource (req_Environment req) (req_EnvironmentInstance req)) target duration;
    _ ← range_map (same_attribute (req_Attributes req)) (req_Attributes canonical);
    Ok "standard.network.authorization"
  | _, _ => Err ErrInvalidArgument
  end.

(** ** Configured targets and authority *)

(** A call that may change the world and fail. *)
Definition IO (W A : Type) := W -> W * answer A.

#[export] Instance IO_ret W : MRet (IO W) := fun A a w => (w, inl a).
#[export] Instance IO_bind W : MBind (IO W) := fun A B f m w =>
  match m w with
  | (w', inl a) => f a w'
  | (w', inr err) => (w', inr err)
  end.

Definition fail_with {W A} (err : goerror) : IO W A := fun w => (w, inr err).
Definition lift_result {W A} (r : result A) : IO W A := fun w =>
  (w, match r with Ok a => inl a | Err e => inr (Plain e) end).
(** [if err != nil { return wrap(err) }]. *)
Definition on_error {W A} (wrap : goerror -> goerror) (m : IO W A) : IO W A := fun w =>
  match m w with
  | (w', inl a) => (w', inl a)
  | (w', inr err) => (w', inr (wrap err))
  end.

(** [capability.PolicySnapshot]; [None] where [json.Unmarshal] refuses the bytes. *)
Record PolicySnapshot := mkSnapshot {
  snap_Revision : string;
  snap_Policy : option PolicyFile }.

Section Configured.
Context {W : Type}.

Record ConfiguredTargets := mkTargets {
  ct_Snapshot : IO W PolicySnapshot;
  ct_CurrentInstance : string -> IO W string;
  ct_ResolveInstance : string -> string -> string -> IO W (list Addr);
  ct_HostAllowed : option (Addr -> IO W unit);
  ct_ExternalAllowed : option (Addr -> IO W unit) }.

Context (t : ConfiguredTargets).

(** The first service of that name decides. *)
Fixpoint find_service (name : string) (services : list NetworkService) : result NetworkService :=
  match services with
  | [] => Err ErrNotFound
  | service :: services =>
    if svc_Name service == name then
      reject negb (is_ok (ValidateNetworkService service)) with ErrPolicyDenied ;;
      Ok service
    else find_service name services
  end.

Definition targets_host (name : string) : IO W NetworkService :=
  snapshot ← ct_Snapshot t;
  match snap_Policy snapshot with
  | None => fail_with (Plain ErrPolicyDenied)
  | Some policy => lift_result (find_service name (NetworkServices policy))
  end.

Fixpoint each_allowed (allowed : Addr -> IO W unit) (addresses : list Addr) : IO W unit :=
  match addresses with
  | [] => mret tt
  | a :: addresses => _ ← allowed a; each_allowed allowed addresses
  end.

Definition forbidden_port (port : Z) : bool :=
  bool_decide (port ∈ [18080; 8443; 2375; 2376]%Z).

Definition targets_Verify (target : Target) : IO W unit :=
  if tgt_Kind target == "environment" then
    instance ← on_error (fun _ => Plain ErrCapabilityStale) (ct_CurrentInstance t (tgt_Name target));
    if instance != tgt_Owner target then fail_with (Plain ErrCapabilityStale) else mret tt
  else if tgt_Kind target == "host" then
    s ← on_error (fun _ => Plain ErrCapabilityStale) (targets_host (tgt_Name target));
    match tgt_Addresses target with
    | [address] =>
      if (svc_Instance s != tgt_Owner target) || (svc_Protocol s != tgt_Protocol target) ||
         (svc_Port s != tgt_Port target) || (svc_Address s != addr_String address)
      then fail_with (Plain ErrCapabilityStale) else
      match ct_HostAllowed t with
      | None => fail_with (Plain ErrPolicyDenied)
      | Some allowed =>
        _ ← allowed address;
        if forbidden_port (svc_Port s) then fail_with (Plain ErrPolicyDenied) else mret tt
      end
    | _ => fail_with (Plain ErrCapabilityStale)
    end
  else if tgt_Kind target == "external" then
    match ct_ExternalAllowed t, tgt_Addresses target with
    | None, _ | _, [] => fail_with (Plain ErrPolicyDenied)
    | Some allowed, addresses => each_allowed allowed addresses
    end
  else fail_with (Plain ErrInvalidArgument).

(** [netip.MustParseAddr] of a service that was validated always succeeds; the
    panic of the other case is an error here. *)
Definition MustParseAddr (s : string) : IO W Addr :=
  match ParseAddr s with Some a => mret a | None => fail_with (Plain ErrMessage) end.

Definition dns_error (err : goerror) : goerror :=
  if errors_Is err ErrPolicyDenied || errors_Is err ErrApprovalDenied || errors_Is err ErrCapabilityStale
  then err else Plain ErrDNSResolution.

(** The switch of [Resolve], before its final [Verify]. *)
Definition select_target (source : Source) (spec : Spec) : IO W Target :=
  if spec_Kind spec == "host" then
    service ← targets_host (spec_Target spec);
    if (svc_Protocol service != spec_Protocol spec) ||
       ((spec_Port spec != 0%Z) && (svc_Port service != spec_Port spec))
    then fail_with (Plain ErrPolicyDenied) else
    address ← MustParseAddr (svc_Address service);
    mret (mkTarget (spec_Kind spec) (spec_Target spec) (spec_Protocol spec) (svc_Port service) [address]
                   (svc_Instance service))
  else if spec_Kind spec == "environment" then
    instance ← on_error (fun _ => Plain ErrCapabilityStale) (ct_CurrentInstance t (spec_Target spec));
    mret (mkTarget (spec_Kind spec) (spec_Target spec) (spec_Protocol spec) (spec_Port spec)
                   [V4 [127; 0; 0; 1]%N] instance)
  else if spec_Kind spec == "external" then
    addresses ← match ParseAddr (spec_Target spec) with
                | Some address => mret [address]
                | None => on_error dns_error
                            (ct_ResolveInstance t (src_Environment source) (src_Instance source) (spec_Target spec))
                end;
    mret (mkTarget (spec_Kind spec) (spec_Target spec) (spec_Protocol spec) (spec_Port spec) addresses "")
  else fail_with (Plain ErrInvalidArgument).

Definition targets_Resolve (source : Source) (spec : Spec) : IO W Target :=
  target ← select_target source spec;
  _ ← targets_Verify target;
  mret target.

End Configured.

Arguments ConfiguredTargets : clear implicits.

(** ** Administrator rules *)

Record RuleSpec := mkRuleSpec {
  rs_Environment : string;
  rs_Connection : Spec;
  rs_Decision : string;
  rs_Scope : string;
  rs_ExpiresAt : Z }.

Definition rule_lifetime : Z := 31 * 24 * 3600 * 10 ^ 9.

(** The rule that [AddRule] saves for a resolved connection. *)
Definition connection_rule (spec : RuleSpec) (instance : string) (target : Target) (request : CapabilityRequest)
  : PolicyRule :=
  mkRule (Some (rs_ExpiresAt spec)) (if rs_Scope spec != "instance" then "" else instance)
    network_Capability network_Action (tgt_Name target)
    (if rs_Scope spec == "global" then "*" else rs_Environment spec) (req_Attributes request) (rs_Decision spec) "".

(** [Service.AddRule]; [now] is read twice by the source. *)
Definition AddRule {W} (CurrentInstance : string -> IO W string) (Resolve : Source -> Spec -> IO W Target)
    (Snapshot : IO W PolicySnapshot) (Replace : PolicySnapshot -> IO W PolicySnapshot)
    (now now' : Z) (spec : RuleSpec) : IO W PolicyRule :=
  if negb (is_ok (validateSpec (rs_Connection spec))) || negb (validName (rs_Environment spec)) ||
     ((rs_Decision spec != PolicyAllow) && (rs_Decision spec != PolicyDeny) &&
      (rs_Decision spec != PolicyRequireApproval)) ||
     ((rs_Scope spec != "instance") && (rs_Scope spec != "environment") && (rs_Scope spec != "global")) ||
     negb (now <? rs_ExpiresAt spec)%Z || (now' + rule_lifetime <? rs_ExpiresAt spec)%Z
  then fail_with (Plain ErrInvalidArgument) else
  snapshot ← Snapshot;
  instance ← CurrentInstance (rs_Environment spec);
  let source := mkSource (rs_Environment spec) instance in
  target ← Resolve source (rs_Connection spec);
  request ← lift_result (requestFor source target (spec_DurationSeconds (rs_Connection spec)));
  let rule := connection_rule spec instance target request in
  match snap_Policy snapshot with
  | None => fail_with (Plain ErrIncompatibleState)
  | Some policy =>
    let policy := mkPolicy (NetworkServices policy) (SavedDecisions policy) (pol_Default policy)
                           (Rules policy ++ [rule])%list in
    _ ← Replace (mkSnapshot (snap_Revision snapshot) (Some policy));
    mret rule
  end.
