(* ===== verification/NetworkAuthorityProofs.v ===== *)
(** * Network authority: lemmas

    What [requestFor] accepts and produces, that the provider reads back what it
    wrote, and what the configured targets resolve to. *)

From S2P Require Import Prelude GoText GoNet GoStrings GoNetProofs Core CoreChecks CoreProofs Policy CapabilityService Egress NetworkAuthority.
From Stdlib Require Import Ascii String.
Open Scope string_scope.

(** ** Sorted lists of names *)

Lemma insert_by_fmap {A} (key : A -> string) (x : A) k : key <$> insert_by key x k = insert_by id (key x) (key <$> k).
Proof.
  induction k as [|y k IH]; [done|]. simpl. unfold id.
  destruct (String.ltb (key y) (key x)); simpl; [|done]. f_equal. exact IH.
Qed.

Lemma sort_by_fmap {A} (key : A -> string) (l : list A) : key <$> sort_by key l = sort_by id (key <$> l).
Proof. unfold sort_by. induction l as [|x l IH]; [done|]. simpl. by rewrite insert_by_fmap, IH. Qed.

Lemma sort_sorted_id (l : list string) : StronglySorted str_lt l -> sort_by id l = l.
Proof.
  unfold sort_by. induction 1 as [|x l Hl IH Hx]; [done|]. simpl. rewrite IH.
  destruct l as [|y l]; [done|]. simpl. unfold id. apply Forall_cons in Hx as [Hxy _].
  unfold String.ltb. rewrite String.compare_antisym. unfold str_lt in Hxy. by rewrite Hxy.
Qed.

Lemma sort_idem (l : list string) : NoDup l -> sort_by id (sort_by id l) = sort_by id l.
Proof.
  intros Hnd. apply sort_sorted_id. apply (sort_by_sorted id). by rewrite list_fmap_id.
Qed.

(** ** Addresses of a request *)

Definition address_ok (kind : string) (a : Addr) : Prop :=
  IsValid a = true /\ Zone a = "" /\ IsUnspecified a = false /\ IsMulticast a = false /\
  IsLinkLocalUnicast a = false /\ Is4In6 a = false /\ (kind = "external" -> IsLoopback a = false).

Lemma address_body_ok kind a st st' :
  address_body kind a st = Ok st' <->
  address_ok kind a /\ a ∉ st.1 /\ st' = (a :: st.1, st.2 ++ [addr_String a])%list.
Proof.
  unfold address_body, address_ok. rewrite !reject_ok, ok_inj.
  rewrite !orb_false_iff, andb_false_iff, !negb_false_iff, !bool_decide_eq_false, bool_decide_eq_true.
  destruct (decide (kind = "external")); intuition congruence.
Qed.

Lemma address_loop kind l st st' :
  range_loop (address_body kind) l st = Ok st' <->
  Forall (address_ok kind) l /\ NoDup l /\ (forall a, a ∈ l -> a ∉ st.1) /\
  st' = (rev l ++ st.1, st.2 ++ (addr_String <$> l))%list.
Proof.
  revert st; induction l as [|a l IH]; intros st; simpl.
  - rewrite ok_inj, app_nil_r. destruct st. split; [intros <-|intros (_ & _ & _ & ->)]; [|done].
    split; [done|]. split; [constructor|]. split; [set_solver|done].
  - destruct (address_body kind a st) as [st1|e] eqn:E.
    + apply address_body_ok in E as (Ha & Hin & ->). rewrite IH, Forall_cons, NoDup_cons. simpl.
      rewrite <- !app_assoc. simpl. split.
      * intros (H1 & H2 & H3 & ->). split; [done|]. split; [|split; [|done]].
        { split; [|done]. intros Hal. apply (H3 a Hal), elem_of_cons. by left. }
        intros b [->|Hb]%elem_of_cons; [done|]. specialize (H3 b Hb). by apply not_elem_of_cons in H3 as [_ H3].
      * intros ([_ H1] & [H2 H2'] & H3 & ->). repeat split; auto. intros b Hb. rewrite not_elem_of_cons.
        split; [congruence|]. apply H3, elem_of_cons. by right.
    + split; [done|]. intros (Hok & Hnd & Hin & _). exfalso.
      apply Forall_cons in Hok as [Hok _].
      assert (address_body kind a st = Ok (a :: st.1, st.2 ++ [addr_String a])%list) as E'
        by (apply address_body_ok; split; [done|]; split; [apply Hin, elem_of_cons; by left|done]).
      congruence.
Qed.

(** The checks of [requestFor] before its loop. *)
Definition request_ok (source : Source) (target : Target) (duration : Z) : Prop :=
  validName (src_Environment source) = true /\ ValidEnvironmentInstanceID (src_Instance source) = true /\
  (1 <= duration <= MaxDuration)%Z /\ (tgt_Protocol target = "tcp" \/ tgt_Protocol target = "udp") /\
  (1 <= tgt_Port target <= 65535)%Z /\ (1 <= List.length (tgt_Addresses target) <= 32)%nat /\
  (tgt_Protocol target = "udp" -> (duration <= MaxUDPDurations)%Z) /\ destination_check target duration = Ok tt.

Lemma requestFor_ok source target duration req :
  requestFor source target duration = Ok req <->
  request_ok source target duration /\ Forall (address_ok (tgt_Kind target)) (tgt_Addresses target) /\
  NoDup (tgt_Addresses target) /\
  req = mkRequest (src_Instance source) network_Capability network_Action (tgt_Name target) (src_Environment source)
          (connection_attributes target (sort_by id (addr_String <$> tgt_Addresses target)) duration) ∅.
Proof.
  unfold requestFor, request_ok. rewrite !reject_ok, bind_unit_ok.
  rewrite !orb_false_iff, !andb_false_iff, !negb_false_iff, !bool_decide_eq_true, bool_decide_eq_false,
    !Z.ltb_ge, Nat.eqb_neq, Nat.ltb_ge.
  setoid_rewrite bind_ok. setoid_rewrite address_loop. setoid_rewrite ok_inj. cbn [fst snd].
  split.
  - intros (H1 & H2 & H3 & st & (H4 & H5 & _ & ->) & <-). cbn [fst snd]. rewrite app_nil_l.
    destruct_and?. repeat split; auto; try lia. destruct H2; [done|auto].
  - intros (H1 & H2 & H3 & ->). destruct_and?. repeat split; auto; try lia.
    { destruct (decide (tgt_Protocol target = "udp")); auto. }
    eexists. repeat split; auto. intros a _. apply not_elem_of_nil.
Qed.

(** ** The attributes of a request *)

Definition attribute_keys : list string :=
  ["destination_kind"; "destination_instance"; "protocol"; "port"; "addresses"; "duration_seconds"].

Lemma connection_attributes_lookup target addresses duration :
  connection_attributes target addresses duration !! "destination_kind" = Some (tgt_Kind target) /\
  connection_attributes target addresses duration !! "destination_instance" = Some (tgt_Owner target) /\
  connection_attributes target addresses duration !! "protocol" = Some (tgt_Protocol target) /\
  connection_attributes target addresses duration !! "port" = Some (Itoa (tgt_Port target)) /\
  connection_attributes target addresses duration !! "addresses" = Some (strings_Join addresses ",") /\
  connection_attributes target addresses duration !! "duration_seconds" = Some (Itoa duration).
Proof.
  unfold connection_attributes.
  repeat split; repeat first [rewrite lookup_insert_eq; reflexivity | rewrite lookup_insert_ne by done].
Qed.

Lemma connection_attributes_size target addresses duration : size (connection_attributes target addresses duration) = 6.
Proof.
  unfold connection_attributes. rewrite !map_size_insert_None; [by rewrite map_size_empty|..];
    by rewrite ?lookup_insert_ne, ?lookup_empty.
Qed.

Lemma connection_attributes_keys target addresses duration k v :
  connection_attributes target addresses duration !! k = Some v -> k ∈ attribute_keys.
Proof.
  unfold connection_attributes. rewrite !lookup_insert_Some, lookup_empty. unfold attribute_keys.
  rewrite !elem_of_cons. naive_solver.
Qed.

Lemma parse_loop l acc out :
  range_loop parse_body l acc = Ok out <->
  exists addresses, Forall2 (fun raw a => ParseAddr raw = Some a) l addresses /\ out = (acc ++ addresses)%list.
Proof.
  revert acc; induction l as [|raw l IH]; intros acc; simpl.
  - rewrite ok_inj. split; [intros <-; exists []; by rewrite app_nil_r|].
    intros (addresses & H & ->). inversion H. by rewrite app_nil_r.
  - unfold parse_body. destruct (ParseAddr raw) as [a|] eqn:E.
    + rewrite IH. split.
      * intros (addresses & H & ->). exists (a :: addresses). rewrite <- app_assoc. by repeat constructor.
      * intros (addresses & H & ->). inversion H as [|? b ? bs Hb Hbs]; subst. simplify_eq.
        exists bs. by rewrite <- app_assoc.
    + split; [done|]. intros (addresses & H & _). inversion H. congruence.
Qed.

Lemma same_attributes (attributes m : strings_map) :
  range_map (same_attribute attributes) m = Ok tt <-> forall k v, m !! k = Some v -> read_or "" attributes k = v.
Proof.
  rewrite range_map_ok. unfold same_attribute. setoid_rewrite reject_ok. setoid_rewrite negb_false_iff.
  setoid_rewrite bool_decide_eq_true. naive_solver.
Qed.

(** What the provider grants. *)
Lemma network_Execute_ok req p :
  network_Execute req = Ok p <->
  let attribute key := read_or "" (req_Attributes req) key in
  p = "standard.network.authorization" /\ req_Capability req = network_Capability /\ req_Action req = network_Action /\
  size (req_Attributes req) = 6 /\ req_Parameters req = ∅ /\
  exists port duration addresses canonical,
    Atoi (attribute "port") = Some port /\ Atoi (attribute "duration_seconds") = Some duration /\
    Forall2 (fun raw a => ParseAddr raw = Some a) (Split (attribute "addresses") ",") addresses /\
    requestFor (mkSource (req_Environment req) (req_EnvironmentInstance req))
      (mkTarget (attribute "destination_kind") (req_Resource req) (attribute "protocol") port addresses
                (attribute "destination_instance")) duration = Ok canonical /\
    forall k v, req_Attributes canonical !! k = Some v -> attribute k = v.
Proof.
  unfold network_Execute. cbn zeta. rewrite reject_ok, !orb_false_iff, !negb_false_iff, !bool_decide_eq_true.
  rewrite map_size_empty_iff.
  split.
  - intros ([[[H1 H2] H3] H4] & H). destruct (Atoi (read_or "" _ "port")) as [port|] eqn:E1; [|done].
    destruct (Atoi (read_or "" _ "duration_seconds")) as [duration|] eqn:E2; [|done].
    apply bind_ok in H as (addresses & Hp & H). apply parse_loop in Hp as (addresses' & Hp & ->).
    apply bind_ok in H as (canonical & Hc & H). apply bind_unit_ok in H as [Hr H]. apply ok_inj in H as <-.
    pose proof (proj1 (same_attributes _ _) Hr) as Hr'. repeat (split; [done|]). by exists port, duration, addresses', canonical.
  - intros (-> & H1 & H2 & H3 & H4 & port & duration & addresses & canonical & -> & -> & Hp & Hc & Hr).
    split; [done|]. rewrite (proj2 (parse_loop _ _ _) (ex_intro _ addresses (conj Hp eq_refl))).
    cbn [mbind result_bind app]. rewrite Hc. cbn [mbind result_bind]. by rewrite (proj2 (same_attributes _ _) Hr).
Qed.

(** ** Reading back a request *)

Definition with_addresses (addresses : list Addr) (t : Target) : Target :=
  mkTarget (tgt_Kind t) (tgt_Name t) (tgt_Protocol t) (tgt_Port t) addresses (tgt_Owner t).

Lemma destination_check_perm target duration addresses :
  addresses ≡ₚ tgt_Addresses target ->
  destination_check (with_addresses addresses target) duration = destination_check target duration.
Proof.
  intros Hp. unfold destination_check. cbn [with_addresses tgt_Kind tgt_Name tgt_Protocol tgt_Port tgt_Addresses tgt_Owner].
  destruct (tgt_Kind target == "external"); [done|]. destruct (tgt_Kind target == "host"); [|done].
  destruct (tgt_Addresses target) as [|a [|b l]].
  - apply Permutation_nil_r in Hp as ->. done.
  - apply Permutation_singleton_r in Hp as ->. done.
  - pose proof (Permutation_length Hp) as Hl. destruct addresses as [|x [|y k]]; done.
Qed.

Lemma addr_String_inj kind a b :
  address_ok kind a -> address_ok kind b -> addr_String a = addr_String b -> a = b.
Proof.
  intros (Ha1 & Ha2 & _ & _ & _ & Ha3 & _) (Hb1 & Hb2 & _ & _ & _ & Hb3 & _) E.
  apply ParseAddr_String in Ha1; [|done|done]. apply ParseAddr_String in Hb1; [|done|done]. congruence.
Qed.

Lemma addresses_NoDup kind l : Forall (address_ok kind) l -> NoDup l -> NoDup (addr_String <$> l).
Proof.
  intros Hok Hnd. apply NoDup_fmap_2_strong; [|done]. rewrite Forall_forall in Hok.
  intros x y Hx Hy. by apply (addr_String_inj kind); apply Hok.
Qed.

(** The order of the addresses does not matter. *)
Lemma requestFor_sorted source target duration req :
  requestFor source target duration = Ok req ->
  requestFor source (with_addresses (sort_by addr_String (tgt_Addresses target)) target) duration = Ok req.
Proof.
  rewrite !requestFor_ok. intros (Hreq & Hok & Hnd & ->).
  pose proof (sort_by_perm addr_String (tgt_Addresses target)) as Hp.
  cbn [with_addresses tgt_Kind tgt_Name tgt_Protocol tgt_Port tgt_Addresses tgt_Owner].
  split; [|split; [by rewrite Hp|split; [by rewrite Hp|]]].
  - destruct Hreq as (H1 & H2 & H3 & H4 & H5 & H6 & H7 & H8). unfold request_ok.
    rewrite destination_check_perm by done. cbn [with_addresses tgt_Kind tgt_Name tgt_Protocol tgt_Port tgt_Addresses tgt_Owner].
    rewrite (Permutation_length Hp). auto 10.
  - rewrite sort_by_fmap, sort_idem by (by eapply addresses_NoDup). done.
Qed.

Lemma read_addresses kind l :
  Forall (address_ok kind) l -> l <> [] ->
  Forall2 (fun raw a => ParseAddr raw = Some a) (Split (strings_Join (addr_String <$> l) ",") ",") l.
Proof.
  intros Hok Hne. change "," with (single ",") at 1. rewrite Split_Join.
  - apply Forall2_fmap_l, Forall_Forall2_diag. eapply Forall_impl; [exact Hok|].
    intros a (Ha1 & Ha2 & _ & _ & _ & Ha3 & _). by apply ParseAddr_String.
  - by intros E%fmap_nil_inv.
  - apply Forall_fmap. eapply Forall_impl; [exact Hok|].
    intros a (Ha1 & Ha2 & _ & _ & _ & Ha3 & _). by apply addr_no_comma.
Qed.

(** The provider grants every request that [requestFor] builds. *)
Lemma requestFor_granted source target duration req :
  requestFor source target duration = Ok req -> network_Execute req = Ok "standard.network.authorization".
Proof.
  intros H. pose proof (requestFor_sorted _ _ _ _ H) as Hs. apply requestFor_ok in H as (Hreq & Hok & Hnd & ->).
  destruct Hreq as (H1 & H2 & H3 & H4 & H5 & H6 & H7 & H8). set (m := connection_attributes _ _ _).
  destruct (connection_attributes_lookup target (sort_by id (addr_String <$> tgt_Addresses target)) duration)
    as (E1 & E2 & E3 & E4 & E5 & E6). fold m in E1, E2, E3, E4, E5, E6.
  apply network_Execute_ok. cbn zeta. cbn [req_Attributes req_Capability req_Action req_Parameters req_Resource req_Environment req_EnvironmentInstance].
  unfold read_or. rewrite E1, E2, E3, E4, E5, E6. cbn [default from_option id].
  repeat (split; [first [done | apply connection_attributes_size]|]).
  exists (tgt_Port target), duration, (sort_by addr_String (tgt_Addresses target)), (mkRequest (src_Instance source)
    network_Capability network_Action (tgt_Name target) (src_Environment source) m ∅).
  unfold MaxDuration in H3. split; [apply Atoi_Itoa; lia|]. split; [apply Atoi_Itoa; lia|]. split.
  - rewrite <- sort_by_fmap. apply (read_addresses (tgt_Kind target)).
    + by rewrite sort_by_perm.
    + intros E. pose proof (sort_by_perm addr_String (tgt_Addresses target)) as Hp. rewrite E in Hp.
      apply Permutation_nil_l in Hp. rewrite <- Hp in H6. simpl in H6. lia.
  - split; [destruct source; exact Hs|]. intros k v Hk. cbn [req_Attributes] in Hk. by rewrite Hk.
Qed.

Lemma destination_owner target duration :
  destination_check target duration = Ok tt -> tgt_Owner target = "" -> tgt_Kind target = "external".
Proof.
  unfold destination_check. intros H Ho. rewrite Ho in H.
  destruct (bool_decide (tgt_Kind target = "external")) eqn:E1; [by apply bool_decide_eq_true in E1|].
  destruct (tgt_Kind target == "host").
  - destruct (tgt_Addresses target) as [|a [|]]; try done. rewrite reject_ok in H. destruct H as [H _].
    unfold ValidateNetworkService in H. cbn [svc_Instance] in H.
    change (MatchString networkServiceInstance "") with false in H. cbn [negb] in H.
    rewrite orb_true_r in H. done.
  - destruct (tgt_Kind target == "environment"); [|done]. rewrite reject_ok in H. destruct H as [H _].
    change (ValidEnvironmentInstanceID "") with false in H. by rewrite orb_true_r in H.
Qed.

(** A granted request is one that [requestFor] builds, except that a request
    for an external target may replace the empty owner by a stray attribute. *)
Lemma granted_canonical req p :
  network_Execute req = Ok p ->
  exists source target duration canonical,
    requestFor source target duration = Ok canonical /\
    (req = canonical \/
     tgt_Kind target = "external" /\ req_Attributes req !! "destination_instance" = None /\
     delete "destination_instance" (req_Attributes canonical) ⊆ req_Attributes req).
Proof.
  rewrite network_Execute_ok. cbn zeta.
  intros (_ & Hcap & Hact & Hsize & Hpar & port & duration & addresses & canonical & Hport & Hdur & Haddr & Hreq & Hsame).
  do 4 eexists. split; [exact Hreq|].
  pose proof Hreq as Hreq'. apply requestFor_ok in Hreq' as ((_ & _ & _ & Hproto & _ & _ & _ & Hdest) & _ & _ & ->).
  cbn [req_Attributes tgt_Kind tgt_Protocol] in *.
  assert (forall k v, k <> "destination_instance" -> connection_attributes
    (mkTarget (read_or "" (req_Attributes req) "destination_kind") (req_Resource req) (read_or "" (req_Attributes req) "protocol")
       port addresses (read_or "" (req_Attributes req) "destination_instance"))
    (sort_by id (addr_String <$> addresses)) duration !! k = Some v -> req_Attributes req !! k = Some v) as Hkeys.
  { intros k v Hne Hk. pose proof (Hsame k v Hk) as Hv. pose proof (connection_attributes_keys _ _ _ _ _ Hk) as Hin.
    unfold read_or in Hv, Hport, Hdur, Haddr, Hproto, Hdest.
    destruct (req_Attributes req !! k) as [v'|] eqn:E; [by rewrite <- Hv|exfalso].
    unfold attribute_keys in Hin. rewrite !elem_of_cons, elem_of_nil in Hin.
    destruct Hin as [->|[->|[->|[->|[->|[->|[]]]]]]]; rewrite ?E in *; cbn [default from_option id] in *; try done.
    - by destruct Hproto.
    - by inversion Haddr as [|? ? ? ? Ha]. }
  destruct (req_Attributes req !! "destination_instance") as [o|] eqn:Eo.
  - left. destruct req as [inst cap act res env attrs par]. cbn in *. subst. f_equal. symmetry.
    apply map_subseteq_size_eq; [|rewrite connection_attributes_size; lia].
    apply map_subseteq_spec. intros k v Hk. destruct (decide (k = "destination_instance")) as [->|Hne]; [|by apply Hkeys].
    rewrite <- (Hsame _ _ Hk). unfold read_or. by rewrite Eo.
  - right. split; [|split; [done|]].
    + apply destination_owner in Hdest; [done|]. cbn [tgt_Owner]. unfold read_or. by rewrite Eo.
    + apply map_subseteq_spec. intros k v Hk. apply lookup_delete_Some in Hk as [Hne Hk]. by apply Hkeys.
Qed.

(** ** Configured targets *)

Lemma IO_bind_ok {W A B} (m : IO W A) (f : A -> IO W B) w w' b :
  (x ← m; f x) w = (w', inl b) <-> exists a w1, m w = (w1, inl a) /\ f a w1 = (w', inl b).
Proof.
  unfold mbind, IO_bind. destruct (m w) as [w1 [a|e]]; split; try done; [by exists a, w1| |].
  - intros (a' & w2 & [= <- <-] & H). done.
  - by intros (a' & w2 & H & _).
Qed.

Lemma on_error_ok {W A} wrap (m : IO W A) w w' a : on_error wrap m w = (w', inl a) <-> m w = (w', inl a).
Proof. unfold on_error. destruct (m w) as [w1 [b|e]]; split; congruence. Qed.

Lemma lift_result_ok {W A} (r : result A) (w w' : W) a : lift_result r w = (w', inl a) <-> w' = w /\ r = Ok a.
Proof. unfold lift_result. destruct r; split; intros; destruct_and?; simplify_eq; auto. Qed.

Lemma find_service_ok name services s :
  find_service name services = Ok s -> s ∈ services /\ svc_Name s = name /\ ValidateNetworkService s = Ok tt.
Proof.
  induction services as [|x services IH]; simpl; [done|].
  destruct (bool_decide (svc_Name x = name)) eqn:E.
  - rewrite reject_ok, ok_inj, negb_false_iff. intros [Hv <-]. apply bool_decide_eq_true in E.
    split; [by left|]. split; [done|]. by destruct (ValidateNetworkService x) as [[]|].
  - intros H. destruct (IH H) as (? & ? & ?). split; [by right|done].
Qed.

Section Contract.
Context {W : Type} (t : ConfiguredTargets W).

(** What the configuration answered at some moment. *)
Definition answered {A} (m : IO W A) (a : A) : Prop := exists w w', m w = (w', inl a).

(** A target that the running configuration allows. *)
Inductive allowed_target (target : Target) : Prop :=
| allowed_environment :
    tgt_Kind target = "environment" -> answered (ct_CurrentInstance t (tgt_Name target)) (tgt_Owner target) ->
    allowed_target target
| allowed_host snapshot policy service address allowed :
    tgt_Kind target = "host" -> answered (ct_Snapshot t) snapshot -> snap_Policy snapshot = Some policy ->
    service ∈ NetworkServices policy -> ValidateNetworkService service = Ok tt ->
    svc_Name service = tgt_Name target -> svc_Instance service = tgt_Owner target ->
    svc_Protocol service = tgt_Protocol target -> svc_Port service = tgt_Port target ->
    tgt_Addresses target = [address] -> svc_Address service = addr_String address ->
    ct_HostAllowed t = Some allowed -> answered (allowed address) tt -> forbidden_port (tgt_Port target) = false ->
    allowed_target target
| allowed_external allowed :
    tgt_Kind target = "external" -> tgt_Addresses target <> [] -> ct_ExternalAllowed t = Some allowed ->
    Forall (fun a => answered (allowed a) tt) (tgt_Addresses target) -> allowed_target target.

Lemma targets_host_ok name w w' s :
  targets_host t name w = (w', inl s) ->
  exists snapshot policy, answered (ct_Snapshot t) snapshot /\ snap_Policy snapshot = Some policy /\
    s ∈ NetworkServices policy /\ svc_Name s = name /\ ValidateNetworkService s = Ok tt.
Proof.
  intros H. apply IO_bind_ok in H as (snapshot & w1 & Hs & H). destruct (snap_Policy snapshot) as [policy|] eqn:E; [|done].
  apply lift_result_ok in H as [-> H]. apply find_service_ok in H as (H1 & H2 & H3).
  exists snapshot, policy. repeat split; auto. by exists w, w1.
Qed.

Lemma each_allowed_ok allowed addresses w w' :
  each_allowed allowed addresses w = (w', inl tt) -> Forall (fun a => answered (allowed a) tt) addresses.
Proof.
  revert w; induction addresses as [|a addresses IH]; intros w H; [constructor|].
  simpl in H. apply IO_bind_ok in H as ([] & w1 & Ha & H). constructor; [by exists w, w1|eauto].
Qed.

Lemma targets_Verify_allowed target w w' :
  targets_Verify t target w = (w', inl tt) -> allowed_target target.
Proof.
  unfold targets_Verify. destruct (bool_decide (tgt_Kind target = "environment")) eqn:E1;
    [apply bool_decide_eq_true in E1|destruct (bool_decide (tgt_Kind target = "host")) eqn:E2;
    [apply bool_decide_eq_true in E2|destruct (bool_decide (tgt_Kind target = "external")) eqn:E3;
    [apply bool_decide_eq_true in E3|done]]].
  - intros H. apply IO_bind_ok in H as (instance & w1 & Hi & H). apply on_error_ok in Hi.
    destruct (bool_decide (instance = tgt_Owner target)) eqn:E; [|done]. apply bool_decide_eq_true in E as ->.
    apply allowed_environment; [done|]. by exists w, w1.
  - intros H. apply IO_bind_ok in H as (s & w1 & Hs & H). apply on_error_ok, targets_host_ok in Hs as (snapshot & policy & H1 & H2 & H3 & H4 & H5).
    destruct (tgt_Addresses target) as [|address [|]] eqn:Ea; try done.
    destruct (_ || _) eqn:Eb; [done|]. rewrite !orb_false_iff, !negb_false_iff, !bool_decide_eq_true in Eb.
    destruct (ct_HostAllowed t) as [allowed|] eqn:Eh; [|done].
    apply IO_bind_ok in H as ([] & w2 & Hal & H). destruct (forbidden_port (svc_Port s)) eqn:Ef; [done|].
    destruct Eb as [[[Hi Hp] Hport] Haddr]. rewrite Hport in Ef.
    eapply (allowed_host target snapshot policy s address allowed); eauto. by exists w1, w2.
  - destruct (ct_ExternalAllowed t) as [allowed|] eqn:Ex; [|done].
    destruct (tgt_Addresses target) as [|a l] eqn:Ea; [done|]. intros H. apply each_allowed_ok in H.
    apply (allowed_external target allowed); [done|by rewrite Ea|done|by rewrite Ea].
Qed.
End Contract.
