(* ===== verification/NetworkService.v ===== *)
(** * Network sessions

    [src/internal/network/service.go]: one authorized connection per session,
    from its reservation to its end.  Several goroutines work on a session at
    once - the caller of [Open], whoever calls [finish] (the context, the
    monitor, [Revoke], [Close], the connection's owner), the monitor and
    [BindClient] - so each of them is a program over the effects of the source,
    and the step relations interleave the programs at every effect.  Every answer
    of a collaborator (catalog, policy, targets, capability boundary, dialer,
    audit) is arbitrary, and so are the moments at which the context ends. *)

From S2P Require Import Prelude GoText GoNet GoStrings Core CoreChecks Policy CapabilityService NetworkAuthority.
From Stdlib Require Import Ascii String.
Open Scope string_scope.

(** ** Data *)

Record Session := mkNetSession {
  ses_ID : string;
  ses_RequestID : string;
  ses_Source : Source;
  ses_Target : Target;
  ses_Peer : string;
  ses_PolicyRevision : string;
  ses_Phase : string;
  ses_State : string;
  ses_Reason : string;
  ses_CreatedAt : Z;
  ses_ExpiresAt : Z }.

(** [active]: the connections are socket numbers; [ac_ctx] is [a.ctx.Err()]. *)
Record active := mkActive {
  ac_view : Session;
  ac_request : CapabilityRequest;
  ac_ctx : option error;
  ac_upstream : option nat;
  ac_client : option nat }.

(** Assignments to fields of [a.view] and [a]. *)
Definition set_view (f : Session -> Session) (a : active) : active :=
  mkActive (f (ac_view a)) (ac_request a) (ac_ctx a) (ac_upstream a) (ac_client a).
Definition set_request r a := mkActive (ac_view a) r (ac_ctx a) (ac_upstream a) (ac_client a).
Definition set_upstream c a := mkActive (ac_view a) (ac_request a) (ac_ctx a) (Some c) (ac_client a).
Definition set_client c a := mkActive (ac_view a) (ac_request a) (ac_ctx a) (ac_upstream a) (Some c).
(** [a.cancel()], or the end of the context: the first error stays. *)
Definition set_ctx e a :=
  mkActive (ac_view a) (ac_request a) (match ac_ctx a with Some e => Some e | None => Some e end)
           (ac_upstream a) (ac_client a).

Definition with_RequestID i v :=
  mkNetSession (ses_ID v) i (ses_Source v) (ses_Target v) (ses_Peer v) (ses_PolicyRevision v)
    (ses_Phase v) (ses_State v) (ses_Reason v) (ses_CreatedAt v) (ses_ExpiresAt v).
Definition with_Target t v :=
  mkNetSession (ses_ID v) (ses_RequestID v) (ses_Source v) t (ses_Peer v) (ses_PolicyRevision v)
    (ses_Phase v) (ses_State v) (ses_Reason v) (ses_CreatedAt v) (ses_ExpiresAt v).
Definition with_Peer p v :=
  mkNetSession (ses_ID v) (ses_RequestID v) (ses_Source v) (ses_Target v) p (ses_PolicyRevision v)
    (ses_Phase v) (ses_State v) (ses_Reason v) (ses_CreatedAt v) (ses_ExpiresAt v).
Definition with_PolicyRevision r v :=
  mkNetSession (ses_ID v) (ses_RequestID v) (ses_Source v) (ses_Target v) (ses_Peer v) r
    (ses_Phase v) (ses_State v) (ses_Reason v) (ses_CreatedAt v) (ses_ExpiresAt v).
Definition with_Phase p v :=
  mkNetSession (ses_ID v) (ses_RequestID v) (ses_Source v) (ses_Target v) (ses_Peer v) (ses_PolicyRevision v)
    p (ses_State v) (ses_Reason v) (ses_CreatedAt v) (ses_ExpiresAt v).
Definition with_State s v :=
  mkNetSession (ses_ID v) (ses_RequestID v) (ses_Source v) (ses_Target v) (ses_Peer v) (ses_PolicyRevision v)
    (ses_Phase v) s (ses_Reason v) (ses_CreatedAt v) (ses_ExpiresAt v).
Definition with_Reason r v :=
  mkNetSession (ses_ID v) (ses_RequestID v) (ses_Source v) (ses_Target v) (ses_Peer v) (ses_PolicyRevision v)
    (ses_Phase v) (ses_State v) r (ses_CreatedAt v) (ses_ExpiresAt v).

(** ** Failure reasons *)

(** [errors.As] with a [net.Error] target: [Timeout()] of the first one. *)
Fixpoint first_net_error (err : goerror) : option bool :=
  match err with
  | Plain ErrTimeout | Plain ErrDeadlineExceeded => Some true
  | Plain ErrNetwork | Plain ErrConnectionRefused | Plain ErrUnreachable | Plain ErrDNS => Some false
  | Plain _ => None
  | Wrapped cause => first_net_error cause
  | Joined causes =>
    (fix first (l : list goerror) := match l with
     | [] => None
     | cause :: l => match first_net_error cause with Some b => Some b | None => first l end
     end) causes
  end.

Definition reason_table : list (error * string) :=
  [(ErrNotFound, "target_not_found"); (ErrDNSResolution, "dns_failed"); (ErrStorageBusy, "limit_reached");
   (ErrInvalidArgument, "invalid_request"); (ErrPolicyChanged, "policy_expired_or_changed");
   (ErrApprovalDenied, "approval_denied"); (ErrPolicyDenied, "policy_denied");
   (ErrCapabilityStale, "identity_changed"); (ErrDeadlineExceeded, "timeout"); (ErrContext, "canceled");
   (ErrConnectionRefused, "connection_refused"); (ErrUnreachable, "unreachable"); (ErrDNS, "dns_failed")].

(** [failureReason]: the first sentinel of the switch that the error wraps. *)
Definition failureReason (err : goerror) : string :=
  match List.find (fun row => errors_Is err row.1) reason_table with
  | Some row => row.2
  | None => match first_net_error err with Some true => "timeout" | _ => "connection_failed" end
  end.

(** [connectionAuditAttributes]. *)
Definition connectionAuditAttributes (attributes : strings_map) (id : string) : strings_map :=
  <["connection_id" := id]> attributes.

(** ** Programs *)

(** What [Open] asks of the dialer: [s.DialTarget] where it is set, else
    [s.Dial] with a network and an address. *)
Inductive dialing :=
| ViaTarget (target : Target) (address : Addr)
| ViaAddress (network address : string).

(** [net.JoinHostPort]. *)
Definition JoinHostPort (host port : string) : string :=
  if ContainsAny host ":" then "[" +:+ host +:+ "]:" +:+ port else host +:+ ":" +:+ port.

Definition dial_request (dialTarget : bool) (protocol : string) (target : Target) (address : Addr) : dialing :=
  if dialTarget then ViaTarget target address
  else ViaAddress protocol (JoinHostPort (addr_String address) (Itoa (tgt_Port target))).

(** The effects of the service's goroutines, in continuation-passing style. A
    critical section [Locked f k] applies [f] to the session and continues with
    the session it found. *)
Inductive prog (R : Type) : Type :=
| Ret (r : R)
| CurrentInstance (name : string) (k : answer string -> prog R)
| PolicyRevision (k : answer string -> prog R)
| Evaluate (req : CapabilityRequest) (k : answer PolicyEvaluation -> prog R)
| Record_ (e : CapabilityAuditEvent) (k : option goerror -> prog R)
| Resolve (source : Source) (spec : Spec) (k : answer Target -> prog R)
| Verify (target : Target) (k : option goerror -> prog R)
| Request (req : CapabilityRequest) (k : finished -> prog R)
| Dial (d : dialing) (k : answer (option (nat * string)) -> prog R)
| CloseConn (c : nat) (k : prog R)
| Locked (f : active -> active) (k : active -> prog R)
| Cancel (k : prog R)
| Finish (reason : string) (failed : bool) (k : prog R)
| Now (k : Z -> prog R)
| Late (k : bool -> prog R).

Arguments Ret {R}. Arguments CurrentInstance {R}. Arguments PolicyRevision {R}. Arguments Evaluate {R}.
Arguments Record_ {R}. Arguments Resolve {R}. Arguments Verify {R}. Arguments Request {R}. Arguments Dial {R}.
Arguments CloseConn {R}. Arguments Locked {R}. Arguments Cancel {R}. Arguments Finish {R}. Arguments Now {R}.
Arguments Late {R}.

Fixpoint prog_bind {R S} (p : prog R) (f : R -> prog S) : prog S :=
  match p with
  | Ret r => f r
  | CurrentInstance name k => CurrentInstance name (fun r => prog_bind (k r) f)
  | PolicyRevision k => PolicyRevision (fun r => prog_bind (k r) f)
  | Evaluate req k => Evaluate req (fun r => prog_bind (k r) f)
  | Record_ e k => Record_ e (fun r => prog_bind (k r) f)
  | Resolve source spec k => Resolve source spec (fun r => prog_bind (k r) f)
  | Verify target k => Verify target (fun r => prog_bind (k r) f)
  | Request req k => Request req (fun r => prog_bind (k r) f)
  | Dial d k => Dial d (fun r => prog_bind (k r) f)
  | CloseConn c k => CloseConn c (prog_bind k f)
  | Locked g k => Locked g (fun r => prog_bind (k r) f)
  | Cancel k => Cancel (prog_bind k f)
  | Finish reason failed k => Finish reason failed (prog_bind k f)
  | Now k => Now (fun r => prog_bind (k r) f)
  | Late k => Late (fun r => prog_bind (k r) f)
  end.

#[export] Instance prog_MRet : MRet prog := @Ret.
#[export] Instance prog_MBind : MBind prog := fun A B f p => prog_bind p f.

(** ** Operations of the service *)

Definition throw {A} (err : goerror) : prog (answer A) := Ret (inr err).
Definition or_throw {A B} (wrap : goerror -> goerror) (r : answer A) (k : A -> prog (answer B)) : prog (answer B) :=
  match r with inl a => k a | inr err => throw (wrap err) end.

(** [verifyContext].  The fields of the session it reads are written by [Open]
    only, before and between its own calls of [verify]. *)
Definition verify : prog (option goerror) :=
  Locked id (fun a =>
  match ac_ctx a with
  | Some e => Ret (Some (Plain e))
  | None =>
    CurrentInstance (src_Environment (ses_Source (ac_view a))) (fun r =>
    match r with
    | inr _ => Ret (Some (Plain ErrCapabilityStale))
    | inl instance =>
      if instance != src_Instance (ses_Source (ac_view a)) then Ret (Some (Plain ErrCapabilityStale)) else
      PolicyRevision (fun r =>
      match r with
      | inr _ => Ret (Some (Plain ErrPolicyDenied))
      | inl revision =>
        if revision != ses_PolicyRevision (ac_view a) then Ret (Some (Plain ErrPolicyChanged)) else
        Evaluate (ac_request a) (fun r =>
        match r with
        | inr _ => Ret (Some (Plain ErrPolicyDenied))
        | inl evaluation =>
          if (ev_Decision evaluation == PolicyDeny) ||
             ((ev_Decision evaluation != PolicyAllow) && (ev_Decision evaluation != PolicyRequireApproval))
          then Ret (Some (Plain ErrPolicyDenied)) else
          Verify (ses_Target (ac_view a)) Ret
        end)
      end)
    end)
  end).

(** [record]. *)
Definition network_record (kind reason : string) : prog (option goerror) :=
  Locked id (fun a =>
  Now (fun now =>
  let view := ac_view a in
  Record_ (mkEvent None (src_Instance (ses_Source view)) "" now
             (if ses_RequestID view == "" then ses_ID view else ses_RequestID view) kind
             network_Capability network_Action (tgt_Name (ses_Target view)) (src_Environment (ses_Source view))
             (connectionAuditAttributes (req_Attributes (ac_request a)) (ses_ID view)) "" None None reason)
    Ret)).

(** The body of [finish] under [a.once.Do]. *)
Definition close_if (c : option nat) (k : prog unit) : prog unit :=
  match c with Some c => CloseConn c k | None => k end.

Definition finish_view (now : Z) (reason : string) (failed : bool) (v : Session) : Session :=
  let '(reason, failed) := if negb (now <? ses_ExpiresAt v)%Z then ("expired", false) else (reason, failed) in
  with_Reason reason (with_State (if failed : bool then "failed" else "closed") v).

Definition finish_body (reason : string) (failed : bool) : prog unit :=
  Cancel (Now (fun now =>
  Locked (set_view (finish_view now reason failed)) (fun a =>
  close_if (ac_upstream a) (close_if (ac_client a) (
  err ← network_record "connection-closed" (ses_Reason (finish_view now reason failed (ac_view a)));
  match err with
  | None => Ret tt
  | Some _ => Locked (set_view (fun v => with_Reason "audit_failed" (with_State "failed" v))) (fun _ => Ret tt)
  end))))).

(** [BindClient]. *)
Definition BindClient (client : nat) : prog (option goerror) :=
  Locked (fun a => match ac_ctx a with Some _ => a | None => set_client client a end) (fun a =>
  match ac_ctx a with
  | Some _ => CloseConn client (Ret (Some (Plain ErrCapabilityStale)))
  | None => Ret None
  end).

(** One round of the loop of [monitor]: [true] when the loop goes on. *)
Definition context_reason (e : error) : string := if e == ErrDeadlineExceeded then "expired" else "canceled".

Definition monitor_round : prog bool :=
  Locked id (fun a =>
  match ac_ctx a with
  | Some e => Finish (context_reason e) false (Ret false)
  | None =>
    Late (fun late =>
    if late : bool then Finish (failureReason (Plain ErrDeadlineExceeded)) false (Ret false) else
    err ← verify;
    match err with
    | Some err => Finish (failureReason err) false (Ret false)
    | None => Ret true
    end)
  end).

Section Open.
Context (dialTarget : bool) (source : Source) (spec : Spec).

(** The loop over [target.Addresses]: the first connection, or the failures. *)
Fixpoint dial_loop (target : Target) (addresses : list Addr) (failures : list goerror)
  : prog (option (nat * string) * list goerror) :=
  match addresses with
  | [] => Ret (None, failures)
  | address :: addresses =>
    Dial (dial_request dialTarget (spec_Protocol spec) target address) (fun r =>
    match r with
    | inl upstream => Ret (upstream, failures)
    | inr err => dial_loop target addresses (failures ++ [err])%list
    end)
  end.

(** A critical section that gives up when the context has ended. *)
Definition locked_unless_done {A} (f : active -> active) (undo : prog (answer A) -> prog (answer A))
    (k : active -> prog (answer A)) : prog (answer A) :=
  Locked (fun a => match ac_ctx a with Some _ => a | None => f a end) (fun a =>
  match ac_ctx a with
  | Some e => undo (throw (Plain e))
  | None => k (f a)
  end).

Definition or_verify {A} (k : prog (answer A)) : prog (answer A) :=
  err ← verify;
  match err with Some err => throw err | None => k end.

(** [Open] from the dialed connection on. *)
Definition open_connected (c : nat) (peer : string) : prog (answer Session) :=
  locked_unless_done (fun a => set_view (with_Peer peer) (set_upstream c a)) (CloseConn c) (fun _ =>
  or_verify (
  err ← network_record "connection-opened" "";
  match err with
  | Some _ => throw (Plain ErrIncompatibleState)
  | None =>
    locked_unless_done (set_view (fun v => with_Phase "active" (with_State "active" v))) id (fun a =>
    Ret (inl (ac_view a)))
  end)).

(** [Open] from the authorized request on. *)
Definition open_authorized (target : Target) : prog (answer Session) :=
  or_verify (
  locked_unless_done (set_view (fun v => with_Phase "connect" (with_State "connecting" v))) id (fun _ =>
  dialed ← dial_loop target (tgt_Addresses target) [];
  match dialed with
  | (Some (c, peer), _) => open_connected c peer
  | (None, []) => throw (Plain ErrIncompatibleState)
  | (None, failures) => throw (Joined failures)
  end)).

Definition target_mismatch (target : Target) : bool :=
  (tgt_Kind target != spec_Kind spec) || (tgt_Name target != spec_Target spec) ||
  (tgt_Protocol target != spec_Protocol spec) ||
  ((spec_Port spec != 0%Z) && (tgt_Port target != spec_Port spec)).

(** [Open] after [reserve], without its deferred [finish]. *)
Definition open_body : prog (answer Session) :=
  Resolve source spec (fun r => or_throw id r (fun target =>
  if target_mismatch target then throw (Plain ErrIncompatibleState) else
  match requestFor source target (spec_DurationSeconds spec) with
  | Err e => throw (Plain e)
  | Ok request =>
    PolicyRevision (fun r => or_throw (fun _ => Plain ErrPolicyDenied) r (fun revision =>
    Locked (fun a => set_request request
              (set_view (fun v => with_Phase "authorize" (with_PolicyRevision revision (with_Target target v))) a))
      (fun _ =>
    Request request (fun r =>
    let '(outcome, err) := r in
    Locked (set_view (with_RequestID (cr_RequestID outcome))) (fun _ =>
    match err with
    | Some err => throw err
    | None =>
      if negb (cr_AuditComplete outcome) || (cr_ExecutionState outcome != CapabilitySucceeded) ||
         (cr_RequestID outcome == "") then throw (Plain ErrPolicyDenied) else
      if cr_SavedChoice outcome != "" then
        PolicyRevision (fun r => or_throw (fun _ => Plain ErrPolicyDenied) r (fun revision =>
        Locked (set_view (with_PolicyRevision revision)) (fun _ => open_authorized target)))
      else open_authorized target
    end)))))
  end)).

(** [Open] after [reserve]: an error finishes the session. *)
Definition Open : prog (answer Session) :=
  r ← open_body;
  match r with
  | inl view => Ret (inl view)
  | inr err => Finish (failureReason err) true (throw err)
  end.

(** [Open] before [reserve]: [instance] is the answer of [CurrentInstance]. *)
Definition open_front (instance : answer string) : result unit :=
  _ ← validateSpec spec;
  reject negb (validName (src_Environment source)) || negb (ValidEnvironmentInstanceID (src_Instance source))
    with ErrInvalidArgument ;;
  match instance with
  | inr _ => Err ErrCapabilityStale
  | inl instance =>
    reject (instance != src_Instance source) || negb (ValidEnvironmentInstanceID instance) with ErrCapabilityStale ;;
    Ok tt
  end.
End Open.

(** ** Goroutines of one session *)

(** The calls of a goroutine, with their answers. *)
Inductive net_event :=
| EvInstance (name : string) (r : answer string)
| EvRevision (r : answer string)
| EvEvaluate (req : CapabilityRequest) (r : answer PolicyEvaluation)
| EvRecord (e : CapabilityAuditEvent) (err : option goerror)
| EvResolve (source : Source) (spec : Spec) (r : answer Target)
| EvVerify (target : Target) (err : option goerror)
| EvRequest (req : CapabilityRequest) (r : finished)
| EvDial (d : dialing) (r : answer (option (nat * string))).

(** Sockets of the session that are open. *)
Notation sockets := (list nat).

(** One effect of a program other than [Finish]. *)
Inductive exec {R} : prog R -> active -> sockets -> list net_event -> prog R -> active -> sockets -> Prop :=
| ex_instance name k r a S : exec (CurrentInstance name k) a S [EvInstance name r] (k r) a S
| ex_revision k r a S : exec (PolicyRevision k) a S [EvRevision r] (k r) a S
| ex_evaluate req k r a S : exec (Evaluate req k) a S [EvEvaluate req r] (k r) a S
| ex_record e k r a S : exec (Record_ e k) a S [EvRecord e r] (k r) a S
| ex_resolve source spec k r a S : exec (Resolve source spec k) a S [EvResolve source spec r] (k r) a S
| ex_verify target k r a S : exec (Verify target k) a S [EvVerify target r] (k r) a S
| ex_request req k r a S : exec (Request req k) a S [EvRequest req r] (k r) a S
| ex_dial d k c peer a S : c ∉ S ->
    exec (Dial d k) a S [EvDial d (inl (Some (c, peer)))] (k (inl (Some (c, peer)))) a (c :: S)
| ex_dial_nothing d k a S : exec (Dial d k) a S [EvDial d (inl None)] (k (inl None)) a S
| ex_dial_failed d k err a S : exec (Dial d k) a S [EvDial d (inr err)] (k (inr err)) a S
| ex_close c k a S : exec (CloseConn c k) a S [] k a (filter (fun x => x <> c) S)
| ex_locked f k a S : exec (Locked f k) a S [] (k a) (f a) S
| ex_cancel k a S : exec (Cancel k) a S [] k (set_ctx ErrContext a) S
| ex_now k z a S : exec (Now k) a S [] (k z) a S
| ex_late k b a S : exec (Late k) a S [] (k b) a S.

(** [a.once] and the goroutine that runs its function. *)
Inductive once_state :=
| Idle
| Running (p : prog unit)
| Finished.

Inductive bind_state :=
| Unbound
| Binding (p : prog (option goerror)).

Record net_session := mkSessionState {
  s_source : Source;
  s_spec : Spec;
  s_active : active;
  s_open : prog (answer Session);
  s_once : once_state;
  s_watch : option (prog bool);
  s_bind : bind_state;
  s_sockets : sockets;
  s_log : list net_event;
  s_closing : list net_event }.

Definition on_open (p : prog (answer Session)) a S evs (s : net_session) : net_session :=
  mkSessionState (s_source s) (s_spec s) a p (s_once s) (s_watch s) (s_bind s) S (s_log s ++ evs)%list (s_closing s).
Definition on_once (o : once_state) a S evs (s : net_session) : net_session :=
  mkSessionState (s_source s) (s_spec s) a (s_open s) o (s_watch s) (s_bind s) S (s_log s) (s_closing s ++ evs)%list.
Definition on_watch (w : option (prog bool)) a S (s : net_session) : net_session :=
  mkSessionState (s_source s) (s_spec s) a (s_open s) (s_once s) w (s_bind s) S (s_log s) (s_closing s).
Definition on_bind (b : bind_state) a S (s : net_session) : net_session :=
  mkSessionState (s_source s) (s_spec s) a (s_open s) (s_once s) (s_watch s) b S (s_log s) (s_closing s).

Definition start_finish reason failed (s : net_session) : net_session :=
  on_once (Running (finish_body reason failed)) (s_active s) (s_sockets s) [] s.

(** Calls of [finish] by others than [Open] and the monitor. *)
Inductive finish_call (s : net_session) : string -> bool -> Prop :=
| by_context e : ac_ctx (s_active s) = Some e -> finish_call s (context_reason e) false
| by_Revoke : finish_call s "revoked" false
| by_Service_Close : finish_call s "controller_stopped" false
| by_Close view : s_open s = Ret (inl view) -> finish_call s "completed" false
| by_Fail view reason : s_open s = Ret (inl view) -> finish_call s reason true
| by_relay view reason : s_open s = Ret (inl view) -> finish_call s reason false.

(** [once.Do] starts the body once; its other callers wait for the end. *)
Inductive local_step (s : net_session) : net_session -> Prop :=
| st_open p a S evs :
    exec (s_open s) (s_active s) (s_sockets s) evs p a S -> local_step s (on_open p a S evs s)
| st_open_finish reason failed k :
    s_open s = Finish reason failed k -> s_once s = Idle -> local_step s (start_finish reason failed s)
| st_open_finished reason failed k :
    s_open s = Finish reason failed k -> s_once s = Finished ->
    local_step s (on_open k (s_active s) (s_sockets s) [] s)
| st_finish reason failed :
    finish_call s reason failed -> s_once s = Idle -> local_step s (start_finish reason failed s)
| st_once p p' a S evs :
    s_once s = Running p -> exec p (s_active s) (s_sockets s) evs p' a S ->
    local_step s (on_once (Running p') a S evs s)
| st_once_done : s_once s = Running (Ret tt) -> local_step s (on_once Finished (s_active s) (s_sockets s) [] s)
| st_watch_tick view :
    s_open s = Ret (inl view) -> s_watch s = None \/ s_watch s = Some (Ret true) ->
    local_step s (on_watch (Some monitor_round) (s_active s) (s_sockets s) s)
| st_watch p p' a S evs :
    s_watch s = Some p -> exec p (s_active s) (s_sockets s) evs p' a S -> local_step s (on_watch (Some p') a S s)
| st_watch_finish reason failed k :
    s_watch s = Some (Finish reason failed k) -> s_once s = Idle -> local_step s (start_finish reason failed s)
| st_watch_finished reason failed k :
    s_watch s = Some (Finish reason failed k) -> s_once s = Finished ->
    local_step s (on_watch (Some k) (s_active s) (s_sockets s) s)
| st_bind_start view client :
    s_open s = Ret (inl view) -> s_bind s = Unbound -> client ∉ s_sockets s ->
    local_step s (on_bind (Binding (BindClient client)) (s_active s) (client :: s_sockets s) s)
| st_bind p p' a S evs :
    s_bind s = Binding p -> exec p (s_active s) (s_sockets s) evs p' a S -> local_step s (on_bind (Binding p') a S s)
| st_context e :
    e = ErrContext \/ e = ErrDeadlineExceeded -> ac_ctx (s_active s) = None ->
    local_step s (on_open (s_open s) (set_ctx e (s_active s)) (s_sockets s) [] s).

(** ** The table of sessions *)

(** [s.sessions] maps an identifier to a session by reference. *)
Record NetService := mkNetService {
  ns_sessions : gmap string nat;
  ns_heap : list net_session }.

Definition terminal (state : string) : bool := (state == "closed") || (state == "failed").
Definition view_of (s : net_session) : Session := ac_view (s_active s).
Definition session_live (s : net_session) : bool := negb (terminal (ses_State (view_of s))).

(** The sessions of the table, in the order of a range loop. *)
Definition stored (sv : NetService) : list net_session :=
  omap (fun kv => ns_heap sv !! kv.2) (map_to_list (ns_sessions sv)).

Definition older (x : net_session) (oldest : option net_session) : option net_session :=
  if session_live x then oldest else
  match oldest with
  | None => Some x
  | Some o => if (ses_CreatedAt (view_of x) <? ses_CreatedAt (view_of o))%Z then Some x else Some o
  end.

Definition new_active (id : string) (source : Source) (spec : Spec) (now : Z) : active :=
  mkActive (mkNetSession id "" source (mkTarget (spec_Kind spec) (spec_Target spec) (spec_Protocol spec) (spec_Port spec) [] "")
              "" "" "resolve" "pending" "" now (now + spec_DurationSeconds spec * 10 ^ 9))
    (mkRequest "" "" "" "" "" ∅ ∅) None None None.

(** [reserve], with the random bytes of the identifier. *)
Definition reserve (token : list ascii) (now : Z) (source : Source) (spec : Spec) (sv : NetService)
  : result (active * gmap string nat) :=
  let existing := List.filter session_live (stored sv) in
  let own := List.filter (fun s => ses_Source (view_of s) == source) existing in
  reject (128 <=? List.length existing)%nat || (16 <=? List.length own)%nat with ErrStorageBusy ;;
  let sessions :=
    if (1024 <=? size (ns_sessions sv))%nat then
      match fold_left (fun oldest x => older x oldest) (stored sv) None with
      | Some oldest => delete (ses_ID (view_of oldest)) (ns_sessions sv)
      | None => ns_sessions sv
      end
    else ns_sessions sv in
  let a := new_active (EncodeToString token) source spec now in
  Ok (a, <[ses_ID (ac_view a) := List.length (ns_heap sv)]> sessions).

Definition new_net_session (dialTarget : bool) (source : Source) (spec : Spec) (instance : string) (a : active) : net_session :=
  mkSessionState source spec a (Open dialTarget source spec) Idle None Unbound []
    [EvInstance (src_Environment source) (inl instance)] [].

(** [Revoke] and [Close] call [finish] on what the table holds. *)
Definition Revoke (sv : NetService) (id : string) : result nat :=
  match ns_sessions sv !! id with Some p => Ok p | None => Err ErrNotFound end.
Definition List_ (sv : NetService) : list Session := view_of <$> stored sv.

Inductive service_step (dialTarget : bool) : NetService -> NetService -> Prop :=
| sv_open sv token now source spec instance a sessions :
    open_front source spec (inl instance) = Ok tt ->
    reserve token now source spec sv = Ok (a, sessions) ->
    service_step dialTarget sv
      (mkNetService sessions (ns_heap sv ++ [new_net_session dialTarget source spec instance a])%list)
| sv_local sv p s s' :
    ns_heap sv !! p = Some s -> local_step s s' ->
    service_step dialTarget sv (mkNetService (ns_sessions sv) (<[p := s']> (ns_heap sv))).

Definition service_reachable (dialTarget : bool) (sv : NetService) : Prop :=
  rtc (service_step dialTarget) (mkNetService ∅ []) sv.
