(* ===== verification/NetworkProofs.v ===== *)
(** * Network sessions: a rely-guarantee invariant

    Each goroutine of a session is described by a weakest precondition over what
    it knows: [Open] by the calls it has made, the socket it holds and the fields
    only it writes; the body of [finish] by how far it has come.  Conditions on
    critical sections make the descriptions stable under the steps of the other
    goroutines, and the invariant of a session joins them. *)

From S2P Require Import Prelude GoText GoNet GoStrings Core CoreChecks Policy CapabilityService NetworkAuthority NetworkService.
From Stdlib Require Import Ascii String.
Open Scope string_scope.

(** ** What a dialed connection was authorized by *)

(** A successful [verify], call by call. *)
Definition verification (source : Source) (revision : string) (request : CapabilityRequest) (target : Target)
    (evs : list net_event) : Prop :=
  exists evaluation,
    (ev_Decision evaluation = PolicyAllow \/ ev_Decision evaluation = PolicyRequireApproval) /\
    evs = [EvInstance (src_Environment source) (inl (src_Instance source)); EvRevision (inl revision);
           EvEvaluate request (inl evaluation); EvVerify target None].

(** The calls of [Open] up to its first dial: the caller's instance is current,
    the target was resolved and fits the request, the capability boundary
    executed and audited exactly the canonical request of that target, and
    everything was verified afterwards under the revision that decided. *)
Definition net_authorized (source : Source) (spec : Spec) (target : Target) (revision : string)
    (request : CapabilityRequest) (log : list net_event) : Prop :=
  exists first outcome saved checked,
    log = ([EvInstance (src_Environment source) (inl (src_Instance source)); EvResolve source spec (inl target);
            EvRevision (inl first); EvRequest request (outcome, None)] ++ saved ++ checked)%list /\
    target_mismatch spec target = false /\
    requestFor source target (spec_DurationSeconds spec) = Ok request /\
    cr_AuditComplete outcome = true /\ cr_ExecutionState outcome = CapabilitySucceeded /\ cr_RequestID outcome <> "" /\
    (cr_SavedChoice outcome = "" /\ saved = [] /\ revision = first \/
     cr_SavedChoice outcome <> "" /\ saved = [EvRevision (inl revision)]) /\
    verification source revision request target checked.

Definition failed_dials (dialTarget : bool) (spec : Spec) (target : Target) (tried : list Addr)
    (evs : list net_event) : Prop :=
  Forall2 (fun address e => exists err,
    e = EvDial (dial_request dialTarget (spec_Protocol spec) target address) (inr err)) tried evs.

(** The calls before a dial: those of an authorized connection, then the
    addresses of its target in their order, as long as they fail. *)
Definition may_dial (dialTarget : bool) (source : Source) (spec : Spec) (log : list net_event) (d : dialing) : Prop :=
  exists target revision request base tried address rest evs,
    net_authorized source spec target revision request base /\
    tgt_Addresses target = (tried ++ address :: rest)%list /\
    failed_dials dialTarget spec target tried evs /\
    log = (base ++ evs)%list /\
    d = dial_request dialTarget (spec_Protocol spec) target address.

(** The calls of an [Open] that succeeded: a dial that was allowed, another
    verification, and the audit record of the connection. *)
Definition established (dialTarget : bool) (source : Source) (spec : Spec) (log : list net_event) (c : nat) : Prop :=
  exists target revision request base tried address rest evs peer checked e,
    net_authorized source spec target revision request base /\
    tgt_Addresses target = (tried ++ address :: rest)%list /\
    failed_dials dialTarget spec target tried evs /\
    verification source revision request target checked /\
    ev_Type e = "connection-opened" /\
    log = (base ++ evs ++ [EvDial (dial_request dialTarget (spec_Protocol spec) target address) (inl (Some (c, peer)))] ++
           checked ++ [EvRecord e None])%list.

(** ** What [Open] knows *)

(** The fields that only [Open] writes. *)
Record own := mkOwn {
  o_source : Source;
  o_target : Target;
  o_revision : string;
  o_request : CapabilityRequest;
  o_upstream : option nat }.

Definition owned (a : active) : own :=
  mkOwn (ses_Source (ac_view a)) (ses_Target (ac_view a)) (ses_PolicyRevision (ac_view a)) (ac_request a) (ac_upstream a).

(** What nobody writes. *)
Definition fixed (a : active) : string * Source * Z * Z :=
  (ses_ID (ac_view a), ses_Source (ac_view a), ses_CreatedAt (ac_view a), ses_ExpiresAt (ac_view a)).

Definition state_of (a : active) : string := ses_State (ac_view a).

Record ghost := mkGhost {
  g_log : list net_event;
  g_held : option nat;
  g_done : bool;
  g_own : own }.

Definition g_after e g := mkGhost (g_log g ++ [e])%list (g_held g) (g_done g) (g_own g).
Definition g_hold h g := mkGhost (g_log g) h (g_done g) (g_own g).
Definition g_owns o g := mkGhost (g_log g) (g_held g) (g_done g) o.
Definition g_finished g := mkGhost (g_log g) (g_held g) true (g_own g).

(** A critical section of [Open]: it leaves alone what it does not own, never
    changes the state of a session whose context has ended, and hands a socket
    over only to a session whose context has not. *)
Definition lock_ok (f : active -> active) (a : active) (held held' : option nat) : Prop :=
  fixed (f a) = fixed a /\ ac_ctx (f a) = ac_ctx a /\ ac_client (f a) = ac_client a /\
  (state_of (f a) = state_of a \/ ac_ctx a = None /\ terminal (state_of (f a)) = false) /\
  (held' = held /\ ac_upstream (f a) = ac_upstream a \/
   ac_ctx a = None /\ ac_upstream a = None /\ held' = None /\ ac_upstream (f a) = held).

Section Knowledge.
Context (permit : list net_event -> dialing -> Prop).

Fixpoint wp {R} (p : prog R) (Q : R -> ghost -> Prop) (g : ghost) : Prop :=
  match p with
  | Ret r => Q r g
  | CurrentInstance name k => forall r, wp (k r) Q (g_after (EvInstance name r) g)
  | PolicyRevision k => forall r, wp (k r) Q (g_after (EvRevision r) g)
  | Evaluate req k => forall r, wp (k r) Q (g_after (EvEvaluate req r) g)
  | Record_ e k => forall r, wp (k r) Q (g_after (EvRecord e r) g)
  | Resolve source spec k => forall r, wp (k r) Q (g_after (EvResolve source spec r) g)
  | Verify target k => forall r, wp (k r) Q (g_after (EvVerify target r) g)
  | Request req k => forall r, wp (k r) Q (g_after (EvRequest req r) g)
  | Dial d k =>
    permit (g_log g) d /\ g_held g = None /\
    forall r, wp (k r) Q (g_after (EvDial d r) (g_hold (match r with inl (Some (c, _)) => Some c | _ => None end) g))
  | CloseConn c k => g_held g = Some c /\ wp k Q (g_hold None g)
  | Locked f k =>
    forall a, owned a = g_own g ->
    exists held', lock_ok f a (g_held g) held' /\ wp (k a) Q (g_owns (owned (f a)) (g_hold held' g))
  | Finish _ _ k => wp k Q (g_finished g)
  | Now k => forall z, wp (k z) Q g
  | Cancel _ | Late _ => False
  end.

Lemma wp_mono {R} (p : prog R) (Q Q' : R -> ghost -> Prop) g :
  (forall r g, Q r g -> Q' r g) -> wp p Q g -> wp p Q' g.
Proof.
  intros HQ. revert g; induction p; intros g; simpl; try naive_solver.
Qed.

Lemma wp_bind {R S} (p : prog R) (f : R -> prog S) (Q : S -> ghost -> Prop) g :
  wp p (fun r g => wp (f r) Q g) g -> wp (prog_bind p f) Q g.
Proof. revert g; induction p; intros g; simpl; naive_solver. Qed.

(** ** The programs of [Open] *)

Lemma lock_id a held : lock_ok id a held held.
Proof. repeat split; auto. Qed.

Lemma wp_read {R} (k : active -> prog R) Q g :
  (forall a, owned a = g_own g -> wp (k a) Q g) -> wp (Locked id k) Q g.
Proof.
  intros H. simpl. intros a Ha. exists (g_held g). split; [apply lock_id|].
  destruct g; simpl in *. subst. by apply H.
Qed.

Definition g_logged evs g := mkGhost (g_log g ++ evs)%list (g_held g) (g_done g) (g_own g).

Lemma wp_verify Q g :
  (forall err evs, Q (Some err) (g_logged evs g)) ->
  (forall evs, verification (o_source (g_own g)) (o_revision (g_own g)) (o_request (g_own g)) (o_target (g_own g)) evs ->
     Q None (g_logged evs g)) ->
  wp verify Q g.
Proof.
  intros Herr Hok. apply wp_read. intros a Ha.
  assert (forall err evs g', g' = g_logged evs g -> Q (Some err) g') as Herr' by (intros; subst; auto).
  assert (forall err, Q (Some err) g) as Hnow
    by (intros err; apply (Herr' err []); destruct g; unfold g_logged; simpl; by rewrite app_nil_r).
  destruct (ac_ctx a); [apply Hnow|]. simpl. intros [instance|e]; [|by eapply Herr'].
  destruct (bool_decide (instance = _)) eqn:H1; simpl; [apply bool_decide_eq_true in H1|by eapply Herr'].
  intros [revision|e]; [|eapply Herr'; unfold g_after, g_logged; simpl; by rewrite <- !app_assoc].
  destruct (bool_decide (revision = _)) eqn:H2; simpl;
    [apply bool_decide_eq_true in H2|eapply Herr'; unfold g_after, g_logged; simpl; by rewrite <- !app_assoc].
  intros [evaluation|e]; [|eapply Herr'; unfold g_after, g_logged; simpl; by rewrite <- !app_assoc].
  destruct (_ || _) eqn:H3; simpl; [eapply Herr'; unfold g_after, g_logged; simpl; by rewrite <- !app_assoc|].
  intros [e|]; [eapply Herr'; unfold g_after, g_logged; simpl; by rewrite <- !app_assoc|].
  unfold g_after; simpl. rewrite <- !app_assoc. apply Hok. rewrite <- Ha. simpl.
  exists evaluation. subst. split; [|done].
  rewrite orb_false_iff, andb_false_iff, !negb_false_iff, !bool_decide_eq_true in H3. tauto.
Qed.

Lemma wp_or_verify {A} (k : prog (answer A)) Q g :
  (forall err evs, Q (inr err) (g_logged evs g)) ->
  (forall evs, verification (o_source (g_own g)) (o_revision (g_own g)) (o_request (g_own g)) (o_target (g_own g)) evs ->
     wp k Q (g_logged evs g)) ->
  wp (or_verify k) Q g.
Proof. intros Herr Hok. apply wp_bind, wp_verify; [intros; simpl; apply Herr|exact Hok]. Qed.

Lemma wp_record kind reason Q g :
  (forall e r, ev_Type e = kind -> Q r (g_logged [EvRecord e r] g)) -> wp (network_record kind reason) Q g.
Proof. intros H. apply wp_read. intros a _ now. simpl. intros r. by apply H. Qed.

Lemma wp_locked_unless_done {A} f undo (k : active -> prog (answer A)) Q g :
  (forall a, owned a = g_own g -> ac_ctx a = None ->
     exists held', lock_ok f a (g_held g) held' /\ wp (k (f a)) Q (g_owns (owned (f a)) (g_hold held' g))) ->
  (forall e, wp (undo (throw (Plain e))) Q g) ->
  wp (locked_unless_done f undo k) Q g.
Proof.
  intros Hok Hdone a Ha. destruct (ac_ctx a) as [e|] eqn:Hc; cbn zeta.
  - exists (g_held g). split; [|destruct g; simpl in *; subst; apply Hdone].
    unfold lock_ok. rewrite Hc. repeat split; auto.
  - destruct (Hok a Ha Hc) as (held' & (H1 & H2 & H3 & H4 & H5) & Hwp). exists held'.
    split; [|done]. unfold lock_ok. rewrite Hc in *. repeat split; auto.
Qed.
End Knowledge.

Section OpenKnowledge.
Context (dialTarget : bool) (source : Source) (spec : Spec).
Notation knows := (wp (may_dial dialTarget source spec)).

Definition body_post (r : answer Session) (g : ghost) : Prop :=
  g_held g = None /\ g_done g = false /\
  match r with
  | inl view => ses_State view = "active" /\
                exists c, o_upstream (g_own g) = Some c /\ established dialTarget source spec (g_log g) c
  | inr _ => True
  end.

Definition open_post (r : answer Session) (g : ghost) : Prop :=
  g_held g = None /\
  match r with
  | inl view => ses_State view = "active" /\
                exists c, o_upstream (g_own g) = Some c /\ established dialTarget source spec (g_log g) c
  | inr _ => g_done g = true
  end.

Lemma knows_connected target revision request base tried address rest evs c peer :
  net_authorized source spec target revision request base ->
  tgt_Addresses target = (tried ++ address :: rest)%list ->
  failed_dials dialTarget spec target tried evs ->
  knows (open_connected c peer) body_post
    (mkGhost (base ++ evs ++ [EvDial (dial_request dialTarget (spec_Protocol spec) target address) (inl (Some (c, peer)))])
       (Some c) false (mkOwn source target revision request None)).
Proof.
  intros Hauth Haddr Hfailed. apply wp_locked_unless_done; [|intros e; by repeat split].
  intros a Ha Hc. exists None. unfold owned in Ha. simpl in Ha. injection Ha as Hs Ht Hr Hq Hu.
  split; [by repeat split; auto|]. cbn [g_owns g_hold g_log g_held g_done g_own].
  apply wp_or_verify; [by repeat split|]. intros checked Hchecked.
  cbn [g_own owned o_source o_target o_revision o_request o_upstream] in Hchecked.
  cbn in Hchecked. rewrite Hs, Ht, Hr, Hq in Hchecked.
  apply wp_bind, wp_record. intros e [err|] He; [by repeat split|].
  apply wp_locked_unless_done; [|by repeat split]. intros b Hb Hbc. exists None.
  split; [repeat split; auto|]. split; [done|]. split; [done|]. split; [done|]. exists c. split.
  { unfold owned in Hb. cbn in Hb. injection Hb as _ _ _ _ Hb. exact Hb. }
  exists target, revision, request, base, tried, address, rest, evs, peer, checked, e.
  repeat (split; [done|]). cbn. by rewrite <- !app_assoc.
Qed.

Lemma knows_dialing target revision request base addresses tried evs failures :
  net_authorized source spec target revision request base ->
  tgt_Addresses target = (tried ++ addresses)%list ->
  failed_dials dialTarget spec target tried evs ->
  knows (prog_bind (dial_loop dialTarget spec target addresses failures) (fun dialed =>
           match dialed with
           | (Some (c, peer), _) => open_connected c peer
           | (None, []) => throw (Plain ErrIncompatibleState)
           | (None, failures) => throw (Joined failures)
           end)) body_post
    (mkGhost (base ++ evs) None false (mkOwn source target revision request None)).
Proof.
  intros Hauth. revert tried evs failures; induction addresses as [|address addresses IH]; intros tried evs failures Haddr Hf.
  { destruct failures; by repeat split. }
  simpl. split; [|split; [done|]].
  - exists target, revision, request, base, tried, address, addresses, evs. done.
  - intros [[[c peer]|]|err]; simpl.
    + unfold g_after; simpl. rewrite <- app_assoc. by eapply knows_connected.
    + destruct failures; by repeat split.
    + unfold g_after; simpl. rewrite <- app_assoc. apply (IH (tried ++ [address])%list).
      * by rewrite <- app_assoc.
      * apply Forall2_app; [done|]. repeat constructor. by exists err.
Qed.

(** From a capability outcome that allows the connection. *)
Lemma knows_authorized target first outcome saved revision request :
  target_mismatch spec target = false ->
  requestFor source target (spec_DurationSeconds spec) = Ok request ->
  cr_AuditComplete outcome = true -> cr_ExecutionState outcome = CapabilitySucceeded -> cr_RequestID outcome <> "" ->
  (cr_SavedChoice outcome = "" /\ saved = [] /\ revision = first \/
   cr_SavedChoice outcome <> "" /\ saved = [EvRevision (inl revision)]) ->
  knows (open_authorized dialTarget spec target) body_post
    (mkGhost ([EvInstance (src_Environment source) (inl (src_Instance source)); EvResolve source spec (inl target);
               EvRevision (inl first); EvRequest request (outcome, None)] ++ saved)
       None false (mkOwn source target revision request None)).
Proof.
  intros Hm Hreq Haud Hex Hid Hsaved. apply wp_or_verify; [by repeat split|]. intros checked Hchecked.
  cbn [g_own o_source o_target o_revision o_request o_upstream] in Hchecked.
  apply wp_locked_unless_done; [|by repeat split]. intros a Ha Hc. exists None.
  split; [repeat split; auto|]. cbn [g_logged g_owns g_hold g_log g_held g_done g_own].
  change (owned (set_view _ a)) with (owned a). rewrite Ha.
  unfold g_owns, g_hold, g_logged. cbn [g_own g_log g_held g_done].
  rewrite <- (app_nil_r (_ ++ checked)). apply (knows_dialing _ _ _ _ _ []); [|done|constructor].
  exists first, outcome, saved, checked. rewrite <- app_assoc. done.
Qed.

Lemma knows_body o :
  o_source o = source -> o_upstream o = None ->
  knows (open_body dialTarget source spec) body_post
    (mkGhost [EvInstance (src_Environment source) (inl (src_Instance source))] None false o).
Proof.
  intros Hsrc Hup. simpl. intros [target|err]; [|by repeat split]. simpl.
  destruct (target_mismatch spec target) eqn:Hm; [by repeat split|].
  destruct (requestFor _ _ _) as [request|e] eqn:Hreq; [|by repeat split].
  simpl. intros [first|err]; [|by repeat split]. simpl. intros a Ha. exists None.
  split; [repeat split; auto|]. intros [outcome err] b Hb. exists None.
  split; [repeat split; auto|].
  change (owned (set_view _ b)) with (owned b). rewrite Hb. cbn in Hb |- *.
  destruct err as [err|]; [by repeat split|].
  destruct (_ || _) eqn:Hout; [by repeat split|].
  rewrite !orb_false_iff, !negb_false_iff, bool_decide_eq_false in Hout.
  destruct Hout as [[Haud Hex%bool_decide_eq_true] Hid].
  assert (ses_Source (ac_view a) = source) as Ha1 by (subst o; exact Hsrc).
  assert (ac_upstream a = None) as Ha2 by (subst o; exact Hup).
  unfold g_after, g_owns, g_hold; cbn. unfold owned. cbn. rewrite Ha1, Ha2.
  destruct (bool_decide (cr_SavedChoice outcome = "")) eqn:Hsaved; cbn.
  - apply bool_decide_eq_true in Hsaved.
    apply (knows_authorized target first outcome [] first request); auto.
  - apply bool_decide_eq_false in Hsaved. intros [revision|err]; [|by repeat split].
    cbn. intros c Hc. exists None. split; [repeat split; auto|]. unfold owned in Hc |- *. cbn in Hc |- *.
    injection Hc as -> -> _ -> ->.
    apply (knows_authorized target first outcome [EvRevision (inl revision)] revision request); auto.
Qed.

(** [Open] with its deferred [finish]. *)
Lemma knows_Open o :
  o_source o = source -> o_upstream o = None ->
  knows (Open dialTarget source spec) open_post
    (mkGhost [EvInstance (src_Environment source) (inl (src_Instance source))] None false o).
Proof.
  intros Hsrc Hup. apply wp_bind. eapply wp_mono; [|by apply knows_body].
  intros [view|err] g (Hh & Hd & Hr); simpl; by split.
Qed.
End OpenKnowledge.
