(* ===== verification/NetworkInvariant.v ===== *)
(** * Network sessions: the invariant of a session and of the table

    What each step of a goroutine does to its own description, the invariant
    that joins the descriptions of one session, and the limits that [reserve]
    keeps. *)

From S2P Require Import Prelude GoText GoNet GoStrings Core CoreChecks Policy CapabilityService NetworkAuthority NetworkService NetworkProofs.
From Stdlib Require Import Ascii String.
Open Scope string_scope.

(** ** A step of [Open] *)

Lemma exec_wp permit {R} (p : prog R) Q g a S evs p' a' S' :
  wp permit p Q g -> exec p a S evs p' a' S' -> g_own g = owned a ->
  exists held',
    wp permit p' Q (mkGhost (g_log g ++ evs)%list held' (g_done g) (owned a')) /\
    fixed a' = fixed a /\ ac_ctx a' = ac_ctx a /\ ac_client a' = ac_client a /\
    (state_of a' = state_of a \/ ac_ctx a = None /\ terminal (state_of a') = false) /\
    (forall d r, EvDial d r ∈ evs -> permit (g_log g) d) /\ (List.length evs <= 1)%nat /\
    (forall c, c ∈ S' -> c ∈ S \/ held' = Some c) /\
    (forall c, c ∈ S' -> g_held g = Some c -> held' = Some c \/ ac_ctx a = None /\ ac_upstream a' = Some c) /\
    (ac_upstream a' = ac_upstream a \/ ac_ctx a = None /\ ac_upstream a = None).
Proof.
  intros Hwp Hex Hown. destruct g as [log held done o]. simpl in Hown. subst o.
  inversion Hex; subst; simpl in Hwp.
  all: try by (exists held; rewrite ?app_nil_r; repeat split; auto; try (intros; set_solver); simpl; try lia; apply Hwp).
  - destruct Hwp as (Hp & Hh & Hwp). simpl in Hh. subst held. exists (Some c).
    split; [apply Hwp|]. repeat split; auto; intros; set_solver.
  - destruct Hwp as (Hh & Hwp). simpl in Hh. subst held. exists None. rewrite app_nil_r.
    split; [exact Hwp|]. repeat (split; [first [done | by left | set_solver | simpl; lia]|]).
    split; [intros x [_ Hx]%list_elem_of_filter; by left|]. split; [|by left].
    intros x [Hne Hx]%list_elem_of_filter [= ->]. done.
  - destruct (Hwp a eq_refl) as (held' & (H1 & H2 & H3 & H4 & H5) & Hk). exists held'. rewrite app_nil_r.
    split; [exact Hk|]. do 4 (split; [done|]). split; [set_solver|]. split; [simpl; lia|].
    split; [by left|]. simpl in *. split.
    + intros c Hc Hheld. destruct H5 as [[-> _]|(? & _ & _ & E)]; [by left|right; split; congruence].
    + destruct H5 as [[_ H5]|(H5 & H6 & _)]; auto.
Qed.

(** ** A step of [finish] *)

(** How far the body of [finish] has come: before [a.cancel()], before its
    critical section, or with connections left to close. *)
Inductive fstage :=
| Before
| Cancelled
| Closing (upstream client : option nat).

Definition keeps_session (f : active -> active) (a : active) : Prop :=
  owned (f a) = owned a /\ fixed (f a) = fixed a /\ ac_ctx (f a) = ac_ctx a /\ ac_client (f a) = ac_client a.

(** The body and the number of audit records it has written. *)
Fixpoint fin_ok (p : prog unit) (stage : fstage) (n : nat) : Prop :=
  match p with
  | Ret _ => stage = Closing None None /\ n = 1%nat
  | Cancel k => stage = Before /\ fin_ok k Cancelled n
  | Now k => forall z, fin_ok (k z) stage n
  | Locked f k => forall a,
    keeps_session f a /\
    match stage with
    | Before => False
    | Cancelled => terminal (state_of (f a)) = true /\ fin_ok (k a) (Closing (ac_upstream a) (ac_client a)) n
    | Closing _ _ => (terminal (state_of a) = true -> terminal (state_of (f a)) = true) /\ fin_ok (k a) stage n
    end
  | CloseConn c k =>
    match stage with
    | Closing (Some u) client => c = u /\ fin_ok k (Closing None client) n
    | Closing None (Some client) => c = client /\ fin_ok k (Closing None None) n
    | _ => False
    end
  | Record_ e k => ev_Type e = "connection-closed" /\ n = 0%nat /\ forall r, fin_ok (k r) stage 1
  | _ => False
  end.

Lemma finish_body_ok reason failed : fin_ok (finish_body reason failed) Before 0.
Proof.
  split; [done|]. intros now a. split.
  { unfold keeps_session, owned, fixed, finish_view. simpl. by destruct (negb _). }
  split. { unfold state_of, finish_view. simpl. by destruct (negb _), failed. }
  assert (forall reason, fin_ok (err ← network_record "connection-closed" reason;
    match err with
    | None => Ret tt
    | Some _ => Locked (set_view (fun v => with_Reason "audit_failed" (with_State "failed" v))) (fun _ => Ret tt)
    end) (Closing None None) 0) as Hrec.
  { intros reason'. simpl. intros b. repeat split; auto. intros [e|]; [|done]. intros d. by repeat split. }
  destruct (ac_upstream a), (ac_client a); cbn [close_if];
    repeat first [exact (Hrec _) | split; [reflexivity|]].
Qed.

(** What a session's sockets belong to, as far as [finish] knows. *)
Definition owner (stage : fstage) (a : active) (c : nat) : Prop :=
  match stage with
  | Closing upstream client => upstream = Some c \/ client = Some c
  | _ => ac_upstream a = Some c \/ ac_client a = Some c
  end.

Definition records (evs : list net_event) : nat :=
  List.length (List.filter (fun e => match e with EvRecord _ _ => true | _ => false end) evs).

Definition closed_event (e : net_event) : Prop :=
  match e with EvRecord e _ => ev_Type e = "connection-closed" | _ => False end.

Lemma exec_fin p stage n a S evs p' a' S' :
  fin_ok p stage n -> exec p a S evs p' a' S' -> (stage <> Before -> ac_ctx a <> None) ->
  exists stage' n',
    fin_ok p' stage' n' /\ (n + List.length evs = n')%nat /\ Forall closed_event evs /\
    owned a' = owned a /\ fixed a' = fixed a /\ ac_client a' = ac_client a /\
    (stage' <> Before -> ac_ctx a' <> None) /\ (ac_ctx a <> None -> ac_ctx a' <> None) /\
    (terminal (state_of a) = true -> terminal (state_of a') = true) /\
    (terminal (state_of a') = true -> terminal (state_of a) = true \/ exists u c, stage' = Closing u c) /\
    ((exists u c, stage = Closing u c) -> exists u c, stage' = Closing u c) /\
    (forall c, c ∈ S' -> c ∈ S) /\ (forall c, c ∈ S' -> owner stage a c -> owner stage' a' c).
Proof.
  intros Hok Hex Hctx. inversion Hex; subst; simpl in Hok; try done.
  - (* audit *) destruct Hok as (Ht & -> & Hk). exists stage, 1%nat.
    split; [apply Hk|]. repeat split; auto.
  - (* close *) destruct stage as [| |[u|] [cl|]]; try done; destruct Hok as [-> Hk]; do 2 eexists;
      (split; [exact Hk|]); rewrite Nat.add_0_r; repeat split; eauto;
      try (intros x [_ Hx]%list_elem_of_filter; done);
      intros x [Hne Hx]%list_elem_of_filter [[= E]|[= E]]; subst; simpl; auto; done.
  - (* critical section *) destruct (Hok a) as [(H1 & H2 & H3 & H4) Hst].
    destruct stage as [| |u cl]; [done| |]; destruct Hst as [Ht Hk]; do 2 eexists;
      (split; [exact Hk|]); rewrite Nat.add_0_r, H3; repeat split; auto; simpl; eauto.
  - (* cancel *) destruct Hok as [-> Hk]. exists Cancelled, n. split; [exact Hk|]. rewrite Nat.add_0_r.
    assert (ac_ctx (set_ctx ErrContext a) <> None) as Hne by (simpl; by destruct (ac_ctx a)).
    repeat split; auto. by intros (? & ? & ?).
  - (* clock *) exists stage, n. split; [apply Hok|]. rewrite Nat.add_0_r. repeat split; auto.
Qed.

(** ** The invariant of a session *)

(** The monitor reads, asks and finishes. *)
Fixpoint asks_only {R} (p : prog R) : Prop :=
  match p with
  | Ret _ => True
  | CurrentInstance _ k | PolicyRevision k => forall r, asks_only (k r)
  | Evaluate _ k => forall r, asks_only (k r)
  | Verify _ k => forall r, asks_only (k r)
  | Locked f k => (forall a, f a = a) /\ forall a, asks_only (k a)
  | Finish _ _ k => asks_only k
  | Late k => forall b, asks_only (k b)
  | _ => False
  end.

Lemma monitor_quiet : asks_only monitor_round.
Proof.
  split; [done|]. intros a. destruct (ac_ctx a); simpl; [done|]. intros [|]; simpl; [done|].
  split; [done|]. intros b. destruct (ac_ctx b); simpl; [done|].
  intros [instance|]; simpl; [|done]. destruct (_ != _); simpl; [done|].
  intros [revision|]; simpl; [|done]. destruct (_ != _); simpl; [done|].
  intros [evaluation|]; simpl; [|done]. destruct (_ || _); simpl; [done|].
  by intros [err|].
Qed.

Lemma exec_quiet {R} (p : prog R) a S evs p' a' S' :
  asks_only p -> exec p a S evs p' a' S' -> asks_only p' /\ a' = a /\ S' = S.
Proof. intros Hq Hex. inversion Hex; subst; simpl in Hq; naive_solver. Qed.

(** [BindClient] holds the client until the session owns it or it is closed. *)
Definition binding_ok (b : bind_state) (client hb : option nat) : Prop :=
  match b with
  | Unbound => hb = None /\ client = None
  | Binding p =>
    (exists c, hb = Some c /\ client = None /\
               (p = BindClient c \/ p = CloseConn c (Ret (Some (Plain ErrCapabilityStale))))) \/
    (exists r, p = Ret r /\ hb = None)
  end.

Definition once_ok (o : once_state) (stage : fstage) (n : nat) : Prop :=
  match o with
  | Idle => stage = Before /\ n = 0%nat
  | Running p => fin_ok p stage n
  | Finished => stage = Closing None None /\ n = 1%nat
  end.

Record net_session_inv (dialTarget : bool) (s : net_session) (held hb : option nat) (stage : fstage) (n : nat) (done : bool)
  : Prop := {
  si_open : wp (may_dial dialTarget (s_source s) (s_spec s)) (s_open s) (open_post dialTarget (s_source s) (s_spec s))
              (mkGhost (s_log s) held done (owned (s_active s)));
  si_log : forall pre d r post, s_log s = (pre ++ EvDial d r :: post)%list ->
             may_dial dialTarget (s_source s) (s_spec s) pre d;
  si_once : once_ok (s_once s) stage n;
  si_done : done = true -> s_once s = Finished;
  si_closing : List.length (s_closing s) = n /\ Forall closed_event (s_closing s);
  si_ctx : stage <> Before -> ac_ctx (s_active s) <> None;
  si_terminal : terminal (state_of (s_active s)) = true -> exists u c, stage = Closing u c;
  si_watch : forall p, s_watch s = Some p -> asks_only p;
  si_bind : binding_ok (s_bind s) (ac_client (s_active s)) hb;
  si_sockets : forall c, c ∈ s_sockets s -> held = Some c \/ hb = Some c \/ owner stage (s_active s) c;
  si_source : ses_Source (view_of s) = s_source s }.

Definition session_ok (dialTarget : bool) (s : net_session) : Prop :=
  exists held hb stage n done, net_session_inv dialTarget s held hb stage n done.

(** A step keeps the invariant and what nobody writes, and a finished session
    stays finished. *)
Definition step_ok (dialTarget : bool) (s s' : net_session) : Prop :=
  session_ok dialTarget s' /\ fixed (s_active s') = fixed (s_active s) /\
  s_source s' = s_source s /\ s_spec s' = s_spec s /\ (session_live s' = true -> session_live s = true).

Lemma live_terminal s : session_live s = true <-> terminal (state_of (s_active s)) = false.
Proof. apply negb_true_iff. Qed.

Lemma app_dial_inv (log evs : list net_event) pre d r post :
  (List.length evs <= 1)%nat -> (log ++ evs = pre ++ EvDial d r :: post)%list ->
  (exists post', log = (pre ++ EvDial d r :: post')%list) \/ (pre = log /\ EvDial d r ∈ evs).
Proof.
  intros Hlen H. destruct evs as [|e [|]]; simpl in Hlen; [|clear Hlen|lia].
  - rewrite app_nil_r in H. left. eauto.
  - destruct post as [|x post _] using rev_ind.
    + apply app_inj_tail in H as [-> ->]. right. split; [done|set_solver].
    + rewrite app_comm_cons, app_assoc in H. apply app_inj_tail in H as [-> _]. left. eauto.
Qed.

Lemma step_open dt s p a S evs :
  session_ok dt s -> exec (s_open s) (s_active s) (s_sockets s) evs p a S -> step_ok dt s (on_open p a S evs s).
Proof.
  intros (held & hb & stage & n & done & []) Hex.
  destruct (exec_wp _ _ _ _ _ _ _ _ _ _ si_open0 Hex eq_refl)
    as (held' & Hwp & Hfix & Hctx & Hcl & Hst & Hdial & Hlen & HS & Hheld & Hup). simpl in *.
  assert (forall c, owner stage (s_active s) c -> owner stage a c) as Hown.
  { intros c. destruct stage; simpl; rewrite ?Hcl; intuition congruence. }
  split.
  - exists held', hb, stage, n, done. split; simpl; auto.
    + intros pre d r post E. apply app_dial_inv in E as [[post' E]|[-> E]]; eauto.
    + rewrite Hctx. auto.
    + intros Ht. destruct Hst as [Hst|[_ Hst]]; [rewrite Hst in Ht; auto|congruence].
    + rewrite Hcl. auto.
    + intros c Hc. destruct (HS c Hc) as [Hc'|]; [|by left].
      destruct (si_sockets0 c Hc') as [H|[H|H]]; [|by auto|by auto].
      destruct (Hheld c Hc H) as [|[Hnone Hu]]; [by left|]. right; right.
      destruct stage; [by left|..]; exfalso; by apply si_ctx0.
    + unfold view_of, fixed in *. simpl. congruence.
  - repeat split; auto. rewrite !live_terminal. simpl. intros Hl.
    destruct (terminal (state_of (s_active s))) eqn:Ht; [|done].
    destruct (si_terminal0 eq_refl) as (u & c & ->).
    destruct Hst as [Hst|[Hnone _]]; [congruence|]. exfalso. by apply si_ctx0.
Qed.

Lemma step_start_finish dt s reason failed :
  session_ok dt s -> s_once s = Idle -> step_ok dt s (start_finish reason failed s).
Proof.
  intros (held & hb & stage & n & done & []) Hidle. rewrite Hidle in *. destruct si_once0 as [-> ->].
  split; [|by repeat split]. exists held, hb, Before, 0%nat, done. split; simpl; rewrite ?app_nil_r; auto.
  - apply finish_body_ok.
  - intros ->. by specialize (si_done0 eq_refl).
Qed.

Lemma step_open_finished dt s reason failed k :
  session_ok dt s -> s_open s = Finish reason failed k -> s_once s = Finished ->
  step_ok dt s (on_open k (s_active s) (s_sockets s) [] s).
Proof.
  intros (held & hb & stage & n & done & []) Hopen Hfin. rewrite Hopen in si_open0.
  split; [|by repeat split]. exists held, hb, stage, n, true. split; simpl; rewrite ?app_nil_r; auto.
Qed.

Lemma step_once dt s p p' a S evs :
  session_ok dt s -> s_once s = Running p -> exec p (s_active s) (s_sockets s) evs p' a S ->
  step_ok dt s (on_once (Running p') a S evs s).
Proof.
  intros (held & hb & stage & n & done & []) Hrun Hex. rewrite Hrun in *. simpl in si_once0.
  destruct (exec_fin _ _ _ _ _ _ _ _ _ si_once0 Hex si_ctx0)
    as (stage' & n' & Hok & Hn & Hevs & Hown & Hfix & Hcl & Hctx & Hctx' & Ht & Ht' & Hst & HS & Howner).
  split.
  - exists held, hb, stage', n', done. split; simpl; auto.
    + by rewrite Hown.
    + intros ->. by specialize (si_done0 eq_refl).
    + destruct si_closing0 as [<- ?]. rewrite length_app. split; [done|]. by apply Forall_app.
    + intros Hterm. destruct (Ht' Hterm); auto.
    + by rewrite Hcl.
    + intros c Hc. destruct (si_sockets0 c (HS c Hc)) as [|[|]]; auto.
    + unfold view_of, fixed in *. simpl in *. congruence.
  - repeat split; auto. rewrite !live_terminal. simpl. intros Hl.
    apply not_true_is_false. intros Hterm. by rewrite (Ht Hterm) in Hl.
Qed.

Lemma step_once_done dt s :
  session_ok dt s -> s_once s = Running (Ret tt) -> step_ok dt s (on_once Finished (s_active s) (s_sockets s) [] s).
Proof.
  intros (held & hb & stage & n & done & []) Hrun. rewrite Hrun in *. destruct si_once0 as [-> ->].
  split; [|by repeat split]. exists held, hb, (Closing None None), 1%nat, done.
  split; simpl; rewrite ?app_nil_r; auto.
Qed.

Lemma step_watch dt s w :
  session_ok dt s -> (forall p, w = Some p -> asks_only p) -> step_ok dt s (on_watch w (s_active s) (s_sockets s) s).
Proof.
  intros (held & hb & stage & n & done & []) Hq. split; [|by repeat split].
  exists held, hb, stage, n, done. split; simpl; auto.
Qed.

Lemma step_bind_start dt s client :
  session_ok dt s -> s_bind s = Unbound ->
  step_ok dt s (on_bind (Binding (BindClient client)) (s_active s) (client :: s_sockets s) s).
Proof.
  intros (held & hb & stage & n & done & []) Hun. rewrite Hun in *. destruct si_bind0 as [-> Hcl].
  split; [|by repeat split]. exists held, (Some client), stage, n, done. split; simpl; auto.
  - left. exists client. auto.
  - intros c [->|Hc]%elem_of_cons; [auto|]. destruct (si_sockets0 c Hc) as [|[|]]; auto; done.
Qed.

Lemma step_bind dt s p p' a S evs :
  session_ok dt s -> s_bind s = Binding p -> exec p (s_active s) (s_sockets s) evs p' a S ->
  step_ok dt s (on_bind (Binding p') a S s).
Proof.
  intros (held & hb & stage & n & done & []) Hb Hex. rewrite Hb in *.
  destruct si_bind0 as [(c & -> & Hcl & [->| ->])|(r & -> & ->)]; inversion Hex; subst.
  - destruct (ac_ctx (s_active s)) as [e|] eqn:Hc.
    + split; [|by repeat split]. exists held, (Some c), stage, n, done. split; simpl; auto.
      * by rewrite Hc.
      * left. exists c. auto.
    + assert (stage = Before) as -> by (destruct stage; [done|..]; exfalso; by apply si_ctx0).
      split; [|by repeat split]. exists held, None, Before, n, done. split; simpl; auto.
      * right. eauto.
      * intros x Hx. destruct (si_sockets0 x Hx) as [|[[= ->]|[H|H]]]; auto. by rewrite Hcl in H.
  - split; [|by repeat split]. exists held, None, stage, n, done. split; simpl; auto.
    + right. eauto.
    + intros x [Hne Hx]%list_elem_of_filter. destruct (si_sockets0 x Hx) as [|[[= ->]|]]; auto; done.
Qed.

Lemma step_context dt s e :
  session_ok dt s -> step_ok dt s (on_open (s_open s) (set_ctx e (s_active s)) (s_sockets s) [] s).
Proof.
  intros (held & hb & stage & n & done & []). split; [|by repeat split].
  exists held, hb, stage, n, done. split; simpl; rewrite ?app_nil_r; auto.
  by destruct (ac_ctx (s_active s)).
Qed.

Lemma local_step_ok dt s s' : session_ok dt s -> local_step s s' -> step_ok dt s s'.
Proof.
  intros Hok Hstep. destruct Hstep.
  - by apply step_open.
  - by apply step_start_finish.
  - by eapply step_open_finished.
  - by apply step_start_finish.
  - by eapply step_once.
  - by apply step_once_done.
  - apply step_watch; [done|]. intros p [= <-]. apply monitor_quiet.
  - pose proof Hok as (held & hb & stage & n & done & []).
    destruct (exec_quiet _ _ _ _ _ _ _ (si_watch0 _ H) H0) as (Hq & -> & ->).
    apply step_watch; [done|]. by intros ? [= <-].
  - by apply step_start_finish.
  - pose proof Hok as (held & hb & stage & n & done & []).
    apply step_watch; [done|]. intros p [= <-]. by apply si_watch0 in H.
  - by apply step_bind_start.
  - by eapply step_bind.
  - by apply step_context.
Qed.

(** ** The table *)

Definition count (P : net_session -> bool) (sv : NetService) : nat := List.length (List.filter P (stored sv)).

Definition entries (heap : list net_session) (l : list (string * nat)) : list net_session :=
  omap (fun kv => heap !! kv.2) l.

Definition from_source (source : Source) (s : net_session) : bool := session_live s && (ses_Source (view_of s) == source).

Lemma filter_filter_source source l :
  List.filter (fun s => ses_Source (view_of s) == source) (List.filter session_live l) = List.filter (from_source source) l.
Proof.
  induction l as [|s l IH]; [done|]. simpl. unfold from_source at 1.
  destruct (session_live s); simpl; [|done]. destruct (_ == _); by rewrite IH.
Qed.

Lemma filter_perm (P : net_session -> bool) l k : l ≡ₚ k -> List.length (List.filter P l) = List.length (List.filter P k).
Proof.
  induction 1; simpl; auto; repeat match goal with |- context [if ?b then _ else _] => destruct b end; simpl; congruence.
Qed.

Lemma entries_cons (P : net_session -> bool) heap kv l :
  List.length (List.filter P (entries heap (kv :: l))) =
  ((match heap !! kv.2 with Some s => if P s then 1 else 0 | None => 0 end) +
   List.length (List.filter P (entries heap l)))%nat.
Proof.
  change (entries heap (kv :: l)) with (match heap !! kv.2 with Some s => s :: entries heap l | None => entries heap l end).
  destruct (heap !! kv.2) as [s|]; [|done]. simpl. by destruct (P s).
Qed.

(** Replacing sessions by ones that satisfy [P] no more often. *)
Lemma entries_mono (P : net_session -> bool) heap heap' l :
  (forall kv s', kv ∈ l -> heap' !! kv.2 = Some s' -> P s' = true -> exists s, heap !! kv.2 = Some s /\ P s = true) ->
  (List.length (List.filter P (entries heap' l)) <= List.length (List.filter P (entries heap l)))%nat.
Proof.
  induction l as [|kv l IH]; intros H; [done|].
  assert (List.length (List.filter P (entries heap' l)) <= List.length (List.filter P (entries heap l)))%nat as Hl
    by (apply IH; intros; eapply H; eauto; set_solver).
  rewrite !entries_cons. destruct (heap' !! kv.2) as [s'|] eqn:E'; [|lia].
  destruct (P s') eqn:HP; [|lia].
  destruct (H kv s') as (s & E & HPs); [set_solver|done|done|]. rewrite E, HPs. lia.
Qed.

(** Inserting an entry adds at most its session; removing one adds none. *)
Definition weight (P : net_session -> bool) (heap : list net_session) (p : nat) : nat :=
  match heap !! p with Some s => if P s then 1 else 0 | None => 0 end.

Lemma count_insert (P : net_session -> bool) heap (m : gmap string nat) id p :
  (List.length (List.filter P (entries heap (map_to_list (<[id := p]> m)))) <=
   weight P heap p + List.length (List.filter P (entries heap (map_to_list m))))%nat.
Proof.
  assert (forall m : gmap string nat, m !! id = None ->
    List.length (List.filter P (entries heap (map_to_list (<[id := p]> m)))) =
    weight P heap p + List.length (List.filter P (entries heap (map_to_list m))))%nat as Hnew.
  { intros m' Hm. rewrite (filter_perm P _ (entries heap ((id, p) :: map_to_list m')))
      by (apply omap_Permutation; by apply map_to_list_insert). by rewrite entries_cons. }
  destruct (m !! id) as [q|] eqn:E; [|by rewrite Hnew].
  rewrite <- (insert_delete_eq m id p), Hnew by apply lookup_delete_eq.
  rewrite <- (filter_perm P (entries heap ((id, q) :: map_to_list (delete id m))) (entries heap (map_to_list m)))
    by (apply omap_Permutation; by apply map_to_list_delete).
  rewrite entries_cons. lia.
Qed.

Lemma count_delete (P : net_session -> bool) heap (m : gmap string nat) id :
  (List.length (List.filter P (entries heap (map_to_list (delete id m)))) <=
   List.length (List.filter P (entries heap (map_to_list m))))%nat.
Proof.
  destruct (m !! id) as [q|] eqn:E; [|by rewrite delete_id].
  rewrite <- (filter_perm P (entries heap ((id, q) :: map_to_list (delete id m))) (entries heap (map_to_list m)))
    by (apply omap_Permutation; by apply map_to_list_delete).
  rewrite entries_cons. lia.
Qed.

Lemma oldest_spec l o :
  (forall x, fold_left (fun oldest x => older x oldest) l o = Some x -> (x ∈ l /\ session_live x = false) \/ o = Some x) /\
  (o <> None \/ (exists x, x ∈ l /\ session_live x = false) -> fold_left (fun oldest x => older x oldest) l o <> None).
Proof.
  revert o; induction l as [|y l IH]; intros o; simpl.
  { split; [auto|]. intros [?|(x & Hx & _)]; [done|set_solver]. }
  destruct (IH (older y o)) as [IH1 IH2]. split.
  - intros x Hx. destruct (IH1 x Hx) as [[H1 H2]|H]; [left; set_solver|].
    unfold older in H. destruct (session_live y) eqn:Hy; [auto|].
    destruct o as [z|]; [destruct (_ <? _)%Z|]; simplify_eq; auto; left; set_solver.
  - intros H. apply IH2. unfold older. destruct (session_live y) eqn:Hy.
    + destruct H as [H|(x & Hx & Hl)]; [by left|]. apply elem_of_cons in Hx as [->|Hx]; [congruence|right; eauto].
    + left. destruct o; [by destruct (_ <? _)%Z|done].
Qed.

Lemma filter_all (P : net_session -> bool) l : (forall x, x ∈ l -> P x = true) -> List.length (List.filter P l) = List.length l.
Proof.
  induction l as [|x l IH]; intros H; [done|]. simpl. rewrite H by set_solver. simpl. rewrite IH; [done|].
  intros; apply H; set_solver.
Qed.

Record table_inv (dialTarget : bool) (sv : NetService) : Prop := {
  ti_session : forall p s, ns_heap sv !! p = Some s -> session_ok dialTarget s;
  ti_front : forall p s, ns_heap sv !! p = Some s ->
               open_front (s_source s) (s_spec s) (inl (src_Instance (s_source s))) = Ok tt;
  ti_keys : forall id p, ns_sessions sv !! id = Some p -> exists s, ns_heap sv !! p = Some s /\ ses_ID (view_of s) = id;
  ti_size : (size (ns_sessions sv) <= 1024)%nat;
  ti_live : (count session_live sv <= 128)%nat;
  ti_own : forall source, (count (from_source source) sv <= 16)%nat }.

Lemma stored_length dt sv : table_inv dt sv -> List.length (stored sv) = size (ns_sessions sv).
Proof.
  intros []. rewrite <- length_map_to_list. unfold stored.
  assert (forall kv, kv ∈ map_to_list (ns_sessions sv) -> is_Some (ns_heap sv !! kv.2)) as H.
  { intros [id p] Hkv%elem_of_map_to_list. destruct (ti_keys0 _ _ Hkv) as (s & ? & _). eauto. }
  induction (map_to_list (ns_sessions sv)) as [|kv l IH]; [done|].
  simpl. destruct (H kv) as [s E]; [set_solver|]. rewrite E. simpl. f_equal. apply IH. intros; apply H; set_solver.
Qed.

Lemma stored_key sv s :
  s ∈ stored sv -> exists id p, ns_sessions sv !! id = Some p /\ ns_heap sv !! p = Some s.
Proof.
  unfold stored. rewrite list_elem_of_omap. intros ([id p] & Hkv & Hs). apply elem_of_map_to_list in Hkv. eauto.
Qed.

(** A full table has a finished session to give up. *)
Lemma full_table_shrinks dt sv :
  table_inv dt sv -> (count session_live sv < 128)%nat -> (1024 <= size (ns_sessions sv))%nat ->
  exists o, fold_left (fun oldest x => older x oldest) (stored sv) None = Some o /\
            is_Some (ns_sessions sv !! ses_ID (view_of o)).
Proof.
  intros Hinv Hlive Hfull.
  destruct (fold_left _ _ None) as [o|] eqn:Ho.
  - exists o. split; [done|]. destruct (proj1 (oldest_spec (stored sv) None) o Ho) as [[Hin _]|]; [|done].
    destruct (stored_key _ _ Hin) as (id & p & Hid & Hp). destruct (ti_keys _ _ Hinv _ _ Hid) as (s & Hs & E).
    simplify_eq. eauto.
  - exfalso. apply (proj2 (oldest_spec (stored sv) None)); [|done]. right.
    destruct (decide (Exists (fun x => session_live x = false) (stored sv))) as [H|H].
    { apply Exists_exists in H as (x & ? & ?). eauto. }
    exfalso. unfold count in Hlive. rewrite filter_all in Hlive.
    + rewrite (stored_length dt sv Hinv) in Hlive. lia.
    + intros x Hx. destruct (session_live x) eqn:E; [done|]. exfalso. apply H, Exists_exists. eauto.
Qed.

Lemma reserve_ok token now source spec sv a sessions :
  reserve token now source spec sv = Ok (a, sessions) ->
  (count session_live sv < 128)%nat /\ (count (from_source source) sv < 16)%nat /\
  a = new_active (EncodeToString token) source spec now /\
  exists kept, sessions = <[EncodeToString token := List.length (ns_heap sv)]> kept /\
    (kept = ns_sessions sv /\ (size (ns_sessions sv) < 1024)%nat \/
     (1024 <= size (ns_sessions sv))%nat /\
     match fold_left (fun oldest x => older x oldest) (stored sv) None with
     | Some o => kept = delete (ses_ID (view_of o)) (ns_sessions sv)
     | None => kept = ns_sessions sv
     end).
Proof.
  unfold reserve. rewrite reject_ok. intros [H1 H2].
  rewrite filter_filter_source, orb_false_iff, !Nat.leb_gt in H1. destruct H1 as [Hl Ho].
  apply ok_inj, pair_equal_spec in H2 as [<- <-]. do 3 (split; [done|]).
  change (ses_ID (ac_view (new_active (EncodeToString token) source spec now))) with (EncodeToString token).
  destruct (1024 <=? size (ns_sessions sv))%nat eqn:E.
  - apply Nat.leb_le in E. destruct (fold_left _ (stored sv) None) as [o|]; eexists; (split; [done|]); by right.
  - apply Nat.leb_gt in E. eexists. split; [done|]. by left.
Qed.

Lemma new_session_ok dt source spec id now :
  session_ok dt (new_net_session dt source spec (src_Instance source) (new_active id source spec now)).
Proof.
  exists None, None, Before, 0%nat, false. split; simpl; auto; try done.
  - by apply knows_Open.
  - intros [|x pre] d r post E; [done|]. injection E as _ E. by destruct pre.
  - intros c Hc. by apply elem_of_nil in Hc.
Qed.

Lemma open_front_instance source spec instance :
  open_front source spec (inl instance) = Ok tt -> instance = src_Instance source.
Proof.
  unfold open_front. intros H. apply bind_unit_ok in H as [_ H]. rewrite !reject_ok in H.
  destruct H as [_ [H _]]. rewrite orb_false_iff, negb_false_iff, bool_decide_eq_true in H. tauto.
Qed.

(** The counts after [reserve], for a property of sessions. *)
Lemma count_reserve (P : net_session -> bool) dt sv kept id s :
  table_inv dt sv -> (forall k p, kept !! k = Some p -> ns_sessions sv !! k = Some p) ->
  (List.length (List.filter P (entries (ns_heap sv) (map_to_list kept))) <= count P sv)%nat ->
  (count P (mkNetService (<[id := List.length (ns_heap sv)]> kept) (ns_heap sv ++ [s])%list) <=
   (if P s then 1 else 0) + count P sv)%nat.
Proof.
  intros Hinv Hkept Hcount. unfold count, stored at 1. cbn [ns_sessions ns_heap].
  etrans; [apply count_insert|]. unfold weight. rewrite list_lookup_middle by done.
  apply Nat.add_le_mono_l. etrans; [|exact Hcount]. apply entries_mono.
  intros [k p] s' Hkv Hs' HP. apply elem_of_map_to_list, Hkept in Hkv.
  destruct (ti_keys _ _ Hinv _ _ Hkv) as (s0 & E & _). simpl in *.
  rewrite lookup_app_l in Hs' by (by eapply lookup_lt_Some). eauto.
Qed.

Lemma table_open dt sv token now source spec instance a sessions :
  table_inv dt sv -> open_front source spec (inl instance) = Ok tt ->
  reserve token now source spec sv = Ok (a, sessions) ->
  table_inv dt (mkNetService sessions (ns_heap sv ++ [new_net_session dt source spec instance a])%list).
Proof.
  intros Hinv Hfront Hres. pose proof (open_front_instance _ _ _ Hfront) as ->.
  apply reserve_ok in Hres as (Hlive & Hown & -> & kept & -> & Hkept).
  set (s := new_net_session _ _ _ _ _).
  assert (forall k p, kept !! k = Some p -> ns_sessions sv !! k = Some p) as Hsub.
  { destruct Hkept as [[-> _]|[_ Hk]]; [done|]. destruct (fold_left _ _ None); subst kept; [|done].
    intros k p H. by apply lookup_delete_Some in H as [_ H]. }
  assert (forall P, List.length (List.filter P (entries (ns_heap sv) (map_to_list kept))) <= count P sv)%nat as Hcount.
  { intros P. destruct Hkept as [[-> _]|[_ Hk]]; [done|]. destruct (fold_left _ _ None); subst kept; [|done].
    apply count_delete. }
  pose proof Hinv as [H1 H2 H3 H4 H5 H6]. split; cbn [ns_sessions ns_heap].
  - intros p s' Hp. apply lookup_app_Some in Hp as [Hp|[_ Hp]]; [eauto|].
    apply list_lookup_singleton_Some in Hp as [_ <-]. apply new_session_ok.
  - intros p s' Hp. apply lookup_app_Some in Hp as [Hp|[_ Hp]]; [eauto|].
    apply list_lookup_singleton_Some in Hp as [_ <-]. exact Hfront.
  - intros id p Hp. apply lookup_insert_Some in Hp as [[<- <-]|[_ Hp]].
    + exists s. by rewrite list_lookup_middle.
    + destruct (H3 _ _ (Hsub _ _ Hp)) as (s' & E & Hid). exists s'. split; [|done].
      rewrite lookup_app_l by (by eapply lookup_lt_Some). done.
  - assert (size (<[EncodeToString token := List.length (ns_heap sv)]> kept) <= S (size kept))%nat as Hs
      by (rewrite map_size_insert; destruct (kept !! _); simpl; lia).
    etrans; [exact Hs|]. destruct Hkept as [[-> Hlt]|[Hfull Hk]]; [lia|].
    destruct (full_table_shrinks dt sv Hinv Hlive Hfull) as (o & Ho & Hkey). rewrite Ho in Hk. subst kept.
    rewrite map_size_delete. destruct Hkey as [q ->]. simpl. lia.
  - etrans; [by eapply count_reserve|]. change (session_live s) with true. cbv iota. lia.
  - intros source'. etrans; [by eapply count_reserve|].
    unfold from_source at 1. change (session_live s) with true. change (ses_Source (view_of s)) with source. simpl.
    destruct (bool_decide (source = source')) eqn:E; [apply bool_decide_eq_true in E as <-; lia|].
    specialize (H6 source'). lia.
Qed.

Lemma table_local dt sv p s s' :
  table_inv dt sv -> ns_heap sv !! p = Some s -> local_step s s' ->
  table_inv dt (mkNetService (ns_sessions sv) (<[p := s']> (ns_heap sv))).
Proof.
  intros [H1 H2 H3 H4 H5 H6] Hp Hstep.
  destruct (local_step_ok dt s s' (H1 _ _ Hp) Hstep) as (Hok & Hfix & Hsrc & Hspec & Hlive).
  assert (ses_ID (view_of s') = ses_ID (view_of s) /\ ses_Source (view_of s') = ses_Source (view_of s)) as [Hid Hs]
    by (unfold fixed, view_of in *; split; congruence).
  assert (forall P : net_session -> bool, (P s' = true -> P s = true) ->
    count P (mkNetService (ns_sessions sv) (<[p := s']> (ns_heap sv))) <= count P sv)%nat as Hcount.
  { intros P HP. apply entries_mono. intros [k q] x _ Hx HPx. simpl in *.
    apply list_lookup_insert_Some in Hx as [(-> & -> & _)|[_ Hx]]; eauto. }
  split; cbn [ns_sessions ns_heap].
  - intros q x Hx. apply list_lookup_insert_Some in Hx as [(-> & -> & _)|[_ Hx]]; eauto.
  - intros q x Hx. apply list_lookup_insert_Some in Hx as [(-> & -> & _)|[_ Hx]]; [|eauto].
    rewrite Hsrc, Hspec. eauto.
  - intros id q Hq. destruct (H3 _ _ Hq) as (x & Hx & E). destruct (decide (p = q)) as [<-|Hne].
    + exists s'. simplify_eq. rewrite list_lookup_insert_eq by (by eapply lookup_lt_Some). done.
    + exists x. by rewrite list_lookup_insert_ne.
  - done.
  - etrans; [by apply Hcount|done].
  - intros source. etrans; [apply Hcount|done]. unfold from_source. rewrite Hs.
    rewrite !andb_true_iff. intros [? ?]. auto.
Qed.

Lemma service_reachable_inv dt sv : service_reachable dt sv -> table_inv dt sv.
Proof.
  revert sv. apply (rtc_ind_r (table_inv dt)).
  - split; cbn [ns_sessions ns_heap]; try (intros; by rewrite ?lookup_nil, ?lookup_empty in * ).
    + rewrite map_size_empty. lia.
    + unfold count, stored. cbn [ns_sessions]. rewrite map_to_list_empty. simpl. lia.
    + intros source. unfold count, stored. cbn [ns_sessions]. rewrite map_to_list_empty. simpl. lia.
  - intros y z _ Hstep IH. destruct Hstep; [by eapply table_open|by eapply table_local].
Qed.
