(* ===== verification/NetworkScenario.v ===== *)
(** * Network sessions: an executable scheduler

    The step relation of [NetworkService] as a function of a schedule: who moves
    next and what the collaborators answer.  Running a schedule is a run of the
    relation, so concrete scenarios are evaluated. *)

From S2P Require Import Prelude GoText GoNet GoStrings Core CoreChecks Policy CapabilityService NetworkAuthority NetworkService.
From Stdlib Require Import Ascii String.
Open Scope string_scope.

(** What an effect answers. *)
Inductive reply :=
| RText (r : answer string)
| REvaluation (r : answer PolicyEvaluation)
| RError (err : option goerror)
| RTarget (r : answer Target)
| ROutcome (r : finished)
| RConn (r : answer (option (nat * string)))
| RTime (z : Z)
| RLate (b : bool)
| RNone.

Definition perform_effect {R} (p : prog R) (r : reply) (a : active) (S : sockets)
  : option (list net_event * prog R * active * sockets) :=
  match p, r with
  | CurrentInstance name k, RText r => Some ([EvInstance name r], k r, a, S)
  | PolicyRevision k, RText r => Some ([EvRevision r], k r, a, S)
  | Evaluate req k, REvaluation r => Some ([EvEvaluate req r], k r, a, S)
  | Record_ e k, RError r => Some ([EvRecord e r], k r, a, S)
  | Resolve source spec k, RTarget r => Some ([EvResolve source spec r], k r, a, S)
  | Verify target k, RError r => Some ([EvVerify target r], k r, a, S)
  | Request req k, ROutcome r => Some ([EvRequest req r], k r, a, S)
  | Dial d k, RConn (inl (Some (c, peer))) =>
    if bool_decide (c ∈ S) then None
    else Some ([EvDial d (inl (Some (c, peer)))], k (inl (Some (c, peer))), a, c :: S)
  | Dial d k, RConn r => Some ([EvDial d r], k r, a, S)
  | CloseConn c k, RNone => Some ([], k, a, filter (fun x => x <> c) S)
  | Locked f k, RNone => Some ([], k a, f a, S)
  | Cancel k, RNone => Some ([], k, set_ctx ErrContext a, S)
  | Now k, RTime z => Some ([], k z, a, S)
  | Late k, RLate b => Some ([], k b, a, S)
  | _, _ => None
  end.

Lemma perform_effect_exec {R} (p : prog R) r a S evs p' a' S' :
  perform_effect p r a S = Some (evs, p', a', S') -> exec p a S evs p' a' S'.
Proof.
  intros H. destruct p, r; simpl in H; try discriminate H.
  8: { destruct r as [[[c peer]|]|err]; [destruct (bool_decide (c ∈ S)) eqn:E; [done|]|..];
       injection H as <- <- <- <-; constructor. by apply bool_decide_eq_false in E. }
  all: injection H as <- <- <- <-; constructor.
Qed.

(** One move of a session's goroutines. *)
Inductive move :=
| MoveOpen (r : reply)
| MoveOpenWaits
| MoveOpenResumes
| MoveRevoke
| MoveClose
| MoveOnce (r : reply)
| MoveOnceDone
| MoveBind (client : nat)
| MoveBinding (r : reply)
| MoveExpires.

Definition move_session (m : move) (s : net_session) : option net_session :=
  match m with
  | MoveOpen r =>
    match perform_effect (s_open s) r (s_active s) (s_sockets s) with
    | Some (evs, p, a, socks) => Some (on_open p a socks evs s)
    | None => None
    end
  | MoveOpenWaits =>
    match s_open s, s_once s with
    | Finish reason failed _, Idle => Some (start_finish reason failed s)
    | _, _ => None
    end
  | MoveOpenResumes =>
    match s_open s, s_once s with
    | Finish _ _ k, Finished => Some (on_open k (s_active s) (s_sockets s) [] s)
    | _, _ => None
    end
  | MoveRevoke => match s_once s with Idle => Some (start_finish "revoked" false s) | _ => None end
  | MoveClose =>
    match s_open s, s_once s with
    | Ret (inl _), Idle => Some (start_finish "completed" false s)
    | _, _ => None
    end
  | MoveOnce r =>
    match s_once s with
    | Running p =>
      match perform_effect p r (s_active s) (s_sockets s) with
      | Some (evs, p', a, socks) => Some (on_once (Running p') a socks evs s)
      | None => None
      end
    | _ => None
    end
  | MoveOnceDone =>
    match s_once s with
    | Running (Ret tt) => Some (on_once Finished (s_active s) (s_sockets s) [] s)
    | _ => None
    end
  | MoveBind client =>
    match s_open s, s_bind s with
    | Ret (inl _), Unbound =>
      if bool_decide (client ∈ s_sockets s) then None
      else Some (on_bind (Binding (BindClient client)) (s_active s) (client :: s_sockets s) s)
    | _, _ => None
    end
  | MoveBinding r =>
    match s_bind s with
    | Binding p =>
      match perform_effect p r (s_active s) (s_sockets s) with
      | Some (_, p', a, socks) => Some (on_bind (Binding p') a socks s)
      | None => None
      end
    | Unbound => None
    end
  | MoveExpires =>
    match ac_ctx (s_active s) with
    | None => Some (on_open (s_open s) (set_ctx ErrDeadlineExceeded (s_active s)) (s_sockets s) [] s)
    | Some _ => None
    end
  end.

Lemma move_session_step m s s' : move_session m s = Some s' -> local_step s s'.
Proof.
  destruct m; simpl; intros H.
  - destruct (perform_effect _ _ _ _) as [[[[evs p] a] socks]|] eqn:E; [|done]. injection H as <-.
    apply st_open. by eapply perform_effect_exec.
  - destruct (s_open s) eqn:E1; try done. destruct (s_once s) eqn:E2; try done. injection H as <-. by eapply st_open_finish.
  - destruct (s_open s) eqn:E1; try done. destruct (s_once s) eqn:E2; try done. injection H as <-. by eapply st_open_finished.
  - destruct (s_once s) eqn:E2; try done. injection H as <-. apply st_finish; [constructor|done].
  - destruct (s_open s) as [[view|]| | | | | | | | | | | | | |] eqn:E1; try done. destruct (s_once s) eqn:E2; try done.
    injection H as <-. apply st_finish; [by eapply by_Close|done].
  - destruct (s_once s) as [|p|] eqn:E2; try done.
    destruct (perform_effect _ _ _ _) as [[[[evs p'] a] socks]|] eqn:E; [|done]. injection H as <-.
    eapply st_once; [done|by eapply perform_effect_exec].
  - destruct (s_once s) as [|[[]| | | | | | | | | | | | | |]|] eqn:E2; try done. injection H as <-. by apply st_once_done.
  - destruct (s_open s) as [[view|]| | | | | | | | | | | | | |] eqn:E1; try done. destruct (s_bind s) eqn:E2; try done.
    destruct (bool_decide (client ∈ s_sockets s)) eqn:E3; [done|]. injection H as <-.
    eapply st_bind_start; [done|done|by apply bool_decide_eq_false in E3].
  - destruct (s_bind s) as [|p] eqn:E2; try done.
    destruct (perform_effect _ _ _ _) as [[[[evs p'] a] socks]|] eqn:E; [|done]. injection H as <-.
    eapply st_bind; [done|by eapply perform_effect_exec].
  - destruct (ac_ctx (s_active s)) eqn:E; [done|]. injection H as <-. apply st_context; [by right|done].
Qed.

(** One event of the service. *)
Inductive happening :=
| Opens (token : list ascii) (now : Z) (source : Source) (spec : Spec) (instance : string)
| Moves (p : nat) (m : move).

Definition happen (dialTarget : bool) (h : happening) (sv : NetService) : option NetService :=
  match h with
  | Opens token now source spec instance =>
    match open_front source spec (inl instance), reserve token now source spec sv with
    | Ok tt, Ok (a, sessions) =>
      Some (mkNetService sessions (ns_heap sv ++ [new_net_session dialTarget source spec instance a])%list)
    | _, _ => None
    end
  | Moves p m =>
    match ns_heap sv !! p with
    | Some s => match move_session m s with
                | Some s' => Some (mkNetService (ns_sessions sv) (<[p := s']> (ns_heap sv)))
                | None => None
                end
    | None => None
    end
  end.

Fixpoint run_service (dialTarget : bool) (hs : list happening) (sv : NetService) : option NetService :=
  match hs with
  | [] => Some sv
  | h :: hs => match happen dialTarget h sv with Some sv => run_service dialTarget hs sv | None => None end
  end.

Lemma run_service_steps dialTarget hs sv sv' :
  run_service dialTarget hs sv = Some sv' -> rtc (service_step dialTarget) sv sv'.
Proof.
  revert sv; induction hs as [|h hs IH]; intros sv H; simpl in H; [injection H as <-; constructor|].
  destruct (happen dialTarget h sv) as [sv1|] eqn:E; [|done]. eapply rtc_l; [|by apply IH].
  destruct h as [token now source spec instance|p m]; simpl in E.
  - destruct (open_front _ _ _) as [[]|] eqn:E1; [|done]. destruct (reserve _ _ _ _ _) as [[a sessions]|] eqn:E2; [|done].
    injection E as <-. by eapply sv_open.
  - destruct (ns_heap sv !! p) as [s|] eqn:E1; [|done]. destruct (move_session m s) as [s'|] eqn:E2; [|done].
    injection E as <-. eapply sv_local; [done|by eapply move_session_step].
Qed.

Definition run_fresh (hs : list happening) : option NetService := run_service true hs (mkNetService ∅ []).

Lemma run_fresh_reachable hs sv : run_fresh hs = Some sv -> service_reachable true sv.
Proof. apply run_service_steps. Qed.
