(* ===== verification/NetworkProperties.v ===== *)
(** * Properties of network access

    What a connection was authorized by when it is dialed and when it is handed
    out, what a finished session leaves behind, the limits of the table, the
    round trip of the capability request, the targets the configuration allows,
    and the canonical form of host names. *)

From S2P Require Import Prelude GoText GoNet GoStrings GoNetProofs Core CoreChecks CoreProofs Policy CapabilityService.
From S2P Require Import Egress EgressProofs NetworkAuthority NetworkAuthorityProofs NetworkService NetworkProofs NetworkInvariant NetworkScenario.
From Stdlib Require Import Ascii String.
Open Scope string_scope.

(** ** Sessions *)

(** Addresses that a connection may be dialed to: valid, of one host, and not
    on this machine when the target is external. *)
Lemma authorized_address source spec target revision request log a :
  net_authorized source spec target revision request log -> a ∈ tgt_Addresses target -> address_ok (tgt_Kind target) a.
Proof.
  intros (first & outcome & saved & checked & _ & _ & Hreq & _) Ha.
  apply requestFor_ok in Hreq as (_ & Hok & _). rewrite Forall_forall in Hok. by apply Hok.
Qed.

(** C26: in every reachable state of the service, whatever its collaborators
    answer and however its goroutines interleave, a session dials only an address
    of the target that was resolved for its request, after the capability boundary
    executed and audited exactly the canonical request of that target and after
    instance, policy revision, policy decision and target were verified under the
    revision that decided; and [Open] hands out only a connection that was dialed
    this way, verified once more and recorded as opened. *)
Theorem dial_is_authorized dialTarget sv p s :
  service_reachable dialTarget sv -> ns_heap sv !! p = Some s ->
  validateSpec (s_spec s) = Ok tt /\
  (forall pre d r post, s_log s = (pre ++ EvDial d r :: post)%list ->
     may_dial dialTarget (s_source s) (s_spec s) pre d /\
     exists target address, d = dial_request dialTarget (spec_Protocol (s_spec s)) target address /\
       target_mismatch (s_spec s) target = false /\ address ∈ tgt_Addresses target /\
       address_ok (tgt_Kind target) address) /\
  (forall view, s_open s = Ret (inl view) ->
     exists c, ac_upstream (s_active s) = Some c /\ established dialTarget (s_source s) (s_spec s) (s_log s) c).
Proof.
  intros Hreach Hp. pose proof (service_reachable_inv _ _ Hreach) as Hinv.
  pose proof (ti_front _ _ Hinv _ _ Hp) as Hfront.
  destruct (ti_session _ _ Hinv _ _ Hp) as (held & hb & stage & n & done & Hs).
  split; [|split].
  - unfold open_front in Hfront. by apply bind_unit_ok in Hfront as [? _].
  - intros pre d r post Hlog. pose proof (si_log _ _ _ _ _ _ _ Hs _ _ _ _ Hlog) as Hmay. split; [done|].
    destruct Hmay as (target & revision & request & base & tried & address & rest & evs & Hauth & Haddr & _ & _ & ->).
    assert (address ∈ tgt_Addresses target) as Hin by (rewrite Haddr; set_solver).
    exists target, address. split; [done|]. split; [|split; [done|by eapply authorized_address]].
    by destruct Hauth as (? & ? & ? & ? & _ & Hm & _).
  - intros view Hopen. pose proof (si_open _ _ _ _ _ _ _ Hs) as Hwp. rewrite Hopen in Hwp. simpl in Hwp.
    destruct Hwp as (_ & _ & c & Hc & Hest). by exists c.
Qed.

(** C27: however its goroutines interleave, a session that has finished stays
    finished, closes its context before anything else, and writes exactly one
    audit record of its end; once [Open] and [BindClient] are done with it no
    socket of it is left open, and an [Open] that failed has finished it. *)
Theorem finished_session_is_released dialTarget sv p s :
  service_reachable dialTarget sv -> ns_heap sv !! p = Some s ->
  (terminal (ses_State (view_of s)) = true -> ac_ctx (s_active s) <> None /\ s_once s <> Idle) /\
  (forall s', local_step s s' -> session_live s = false -> session_live s' = false) /\
  (s_once s = Finished ->
     (exists e, s_closing s = [e] /\ closed_event e) /\
     ((exists r, s_open s = Ret r) -> (s_bind s = Unbound \/ exists r, s_bind s = Binding (Ret r)) -> s_sockets s = [])) /\
  (forall err, s_open s = Ret (inr err) -> s_once s = Finished).
Proof.
  intros Hreach Hp. pose proof (service_reachable_inv _ _ Hreach) as Hinv.
  pose proof (ti_session _ _ Hinv _ _ Hp) as Hok. pose proof Hok as (held & hb & stage & n & done & Hs).
  split; [|split; [|split]].
  - intros Ht. destruct (si_terminal _ _ _ _ _ _ _ Hs Ht) as (u & c & ->).
    split; [by apply (si_ctx _ _ _ _ _ _ _ Hs)|]. intros Hidle.
    pose proof (si_once _ _ _ _ _ _ _ Hs) as Ho. rewrite Hidle in Ho. by destruct Ho.
  - intros s' Hstep Hdead. apply (local_step_ok dialTarget) in Hstep as (_ & _ & _ & _ & Hlive); [|done].
    destruct (session_live s'); [|done]. by rewrite Hlive in Hdead.
  - intros Hfin. pose proof (si_once _ _ _ _ _ _ _ Hs) as Ho. rewrite Hfin in Ho. destruct Ho as [-> ->].
    destruct (si_closing _ _ _ _ _ _ _ Hs) as [Hlen Hcl]. split.
    + destruct (s_closing s) as [|e [|]]; try done. exists e. by apply Forall_cons in Hcl as [? _].
    + intros [r Hopen] Hbind. pose proof (si_open _ _ _ _ _ _ _ Hs) as Hwp. rewrite Hopen in Hwp.
      destruct Hwp as [Hheld _]. simpl in Hheld. subst held.
      assert (hb = None) as ->.
      { pose proof (si_bind _ _ _ _ _ _ _ Hs) as Hb. destruct Hbind as [E|[r' E]]; rewrite E in Hb; simpl in Hb.
        - tauto.
        - destruct Hb as [(c & _ & _ & [H|H])|(r'' & _ & ->)]; done. }
      destruct (s_sockets s) as [|c S] eqn:E; [done|]. exfalso.
      destruct (si_sockets _ _ _ _ _ _ _ Hs c) as [|[|[|]]]; try done. rewrite E. by left.
  - intros err Hopen. pose proof (si_open _ _ _ _ _ _ _ Hs) as Hwp. rewrite Hopen in Hwp.
    destruct Hwp as [_ Hd]. by apply (si_done _ _ _ _ _ _ _ Hs).
Qed.

(** C28: the table never holds more than 1024 sessions, of which at most 128
    are live and at most 16 live ones belong to one source. *)
Theorem table_is_bounded dialTarget sv :
  service_reachable dialTarget sv ->
  size (ns_sessions sv) <= 1024 /\
  List.length (List.filter session_live (stored sv)) <= 128 /\
  forall source, List.length (List.filter (from_source source) (stored sv)) <= 16.
Proof. intros Hreach. by destruct (service_reachable_inv _ _ Hreach). Qed.

(** ** A run *)

Definition demo_instance : string := "env-0123456789abcdef0123456789abcdef".
Definition demo_source : Source := mkSource "web" demo_instance.
Definition demo_spec : Spec := mkSpec "external" "example.com" "tcp" 443 60.
Definition demo_target : Target := mkTarget "external" "example.com" "tcp" 443 [V4 [93; 184; 216; 34]%N] "".
Definition demo_outcome : finished :=
  (mkResult "" "standard.network.authorization" "" "request-1" CapabilitySucceeded true, None).

Definition demo_verify : list reply :=
  [RNone; RText (inl demo_instance); RText (inl "revision"); REvaluation (inl (mkEvaluation PolicyAllow ""));
   RError None].
Definition demo_open : list reply :=
  [RTarget (inl demo_target); RText (inl "revision"); RNone; ROutcome demo_outcome; RNone] ++ demo_verify ++
  [RNone; RConn (inl (Some (7%nat, "93.184.216.34:443"))); RNone] ++ demo_verify ++
  [RNone; RTime 5; RError None; RNone].
Definition demo_finish : list reply := [RNone; RTime 9; RNone; RNone; RNone; RNone; RTime 9; RError None].

Definition demo_opened : list happening :=
  Opens [] 0 demo_source demo_spec demo_instance :: ((fun r => Moves 0 (MoveOpen r)) <$> demo_open).
Definition demo_revoked : list happening :=
  demo_opened ++ [Moves 0 (MoveBind 8); Moves 0 (MoveBinding RNone); Moves 0 MoveRevoke] ++
  ((fun r => Moves 0 (MoveOnce r)) <$> demo_finish) ++ [Moves 0 MoveOnceDone].

(** A session of a run. *)
Definition demo_session (hs : list happening) : option net_session :=
  sv ← run_fresh hs; ns_heap sv !! 0%nat.

Lemma demo_session_reachable hs s :
  demo_session hs = Some s -> exists sv, service_reachable true sv /\ ns_heap sv !! 0%nat = Some s.
Proof.
  unfold demo_session. intros H. apply bind_Some in H as (sv & Hsv & H).
  exists sv. split; [by eapply run_fresh_reachable|done].
Qed.

Lemma dial_is_authorized_witness :
  exists s, demo_session demo_opened = Some s /\
    exists c, ac_upstream (s_active s) = Some c /\ established true (s_source s) (s_spec s) (s_log s) c.
Proof.
  assert (match demo_session demo_opened with
          | Some s => match s_open s with Ret (inl _) => true | _ => false end
          | None => false
          end = true) as H by (vm_compute; reflexivity).
  destruct (demo_session demo_opened) as [s|] eqn:E; [|discriminate H]. exists s. split; [reflexivity|].
  destruct (demo_session_reachable _ _ E) as (sv & Hsv & Hp).
  destruct (s_open s) as [[view|err]| | | | | | | | | | | | | |] eqn:Ho; try discriminate H.
  exact (proj2 (proj2 (dial_is_authorized true sv 0 s Hsv Hp)) view Ho).
Defined.

Lemma finished_session_is_released_witness :
  exists s, demo_session demo_revoked = Some s /\ s_once s = Finished /\ s_sockets s = [].
Proof.
  assert (match demo_session demo_revoked with
          | Some s => match s_open s, s_once s, s_bind s with Ret _, Finished, Binding (Ret _) => true | _, _, _ => false end
          | None => false
          end = true) as H by (vm_compute; reflexivity).
  destruct (demo_session demo_revoked) as [s|] eqn:E; [|discriminate H]. exists s. split; [reflexivity|].
  destruct (demo_session_reachable _ _ E) as (sv & Hsv & Hp).
  destruct (s_open s) as [r| | | | | | | | | | | | | |] eqn:Ho; try discriminate H.
  destruct (s_once s) eqn:Hf; try discriminate H. split; [reflexivity|].
  destruct (s_bind s) as [|[r'| | | | | | | | | | | | | |]] eqn:Hb; try discriminate H.
  apply (proj2 (proj1 (proj2 (proj2 (finished_session_is_released true sv 0 s Hsv Hp))) Hf)).
  - rewrite Ho. by exists r.
  - right. rewrite Hb. by exists r'.
Defined.

Lemma table_is_bounded_witness :
  exists sv, run_fresh demo_opened = Some sv /\ size (ns_sessions sv) <= 1024.
Proof.
  assert (match run_fresh demo_opened with Some _ => true | None => false end = true) as H by (vm_compute; reflexivity).
  destruct (run_fresh demo_opened) as [sv|] eqn:E; [|discriminate H]. exists sv. split; [reflexivity|].
  exact (proj1 (table_is_bounded true sv (run_fresh_reachable _ _ E))).
Defined.

(** ** Requests *)

Definition stray_request : CapabilityRequest :=
  mkRequest demo_instance network_Capability network_Action "example.com" "web"
    (<["destination_kind" := "external"]> (<["stray" := "anything"]> (<["protocol" := "tcp"]> (<["port" := "443"]>
     (<["addresses" := "93.184.216.34"]> (<["duration_seconds" := "60"]> ∅)))))) ∅.

(** C29: the provider grants every request that the service builds for a
    resolved connection, in whatever order its addresses were resolved, and what
    it grants is such a request; the exception is a request for an external target
    that lacks the (empty) owner attribute, whose place any other attribute can
    take. *)
Theorem connection_request_roundtrip :
  (forall source target duration req,
     requestFor source target duration = Ok req -> network_Execute req = Ok "standard.network.authorization") /\
  (forall source target duration req,
     requestFor source target duration = Ok req ->
     requestFor source (with_addresses (sort_by addr_String (tgt_Addresses target)) target) duration = Ok req) /\
  (forall req p, network_Execute req = Ok p ->
     exists source target duration canonical,
       requestFor source target duration = Ok canonical /\
       (req = canonical \/
        tgt_Kind target = "external" /\ req_Attributes req !! "destination_instance" = None /\
        delete "destination_instance" (req_Attributes canonical) ⊆ req_Attributes req)) /\
  network_Execute stray_request = Ok "standard.network.authorization".
Proof.
  split; [exact requestFor_granted|]. split; [exact requestFor_sorted|]. split; [exact granted_canonical|].
  vm_compute. reflexivity.
Qed.

Lemma connection_request_roundtrip_witness :
  exists req, requestFor demo_source demo_target 60 = Ok req /\ network_Execute req = Ok "standard.network.authorization".
Proof.
  eexists. split; [vm_compute; reflexivity|].
  apply (proj1 connection_request_roundtrip demo_source demo_target 60%Z). vm_compute. reflexivity.
Defined.

(** ** Targets *)

Lemma select_target_fits {W} (t : ConfiguredTargets W) source spec w w' target :
  select_target t source spec w = (w', inl target) -> target_mismatch spec target = false.
Proof.
  assert (forall port addresses owner, (spec_Port spec = 0%Z \/ port = spec_Port spec) ->
    target_mismatch spec (mkTarget (spec_Kind spec) (spec_Target spec) (spec_Protocol spec) port addresses owner) = false) as Hfit.
  { intros port addresses owner Hport. unfold target_mismatch. cbn [tgt_Kind tgt_Name tgt_Protocol tgt_Port].
    rewrite !bool_decide_eq_true_2 by done. cbn [negb orb].
    apply andb_false_iff. rewrite !negb_false_iff, !bool_decide_eq_true. tauto. }
  unfold select_target. destruct (spec_Kind spec == "host"); [|destruct (spec_Kind spec == "environment");
    [|destruct (spec_Kind spec == "external"); [|done]]]; intros H.
  - apply IO_bind_ok in H as (service & w1 & _ & H). destruct (_ || _) eqn:E; [done|].
    apply IO_bind_ok in H as (address & w2 & _ & H). injection H as _ <-. apply Hfit.
    apply orb_false_iff in E as [_ E]. rewrite andb_false_iff, !negb_false_iff, !bool_decide_eq_true in E. tauto.
  - apply IO_bind_ok in H as (instance & w1 & _ & H). injection H as _ <-. apply Hfit. by right.
  - apply IO_bind_ok in H as (addresses & w1 & _ & H). injection H as _ <-. apply Hfit. by right.
Qed.

(** C30: a target that the configuration resolves fits the request, and what
    [Verify] lets pass, there or later, is allowed by it: an Environment by its
    current instance, a Host service by a valid registration in the policy with
    its exact instance, protocol, port and address, off the reserved ports and
    accepted by the Host check, an external target by the external check of each
    of its addresses. *)
Theorem configured_targets_are_allowed {W} (t : ConfiguredTargets W) :
  (forall source spec w w' target, targets_Resolve t source spec w = (w', inl target) ->
     target_mismatch spec target = false /\ allowed_target t target) /\
  (forall target w w', targets_Verify t target w = (w', inl tt) -> allowed_target t target).
Proof.
  split; [|apply targets_Verify_allowed].
  intros source spec w w' target H. apply IO_bind_ok in H as (target' & w1 & Hs & H).
  apply IO_bind_ok in H as ([] & w2 & Hv & H). injection H as _ <-.
  split; [by eapply select_target_fits|by eapply targets_Verify_allowed].
Qed.

Definition demo_service : NetworkService :=
  mkService "db" "svc-0123456789abcdef0123456789abcdef" "tcp" "10.0.0.5" 5432.
Definition demo_targets : ConfiguredTargets unit :=
  mkTargets (fun w => (w, inl (mkSnapshot "r" (Some (mkPolicy [demo_service] [] "" [])))))
    (fun _ w => (w, inl demo_instance)) (fun _ _ _ w => (w, inl []))
    (Some (fun _ w => (w, inl tt))) None.

Lemma configured_targets_are_allowed_witness :
  exists target, allowed_target demo_targets target /\ tgt_Port target = 5432%Z.
Proof.
  eexists (mkTarget "host" "db" "tcp" 5432 [V4 [10; 0; 0; 5]%N] "svc-0123456789abcdef0123456789abcdef").
  split; [|reflexivity].
  refine (proj2 (proj1 (configured_targets_are_allowed demo_targets) demo_source (mkSpec "host" "db" "tcp" 0 60) tt tt _ _)).
  vm_compute. reflexivity.
Defined.

(** ** Host names and egress *)

(** C31: [CanonicalHost] answers [h] exactly when [h] is a host name of the DNS
    grammar in lower case that is no IP address, and the text is [h] up to letter
    case and one final dot; in particular its answers are their own canonical
    form. *)
Theorem canonical_host_exact :
  (forall raw h, CanonicalHost raw = Ok h <-> hostname h = true /\ (ToLower raw = h \/ ToLower raw = h +:+ ".")) /\
  (forall raw h, CanonicalHost raw = Ok h -> CanonicalHost h = Ok h).
Proof.
  split.
  - intros raw h. split; [apply CanonicalHost_sound|intros [? ?]; by apply CanonicalHost_complete].
  - intros raw h H. apply CanonicalHost_sound in H as [H _]. by apply CanonicalHost_fixed.
Qed.

Lemma canonical_host_exact_witness : CanonicalHost "Example.COM." = Ok "example.com" /\ CanonicalHost "example.com" = Ok "example.com".
Proof.
  split; [vm_compute; reflexivity|]. apply (proj2 canonical_host_exact "Example.COM."). vm_compute. reflexivity.
Defined.

(** The sign U+212A folds to an ASCII letter. *)
Example kelvin_host : CanonicalHost (bytes_string [0xE2; 0x84; 0xAA]%N +:+ ".example") = Ok "k.example".
Proof. vm_compute. reflexivity. Qed.

(** C32: the egress provider grants exactly the requests that the broker sends
    for normalized connections, whatever instance they are bound to; a grant of
    the broker names the normalized connection and rests on an execution without
    error of exactly its request. *)
Theorem egress_grants_are_exact :
  (forall req, is_ok (egress_Execute req) = true <->
     exists n, NormalizeRequest n = Ok n /\ req_with_Instance "" req = egress_request n) /\
  (forall W (Request : CapabilityRequest -> W -> W * finished) r w w' grant,
     Authorize (Some Request) r w = (w', inl grant) ->
     exists n result, NormalizeRequest r = Ok n /\ NormalizeRequest n = Ok n /\
       Request (egress_request n) w = (w', (result, None)) /\
       grant = mkEgressGrant (cr_RequestID result) (er_Environment n) (er_Host n) (er_Port n) (er_Protocol n) /\
       hostname (er_Host n) = true).
Proof.
  split.
  - intros req. split.
    + destruct (egress_Execute req) as [p|] eqn:E; [|done]. intros _. by eapply egress_granted_request.
    + intros (n & Hn & E). replace req with (req_with_Instance (req_EnvironmentInstance req) (egress_request n)).
      * by rewrite egress_request_granted.
      * rewrite <- E. by destruct req.
  - intros W Request r w w' grant H. unfold Authorize in H. destruct (NormalizeRequest r) as [n|] eqn:En; [|done].
    destruct (Request (egress_request n) w) as [w1 [result [err|]]] eqn:Er; [done|]. injection H as -> <-.
    exists n, result. split; [done|]. split; [by eapply NormalizeRequest_fixed|]. repeat (split; [done|]).
    by eapply NormalizeRequest_hostname.
Qed.

Lemma egress_grants_are_exact_witness :
  exists n, NormalizeRequest n = Ok n /\ er_Host n = "example.com".
Proof.
  destruct (proj2 egress_grants_are_exact unit (fun _ w => (w, (zeroResult, None)))
    (mkEgressRequest "web" "Example.com." 443 "https") tt tt
    (mkEgressGrant "" "web" "example.com" 443 "https")) as (n & result & _ & Hn & _ & E & _).
  - vm_compute. reflexivity.
  - exists n. split; [exact Hn|]. injection E as _ _ E _ _. symmetry. exact E.
Defined.
