(* ===== verification/GitProtocol.v ===== *)
(** * The Git protocol: names, refs and remotes

    [src/internal/adapters/git]: [protocol.go], [heads.go], [incremental.go],
    [remote_identity.go].  The checks that decide what may become an argument of
    a trusted Git command, and the requests and responses between the guest, the
    broker and the trusted Host.  [ValidateRemote] and the like return an error
    that is only compared with nil; here they are booleans. *)

From S2P Require Import Prelude GoText GoStrings GoURL Core CoreChecks.
From Stdlib Require Import Ascii String.
Open Scope string_scope.

Definition ZeroOID : string := "0000000000000000000000000000000000000000".
Definition MaxHeads : nat := 1024.
Definition AllHeadsRef : string := "refs/heads/*".
Definition readCachePrefix : string := "refs/hacocoon/read-heads/".
Definition maxHaves : nat := 32.

(** ** Identifiers *)

Definition idPattern : regexp :=
  Seq (Cls (fun c => in_range "a" "z" c || in_range "0" "9" c))
      (Rep (fun c => in_range "a" "z" c || in_range "0" "9" c || Ascii.eqb "-" c) 0 47).
Definition branchPattern : regexp :=
  Seq (Cls alphanumeric) (Rep (fun c => alphanumeric c || one_of "_/-" c) 0 127).
Definition slugPattern : regexp :=
  Seq (Cls alphanumeric) (Star (fun c => alphanumeric c || one_of "_.-" c)).

Definition ValidID (s : string) : bool := MatchString idPattern s.
Definition ValidBranch (s : string) : bool :=
  MatchString branchPattern s && negb (Contains s "//") && negb (HasSuffix s "/").

(** [hex.DecodeString] fails on an odd length or a byte that is no hexadecimal digit. *)
Definition hex_decodes (s : string) : bool := (Z.rem (len s) 2 =? 0)%Z && all_chars ishex s.

Definition ValidOID (s : string) : bool :=
  if (len s != 40%Z) then false else hex_decodes s && (s == ToLower s).

(** ** Remotes *)

Definition github_path (path : string) : bool :=
  match Split (TrimSuffix (TrimPrefix path "/") ".git") "/" with
  | [owner; name] => MatchString slugPattern owner && MatchString slugPattern name
  | _ => false
  end.

Definition ValidateRemote (s : string) : bool :=
  match url_Parse s with
  | None => false
  | Some u =>
    if bool_decide (u_User u <> None) || (u_RawQuery u != "") || (u_Fragment u != "") || (u_RawPath u != "") ||
       ContainsLineOrNUL s then false else
    if (u_Scheme u == "https") && (u_Host u == "github.com") && github_path (u_Path u) then true else
    (u_Scheme u == "file") && (u_Host u == "") && HasPrefix (u_Path u) "/" && negb (Contains (u_Path u) "/../")
  end.

Definition ValidWorkspaceRouting (remote branch : string) : bool :=
  ((remote == "") && (branch == "")) || (ValidateRemote remote && ValidBranch branch).

(** [CanonicalRemote]: [None] is an error.  Without an error of [ValidateRemote] a
    remote with other credentials would return the empty text. *)
Definition CanonicalRemote (raw : string) : option string :=
  let value := if HasPrefix (ToLower raw) "git@github.com:"
               then "https://github.com/" +:+ drop_chars 15 raw else raw in
  u ← url_Parse value;
  if EqualFold (u_Host u) "github.com" && ((u_Scheme u == "https") || (u_Scheme u == "ssh")) && (u_RawQuery u == "") &&
     (u_Fragment u == "") && (u_RawPath u == "") then
    match u_User u with
    | Some user =>
      if (u_Scheme u != "ssh") || (Userinfo_String user != "git")
      then if ValidateRemote raw then Some "" else None
      else let value := "https://github.com" +:+ ToLower (TrimSuffix (TrimRightByte (u_Path u) "/") ".git") in
           if ValidateRemote value then Some value else None
    | None =>
      let value := "https://github.com" +:+ ToLower (TrimSuffix (TrimRightByte (u_Path u) "/") ".git") in
      if ValidateRemote value then Some value else None
    end
  else if ValidateRemote value then Some value else None.

(** ** Heads *)

Record Head := mkHead { hd_Ref : string; hd_OID : string }.

Definition bad_ref_rune (r : N) : bool :=
  IsControl r || existsb (fun c => (byte c =? r)%N) (list_ascii_of_string " ~^:?*[\").

Definition bad_ref_part (part : string) : bool :=
  (part == "") || HasPrefix part "." || HasSuffix part ".lock".

Definition ValidHeadRef (ref : string) : bool :=
  if (1024 <? len ref)%Z || negb (ValidString ref) || negb (HasPrefix ref "refs/heads/") then false else
  let name := TrimPrefix ref "refs/heads/" in
  if (name == "") || Contains name ".." || Contains name "@{" || HasSuffix name "." then false else
  if existsb (fun r => bad_ref_rune (rune_value r)) (runes name) then false else
  negb (existsb bad_ref_part (Split name "/")).

(** [ValidateHeads]: the heads by name, or an error. *)
Definition validate_head (head : Head) (result : gmap string string) : option (gmap string string) :=
  if negb (ValidHeadRef (hd_Ref head)) || negb (ValidOID (hd_OID head)) || (hd_OID head == ZeroOID) ||
     (read_or "" result (hd_Ref head) != "") then None
  else Some (<[hd_Ref head := hd_OID head]> result).

Fixpoint validate_heads (heads : list Head) (result : gmap string string) : option (gmap string string) :=
  match heads with
  | [] => Some result
  | head :: heads => match validate_head head result with Some result => validate_heads heads result | None => None end
  end.

Definition ValidateHeads (heads : list Head) : option (gmap string string) :=
  if (List.length heads =? 0)%nat || (MaxHeads <? List.length heads)%nat then None else validate_heads heads ∅.

Fixpoint valid_haves (haves : list string) (seen : gset string) : bool :=
  match haves with
  | [] => true
  | oid :: haves =>
    if negb (ValidOID oid) || (oid == ZeroOID) || bool_decide (oid ∈ seen) then false
    else valid_haves haves ({[oid]} ∪ seen)
  end.

Definition ValidHaves (operation : string) (haves : list string) : bool :=
  if (maxHaves <? List.length haves)%nat || ((operation != "fetch") && negb (List.length haves =? 0)%nat) then false
  else valid_haves haves ∅.

(** ** Requests and responses

    A pack is a stream; here it is its content.  [PackOutput] takes the pack of
    the answer, which is a result of the model. *)

Record Request := mkGitRequest {
  gr_Haves : list string; gr_Heads : list Head; gr_Operation : string; gr_Repository : string;
  gr_Ref : string; gr_OldOID : string; gr_NewOID : string; gr_Pack : option string }.

Record Response := mkResponse {
  rsp_Heads : list Head; rsp_OID : string; rsp_Ref : string; rsp_PackBytes : Z;
  rsp_Summary : string; rsp_Error : string }.

Definition zeroResponse : Response := mkResponse [] "" "" 0 "" "".

Record AgentRequest := mkAgentRequest {
  ag_Haves : list string; ag_Ref : string; ag_Heads : list Head; ag_Operation : string; ag_Repository : string;
  ag_Workspace : string; ag_Remote : string; ag_Branch : string; ag_OldOID : string; ag_NewOID : string;
  ag_Pack : option string }.

#[global] Instance Head_eq_dec : EqDecision Head. Proof. solve_decision. Defined.
#[global] Instance Response_eq_dec : EqDecision Response. Proof. solve_decision. Defined.
#[global] Instance AgentRequest_eq_dec : EqDecision AgentRequest. Proof. solve_decision. Defined.
