(* ===== verification/GitAgent.v ===== *)
(** * The trusted Git agent

    [src/internal/adapters/git]: [trusted.go], [heads.go], [push.go],
    [repository_population.go].  [RunAgent] executes one operation that the
    controller selected, with Git commands in the trusted Host.  It is a program
    over the commands and file operations it performs; [agent_run] gives it
    arbitrary answers that may depend on everything done before. *)

From S2P Require Import Prelude GoText GoStrings GoURL Core CoreChecks GitProtocol.
From Stdlib Require Import Ascii String.
Open Scope string_scope.

Definition TAB : ascii := "009".

(** ** Commands *)

Inductive stat := StatAbsent | StatError (err : goerror) | StatDir | StatOther.

(** [APack] is [git pack-objects --stdout --revs], [AIndex] is [git index-pack
    --stdin --strict] with the size limit, both without data in their arguments. *)
Inductive act :=
| AGit (dir : string) (args : list string)
| APack (dir input : string)
| AIndex (dir pack : string)
| ALstat (path : string)
| AWriteFile (path content : string)
| AMkdirTemp (dir : string)
| ARename (from to : string)
| ACtxErr.

Definition ans (a : act) : Type :=
  match a with
  | AGit _ _ | AMkdirTemp _ => answer string
  | APack _ _ => (Z * option goerror)%type
  | ALstat _ => stat
  | AIndex _ _ | AWriteFile _ _ | ARename _ _ | ACtxErr => option goerror
  end.

Inductive agent (R : Type) :=
| Done (r : R)
| Act (a : act) (k : ans a -> agent R).
Arguments Done {R}. Arguments Act {R}.

Fixpoint agent_bind {A B} (p : agent A) (f : A -> agent B) : agent B :=
  match p with
  | Done r => f r
  | Act a k => Act a (fun x => agent_bind (k x) f)
  end.

Definition act_of (a : act) : agent (ans a) := Act a Done.

(** A message error, [fmt.Errorf] without a wrapped cause. *)
Definition message {A} : answer A := inr (Plain ErrMessage).

Declare Scope agent_scope.
Delimit Scope agent_scope with agent.
Notation "x <- p ;; k" := (agent_bind p (fun r => match r with inl x => k | inr err => Done (inr err) end))
  (at level 100, p at next level, right associativity) : agent_scope.
Notation "x <- p 'or' e ;; k" := (agent_bind p (fun r => match r with inl x => k | inr _ => Done e end))
  (at level 100, p at next level, e at next level, right associativity) : agent_scope.
Notation "'refuse_if' b ;; k" := (if b then Done message else k) (at level 100, b at next level, right associativity) : agent_scope.
Open Scope agent_scope.

(** ** Heads and pushes *)

Section Commands.
Context (dir : string).

Definition git (args : list string) : agent (answer string) := act_of (AGit dir args).

Definition fetchHead (req : AgentRequest) : agent (answer Response) :=
  match ValidateHeads (ag_Heads req), ag_Heads req with
  | Some _, [head] =>
    let tracking := readCachePrefix +:+ TrimPrefix (hd_Ref head) "refs/heads/" in
    _ <- git ["fetch"; "--progress"; "--no-tags"; "--no-recurse-submodules"; "--"; ag_Remote req;
              "+" +:+ hd_Ref head +:+ ":" +:+ tracking] or message ;;
    value <- git ["rev-parse"; "--verify"; tracking] or message ;;
    refuse_if TrimSpace value != hd_OID head ;;
    kind <- git ["cat-file"; "-t"; hd_OID head] or message ;;
    refuse_if kind != ("commit" +:+ single LF) ;;
    (fix hints (haves : list string) (revisions : string) : agent (answer Response) :=
       match haves with
       | [] =>
         agent_bind (act_of (APack dir revisions)) (fun packed =>
         let '(bytes, err) := packed in
         Done (match err with
               | None => inl (mkResponse [] (hd_OID head) (hd_Ref head) bytes "" "")
               | Some err => inr err
               end))
       | have :: haves =>
         agent_bind (git ["merge-base"; "--is-ancestor"; have; hd_OID head]) (fun r =>
         hints haves (match r with inl _ => revisions +:+ "^" +:+ have +:+ single LF | inr _ => revisions end))
       end) (ag_Haves req) (hd_OID head +:+ single LF)
  | _, _ => Done message
  end.

(** The heads of a listing, or [None] for a line without a tab. *)
Fixpoint listed_heads (lines : list string) : option (list Head) :=
  match lines with
  | [] => Some []
  | line :: lines =>
    let '(oid, ref, ok) := Cut line TAB in
    if negb ok then None else heads ← listed_heads lines; Some (mkHead ref oid :: heads)
  end.

Definition readHeads (req : AgentRequest) : agent (answer Response) :=
  if ag_Operation req == "fetch" then fetchHead req else
  data <- git ["ls-remote"; "--heads"; "--"; ag_Remote req] ;;
  let ref := "refs/heads/" +:+ ag_Branch req in
  match listed_heads (Split (TrimSuffix data (single LF)) LF) with
  | None => Done message
  | Some heads =>
    match ValidateHeads heads with
    | None => Done message
    | Some current =>
      let oid := read_or "" current ref in
      refuse_if oid == "" ;;
      Done (inl (mkResponse heads oid ref 0 "" ""))
    end
  end.

(** [observeHead]. *)
Definition observeHead (remote ref : string) : agent (answer string) :=
  refuse_if negb (ValidHeadRef ref) || negb (ValidateRemote remote) ;;
  data <- git ["ls-remote"; "--heads"; "--"; remote; ref] ;;
  if data == "" then Done (inl ZeroOID) else
  let '(oid, observed, ok) := Cut (TrimSuffix data (single LF)) TAB in
  refuse_if negb ok || (observed != ref) || negb (ValidOID oid) || (oid == ZeroOID) ;;
  Done (inl oid).

(** What the porcelain output of a push has to say. *)
Definition porcelain_flag (req : AgentRequest) : string :=
  if ag_OldOID req == ZeroOID then "*" else if ag_OldOID req == ag_NewOID req then "=" else " ".

Fixpoint confirmed_lines (req : AgentRequest) (lines : list string) (count : nat) : bool :=
  match lines with
  | [] => (count =? 1)%nat
  | line :: lines =>
    match SplitN line TAB 3 with
    | [_] => confirmed_lines req lines count
    | [flag; refs; _] =>
      if (flag != porcelain_flag req) || (refs != (ag_NewOID req +:+ ":" +:+ ag_Ref req)) then false
      else confirmed_lines req lines (S count)
    | _ => false
    end
  end.

Definition confirmedPush (output : string) (req : AgentRequest) : bool := confirmed_lines req (Split output LF) 0.

Definition validatePushCommits (old next : string) : agent (answer unit) :=
  kind <- git ["cat-file"; "-t"; next] or message ;;
  refuse_if kind != ("commit" +:+ single LF) ;;
  if old != ZeroOID then
    _ <- git ["merge-base"; "--is-ancestor"; old; next] or message ;;
    Done (inl tt)
  else Done (inl tt).

(** The external write. *)
Definition push_arguments (req : AgentRequest) : list string :=
  let expected := if ag_OldOID req == ZeroOID then "" else ag_OldOID req in
  ["push"; "--porcelain"; "--no-verify"; "--force-with-lease=" +:+ ag_Ref req +:+ ":" +:+ expected; "--";
   ag_Remote req; ag_NewOID req +:+ ":" +:+ ag_Ref req].

Definition push_prepared (req : AgentRequest) : agent (answer Response) :=
  refuse_if bool_decide (ag_Pack req <> None) ;;
  _ <- validatePushCommits (ag_OldOID req) (ag_NewOID req) ;;
  output <- git (push_arguments req) or message ;;
  refuse_if negb (confirmedPush output req) ;;
  Done (inl (mkResponse [] (ag_NewOID req) (ag_Ref req) 0 "" "")).

(** The commit that the target has now, fetched. *)
Definition fetch_target (req : AgentRequest) (old : string) : agent (answer unit) :=
  if old != ZeroOID then
    let tracking := readCachePrefix +:+ TrimPrefix (ag_Ref req) "refs/heads/" in
    _ <- git ["fetch"; "--progress"; "--no-tags"; "--no-recurse-submodules"; "--"; ag_Remote req;
              "+" +:+ ag_Ref req +:+ ":" +:+ tracking] ;;
    value <- git ["rev-parse"; "--verify"; tracking +:+ "^{commit}"] or message ;;
    refuse_if TrimSpace value != old ;;
    Done (inl tt)
  else Done (inl tt).

Definition summary_base (old : string) : agent (answer string) :=
  if old == ZeroOID then
    empty <- git ["hash-object"; "-t"; "tree"; "-w"; "--stdin"] ;;
    refuse_if negb (ValidOID (TrimSpace empty)) ;;
    Done (inl (TrimSpace empty))
  else Done (inl old).

Definition pushOperation (req : AgentRequest) : agent (answer Response) :=
  refuse_if negb (ValidHeadRef (ag_Ref req)) || negb (ValidOID (ag_OldOID req)) || negb (ValidOID (ag_NewOID req)) ||
    (ag_NewOID req == ZeroOID) ;;
  if ag_Operation req == "push" then push_prepared req else
  match ag_Pack req with
  | None => Done message
  | Some pack =>
    refuse_if ag_Operation req != "prepare" ;;
    old <- observeHead (ag_Remote req) (ag_Ref req) ;;
    refuse_if old != ag_OldOID req ;;
    _ <- fetch_target req old ;;
    agent_bind (act_of (AIndex dir pack)) (fun indexed =>
    match indexed with
    | Some _ => Done message
    | None =>
      _ <- validatePushCommits old (ag_NewOID req) ;;
      base <- summary_base old ;;
      summary <- git ["diff"; "--no-ext-diff"; "--no-textconv"; "--stat"; base; ag_NewOID req; "--"] ;;
      Done (inl (mkResponse [] old (ag_Ref req) 0 (take_chars (Z.to_nat 8192) summary) ""))
    end)
  end.

(** ** Branches *)

(** The default branch in the answer of [ls-remote --symref]; [None] is an ambiguous one. *)
Definition names_head (line : string) : bool :=
  HasPrefix line "ref: refs/heads/" && HasSuffix line (String TAB "HEAD").
Fixpoint default_branch (lines : list string) (branch : string) : option string :=
  match lines with
  | [] => Some branch
  | line :: lines =>
    if names_head line then
      if branch != "" then None
      else default_branch lines (TrimSuffix (TrimPrefix line "ref: refs/heads/") (String TAB "HEAD"))
    else default_branch lines branch
  end.

Definition resolve_branch (req : AgentRequest) : agent (answer string) :=
  if ag_Branch req == "" then
    out <- git ["ls-remote"; "--symref"; "--"; ag_Remote req; "HEAD"] ;;
    Done (match default_branch (Split out LF) "" with Some branch => inl branch | None => message end)
  else Done (inl (ag_Branch req)).

Definition resolve (req : AgentRequest) : agent (answer Response) :=
  branch <- resolve_branch req ;;
  refuse_if negb (ValidBranch branch) ;;
  let ref := "refs/heads/" +:+ branch in
  let target := "refs/remotes/origin/" +:+ branch in
  _ <- git ["fetch"; "--progress"; "--no-tags"; "--no-write-fetch-head"; "--"; ag_Remote req; "+" +:+ ref +:+ ":" +:+ target] ;;
  out <- git ["rev-parse"; "--verify"; target +:+ "^{commit}"] or message ;;
  refuse_if negb (ValidOID (TrimSpace out)) ;;
  Done (inl (mkResponse [] (TrimSpace out) ref 0 "" "")).

End Commands.

(** ** One operation *)

(** [filepath.Join] of a root and a name. *)
Definition path_Join (root name : string) : string := path_Clean (root +:+ "/" +:+ name).

Definition err_answer {A} (a : A) (err : option goerror) : answer A := match err with None => inl a | Some err => inr err end.

(** The checks before any command. *)
Definition refused_request (req : AgentRequest) : bool :=
  (bool_decide (ag_Pack req <> None) && (ag_Operation req != "prepare")) ||
  negb (ValidHaves (ag_Operation req) (ag_Haves req)) ||
  (negb (ValidID (ag_Repository req)) || ((ag_Branch req != "") && negb (ValidBranch (ag_Branch req))) ||
   ((ag_Branch req == "") && ((ag_Operation req == "workspace") || (ag_Operation req == "list"))) ||
   negb (ValidateRemote (ag_Remote req))) ||
  ((ag_Operation req != "fetch") && negb (List.length (ag_Heads req) =? 0)%nat) ||
  ((ag_Ref req != "") && (ag_Operation req != "prepare") && (ag_Operation req != "push") && (ag_Operation req != "observe")) ||
  ((ag_Operation req == "fetch") &&
   (bool_decide (ValidateHeads (ag_Heads req) = None) || (ag_OldOID req != "") || (ag_NewOID req != "") ||
    bool_decide (ag_Pack req <> None))).

(** An existing Git directory that fails its check is moved aside. *)
Definition quarantine (dir : string) : agent (answer unit) :=
  let gitDir := path_Join dir ".git" in
  agent_bind (act_of (ALstat gitDir)) (fun info =>
  match info with
  | StatAbsent => Done (inl tt)
  | StatError err => Done (inr err)
  | StatOther => Done message
  | StatDir =>
    agent_bind (act_of (AGit dir ["fsck"; "--connectivity-only"; "--no-dangling"])) (fun r =>
    match r with
    | inl _ => Done (inl tt)
    | inr _ =>
      agent_bind (act_of ACtxErr) (fun cancelled =>
      match cancelled with
      | Some err => Done (inr err)
      | None =>
        aside <- act_of (AMkdirTemp dir) ;;
        agent_bind (act_of (ARename gitDir (path_Join aside "git"))) (fun err => Done (err_answer tt err))
      end)
    end)
  end).

(** The only remote is the registered one. *)
Definition own_remote (dir : string) (req : AgentRequest) : agent (answer unit) :=
  remotes <- act_of (AGit dir ["remote"]) ;;
  match Fields remotes with
  | [] => _ <- act_of (AGit dir ["remote"; "add"; "origin"; ag_Remote req]) ;; Done (inl tt)
  | [name] =>
    refuse_if name != "origin" ;;
    origin <- act_of (AGit dir ["remote"; "get-url"; "origin"]) or message ;;
    refuse_if TrimSpace origin != ag_Remote req ;;
    Done (inl tt)
  | _ => Done message
  end.

Definition ag_with_Operation (op : string) (r : AgentRequest) : AgentRequest :=
  mkAgentRequest (ag_Haves r) (ag_Ref r) (ag_Heads r) op (ag_Repository r) (ag_Workspace r) (ag_Remote r) (ag_Branch r)
    (ag_OldOID r) (ag_NewOID r) (ag_Pack r).

(** [RunAgent] from the check of the repository directory, for [resolve]. *)
Definition run_resolve (dir : string) (req : AgentRequest) : agent (answer Response) :=
  refuse_if refused_request req ;;
  agent_bind (act_of (ALstat (path_Join dir ".git"))) (fun info =>
  match info with StatDir => resolve dir req | _ => Done message end).

Definition populateRepository (req : AgentRequest) (dir : string) : agent (answer Response) :=
  agent_bind (act_of (ALstat dir)) (fun info =>
  match info with
  | StatAbsent =>
    _ <- act_of (AGit "" ["clone"; "--progress"; "--template="; "--no-local"; "--no-tags"; "--"; ag_Remote req; dir]) ;;
    Done (inl zeroResponse)
  | StatError _ | StatOther => Done message
  | StatDir =>
    _ <- quarantine dir ;;
    _ <- act_of (AGit dir ["init"; "--template="; "--"]) ;;
    _ <- own_remote dir req ;;
    result <- run_resolve dir (ag_with_Operation "resolve" req) ;;
    let branch := drop_chars 11 (rsp_Ref result) in
    _ <- act_of (AGit dir ["checkout"; "--force"; "-B"; branch; "refs/remotes/origin/" +:+ branch; "--"]) ;;
    Done (inl zeroResponse)
  end).

(** A text line, and the text of a JSON-free Git configuration. *)
Definition ln (s : string) : string := s +:+ single LF.
Definition quoted (s : string) : string := single quote +:+ s +:+ single quote.
Definition workspace_config (req : AgentRequest) : string :=
  ln "[core]" +:+ ln (String TAB "repositoryformatversion = 0") +:+ ln (String TAB "filemode = true") +:+
  ln (String TAB "bare = false") +:+ ln ("[remote " +:+ quoted "origin" +:+ "]") +:+
  ln (String TAB "url = haco://" +:+ ag_Repository req) +:+
  ln (String TAB "fetch = +refs/heads/*:refs/remotes/origin/*") +:+ ln ("[branch " +:+ quoted (ag_Branch req) +:+ "]") +:+
  ln (String TAB "remote = origin") +:+ ln (String TAB "merge = refs/heads/" +:+ ag_Branch req).

Definition prepare_workspace (req : AgentRequest) (workspaces : string) : agent (answer Response) :=
  refuse_if negb (ValidID (ag_Workspace req)) ;;
  let workspace := path_Join workspaces (ag_Workspace req) in
  agent_bind (act_of (ALstat (path_Join workspace ".git"))) (fun info =>
  match info with
  | StatDir =>
    _ <- act_of (AGit workspace ["checkout"; "--force"; "-B"; ag_Branch req; "refs/remotes/origin/" +:+ ag_Branch req; "--"]) ;;
    agent_bind (act_of (AWriteFile (path_Join (path_Join workspace ".git") "config") (workspace_config req)))
      (fun err => Done (err_answer zeroResponse err))
  | _ => Done message
  end).

(** The operations that need the repository. *)
Definition run_in_repository (dir : string) (req : AgentRequest) : agent (answer Response) :=
  if ag_Operation req == "resolve" then resolve dir req else
  if (ag_Operation req == "list") || (ag_Operation req == "fetch") then readHeads dir req else
  if ag_Operation req == "observe" then
    refuse_if (ag_OldOID req != "") || (ag_NewOID req != "") || bool_decide (ag_Pack req <> None) || (ag_Workspace req != "") ;;
    oid <- observeHead dir (ag_Remote req) (ag_Ref req) ;;
    Done (inl (mkResponse [] oid (ag_Ref req) 0 "" ""))
  else pushOperation dir req.

Definition agent_operations : list string := ["resolve"; "list"; "fetch"; "prepare"; "push"; "observe"].

Definition RunAgent (req : AgentRequest) (repos workspaces : string) : agent (answer Response) :=
  refuse_if refused_request req ;;
  let dir := path_Join repos (ag_Repository req) in
  if ag_Operation req == "clone" then populateRepository req dir else
  if ag_Operation req == "workspace" then prepare_workspace req workspaces else
  refuse_if bool_decide (ag_Operation req ∉ agent_operations) ;;
  agent_bind (act_of (ALstat (path_Join dir ".git"))) (fun info =>
  match info with StatDir => run_in_repository dir req | _ => Done message end).

(** ** Running *)

Definition happened : Type := {a : act & ans a}.

(** The program under a handler that answers from everything done before. *)
Fixpoint agent_run {R} (h : list happened -> forall a, ans a) (p : agent R) (hist : list happened) : list happened * R :=
  match p with
  | Done r => (hist, r)
  | Act a k => let x := h hist a in agent_run h (k x) (hist ++ [existT a x])%list
  end.
