(* ===== verification/GitAgentProofs.v ===== *)
(** * Proofs about the Git checks and the trusted agent

    What the checks guarantee of the text that becomes an argument of a command,
    and a program logic for [agent]: the commands a program may run, given what
    happened before, and its result. *)

From S2P Require Import Prelude GoText GoStrings GoURL Core CoreChecks GitProtocol GitAgent.
From Stdlib Require Import Ascii String.
Open Scope string_scope.

(** ** Text *)

Lemma between_cont lo hi b : between lo hi (byte b) = true -> (0x80 <= lo)%N -> (hi <= 0xBF)%N -> cont b = true.
Proof. unfold cont, between. rewrite !andb_true_iff, !N.leb_le. lia. Qed.
Lemma second_ok3_cont a b : second_ok3 a b = true -> cont b = true.
Proof. unfold second_ok3. intros H. repeat case_match; [eapply between_cont; [done|lia..]..|by apply andb_true_iff in H as [_ H]]. Qed.
Lemma second_ok4_cont a b : second_ok4 a b = true -> cont b = true.
Proof. unfold second_ok4. intros H. repeat case_match; [eapply between_cont; [done|lia..]..|by apply andb_true_iff in H as [_ H]]. Qed.

(** A byte below 0x80 is a rune of its own, whatever surrounds it. *)
Lemma runes_bytes (p : N -> bool) s :
  existsb (fun r => p (rune_value r)) (runes s) = false ->
  all_chars (fun c => negb (plain c && p (byte c))) s = true.
Proof.
  remember (String.length s) as n eqn:Hn. assert (String.length s <= n)%nat as Hle by lia. clear Hn.
  revert s Hle; induction n as [|n IH]; intros [|a s] Hle; cbn [String.length] in Hle; try done; [lia|].
  assert (forall x t, cont x = true -> all_chars (fun c => negb (plain c && p (byte c))) (String x t) =
            all_chars (fun c => negb (plain c && p (byte c))) t) as Hcont.
  { intros x t Hx. cbn [all_chars]. unfold plain, cont, between in *. bool_hyps.
    replace (byte x <? 0x80)%N with false; [done|]. symmetry. apply N.ltb_ge. by apply N.leb_le. }
  cbn [all_chars runes]. unfold plain at 1. destruct (byte a <? 0x80)%N eqn:Ha.
  { cbn [existsb rune_value default from_option id]. intros [Hp Hs]%orb_false_iff. rewrite Hp. simpl. apply IH; [lia|done]. }
  simpl andb. intros H.
  repeat match goal with
  | H : context [match ?s with "" => _ | String _ _ => _ end] |- _ => is_var s; destruct s
  | H : context [if ?c then _ else _] |- _ => let E := fresh in destruct c eqn:E
  end; cbn [existsb rune_value default from_option id String.length] in *; apply orb_false_iff in H as [_ H]; try done;
  bool_hyps; repeat match goal with H : second_ok3 _ _ = true |- _ => apply second_ok3_cont in H | H : second_ok4 _ _ = true |- _ => apply second_ok4_cont in H end;
  rewrite ?Hcont by done; (apply IH; [cbn [String.length] in *; lia|done]).
Qed.

Lemma HasPrefix_app s p : HasPrefix s p = true -> exists t, s = p +:+ t /\ TrimPrefix s p = t.
Proof.
  unfold TrimPrefix. intros H. rewrite H. unfold HasPrefix in H. revert s H.
  induction p as [|c p IH]; intros s H; [by exists s|]. destruct s as [|d s]; [done|]. simpl in H.
  destruct (ascii_dec c d) as [->|]; [|done]. destruct (IH s H) as (t & -> & Ht). exists t. simpl. by rewrite Ht.
Qed.

Lemma HasPrefix_refl p t : HasPrefix (p +:+ t) p = true.
Proof.
  unfold HasPrefix. induction p as [|c p IH]; [by destruct t|].
  change (String.prefix (String c p) (String c p +:+ t)) with (if ascii_dec c c then String.prefix p (p +:+ t) else false).
  by destruct (ascii_dec c c).
Qed.

Lemma HasPrefix_first c d s : HasPrefix (String d s) (single c) = Ascii.eqb c d.
Proof.
  unfold HasPrefix. change (String.prefix (single c) (String d s)) with (if ascii_dec c d then String.prefix "" s else false).
  destruct (ascii_dec c d) as [->|Hn]; [rewrite Ascii.eqb_refl; by destruct s|]. symmetry. by apply Ascii.eqb_neq.
Qed.

Lemma all_chars_and (p q : ascii -> bool) s :
  all_chars p s = true -> all_chars q s = true -> all_chars (fun c => p c && q c) s = true.
Proof. induction s as [|c s IH]; simpl; [done|]. rewrite !andb_true_iff. intros [-> ?] [-> ?]. auto. Qed.

(** ** Identifiers, refs and remotes *)

Lemma ValidOID_chars s : ValidOID s = true -> all_chars (in_range "0" "f") s = true /\ String.length s = 40%nat.
Proof.
  unfold ValidOID, hex_decodes. destruct (bool_decide_reflect (len s = 40%Z)) as [Hl|]; [|done]. simpl. intros H. bool_hyps.
  split; [|unfold len in Hl; lia]. eapply all_chars_impl; [|eassumption]. intros c Hc. unfold ishex, in_range in *.
  rewrite ?orb_true_iff, ?andb_true_iff, ?N.leb_le in *. change (byte "0") with 48%N in *. change (byte "9") with 57%N in *.
  change (byte "a") with 97%N in *. change (byte "f") with 102%N in *. change (byte "A") with 65%N in *. change (byte "F") with 70%N in *.
  destruct Hc as [[?|?]|?]; lia.
Qed.

(** No byte of an object name is a colon or a hyphen. *)
Lemma oid_colon s : ValidOID s = true -> no_sep ":" s.
Proof.
  unfold ValidOID, hex_decodes. case_match; [done|]. intros Hv. bool_hyps. eapply all_chars_impl; [|eassumption].
  intros c Hc. destruct (Ascii.eqb_spec c ":") as [->|]; [by vm_compute in Hc|done].
Qed.

Lemma oid_option s : ValidOID s = true -> HasPrefix s "-" = false.
Proof.
  intros [Hc Hl]%ValidOID_chars. destruct s as [|c s]; [done|]. change "-" with (single "-"). rewrite HasPrefix_first.
  destruct (Ascii.eqb_spec "-" c) as [<-|]; [by vm_compute in Hc|done].
Qed.

Lemma ValidHeadRef_shape ref :
  ValidHeadRef ref = true -> exists name, ref = "refs/heads/" +:+ name /\ name <> "" /\
    all_chars (fun c => negb (plain c && bad_ref_rune (byte c))) name = true.
Proof.
  unfold ValidHeadRef. case_match eqn:E1; [done|]. bool_hyps. destruct (HasPrefix_app ref "refs/heads/") as (name & -> & Hn); [done|].
  rewrite Hn. case_match eqn:E2; [done|]. case_match eqn:E3; [done|]. intros _. bool_hyps. exists name. split; [done|]. split; [done|].
  by apply runes_bytes.
Qed.

Lemma bad_rune_sep c : In c (list_ascii_of_string " ~^:?*[\") -> plain c && bad_ref_rune (byte c) = true.
Proof. simpl. intros H. repeat (destruct H as [<-|H]; [by vm_compute|]). done. Qed.

(** A head ref holds none of the characters that make a refspec or a pattern. *)
Lemma head_ref_inert ref c :
  ValidHeadRef ref = true -> In c (list_ascii_of_string " ~^:?*[\") -> no_sep c ref.
Proof.
  intros (name & -> & _ & Hn)%ValidHeadRef_shape Hc. unfold no_sep. rewrite all_chars_app. apply andb_true_iff. split.
  - simpl in Hc. repeat (destruct Hc as [<-|Hc]; [by vm_compute|]). done.
  - eapply all_chars_impl; [|exact Hn]. intros d Hd. destruct (Ascii.eqb_spec d c) as [->|]; [|done].
    by rewrite bad_rune_sep in Hd.
Qed.

Lemma branch_first branch : ValidBranch branch = true -> HasPrefix branch "-" = false.
Proof.
  unfold ValidBranch. intros H. bool_hyps. apply MatchString_lang in H. simpl in H. destruct H as (a & b & -> & (c & -> & Hc) & _).
  str_simpl. change "-" with (single "-"). rewrite HasPrefix_first. destruct (Ascii.eqb_spec "-" c) as [<-|]; [by vm_compute in Hc|done].
Qed.

(** The scheme of a parsed URL is the one before the first colon. *)
Lemma parse_url_scheme raw u :
  parse_url raw = Some u -> u_Scheme u = "" \/ exists sc, getScheme raw = Some sc /\ u_Scheme u = ToLower sc.1.
Proof.
  unfold parse_url. case_match; [done|]. case_match; [intros [= <-]; by left|]. intros (sc & Hsc & Hu)%bind_Some. right. exists sc.
  split; [done|]. destruct (if HasSuffix sc.2 "?" && _ then _ else _) as [rest query]. case_match; [by injection Hu as <-|].
  case_match; [done|]. apply bind_Some in Hu as ([[user host] rest'] & _ & Hu). by apply bind_Some in Hu as (path & _ & [= <-]).
Qed.

Lemma url_Parse_scheme raw u :
  url_Parse raw = Some u -> u_Scheme u = "" \/ exists sc, getScheme (Cut raw "#").1.1 = Some sc /\ u_Scheme u = ToLower sc.1.
Proof.
  unfold url_Parse. destruct (Cut raw "#") as [[before after] found]. intros (v & Hv%parse_url_scheme & Hu)%bind_Some. simpl.
  case_match; [by injection Hu as <-|]. by apply bind_Some in Hu as (fragment & _ & [= <-]).
Qed.

(** A remote starts with the letters of its scheme. *)
Lemma remote_first remote : ValidateRemote remote = true -> HasPrefix remote "-" = false.
Proof.
  unfold ValidateRemote. destruct (url_Parse remote) as [u|] eqn:E; [|done]. case_match; [done|]. intros Hv.
  assert (u_Scheme u <> "") as Hs by (intros E0; rewrite E0 in Hv; by apply andb_true_iff in Hv as [Hv _]).
  apply url_Parse_scheme in E as [?|(sc & Hsc & E)]; [done|]. destruct remote as [|c s]; [done|].
  change "-" with (single "-"). rewrite HasPrefix_first. destruct (Ascii.eqb_spec "-" c) as [<-|]; [|done]. simpl in Hsc.
  destruct (Cut s "#") as [[before after] found]. injection Hsc as <-. by rewrite E in Hs.
Qed.

(** ** A program logic for the agent *)

(** Every act of the program satisfies [P], given what happened before, and its
    result satisfies [Q]. *)
Fixpoint agent_ok {R} (P : list happened -> act -> Prop) (Q : list happened -> R -> Prop) (p : agent R) (hist : list happened) : Prop :=
  match p with
  | Done r => Q hist r
  | Act a k => P hist a /\ forall x, agent_ok P Q (k x) (hist ++ [existT a x])%list
  end.

Lemma agent_ok_bind {A B} P (Q : list happened -> B -> Prop) (p : agent A) f hist :
  agent_ok P (fun hist' a => agent_ok P Q (f a) hist') p hist -> agent_ok P Q (agent_bind p f) hist.
Proof. revert hist; induction p as [r|a k IH]; intros hist; simpl; [done|]. intros [Ha Hk]. split; [done|]. intros x. apply IH, Hk. Qed.

Lemma agent_ok_conseq {R} P P' (Q Q' : list happened -> R -> Prop) p hist :
  agent_ok P Q p hist -> (forall hist a, P hist a -> P' hist a) -> (forall hist r, Q hist r -> Q' hist r) -> agent_ok P' Q' p hist.
Proof. intros H HP HQ. revert hist H; induction p as [r|a k IH]; intros hist; simpl; [by auto|]. intros [Ha Hk]. auto. Qed.

(** A run makes only such acts. *)
Lemma agent_run_ok {R} h P (Q : list happened -> R -> Prop) p hist hist' r :
  agent_ok P Q p hist -> agent_run h p hist = (hist', r) ->
  Q hist' r /\ exists new, hist' = (hist ++ new)%list /\
    forall pre e post, new = (pre ++ e :: post)%list -> P (hist ++ pre)%list (projT1 e).
Proof.
  revert hist; induction p as [r0|a k IH]; intros hist; simpl.
  - intros HQ [= <- <-]. split; [done|]. exists []. rewrite app_nil_r. split; [done|]. by intros [|].
  - intros [Ha Hk] Hr. destruct (IH _ _ (Hk _) Hr) as (HQ & new & -> & Hnew). split; [done|].
    eexists. rewrite <- app_assoc. split; [reflexivity|]. intros [|e' pre] e post; simpl.
    + intros [= <- <-]. by rewrite app_nil_r.
    + intros [= <- ->]. specialize (Hnew pre e post eq_refl). by rewrite <- app_assoc in Hnew.
Qed.

(** ** Arguments *)

Definition fixed_options : list string :=
  ["--progress"; "--no-tags"; "--no-recurse-submodules"; "--no-write-fetch-head"; "--verify"; "-t"; "--is-ancestor"; "--heads";
   "--symref"; "--porcelain"; "--no-verify"; "-w"; "--stdin"; "--no-ext-diff"; "--no-textconv"; "--stat"; "--force"; "-B";
   "--connectivity-only"; "--no-dangling"; "--template="; "--no-local"].

(** An argument that Git could take for an option is one of the source's own, or
    the lease of a head ref. *)
Definition inert_word (a : string) : Prop :=
  HasPrefix a "-" = true -> a ∈ fixed_options \/ HasPrefix a "--force-with-lease=refs/heads/" = true.

(** So is every argument before the [--] that ends the options. *)
Definition inert (args : list string) : Prop :=
  exists words rest, (args = words \/ args = words ++ "--" :: rest)%list /\ Forall inert_word words.

Definition quiet_act (a : act) : Prop :=
  match a with AGit _ args => inert args /\ List.hd "" args <> "push" | _ => True end.

(** A program that only reads the remote. *)
Definition quietly {R} (p : agent R) : Prop := forall hist, agent_ok (fun _ => quiet_act) (fun _ _ => True) p hist.

Lemma quietly_bind {A B} (p : agent A) (f : A -> agent B) : quietly p -> (forall a, quietly (f a)) -> quietly (agent_bind p f).
Proof. intros Hp Hf hist. apply agent_ok_bind. eapply agent_ok_conseq; [apply Hp|done|]. intros hist' a _. apply Hf. Qed.

Lemma quietly_bind_post {A B} (Q : A -> Prop) (p : agent A) (f : A -> agent B) :
  (forall hist, agent_ok (fun _ => quiet_act) (fun _ => Q) p hist) -> (forall a, Q a -> quietly (f a)) -> quietly (agent_bind p f).
Proof. intros Hp Hf hist. apply agent_ok_bind. eapply agent_ok_conseq; [apply Hp|done|]. intros hist' a Ha. by apply Hf. Qed.

Lemma quietly_done {R} (r : R) : quietly (Done r).
Proof. by intros hist. Qed.

Lemma quietly_act {R} a (k : ans a -> agent R) : quiet_act a -> (forall x, quietly (k x)) -> quietly (agent_bind (act_of a) k).
Proof. intros Ha Hk hist. split; [done|]. intros x. apply Hk. Qed.
Lemma quietly_git {R} dir args (k : answer string -> agent R) :
  inert args -> List.hd "" args <> "push" -> (forall x, quietly (k x)) -> quietly (agent_bind (git dir args) k).
Proof. intros Ha Hp Hk. by apply quietly_act. Qed.

Lemma inert_literal a : HasPrefix a "-" = false \/ a ∈ fixed_options -> inert_word a.
Proof. intros [H|H] Ha; [congruence|by left]. Qed.

Lemma inert_prefix p a : HasPrefix p "-" = false -> p <> "" -> inert_word (p +:+ a).
Proof.
  intros Hp Hne Ha. destruct p as [|c p]; [done|]. change "-" with (single "-") in *. rewrite HasPrefix_first in Hp.
  change (String c p +:+ a) with (String c (p +:+ a)) in Ha. rewrite HasPrefix_first in Ha. congruence.
Qed.

(** The options end at the [--], or there is none. *)
Ltac inert_list args k :=
  lazymatch args with
  | "--" :: _ => k (@nil string)
  | ?a :: ?rest => inert_list rest ltac:(fun words => k (a :: words))
  | [] => k (@nil string)
  end.
Ltac inert_word :=
  first [apply inert_literal; first [left; reflexivity | right; apply (bool_decide_unpack _); vm_compute; exact I]
        |apply inert_literal; left; first [by apply oid_option | by apply branch_first | by apply remote_first]
        |apply inert_prefix; [reflexivity|discriminate]
        |let H := fresh in intros H; discriminate H].
Ltac inert :=
  lazymatch goal with
  | |- inert ?args => inert_list args ltac:(fun words => exists words);
      first [exists (@nil string); split; [left; reflexivity|] | eexists; split; [right; reflexivity|]];
      repeat first [apply List.Forall_nil | apply List.Forall_cons]; inert_word
  end.

(** ** Reading *)

(** What [refused_request] lets pass. *)
Record accepted (req : AgentRequest) : Prop := {
  acc_remote : ValidateRemote (ag_Remote req) = true;
  acc_branch : ag_Branch req = "" \/ ValidBranch (ag_Branch req) = true;
  acc_named : ag_Operation req = "workspace" -> ag_Branch req <> "";
  acc_haves : Forall (fun oid => ValidOID oid = true) (ag_Haves req) }.

Lemma valid_haves_oid haves seen : valid_haves haves seen = true -> Forall (fun oid => ValidOID oid = true) haves.
Proof.
  revert seen; induction haves as [|oid haves IH]; intros seen; simpl; [constructor|].
  destruct (negb (ValidOID oid) || _ || _) eqn:E; [done|]. intros H. bool_hyps. constructor; eauto.
Qed.

Lemma refused_request_accepted req : refused_request req = false -> accepted req.
Proof.
  unfold refused_request. intros H. repeat (apply orb_false_iff in H as [H ?]). bool_hyps. constructor; try done.
  - match goal with H : _ && negb (ValidBranch _) = false |- _ => apply andb_false_iff in H as [?|?]; bool_hyps; auto end.
  - intros Hop E. match goal with H : _ && (_ || _) = false |- _ => rewrite E, Hop in H; done end.
  - match goal with H : ValidHaves _ _ = true |- _ => unfold ValidHaves in H; case_match; [done|]; by eapply valid_haves_oid end.
Qed.

Ltac quietly :=
  repeat match goal with
  | |- quietly (Done _) => apply quietly_done
  | |- quietly (agent_bind (git _ _) _) => apply quietly_git; [inert|discriminate|intros ?]
  | |- quietly (agent_bind (act_of (AGit _ _)) _) => apply quietly_act; [split; [inert|discriminate]|intros ?]
  | |- quietly (agent_bind (act_of _) _) => apply quietly_act; [exact I|intros ?]
  | |- quietly (if ?b then _ else _) => let E := fresh "E" in destruct b eqn:E
  | |- quietly (match ?x with _ => _ end) => let E := fresh "E" in destruct x eqn:E
  | |- quietly (let '_ := _ in _) => cbv zeta
  end.

Lemma validatePushCommits_quiet dir old next :
  ValidOID old = true -> ValidOID next = true -> quietly (validatePushCommits dir old next).
Proof. intros. unfold validatePushCommits. quietly. Qed.

Lemma validate_heads_oid heads result m : validate_heads heads result = Some m -> Forall (fun hd => ValidOID (hd_OID hd) = true) heads.
Proof.
  revert result; induction heads as [|hd heads IH]; intros result; simpl; [constructor|]. unfold validate_head at 1.
  destruct (negb (ValidHeadRef (hd_Ref hd)) || _ || _ || _) eqn:E; [done|]. intros H. bool_hyps. constructor; eauto.
Qed.

Lemma fetchHead_quiet dir req : accepted req -> quietly (fetchHead dir req).
Proof.
  intros Hreq. unfold fetchHead. destruct (ValidateHeads (ag_Heads req)) as [m|] eqn:E; [|apply quietly_done].
  destruct (ag_Heads req) as [|hd [|]]; try apply quietly_done.
  assert (ValidOID (hd_OID hd) = true) as Ho.
  { unfold ValidateHeads in E. case_match; [done|]. by apply validate_heads_oid, Forall_cons in E as [? _]. }
  quietly. generalize (hd_OID hd +:+ single LF). pose proof (acc_haves _ Hreq) as Hh. revert Hh.
  induction (ag_Haves req) as [|have haves IH]; intros Hh revisions.
  - quietly.
  - apply Forall_cons in Hh as [? ?]. apply quietly_git; [inert|discriminate|]. intros r. by apply IH.
Qed.

Lemma readHeads_quiet dir req : accepted req -> quietly (readHeads dir req).
Proof. intros Hreq. unfold readHeads. case_match; [by apply fetchHead_quiet|]. quietly. Qed.

Lemma observeHead_quiet dir remote ref : quietly (observeHead dir remote ref).
Proof. unfold observeHead. quietly. Qed.

Lemma resolve_quiet dir req : quietly (resolve dir req).
Proof.
  unfold resolve. apply quietly_bind; [unfold resolve_branch; quietly|]. intros [branch|err]; [|quietly]. quietly.
Qed.

Lemma summary_base_quiet dir old hist :
  ValidOID old = true ->
  agent_ok (fun _ => quiet_act) (fun _ (r : answer string) => match r with inl base => ValidOID base = true | inr _ => True end)
    (summary_base dir old) hist.
Proof.
  intros Ho. unfold summary_base. case_match; [|done]. split; [split; [inert|discriminate]|]. intros [empty|err]; [|done]. simpl.
  destruct (negb (ValidOID (TrimSpace empty))) eqn:He; [done|]. by bool_hyps.
Qed.

Lemma prepare_quiet dir req : ag_Operation req <> "push" -> quietly (pushOperation dir req).
Proof.
  intros Hop. unfold pushOperation. case_match eqn:Hv; [apply quietly_done|]. bool_hyps. case_match; [by bool_hyps|].
  destruct (ag_Pack req); [|apply quietly_done]. case_match; [apply quietly_done|].
  apply quietly_bind; [apply observeHead_quiet|]. intros [old|err]; [|quietly]. case_match eqn:Ho; [apply quietly_done|]. bool_hyps. subst old.
  apply quietly_bind; [unfold fetch_target; quietly|]. intros [u|err]; [|quietly].
  apply quietly_act; [exact I|]. intros [err|]; [quietly|].
  apply quietly_bind; [by apply validatePushCommits_quiet|]. intros [v|err]; [|quietly].
  eapply quietly_bind_post; [intros hist; by apply summary_base_quiet|]. intros [base|err] Hbase; [|quietly]. simpl in Hbase. quietly.
Qed.

Lemma run_resolve_quiet dir req : quietly (run_resolve dir req).
Proof. unfold run_resolve. quietly. apply resolve_quiet. Qed.

(** The branch that a resolution names is a valid one. *)
Lemma run_resolve_branch dir req hist :
  agent_ok (fun _ => quiet_act) (fun _ (r : answer Response) =>
      match r with inl rsp => ValidBranch (drop_chars 11 (rsp_Ref rsp)) = true | inr _ => True end)
    (run_resolve dir req) hist.
Proof.
  unfold run_resolve. case_match; [done|]. split; [exact I|]. intros info. simpl. destruct info; try done. unfold resolve.
  apply agent_ok_bind.
  assert (quietly (resolve_branch dir req)) as Hb by (unfold resolve_branch; quietly).
  eapply agent_ok_conseq; [apply Hb|done|]. intros hist' [branch|err] _; [|done].
  destruct (negb (ValidBranch branch)) eqn:E; [done|]. bool_hyps.
  split; [split; [inert|discriminate]|]. intros [x|err]; [|done]. simpl. split; [split; [inert|discriminate]|]. intros [out|err']; [|done]. simpl.
  by destruct (negb (ValidOID (TrimSpace out))).
Qed.

Lemma populate_quiet req dir : accepted req -> quietly (populateRepository req dir).
Proof.
  intros Hreq. pose proof (acc_remote _ Hreq) as Hr. unfold populateRepository. apply quietly_act; [exact I|].
  intros info. destruct info; try apply quietly_done; [quietly|].
  apply quietly_bind; [unfold quarantine; quietly|]. intros [u|err]; [|quietly].
  apply quietly_act; [split; [inert|discriminate]|]. intros [x|err]; [|quietly].
  apply quietly_bind; [unfold own_remote; quietly|]. intros [v|err]; [|quietly].
  eapply quietly_bind_post; [intros hist; apply run_resolve_branch|]. intros [rsp|err] Hb; [|quietly]. simpl in Hb. quietly.
Qed.

Lemma prepare_workspace_quiet req workspaces :
  accepted req -> ag_Operation req = "workspace" -> quietly (prepare_workspace req workspaces).
Proof.
  intros Hreq Hop. destruct (acc_branch _ Hreq) as [?|Hb]; [by destruct (acc_named _ Hreq)|]. unfold prepare_workspace. quietly.
Qed.

(** Without the operation [push] the remote is only read. *)
Lemma RunAgent_quiet req repos workspaces : ag_Operation req <> "push" -> quietly (RunAgent req repos workspaces).
Proof.
  intros Hop. unfold RunAgent. destruct (refused_request req) eqn:Hreq; [apply quietly_done|].
  apply refused_request_accepted in Hreq. case_match; [by apply populate_quiet|].
  case_match; [bool_hyps; by apply prepare_workspace_quiet|]. case_match; [apply quietly_done|].
  apply quietly_act; [exact I|]. intros info. destruct info; try apply quietly_done. unfold run_in_repository.
  case_match; [apply resolve_quiet|]. case_match; [by apply readHeads_quiet|]. case_match; [|by apply prepare_quiet].
  case_match; [apply quietly_done|]. apply quietly_bind; [apply observeHead_quiet|]. intros [oid|err]; quietly.
Qed.

(** ** The external write *)

(** A command of this directory with its answer is in the history. *)
Definition ran (hist : list happened) (dir : string) (args : list string) (out : answer string) : Prop :=
  existT (AGit dir args) out ∈ hist.

Definition pushes (e : happened) : bool := match projT1 e with AGit _ args => List.hd "" args == "push" | _ => false end.

(** What has to precede a push: the new object is a commit, and for an existing
    ref a descendant of the old one. *)
Definition push_checked (dir : string) (req : AgentRequest) (hist : list happened) : Prop :=
  ran hist dir ["cat-file"; "-t"; ag_NewOID req] (inl ("commit" +:+ single LF)) /\
  (ag_OldOID req = ZeroOID \/ exists out, ran hist dir ["merge-base"; "--is-ancestor"; ag_OldOID req; ag_NewOID req] (inl out)).

Definition push_act (dir : string) (req : AgentRequest) (hist : list happened) (a : act) : Prop :=
  match a with
  | AGit d args => inert args /\
      (List.hd "" args = "push" -> ag_Operation req = "push" /\ d = dir /\ args = push_arguments req /\
         push_checked dir req hist /\ Forall (fun e => pushes e = false) hist /\
         ValidHeadRef (ag_Ref req) = true /\ ValidOID (ag_OldOID req) = true /\ ValidOID (ag_NewOID req) = true /\
         ValidateRemote (ag_Remote req) = true)
  | _ => True
  end.

(** What a push that returns a response has been told. *)
Definition push_confirmed (dir : string) (req : AgentRequest) (hist : list happened) (r : answer Response) : Prop :=
  forall rsp, ag_Operation req = "push" -> r = inl rsp ->
  rsp = mkResponse [] (ag_NewOID req) (ag_Ref req) 0 "" "" /\
  exists out, ran hist dir (push_arguments req) (inl out) /\ confirmedPush out req = true.

(** The report of exactly one update: one line with tabs, with the flag of a
    creation, of nothing to do or of a fast-forward, naming the commit and the
    branch. *)
Definition reports_update (old next ref out : string) : Prop :=
  exists before flag rest after_,
    Split out LF = (before ++ (flag +:+ String TAB ((next +:+ ":" +:+ ref) +:+ String TAB rest)) :: after_)%list /\
    Forall (no_sep TAB) before /\ Forall (no_sep TAB) after_ /\
    (old = ZeroOID -> flag = "*") /\ (old <> ZeroOID -> old = next -> flag = "=") /\ (old <> ZeroOID -> old <> next -> flag = " ").

Lemma Cut_found s sep before after_ : Cut s sep = (before, after_, true) -> s = before +:+ String sep after_ /\ no_sep sep before.
Proof.
  revert before. induction s as [|c s IH]; intros before; simpl; [done|].
  destruct (Ascii.eqb_spec c sep) as [->|Hc]; [by intros [= <- <-]|]. destruct (Cut s sep) as [[b a] f].
  intros [= <- <- ->]. destruct (IH b eq_refl) as [-> Hb]. split; [done|]. unfold no_sep. simpl. by rewrite (proj2 (Ascii.eqb_neq c sep) Hc).
Qed.

Lemma Cut_missing s sep before after_ : Cut s sep = (before, after_, false) -> no_sep sep s.
Proof.
  revert before. induction s as [|c s IH]; intros before; simpl; [done|].
  destruct (Ascii.eqb_spec c sep) as [->|Hc]; [done|]. destruct (Cut s sep) as [[b a] f].
  intros [= <- <- ->]. unfold no_sep. simpl. rewrite (proj2 (Ascii.eqb_neq c sep) Hc). by eapply IH.
Qed.

(** A line in three fields, or without a tab. *)
Lemma SplitN_line line : match SplitN line TAB 3 with
  | [_] => no_sep TAB line
  | [flag; refs; rest] => line = flag +:+ String TAB (refs +:+ String TAB rest)
  | _ => True
  end.
Proof.
  simpl. destruct (Cut line TAB) as [[flag tail] []] eqn:E; [|by eapply Cut_missing]. apply Cut_found in E as [-> _].
  destruct (Cut tail TAB) as [[refs rest] []] eqn:E; [|done]. by apply Cut_found in E as [-> _].
Qed.

Lemma porcelain_flag_spec req :
  (ag_OldOID req = ZeroOID -> porcelain_flag req = "*") /\
  (ag_OldOID req <> ZeroOID -> ag_OldOID req = ag_NewOID req -> porcelain_flag req = "=") /\
  (ag_OldOID req <> ZeroOID -> ag_OldOID req <> ag_NewOID req -> porcelain_flag req = " ").
Proof. unfold porcelain_flag. repeat case_bool_decide; done. Qed.

Lemma confirmed_lines_rest req lines : confirmed_lines req lines 1 = true -> Forall (no_sep TAB) lines.
Proof.
  assert (forall lines count, (2 <= count)%nat -> confirmed_lines req lines count = true -> False) as Hmany.
  { clear. intros lines. induction lines as [|line lines IH]; intros count Hc; cbn [confirmed_lines]; [rewrite Nat.eqb_eq; lia|].
    destruct (SplitN line TAB 3) as [|? [|? [|? [|]]]]; try done; [by apply IH|]. case_match; [done|]. apply IH. lia. }
  induction lines as [|line lines IH]; cbn [confirmed_lines]; [constructor|]. pose proof (SplitN_line line) as Hl.
  destruct (SplitN line TAB 3) as [|? [|? [|? [|]]]]; try done; [constructor; auto|]. case_match; [done|].
  intros Hc. by apply Hmany in Hc; [|lia].
Qed.

Lemma confirmedPush_report req out :
  confirmedPush out req = true -> reports_update (ag_OldOID req) (ag_NewOID req) (ag_Ref req) out.
Proof.
  unfold confirmedPush, reports_update. induction (Split out LF) as [|line lines IH]; [done|].
  cbn [confirmed_lines]. pose proof (SplitN_line line) as Hl.
  destruct (SplitN line TAB 3) as [|flag [|refs [|rest [|]]]]; try done.
  - intros (before & f & rest & after_ & -> & Hb & H)%IH. exists (line :: before), f, rest, after_.
    split; [done|]. split; [by constructor|done].
  - case_match eqn:E; [done|]. bool_hyps. subst. intros Ha%confirmed_lines_rest.
    exists [], (porcelain_flag req), rest, lines. split_and!; [done|constructor|done|apply porcelain_flag_spec..].
Qed.

Lemma ran_here hist dir args out : ran (hist ++ [existT (AGit dir args) out]) dir args out.
Proof. apply elem_of_app. right. by apply list_elem_of_singleton. Qed.
Lemma ran_before hist e dir args out : ran hist dir args out -> ran (hist ++ [e]) dir args out.
Proof. intros H. apply elem_of_app. by left. Qed.

Lemma quiet_history hist e : Forall (fun e => pushes e = false) hist -> pushes e = false -> Forall (fun e => pushes e = false) (hist ++ [e]).
Proof. intros. apply Forall_app. split; [done|]. by constructor. Qed.

Lemma push_arguments_inert req : ValidHeadRef (ag_Ref req) = true -> inert (push_arguments req).
Proof.
  intros (name & Hn & _)%ValidHeadRef_shape. unfold push_arguments. rewrite Hn.
  match goal with |- inert ("push" :: "--porcelain" :: "--no-verify" :: ?lease :: "--" :: ?rest) =>
    exists ["push"; "--porcelain"; "--no-verify"; lease], rest end.
  split; [by right|]. repeat first [apply List.Forall_nil | apply List.Forall_cons]; [inert_word..|].
  intros _. right. exact (HasPrefix_refl "--force-with-lease=refs/heads/" (name +:+ ":" +:+ _)).
Qed.

(** From the checks of the commits to the confirmation. *)
Lemma push_prepared_ok dir req hist :
  ag_Operation req = "push" -> ValidateRemote (ag_Remote req) = true -> ValidHeadRef (ag_Ref req) = true ->
  ValidOID (ag_OldOID req) = true -> ValidOID (ag_NewOID req) = true -> Forall (fun e => pushes e = false) hist ->
  agent_ok (push_act dir req) (push_confirmed dir req) (push_prepared dir req) hist.
Proof.
  intros Hop Hrem Href Hold Hnew Hq. unfold push_prepared. case_match; [by intros rsp|]. apply agent_ok_bind.
  assert (forall hist', Forall (fun e => pushes e = false) hist' -> push_checked dir req hist' ->
    agent_ok (push_act dir req) (push_confirmed dir req)
      (output <- git dir (push_arguments req) or message ;; refuse_if negb (confirmedPush output req) ;;
       Done (inl (mkResponse [] (ag_NewOID req) (ag_Ref req) 0 "" ""))) hist') as Hpush.
  { intros hist' Hq' Hc. split.
    - split; [by apply push_arguments_inert|]. intros _. by split_and!.
    - intros [out|err]; [|by intros rsp]. simpl. destruct (negb (confirmedPush out req)) eqn:E; [by intros rsp|]. bool_hyps.
      intros rsp _ [= <-]. split; [done|]. exists out. split; [apply ran_here|done]. }
  unfold validatePushCommits. split; [split; [inert|done]|]. intros [kind|err]; [|by intros rsp]. simpl.
  destruct (kind != _) eqn:Hk; [by intros rsp|]. bool_hyps. subst kind.
  assert (Forall (fun e => pushes e = false) (hist ++ [existT (AGit dir ["cat-file"; "-t"; ag_NewOID req]) (inl ("commit" +:+ single LF))])) as Hq1
    by by apply quiet_history.
  destruct (ag_OldOID req != ZeroOID) eqn:Ho; bool_hyps.
  - split; [split; [inert|done]|]. intros [out|err]; [|by intros rsp]. simpl. apply Hpush.
    + by apply quiet_history.
    + split; [apply ran_before, ran_here|]. right. exists out. apply ran_here.
  - apply Hpush; [done|]. split; [apply ran_here|by left].
Qed.

Lemma RunAgent_push req repos workspaces :
  ag_Operation req = "push" ->
  agent_ok (push_act (path_Join repos (ag_Repository req)) req) (push_confirmed (path_Join repos (ag_Repository req)) req)
    (RunAgent req repos workspaces) [].
Proof.
  intros Hop. unfold RunAgent. destruct (refused_request req) eqn:Hreq; [by intros rsp|].
  apply refused_request_accepted in Hreq as [Hrem _ _ _]. rewrite !Hop.
  change ("push" == "clone") with false. change ("push" == "workspace") with false. cbv iota.
  case_match; [by intros rsp|]. split; [exact I|]. intros info. destruct info; try by intros rsp.
  unfold run_in_repository. rewrite !Hop. change ("push" == "resolve") with false.
  change (("push" == "list") || ("push" == "fetch")) with false. change ("push" == "observe") with false. cbv iota.
  unfold pushOperation. case_match eqn:Hv; [by intros rsp|]. bool_hyps. rewrite Hop. change ("push" == "push") with true. cbv iota.
  apply push_prepared_ok; try done. by repeat constructor.
Qed.

(** Every operation, with every answer of Git. *)
Lemma RunAgent_acts req repos workspaces :
  agent_ok (push_act (path_Join repos (ag_Repository req)) req) (push_confirmed (path_Join repos (ag_Repository req)) req)
    (RunAgent req repos workspaces) [].
Proof.
  destruct (decide (ag_Operation req = "push")) as [Hop|Hop]; [by apply RunAgent_push|].
  eapply agent_ok_conseq; [by apply RunAgent_quiet| |].
  - intros hist [] Ha; try done. destruct Ha as [Hi Hp]. split; [done|]. by intros ?.
  - intros hist r _ rsp. done.
Qed.
