(* ===== verification/GoDigest.v ===== *)
(** * Go's crypto/sha256

    [sha256.Sum256] on a byte string, with 32-bit words as Z: the registry of Git
    repositories names a repository by the digest of its canonical remote. *)

From S2P Require Import Prelude GoText.
From Stdlib Require Import Ascii String.
Open Scope string_scope.

Definition word (z : Z) : Z := Z.land z 0xFFFFFFFF.
Definition rotr (n x : Z) : Z := Z.lor (Z.shiftr x n) (word (Z.shiftl x (32 - n))).

(** The largest number whose cube is at most [z], bit by bit from bit [n]. *)
Fixpoint cube_root (n : nat) (z root : Z) : Z :=
  match n with
  | O => root
  | S n => let next := (root + 2 ^ Z.of_nat n)%Z in cube_root n z (if (next ^ 3 <=? z)%Z then next else root)
  end.

Definition is_prime (p : nat) : bool := forallb (fun d => negb (p mod d =? 0)%nat) (seq 2 (p - 2)).
Definition primes (below : nat) : list Z := Z.of_nat <$> List.filter is_prime (seq 2 (below - 2)).

(** The constants of the standard: the first 32 bits of the fractional parts of the
    cube roots of the first 64 primes, and of the square roots of the first 8. *)
Definition round_constants : list Z :=
  Eval vm_compute in (fun p => word (cube_root 36 (p * 2 ^ 96) 0)) <$> primes 312.
Definition initial_hash : list Z :=
  Eval vm_compute in (fun p => word (Z.sqrt (p * 2 ^ 64))) <$> primes 20.

(** The big-endian bytes of a number, [n] of them. *)
Fixpoint big_endian (n : nat) (z : Z) : list Z :=
  match n with O => [] | S n => (big_endian n (Z.shiftr z 8) ++ [Z.land z 255])%list end.

(** The message with its padding, in bytes. *)
Definition padded (bytes : list Z) : list Z :=
  let zeros := Z.to_nat ((55 - Z.of_nat (List.length bytes)) mod 64) in
  (bytes ++ [0x80%Z] ++ replicate zeros 0%Z ++ big_endian 8 (8 * Z.of_nat (List.length bytes)))%list.

Fixpoint words (bytes : list Z) : list Z :=
  match bytes with
  | a :: b :: c :: d :: rest => (Z.shiftl a 24 + Z.shiftl b 16 + Z.shiftl c 8 + d)%Z :: words rest
  | _ => []
  end.

Definition nth_word (l : list Z) (i : nat) : Z := List.nth i l 0%Z.

(** The message schedule, newest word first. *)
Fixpoint schedule (n : nat) (w : list Z) : list Z :=
  match n with
  | O => w
  | S n =>
    let x := nth_word w 14 in let y := nth_word w 1 in
    let s0 := Z.lxor (Z.lxor (rotr 7 x) (rotr 18 x)) (Z.shiftr x 3) in
    let s1 := Z.lxor (Z.lxor (rotr 17 y) (rotr 19 y)) (Z.shiftr y 10) in
    schedule n (word (nth_word w 15 + s0 + nth_word w 6 + s1) :: w)
  end.

Definition compress_round (st : list Z) (kw : Z * Z) : list Z :=
  match st with
  | [a; b; c; d; e; f; g; h] =>
    let s1 := Z.lxor (Z.lxor (rotr 6 e) (rotr 11 e)) (rotr 25 e) in
    let ch := Z.lxor (Z.land e f) (Z.land (Z.lxor e 0xFFFFFFFF) g) in
    let t1 := (h + s1 + ch + kw.1 + kw.2)%Z in
    let s0 := Z.lxor (Z.lxor (rotr 2 a) (rotr 13 a)) (rotr 22 a) in
    let maj := Z.lxor (Z.lxor (Z.land a b) (Z.land a c)) (Z.land b c) in
    [word (t1 + s0 + maj); a; b; c; word (d + t1); e; f; g]
  | _ => st
  end.

Definition compress (hash block : list Z) : list Z :=
  let w := rev (schedule 48 (rev block)) in
  zip_with (fun x y => word (x + y)) hash (foldl compress_round hash (zip round_constants w)).

(** Blocks of sixteen words; the fuel is their number at most. *)
Fixpoint digest_blocks (fuel : nat) (hash ws : list Z) : list Z :=
  match fuel, ws with
  | S fuel, _ :: _ => digest_blocks fuel (compress hash (take 16 ws)) (drop 16 ws)
  | _, _ => hash
  end.

Definition Sum256 (s : string) : list ascii :=
  let ws := words (padded (Z.of_N ∘ byte <$> list_ascii_of_string s)) in
  ascii_of_N ∘ Z.to_N <$> (digest_blocks (List.length ws) initial_hash ws ≫= big_endian 4).

(** The digest of the standard's example. *)
Lemma Sum256_abc : EncodeToString (Sum256 "abc") = "ba7816bf8f01cfea414140de5dae2223b00361a396177a9cb410ff61f20015ad".
Proof. by vm_compute. Qed.
