(* ===== verification/GitRegistry.v ===== *)
(** * The registry of Git repositories and Workspaces

    [src/internal/git]: [repository.go], [import.go], [import_set.go],
    [import_tree.go], [restore.go], [restore_selection.go], [source_delete.go],
    [workspace_delete.go], [environment_workspace.go].  Every source repository
    and every Workspace copy is a JSON record in one directory; the service owns
    native volumes through these records.  A method is a program over its calls
    of the backend, of the snapshot catalog and of the file system, with the
    mutex of the service as explicit calls.  Contexts with a timeout for cleanup
    are left out: a call may fail at any time anyway. *)

From S2P Require Import Prelude GoText GoStrings GoURL GoDigest Core CoreChecks GitProtocol.
From Stdlib Require Import Ascii String.
Open Scope string_scope.

(** ** Records *)

#[warnings="-register-all"] Inductive Object := mkObject {
  ob_Excluded : bool; ob_RestoredFrom : string; ob_Kind : string; ob_ID : string; ob_Repository : string;
  ob_Remote : string; ob_Branch : string; ob_NativeRef : string; ob_Owner : string; ob_State : string;
  ob_Members : list Object }.

Definition zeroObject : Object := mkObject false "" "" "" "" "" "" "" "" "" [].

(** [reflect.DeepEqual] on objects (a nil list and an empty one come from the same JSON). *)
Fixpoint Object_Equal (a b : Object) : bool :=
  match a, b with
  | mkObject e1 f1 k1 i1 r1 u1 b1 n1 o1 s1 m1, mkObject e2 f2 k2 i2 r2 u2 b2 n2 o2 s2 m2 =>
    (e1 == e2) && (f1 == f2) && (k1 == k2) && (i1 == i2) && (r1 == r2) && (u1 == u2) && (b1 == b2) && (n1 == n2) &&
    (o1 == o2) && (s1 == s2) &&
    (fix go (l1 l2 : list Object) : bool :=
       match l1, l2 with
       | [], [] => true
       | x :: l1, y :: l2 => Object_Equal x y && go l1 l2
       | _, _ => false
       end) m1 m2
  end.

Definition ob_with_State (state : string) (o : Object) : Object :=
  mkObject (ob_Excluded o) (ob_RestoredFrom o) (ob_Kind o) (ob_ID o) (ob_Repository o) (ob_Remote o) (ob_Branch o)
    (ob_NativeRef o) (ob_Owner o) state (ob_Members o).
Definition ob_with_Members (members : list Object) (o : Object) : Object :=
  mkObject (ob_Excluded o) (ob_RestoredFrom o) (ob_Kind o) (ob_ID o) (ob_Repository o) (ob_Remote o) (ob_Branch o)
    (ob_NativeRef o) (ob_Owner o) (ob_State o) members.
Definition ob_with_Excluded (excluded : bool) (o : Object) : Object :=
  mkObject excluded (ob_RestoredFrom o) (ob_Kind o) (ob_ID o) (ob_Repository o) (ob_Remote o) (ob_Branch o)
    (ob_NativeRef o) (ob_Owner o) (ob_State o) (ob_Members o).

Definition Copies (o : Object) : list Object := match ob_Members o with [] => [o] | members => members end.

Definition MaxWorkspaceRepositories : nat := 253.

Definition validSavedID (id : string) : bool :=
  (len id <=? 41)%Z && match ValidateEnvironmentName id with Ok _ => true | Err _ => false end.

Definition member_id (prefix group repository owner : string) : string :=
  let id := group +:+ "-" +:+ repository in if ValidID id then id else prefix +:+ owner.
Definition workspaceMemberID (group repository owner : string) : string := member_id "work-" group repository owner.
Definition restoredWorkspaceMemberID (group repository owner : string) : string := member_id "restored-" group repository owner.

(** The common part of [validObject], without the members. *)
Definition valid_identity (o : Object) : bool :=
  ((ob_RestoredFrom o == "") || validSavedID (ob_RestoredFrom o)) &&
  ValidID (ob_ID o) && ((ob_Kind o == "work") || (ob_Kind o == "repo")) && (len (ob_Owner o) == 32%Z).

Definition valid_single (o : Object) : bool :=
  let routing := if ob_Kind o == "work" then ValidWorkspaceRouting (ob_Remote o) (ob_Branch o)
                 else ((ob_Branch o == "") || ValidBranch (ob_Branch o)) && ValidateRemote (ob_Remote o) in
  ValidID (ob_Repository o) && routing && (ob_NativeRef o != "").

(** A member of a collection; it has no members of its own, so the recursion of
    [validObject] ends here. *)
Definition valid_member (o member : Object) : bool :=
  let expectedID := if ob_RestoredFrom o != "" then restoredWorkspaceMemberID (ob_ID o) (ob_Repository member) (ob_Owner member)
                    else workspaceMemberID (ob_ID o) (ob_Repository member) (ob_Owner member) in
  (List.length (ob_Members member) =? 0)%nat && (ob_Kind member == "work") && (ob_RestoredFrom member == ob_RestoredFrom o) &&
  (ob_ID member == expectedID) && valid_identity member && valid_single member &&
  negb ((ob_State o == "ready") && (ob_State member != "ready")).

Fixpoint valid_members (o : Object) (members : list Object) (seen : gset string) : bool :=
  match members with
  | [] => true
  | member :: members =>
    valid_member o member && bool_decide (ob_Repository member ∉ seen) &&
    valid_members o members ({[ob_Repository member]} ∪ seen)
  end.

Definition validObject (o : Object) : bool :=
  valid_identity o &&
  match ob_Members o with
  | [] => valid_single o
  | members =>
    (ob_Kind o == "work") && (2 <=? List.length members)%nat && (List.length members <=? MaxWorkspaceRepositories)%nat &&
    (ob_NativeRef o == "") && (ob_Repository o == "") && (ob_Remote o == "") && (ob_Branch o == "") &&
    valid_members o members ∅
  end.

(** A saved Workspace of a snapshot. *)
Record SavedWorkspace := mkSaved { sw_Component : SnapshotComponent; sw_Repository : string; sw_Remote : string; sw_Branch : string }.

(** ** Calls *)

(** What reading a record file finds. *)
Inductive content := NoFile | ReadFailed (err : goerror) | Unreadable | Readable (o : Object).

(** A directory entry: its name and whether it is a regular file. *)
Record dirent := mkDirent { de_name : string; de_regular : bool }.

Inductive geff :=
| Lock | Unlock
| RandomID | CtxErr
| ReadFile (kind id : string)
| ReadDir
| Reserve (o : Object)
| Save (o : Object)
| RemoveFile (kind id : string)
| SyncDir
| Plan (kind id : string)
| CreateVolume (o : Object) (source : option Object)
| InspectVolume (o : Object)
| Populate (o : Object)
| BackendGit (req : AgentRequest)
| PrepareRepository (o : Object)
| ImportWorkspaceVolume (o : Object) (archive : nat)
| ImportWorkspaceTreeVolume (o : Object)
| CheckSourceDeletion (o : Object)
| DeleteSourceVolume (o : Object)
| CheckWorkspaceVolumeDeletion (o : Object)
| DeleteWorkspaceVolume (o : Object)
| SavedWorkspaces (saved : Snapshot)
| PlanSavedWorkspace (id : string) (source : SavedWorkspace)
| CreateSavedWorkspace (o : Object) (source : SavedWorkspace)
| BeginSnapshotWorkspaceCopy (saved : Snapshot) (id owner : string)
| FinishSnapshotWorkspaceCopy (saved id owner : string)
| PrepareData (workspace : Workspace).

Definition greply (e : geff) : Type :=
  match e with
  | Lock | Unlock => unit
  | RandomID => string
  | ReadFile _ _ => content
  | ReadDir => option (answer (list dirent))
  | Plan _ _ | PlanSavedWorkspace _ _ => answer string
  | BackendGit _ => answer Response
  | SavedWorkspaces _ => answer (list SavedWorkspace)
  | _ => option goerror
  end.

Inductive reg (R : Type) :=
| GRet (r : R)
| GDo (e : geff) (k : greply e -> reg R).
Arguments GRet {R}. Arguments GDo {R}.

Fixpoint reg_bind {A B} (p : reg A) (f : A -> reg B) : reg B :=
  match p with GRet r => f r | GDo e k => GDo e (fun a => reg_bind (k a) f) end.
Definition do (e : geff) : reg (greply e) := GDo e GRet.

Declare Scope reg_scope.
Delimit Scope reg_scope with reg.
Notation "x <~ p ;; k" := (reg_bind p (fun x => k)) (at level 100, p at next level, right associativity) : reg_scope.
Notation "x <- p 'else' f ;; k" := (reg_bind p (fun a => match a with inl x => k | inr err => GRet (f err) end))
  (at level 100, p at next level, f at next level, right associativity) : reg_scope.
Notation "'check' p 'else' f ;; k" := (reg_bind p (fun a => match a with None => k | Some err => GRet (f err) end))
  (at level 100, p at next level, f at next level, right associativity) : reg_scope.
Notation "'unless' b 'return' r ;; k" := (if b then GRet r else k) (at level 100, b at next level, r at next level, right associativity) : reg_scope.
Open Scope reg_scope.

(** [s.mu.Lock(); defer s.mu.Unlock()]. *)
Definition locked_reg {R} (p : reg R) : reg R := _ <~ do Lock ;; r <~ p ;; _ <~ do Unlock ;; GRet r.

(** A returned object with an error beside it. *)
Notation outcome := (Object * option goerror)%type.
Definition fails (e : error) : outcome := (zeroObject, Some (Plain e)).
Definition failed (err : goerror) : outcome := (zeroObject, Some err).
Definition recover (o : Object) (err : goerror) : outcome := (o, Some (Joined [err; Plain ErrRecoveryRequired])).

(** ** Reading *)

(** The length of what [json.Encoder] writes.  A string is quoted, with the
    escapes of [encoding/json]: two bytes for a quote, a backslash and the usual
    control characters, six for other control characters, for [<], [>] and [&],
    for U+2028 and U+2029 and for a byte that is not UTF-8. *)
Definition encoded_rune (r : option N) : Z :=
  match r with
  | None => 6
  | Some r =>
    if (r <? 0x80)%N then
      if bool_decide (r ∈ [0x22; 0x5C; 0x08; 0x09; 0x0A; 0x0C; 0x0D]%N) then 2
      else if (r <? 0x20)%N || bool_decide (r ∈ [0x3C; 0x3E; 0x26]%N) then 6 else 1
    else if (r <? 0x800)%N then 2
    else if bool_decide (r ∈ [0x2028; 0x2029]%N) then 6
    else if (r <? 0x10000)%N then 3 else 4
  end%Z.
Definition encoded_string (s : string) : Z := foldr (fun r n => encoded_rune r + n)%Z 2%Z (runes s).

(** [{"a":x,"b":y}]: a brace, and for each field its quoted name, the colon, the
    value and the comma or the closing brace. *)
Definition field (name : string) (value : Z) : Z := (len name + 3 + value + 1)%Z.
Definition omitempty (value name : string) : Z := if value == "" then 0%Z else field name (encoded_string value).

Fixpoint encoded_object (o : Object) : Z :=
  match o with
  | mkObject excluded restored kind id repository remote branch nativeRef owner state members =>
    1 + (if excluded then field "excluded" (len "true") else 0) + omitempty restored "restored_from" +
    field "kind" (encoded_string kind) + field "id" (encoded_string id) + field "repository" (encoded_string repository) +
    field "remote" (encoded_string remote) + omitempty branch "branch" + field "native_ref" (encoded_string nativeRef) +
    field "owner" (encoded_string owner) + field "state" (encoded_string state) +
    match members with
    | [] => 0
    | _ => field "members" (foldr (fun m n => encoded_object m + 1 + n) 1 members)
    end
  end%Z.

(** The line of a record file, with its newline. *)
Definition encoded_record (o : Object) : Z := (encoded_object o + 1)%Z.
Definition maxRecord : Z := Z.shiftl 1 20.

Definition readObject (kind id : string) : reg outcome :=
  c <~ do (ReadFile kind id) ;;
  GRet match c with
       | NoFile => fails ErrNotFound
       | ReadFailed err => failed err
       | Unreadable => fails ErrIncompatibleState
       | Readable o =>
         if (maxRecord <? encoded_record o)%Z || (ob_ID o != id) || (ob_Kind o != kind) || negb (validObject o) then fails ErrIncompatibleState else (o, None)
       end.

Definition Get (kind id : string) : reg outcome :=
  unless ((kind != "repo") && (kind != "work")) || negb (ValidID id) return fails ErrInvalidArgument ;;
  r <~ readObject kind id ;;
  match r with
  | (object, Some err) => GRet (object, Some err)
  | (object, None) =>
    unless ob_State object != "ready" return (object, Some (Wrapped (Plain ErrRecoveryRequired))) ;;
    GRet (if kind == "repo" then ob_with_Excluded false object else object, None)
  end.

(** A record that has to be there, as its own answer. *)
Definition the (p : reg outcome) : reg (answer Object) :=
  r <~ p ;; GRet match r with (object, None) => inl object | (_, Some err) => inr err end.

(** One entry of the directory: skipped, or an object, or an error. *)
Definition list_entry (kind : string) (entry : dirent) : reg (option (answer Object)) :=
  let name := de_name entry in
  unless negb (HasPrefix name (kind +:+ "-")) || negb (HasSuffix name ".json") return None ;;
  let id := TrimSuffix (TrimPrefix name (kind +:+ "-")) ".json" in
  unless negb (ValidID id) || negb (de_regular entry) return Some (inr (Plain ErrIncompatibleState)) ;;
  o <~ the (readObject kind id) ;; GRet (Some o).

Fixpoint list_entries (kind : string) (entries : list dirent) (result : list Object) : reg (answer (list Object)) :=
  match entries with
  | [] => GRet (inl result)
  | entry :: entries =>
    check do CtxErr else inr ;;
    o <~ list_entry kind entry ;;
    match o with
    | None => list_entries kind entries result
    | Some (inr err) => GRet (inr err)
    | Some (inl o) => list_entries kind entries (result ++ [o])%list
    end
  end.

Definition listObjects (kind : string) : reg (answer (list Object)) :=
  d <~ do ReadDir ;;
  match d with
  | None => GRet (inl [])
  | Some (inr err) => GRet (inr err)
  | Some (inl entries) => list_entries kind entries []
  end.

Definition ListWorkspaces : reg (answer (list Object)) := locked_reg (listObjects "work").

Definition routed (id : string) (o : Object) : bool :=
  existsb (fun member => (ob_Remote member != "") && (ob_Repository member == id)) (Copies o).

Record SourceUse := mkSourceUse { su_Source : Object; su_Workspaces : list string }.

Definition ListSources : reg (answer (list SourceUse)) :=
  locked_reg (
    sources <- listObjects "repo" else inr ;;
    work <- listObjects "work" else inr ;;
    GRet (inl ((fun source => mkSourceUse source (ob_ID <$> List.filter (routed (ob_ID source)) work))
               <$> List.filter (fun source => negb (ob_Excluded source)) sources))).

(** ** Preparation of volumes *)

(** What the backend offers beyond its interface, and whether a snapshot catalog is set. *)
Record Backend := mkBackend {
  bk_PrepareRepository : bool; bk_DeleteWorkspaceVolume : bool; bk_CheckedDeletion : bool; bk_Import : bool;
  bk_ImportTree : bool; bk_DeleteSource : bool; bk_Saved : bool; SnapshotCatalog : bool }.

Section Service.
Context (backend : Backend).

Definition resolveBranch (repo : Object) (branch : string) : reg (answer string) :=
  result <- do (BackendGit (mkAgentRequest [] "" [] "resolve" (ob_ID repo) "" (ob_Remote repo) branch "" "" None)) else inr ;;
  let name := TrimPrefix (rsp_Ref result) "refs/heads/" in
  unless negb (HasPrefix (rsp_Ref result) "refs/heads/") || negb (ValidBranch name) ||
      ((branch != "") && (rsp_Ref result != ("refs/heads/" +:+ branch))) || negb (ValidOID (rsp_OID result))
    return inr (Plain ErrIncompatibleState) ;;
  GRet (inl name).

(** [resumePrepared]; [populate] may be nil. *)
Definition resumePrepared (object : Object) (create : Object -> reg (option goerror))
    (populate : option (Object -> reg (option goerror))) : reg outcome :=
  check do CtxErr else recover object ;;
  unless (ob_State object != "creating") && (ob_State object != "created") return (object, Some (Plain ErrIncompatibleState)) ;;
  check create object else recover object ;;
  let created := ob_with_State "created" object in
  check (if ob_State object != "created" then do (Save created) else GRet None) else recover created ;;
  check do (InspectVolume created) else recover created ;;
  check (match populate with Some fill => fill created | None => GRet None end) else recover created ;;
  let ready := ob_with_State "ready" created in
  check do (Save ready) else recover ready ;;
  GRet (ready, None).

Definition createPrepared (object : Object) (create : Object -> reg (option goerror))
    (populate : option (Object -> reg (option goerror))) : reg outcome :=
  check do CtxErr else failed ;;
  ref <- do (Plan (ob_Kind object) (ob_ID object)) else failed ;;
  owner <~ do RandomID ;;
  let object := mkObject (ob_Excluded object) (ob_RestoredFrom object) (ob_Kind object) (ob_ID object) (ob_Repository object)
                  (ob_Remote object) (ob_Branch object) ref owner "creating" (ob_Members object) in
  check do (Reserve object) else failed ;;
  resumePrepared object create populate.

Definition create (object : Object) (source : option Object) : reg outcome :=
  createPrepared object (fun o => do (CreateVolume o source)) (Some (fun o => do (Populate o))).

(** The members of a collection before and from position [i]. *)
Fixpoint prepare_members (object : Object) (before rest : list Object) (create_ : nat -> Object -> reg (option goerror))
    (populate : option (Object -> reg (option goerror))) : reg outcome :=
  let whole := fun member rest => ob_with_Members (before ++ member :: rest)%list object in
  match rest with
  | [] =>
    let ready := ob_with_State "ready" (ob_with_Members before object) in
    check do (Save ready) else recover ready ;;
    GRet (ready, None)
  | member :: rest =>
    check create_ (List.length before) member else recover (whole member rest) ;;
    let created := ob_with_State "created" member in
    check do (Save (whole created rest)) else recover (whole created rest) ;;
    check do (InspectVolume created) else recover (whole created rest) ;;
    check (match populate with Some fill => fill created | None => GRet None end) else recover (whole created rest) ;;
    let ready := ob_with_State "ready" created in
    check do (Save (whole ready rest)) else recover (whole ready rest) ;;
    prepare_members object (before ++ [ready])%list rest create_ populate
  end.

Definition createPreparedSet (object : Object) (create_ : nat -> Object -> reg (option goerror))
    (populate : option (Object -> reg (option goerror))) : reg outcome :=
  check do (Reserve object) else failed ;;
  prepare_members object [] (ob_Members object) create_ populate.

(** ** Sources *)

(** An existing source of the same remote is repaired and registered again. *)
Definition repair_source (source : Object) : reg outcome :=
  r <~ (if bk_PrepareRepository backend then
          e <~ do (PrepareRepository source) ;; GRet (source, e)
        else if ob_State source != "ready" then
          resumePrepared source (fun o => do (CreateVolume o None)) (Some (fun o => do (Populate o)))
        else
          e <~ do (InspectVolume source) ;;
          GRet (match e with Some err => recover source err | None => (source, None) end)) ;;
  match r with
  | (source, Some err) => GRet (source, Some err)
  | (source, None) =>
    _ <- resolveBranch source "" else (fun err => (source, Some err)) ;;
    let source := ob_with_Excluded false (ob_with_State "ready" source) in
    e <~ do (Save source) ;; GRet (source, e)
  end.

(** The source whose canonical remote is this one; [None] inside is an unusable record. *)
Fixpoint find_source (canonical : string) (sources : list Object) : option (option Object) :=
  match sources with
  | [] => Some None
  | source :: sources =>
    match CanonicalRemote (ob_Remote source) with
    | None => None
    | Some normalized => if normalized != canonical then find_source canonical sources else Some (Some source)
    end
  end.

Definition Add (id remote : string) : reg outcome :=
  match CanonicalRemote remote with
  | None => GRet (fails ErrInvalidArgument)
  | Some canonical =>
    unless (id != "") && negb (ValidID id) return fails ErrInvalidArgument ;;
    let remote := if ValidateRemote remote then remote else canonical in
    locked_reg (
      sources <- listObjects "repo" else failed ;;
      match find_source canonical sources with
      | None => GRet (fails ErrMessage)
      | Some (Some source) => repair_source source
      | Some None =>
        let id := if id == "" then "repo-" +:+ EncodeToString (take 6 (Sum256 canonical)) else id in
        create (mkObject false "" "repo" id id remote "" "" "" "" []) None
      end)
  end.

Definition valid_owner (owner : string) : bool := ValidPersistentResourceRef (mkRef "oci:identity" owner).

Definition DeleteSource (id owner : string) : reg (option goerror) :=
  unless negb (ValidID id) || negb (valid_owner owner) return Some (Plain ErrInvalidArgument) ;;
  unless negb (bk_DeleteSource backend) return Some (Plain ErrUnsupported) ;;
  locked_reg (
    source <- the (readObject "repo" id) else Some ;;
    unless ob_Owner source != owner return Some (Plain ErrCapabilityStale) ;;
    unless (ob_State source != "ready") && (ob_State source != "deleting") return Some (Plain ErrRecoveryRequired) ;;
    work <- listObjects "work" else Some ;;
    unless existsb (routed id) work return Some (Plain ErrStorageBusy) ;;
    check do (CheckSourceDeletion source) else Some ;;
    let source := ob_with_State "deleting" source in
    check do (Save source) else Some ;;
    check do (DeleteSourceVolume source) else (fun err => Some (Joined [Plain ErrRecoveryRequired; err])) ;;
    check do (RemoveFile "repo" id) else Some ;;
    do SyncDir).

Definition UnregisterSource (id owner : string) : reg (option goerror) :=
  locked_reg (
    source <- the (readObject "repo" id) else Some ;;
    unless ob_Owner source != owner return Some (Plain ErrCapabilityStale) ;;
    do (Save (ob_with_Excluded true source))).

Definition stale_source (expected current : Object) (req : AgentRequest) : bool :=
  (ob_Kind expected != "repo") || negb (Object_Equal current expected) ||
  (ag_Repository req != ob_ID expected) || (ag_Remote req != ob_Remote expected).

Definition RunGit (expected : Object) (req : AgentRequest) : reg (answer Response) :=
  locked_reg (
    r <~ Get "repo" (ob_ID expected) ;;
    match r with
    | (current, None) =>
      unless stale_source expected current req return inr (Plain ErrCapabilityStale) ;;
      do (BackendGit req)
    | (_, Some _) => GRet (inr (Plain ErrCapabilityStale))
    end).

(** ** Workspaces *)

Definition CopyWorkspaceBranch (id repository branch : string) : reg outcome :=
  unless negb (ValidID id) || negb (ValidID repository) || ((branch != "") && negb (ValidBranch branch))
    return fails ErrInvalidArgument ;;
  locked_reg (
    repo <- the (Get "repo" repository) else failed ;;
    check do (InspectVolume repo) else failed ;;
    branch <- resolveBranch repo branch else failed ;;
    create (mkObject false "" "work" id repository (ob_Remote repo) branch "" "" "" []) (Some repo)).

Definition CopyWorkspace (id repository : string) : reg outcome := CopyWorkspaceBranch id repository "".

(** Distinct valid names. *)
Fixpoint distinct_ids (names : list string) (seen : gset string) : bool :=
  match names with
  | [] => true
  | name :: names => ValidID name && bool_decide (name ∉ seen) && distinct_ids names ({[name]} ∪ seen)
  end.

Definition set_size (n : nat) : bool := (2 <=? n)%nat && (n <=? MaxWorkspaceRepositories)%nat.

(** The members of a copied collection with their sources. *)
Fixpoint plan_copies (id : string) (names : list string) (members sources : list Object) : reg (answer (list Object * list Object)) :=
  match names with
  | [] => GRet (inl (members, sources))
  | name :: names =>
    source <- the (Get "repo" name) else inr ;;
    check do (InspectVolume source) else inr ;;
    branch <- resolveBranch source "" else inr ;;
    owner <~ do RandomID ;;
    let memberID := workspaceMemberID id name owner in
    ref <- do (Plan "work" memberID) else inr ;;
    plan_copies id names (members ++ [mkObject false "" "work" memberID name (ob_Remote source) branch ref owner "creating" []])%list
      (sources ++ [source])%list
  end.

Definition CopyWorkspaceSet (id : string) (repositories : list string) : reg outcome :=
  unless negb (ValidID id) || negb (set_size (List.length repositories)) || negb (distinct_ids repositories ∅)
    return fails ErrInvalidArgument ;;
  locked_reg (
    owner <~ do RandomID ;;
    plans <- plan_copies id repositories [] [] else failed ;;
    let '(members, sources) := plans in
    createPreparedSet (mkObject false "" "work" id "" "" "" "" owner "creating" members)
      (fun i member => do (CreateVolume member (sources !! i))) (Some (fun o => do (Populate o)))).

Definition workspace_of (o : Object) : Workspace := mkWorkspace ("workspace:managed:" +:+ ob_Owner o) ("managed:" +:+ ob_ID o).

Fixpoint inspect_all (members : list Object) : reg (option goerror) :=
  match members with
  | [] => GRet None
  | member :: members => check do (InspectVolume member) else Some ;; inspect_all members
  end.

Definition Workspace_of (id : string) : reg (answer Workspace) :=
  object <- the (Get "work" id) else inr ;;
  check inspect_all (Copies object) else inr ;;
  GRet (inl (mkWorkspace ("workspace:managed:" +:+ ob_Owner object) ("managed:" +:+ id))).

(** Each member in turn, up to the first error. *)
Fixpoint each_member (f : Object -> geff) (answer_ : forall o, greply (f o) -> option goerror) (members : list Object) : reg (option goerror) :=
  match members with
  | [] => GRet None
  | member :: members =>
    a <~ do (f member) ;;
    match answer_ member a with Some err => GRet (Some err) | None => each_member f answer_ members end
  end.
Definition delete_volumes : list Object -> reg (option goerror) := each_member DeleteWorkspaceVolume (fun _ err => err).
Definition check_volumes : list Object -> reg (option goerror) := each_member CheckWorkspaceVolumeDeletion (fun _ err => err).

Definition DeleteWorkspace (id owner : string) : reg (option goerror) :=
  unless negb (ValidID id) || negb (valid_owner owner) return Some (Plain ErrInvalidArgument) ;;
  unless negb (bk_CheckedDeletion backend) return Some (Plain ErrUnsupported) ;;
  locked_reg (
    object <- the (readObject "work" id) else (fun err => if errors_Is err ErrNotFound then None else Some err) ;;
    unless ob_Owner object != owner return Some (Plain ErrCapabilityStale) ;;
    unless (ob_State object != "ready") && (ob_State object != "deleting") return Some (Plain ErrRecoveryRequired) ;;
    check check_volumes (Copies object) else Some ;;
    let object := ob_with_State "deleting" object in
    check do (Save object) else Some ;;
    check delete_volumes (Copies object) else (fun err => Some (Joined [Plain ErrRecoveryRequired; err])) ;;
    check do (RemoveFile "work" id) else Some ;;
    do SyncDir).

Definition removeNewWorkspaceRecord (object : Object) : reg (option goerror) :=
  check do (RemoveFile "work" (ob_ID object)) else Some ;; do SyncDir.

Definition cleanupNewWorkspace (expected : Object) : reg (option goerror) :=
  unless negb (bk_DeleteWorkspaceVolume backend) return Some (Plain ErrUnsupported) ;;
  locked_reg (
    current <- the (readObject "work" (ob_ID expected)) else Some ;;
    unless (ob_Owner current != ob_Owner expected) || (ob_State current == "ready") return Some (Plain ErrCapabilityStale) ;;
    check delete_volumes (Copies current) else (fun err => Some (Joined [err; Plain ErrRecoveryRequired])) ;;
    removeNewWorkspaceRecord current).

Definition CreateEmptyWorkspace (name : string) : reg outcome :=
  unless negb (ValidID name) return fails ErrInvalidArgument ;;
  r <~ locked_reg (createPrepared (mkObject false "" "work" name "empty" "" "" "" "" "" []) (fun o => do (CreateVolume o None)) None) ;;
  match r with
  | (object, Some err) =>
    unless ob_ID object == "" return (object, Some err) ;;
    e <~ cleanupNewWorkspace object ;;
    GRet (match e with
          | Some cleanupErr => (object, Some (Joined [err; cleanupErr; Plain ErrRecoveryRequired]))
          | None => failed err
          end)
  | (object, None) => GRet (object, None)
  end.

Definition PrepareEnvironmentWorkspace (name : string) : reg (answer Workspace) :=
  sources <- ListSources else inr ;;
  r <~ (match (fun source => ob_ID (su_Source source)) <$> sources with
        | [] => CreateEmptyWorkspace name
        | [id] => CopyWorkspace name id
        | ids => CopyWorkspaceSet name ids
        end) ;;
  match r with
  | (object, Some err) =>
    if ob_ID object != "" then
      e <~ cleanupNewWorkspace object ;; GRet (inr (Join [Some err; e]))
    else GRet (inr err)
  | (object, None) => GRet (inl (workspace_of object))
  end.

(** ** Imports *)

Definition cleanupFailedImport (expected : Object) (cause : goerror) : reg outcome :=
  unless (ob_Kind expected != "work") || (ob_State expected != "created") || (ob_RestoredFrom expected != "") ||
      negb (List.length (ob_Members expected) =? 0)%nat || negb (validObject expected)
    return (expected, Some (Joined [cause; Plain ErrInvalidArgument; Plain ErrRecoveryRequired])) ;;
  unless negb (bk_DeleteWorkspaceVolume backend) return (expected, Some cause) ;;
  let stopped := fun err => (expected, Some (Joined [cause; err; Plain ErrRecoveryRequired])) in
  current <- the (readObject "work" (ob_ID expected)) else stopped ;;
  unless negb (Object_Equal current expected) return stopped (Plain ErrCapabilityStale) ;;
  check do (DeleteWorkspaceVolume current) else stopped ;;
  check do (RemoveFile "work" (ob_ID expected)) else stopped ;;
  check do SyncDir else stopped ;;
  GRet (zeroObject, Some (Wrapped (Plain ErrRuntimeUnavailable))).

Definition importPreparedWorkspace (object : Object) (create_ : Object -> reg (option goerror)) : reg outcome :=
  r <~ createPrepared object create_ None ;;
  match r with
  | (created, Some err) =>
    if ob_State created != "created" then GRet (created, Some err) else cleanupFailedImport created err
  | (created, None) => GRet (created, None)
  end.

Definition foreign_remote (remote : string) : bool := (remote != "") && negb (HasPrefix remote "https://github.com/").

(** An archive is a number: what it holds is the concern of the backend. *)
Definition ImportWorkspace (id repository remote branch : string) (archive : option nat) : reg outcome :=
  match archive with
  | None => GRet (fails ErrInvalidArgument)
  | Some archive =>
    unless negb (ValidID id) || negb (ValidID repository) || negb (ValidWorkspaceRouting remote branch)
      return fails ErrInvalidArgument ;;
    unless foreign_remote remote return fails ErrUnsupported ;;
    unless negb (bk_Import backend) return fails ErrUnsupported ;;
    locked_reg (importPreparedWorkspace (mkObject false "" "work" id repository remote branch "" "" "" [])
                  (fun o => do (ImportWorkspaceVolume o archive)))
  end.

Definition ImportWorkspaceTree (id repository : string) (source : bool) : reg outcome :=
  unless negb (ValidID id) || negb (ValidID repository) || negb source return fails ErrInvalidArgument ;;
  unless negb (bk_ImportTree backend) return fails ErrUnsupported ;;
  locked_reg (
    repo <- the (Get "repo" repository) else failed ;;
    check do (InspectVolume repo) else failed ;;
    branch <- resolveBranch repo "" else failed ;;
    importPreparedWorkspace (mkObject false "" "work" id repository (ob_Remote repo) branch "" "" "" [])
      (fun o => do (ImportWorkspaceTreeVolume o))).

Record WorkspaceImport := mkImport { wi_Repository : string; wi_Remote : string; wi_Branch : string; wi_Archive : option nat }.

Fixpoint check_imports (inputs : list WorkspaceImport) (seen : gset string) : option error :=
  match inputs with
  | [] => None
  | input :: inputs =>
    if negb (ValidID (wi_Repository input)) || bool_decide (wi_Repository input ∈ seen) ||
       negb (ValidWorkspaceRouting (wi_Remote input) (wi_Branch input)) || bool_decide (wi_Archive input = None)
    then Some ErrInvalidArgument else
    if foreign_remote (wi_Remote input) then Some ErrUnsupported
    else check_imports inputs ({[wi_Repository input]} ∪ seen)
  end.

Fixpoint plan_imports (id : string) (inputs : list WorkspaceImport) (members : list Object) (refs : gset string)
  : reg (answer (list Object)) :=
  match inputs with
  | [] => GRet (inl members)
  | input :: inputs =>
    owner <~ do RandomID ;;
    let memberID := workspaceMemberID id (wi_Repository input) owner in
    ref <- do (Plan "work" memberID) else inr ;;
    unless (ref == "") || bool_decide (ref ∈ refs) return inr (Plain ErrIncompatibleState) ;;
    plan_imports id inputs
      (members ++ [mkObject false "" "work" memberID (wi_Repository input) (wi_Remote input) (wi_Branch input) ref owner "creating" []])%list
      ({[ref]} ∪ refs)
  end.

Definition ImportWorkspaceSet (id : string) (inputs : list WorkspaceImport) : reg outcome :=
  unless negb (ValidID id) || negb (set_size (List.length inputs)) return fails ErrInvalidArgument ;;
  match check_imports inputs ∅ with
  | Some e => GRet (fails e)
  | None =>
    unless negb (bk_Import backend) return fails ErrUnsupported ;;
    locked_reg (
      owner <~ do RandomID ;;
      members <- plan_imports id inputs [] ∅ else failed ;;
      createPreparedSet (mkObject false "" "work" id "" "" "" "" owner "creating" members)
        (fun i member => do (ImportWorkspaceVolume member (default 0 (inputs !! i ≫= wi_Archive)))) None)
  end.

(** ** Restored copies *)

(** [nil] selects the whole saved membership. *)
Definition ValidateRepositorySelection (repositories : option (list string)) : result unit :=
  match repositories with
  | None => Ok tt
  | Some names =>
    reject (List.length names <? 1)%nat || (MaxWorkspaceRepositories <? List.length names)%nat with ErrInvalidArgument ;;
    reject negb (distinct_ids names ∅) with ErrInvalidArgument ;;
    Ok tt
  end.

Record restoreSource := mkRestoreSource { rs_Saved : SavedWorkspace; rs_registered : option Object }.

Fixpoint saved_by_name (all : list SavedWorkspace) (byName : gmap string SavedWorkspace) : option (gmap string SavedWorkspace) :=
  match all with
  | [] => Some byName
  | source :: all =>
    if has_key byName (sw_Repository source) || negb (ValidID (sw_Repository source)) ||
       negb (ValidWorkspaceRouting (sw_Remote source) (sw_Branch source)) || (comp_State (sw_Component source) != "verified")
    then None else saved_by_name all (<[sw_Repository source := source]> byName)
  end.

Definition zeroComponent : SnapshotComponent := mkComponent "" "" "" "" "".

Fixpoint select_sources (byName : gmap string SavedWorkspace) (names : list string) (sources : list restoreSource)
  : reg (answer (list restoreSource)) :=
  match names with
  | [] => GRet (inl sources)
  | name :: names =>
    match byName !! name with
    | Some source => select_sources byName names (sources ++ [mkRestoreSource source None])%list
    | None =>
      repo <- the (Get "repo" name) else inr ;;
      check do (InspectVolume repo) else inr ;;
      branch <- resolveBranch repo "" else inr ;;
      select_sources byName names
        (sources ++ [mkRestoreSource (mkSaved zeroComponent name (ob_Remote repo) branch) (Some repo)])%list
    end
  end.

Definition restoreSources (saved : Snapshot) (repositories : option (list string)) : reg (answer (list restoreSource)) :=
  all <- do (SavedWorkspaces saved) else inr ;;
  unless (List.length all <? 1)%nat || (MaxWorkspaceRepositories <? List.length all)%nat return inr (Plain ErrIncompatibleState) ;;
  match saved_by_name all ∅ with
  | None => GRet (inr (Plain ErrIncompatibleState))
  | Some byName => select_sources byName (default (sw_Repository <$> all) repositories) []
  end.

(** Every volume is tried; the errors are collected. *)
Fixpoint delete_all (members : list Object) (failures : list goerror) : reg (list goerror) :=
  match members with
  | [] => GRet failures
  | member :: members =>
    e <~ do (DeleteWorkspaceVolume member) ;;
    delete_all members (failures ++ option_list e)%list
  end.

Definition cleanupRestoredWorkspace (object : Object) : reg (option goerror) :=
  failures <~ delete_all (Copies object) [] ;;
  unless negb (List.length failures =? 0)%nat return Some (Joined failures) ;;
  e <~ do (FinishSnapshotWorkspaceCopy (ob_RestoredFrom object) (ob_ID object) (ob_Owner object)) ;;
  match e with
  | Some err => if errors_Is err ErrNotFound then removeNewWorkspaceRecord object else GRet (Some err)
  | None => removeNewWorkspaceRecord object
  end.

(** The closure [fail] of [RestoreWorkspaceSelectionWithData]. *)
Definition restore_failed (object : Object) (cause : goerror) : reg outcome :=
  let object := ob_with_State "creating" object in
  markErr <~ do (Save object) ;;
  e <~ cleanupRestoredWorkspace object ;;
  GRet (match e with
        | Some cleanupErr =>
          (object, Some (Wrapped (Join [Some cause; markErr; Some cleanupErr; Some (Plain ErrRecoveryRequired)])))
        | None => failed (Wrapped (if errors_Is cause ErrRecoveryRequired then Plain ErrRuntimeUnavailable else cause))
        end).

(** The members of the restored copy, in the order of its sources. *)
Fixpoint plan_restore (id savedID owner : string) (several : bool) (sources : list restoreSource) (members : list Object)
  : reg (answer (list Object)) :=
  match sources with
  | [] => GRet (inl members)
  | source :: sources =>
    memberOwner <~ (if several then do RandomID else GRet owner) ;;
    let saved := rs_Saved source in
    let memberID := if several then restoredWorkspaceMemberID id (sw_Repository saved) memberOwner else id in
    ref <- (match rs_registered source with
            | None => do (PlanSavedWorkspace memberID saved)
            | Some _ => do (Plan "work" memberID)
            end) else inr ;;
    plan_restore id savedID owner several sources
      (members ++ [mkObject false savedID "work" memberID (sw_Repository saved) (sw_Remote saved) (sw_Branch saved) ref memberOwner
                     "creating" []])%list
  end.

(** One member is the object itself, several are its members. *)
Definition restored_object (id savedID owner : string) (members : list Object) : Object :=
  match members with
  | [member] => member
  | _ => mkObject false savedID "work" id "" "" "" "" owner "creating" members
  end.

(** The object with the state of its [i]-th copy. *)
Definition copy_with_State (i : nat) (state : string) (object : Object) : Object :=
  match ob_Members object with
  | [] => ob_with_State state object
  | members => ob_with_Members (alter (ob_with_State state) i members) object
  end.

Fixpoint restore_members (object : Object) (i : nat) (sources : list restoreSource) : reg (Object + outcome) :=
  match sources with
  | [] => GRet (inl object)
  | source :: sources =>
    let failing := fun object err => r <~ restore_failed object err ;; GRet (inr r) in
    let member := fun object => default object (Copies object !! i) in
    e <~ do CtxErr ;;
    match e with Some err => failing object err | None =>
    e <~ (match rs_registered source with
          | None => do (CreateSavedWorkspace (member object) (rs_Saved source))
          | Some repo => do (CreateVolume (member object) (Some repo))
          end) ;;
    match e with Some err => failing object err | None =>
    let created := copy_with_State i "created" object in
    e <~ do (Save created) ;;
    match e with Some err => failing created err | None =>
    e <~ do (InspectVolume (member created)) ;;
    match e with Some err => failing created err | None =>
    e <~ (match rs_registered source with Some _ => do (Populate (member created)) | None => GRet None end) ;;
    match e with Some err => failing created err | None =>
    restore_members (copy_with_State i "ready" created) (S i) sources
    end end end end end
  end.

(** From the copies to the publication; [prepare] tells whether a callback prepares data. *)
Definition publish_restored (savedID : string) (prepare : bool) (object : Object) : reg outcome :=
  let publish :=
    let ready := ob_with_State "ready" object in
    e <~ do (Save ready) ;;
    match e with
    | Some err => if prepare then GRet (recover (ob_with_State "creating" ready) err) else restore_failed ready err
    | None =>
      check do (FinishSnapshotWorkspaceCopy savedID (ob_ID ready) (ob_Owner ready))
        else (fun err => (ready, Some (Wrapped (Joined [err; Plain ErrRecoveryRequired])))) ;;
      GRet (ready, None)
    end in
  if prepare then
    let creating := ob_with_State "creating" object in
    check do (Save creating) else recover creating ;;
    check do (PrepareData (workspace_of creating)) else recover creating ;;
    publish
  else publish.

Definition RestoreWorkspaceSelectionWithData (id : string) (saved : Snapshot) (repositories : option (list string)) (prepare : bool)
  : reg outcome :=
  unless negb (ValidID id) || negb (validSavedID (snap_ID saved)) || (snap_State saved != "ready") return fails ErrInvalidArgument ;;
  match ValidateRepositorySelection repositories with
  | Err e => GRet (fails e)
  | Ok _ =>
    unless negb (bk_Saved backend) || negb (SnapshotCatalog backend) return fails ErrUnsupported ;;
    locked_reg (
      sources <- restoreSources saved repositories else failed ;;
      unless (List.length sources <? 1)%nat || (MaxWorkspaceRepositories <? List.length sources)%nat return fails ErrIncompatibleState ;;
      owner <~ do RandomID ;;
      members <- plan_restore id (snap_ID saved) owner (1 <? List.length sources)%nat sources [] else failed ;;
      let object := restored_object id (snap_ID saved) owner members in
      unless negb (validObject object) return fails ErrIncompatibleState ;;
      check do (Reserve object) else failed ;;
      e <~ do (BeginSnapshotWorkspaceCopy saved (ob_ID object) (ob_Owner object)) ;;
      match e with
      | Some err => restore_failed object err
      | None =>
        r <~ restore_members object 0 sources ;;
        match r with inr out => GRet out | inl object => publish_restored (snap_ID saved) prepare object end
      end)
  end.

Definition RestoreWorkspaceWithData (id : string) (saved : Snapshot) (prepare : bool) : reg outcome :=
  RestoreWorkspaceSelectionWithData id saved None prepare.
Definition RestoreWorkspace (id : string) (saved : Snapshot) : reg outcome := RestoreWorkspaceWithData id saved false.

Definition CleanupRestoredWorkspace (id : string) : reg (option goerror) :=
  unless negb (bk_Saved backend) || negb (SnapshotCatalog backend) return Some (Plain ErrUnsupported) ;;
  locked_reg (
    r <~ Get "work" id ;;
    let '(object, err) := r in
    if bool_decide (err = None) && validSavedID (ob_RestoredFrom object) then
      e <~ do (FinishSnapshotWorkspaceCopy (ob_RestoredFrom object) (ob_ID object) (ob_Owner object)) ;;
      GRet (match e with
            | Some err => Some (if errors_Is err ErrNotFound then Plain ErrIncompatibleState else err)
            | None => None
            end)
    else
      match err with
      | None => GRet (Some (Plain ErrIncompatibleState))
      | Some err =>
        if negb (errors_Is err ErrRecoveryRequired) || negb (validSavedID (ob_RestoredFrom object)) then GRet (Some err)
        else cleanupRestoredWorkspace object
      end).

Definition DeleteRestoredCopy (expected : Object) : reg (option goerror) :=
  unless (ob_State expected != "ready") || negb (validSavedID (ob_RestoredFrom expected)) || negb (validObject expected)
    return Some (Plain ErrInvalidArgument) ;;
  unless negb (bk_Saved backend) || negb (SnapshotCatalog backend) return Some (Plain ErrUnsupported) ;;
  locked_reg (
    current <- the (Get "work" (ob_ID expected)) else Some ;;
    unless negb (Object_Equal current expected) return Some (Plain ErrCapabilityStale) ;;
    let current := ob_with_State "creating" current in
    check do (Save current) else Some ;;
    cleanupRestoredWorkspace current).

End Service.
