(* ===== verification/GitRecords.v ===== *)
(** * Valid records of the Git registry

    [validObject] decides which records the registry reads back.  The changes
    that the methods make to a record keep it valid, and the records they plan
    are valid, so that the registry never writes what it refuses to read. *)

From S2P Require Import Prelude GoText GoStrings GoURL GoDigest Core CoreChecks CoreProofs GitProtocol GitRegistry.
From Stdlib Require Import Ascii String.
Open Scope string_scope.

(** ** Identifiers *)

Lemma ValidID_hex c p l :
  in_range "a" "z" c = true -> all_chars (fun c => in_range "a" "z" c || in_range "0" "9" c || Ascii.eqb "-" c) p = true ->
  (String.length p + 2 * List.length l <= 47)%nat -> ValidID (String c p +:+ EncodeToString l) = true.
Proof.
  intros Hc Hp Hl. unfold ValidID. apply MatchString_lang. exists (String c ""), (p +:+ EncodeToString l).
  split; [done|]. split; [exists c; by rewrite Hc|]. cbn [lang]. rewrite length_app_string, length_EncodeToString. split; [lia|].
  rewrite all_chars_app, Hp. rewrite andb_true_l. eapply all_chars_impl; [|apply EncodeToString_hex]. intros d Hd. unfold cls_hex, cls_digit, in_range in *.
  rewrite ?orb_true_iff, ?andb_true_iff, ?N.leb_le in *. change (byte "a") with 97%N in *. change (byte "f") with 102%N in *.
  change (byte "z") with 122%N in *. left. destruct Hd as [Hd|Hd]; [left; lia|by right].
Qed.

(** The text of [randomID]. *)
Definition random_id (s : string) : Prop := exists nonce, List.length nonce = 16%nat /\ s = EncodeToString nonce.

Lemma random_id_len s : random_id s -> len s = 32%Z.
Proof. intros (nonce & Hn & ->). unfold len. rewrite length_EncodeToString, Hn. done. Qed.

Lemma workspaceMemberID_valid group repository owner : random_id owner -> ValidID (workspaceMemberID group repository owner) = true.
Proof.
  intros (nonce & Hn & ->). unfold workspaceMemberID, member_id. cbv zeta. destruct (ValidID (group +:+ "-" +:+ repository)) eqn:E; [done|].
  apply (ValidID_hex "w" "ork-"); [done|done|rewrite Hn; simpl; lia].
Qed.

Lemma repo_id_valid canonical : ValidID ("repo-" +:+ EncodeToString (take 6 (Sum256 canonical))) = true.
Proof. apply (ValidID_hex "r" "epo-"); [done|done|]. pose proof (firstn_le_length 6 (Sum256 canonical)). simpl. lia. Qed.

(** ** Changes of a record *)

Definition all_ready (o : Object) : Prop := Forall (fun m => ob_State m = "ready") (ob_Members o).

Lemma valid_member_state s o m :
  valid_member o m = true -> (s = "ready" -> ob_State m = "ready") -> valid_member (ob_with_State s o) m = true.
Proof.
  unfold valid_member. cbn. rewrite !andb_true_iff. intros [H Hr] Hs. split; [exact H|]. apply negb_true_iff, andb_false_iff.
  destruct (bool_decide_reflect (s = "ready")) as [E|]; [|by left]. right. rewrite (Hs E). done.
Qed.

Lemma valid_members_state s o l seen :
  valid_members o l seen = true -> (s = "ready" -> Forall (fun m => ob_State m = "ready") l) -> valid_members (ob_with_State s o) l seen = true.
Proof.
  revert seen; induction l as [|m l IH]; intros seen; cbn [valid_members]; [done|]. rewrite !andb_true_iff. intros [[Hm Hn] Hl] Hs.
  split_and!; [|done|].
  - apply valid_member_state; [done|]. intros E. by apply Hs, Forall_cons in E as [? _].
  - apply IH; [done|]. intros E. by apply Hs, Forall_cons in E as [_ ?].
Qed.

Lemma validObject_state s o : validObject o = true -> (s = "ready" -> all_ready o) -> validObject (ob_with_State s o) = true.
Proof.
  unfold validObject, all_ready. cbn [ob_with_State ob_Members]. rewrite !andb_true_iff. intros [Hi H] Hs. split; [done|].
  destruct (ob_Members o) as [|m l]; [done|]. rewrite !andb_true_iff in *. destruct H as [H Hl]. split; [done|]. by apply valid_members_state.
Qed.

(** Of the collection only its name, its origin and its state matter to a member. *)
Lemma valid_members_same o o' l seen :
  ob_ID o' = ob_ID o -> ob_RestoredFrom o' = ob_RestoredFrom o -> ob_State o' = ob_State o -> valid_members o' l seen = valid_members o l seen.
Proof.
  intros E1 E2 E3. revert seen; induction l as [|m l IH]; intros seen; [done|]. cbn [valid_members]. rewrite IH. unfold valid_member.
  by rewrite E1, E2, E3.
Qed.

Lemma validObject_excluded b o : validObject (ob_with_Excluded b o) = validObject o.
Proof.
  unfold validObject. cbn [ob_with_Excluded ob_Members]. destruct (ob_Members o) as [|m l]; [done|].
  by rewrite (valid_members_same o (ob_with_Excluded b o)).
Qed.

(** Members that differ in their states only. *)
Definition stateless : Object -> Object := ob_with_State "".

Lemma valid_member_stateless o m m' :
  ob_State o <> "ready" -> stateless m' = stateless m -> valid_member o m = true -> valid_member o m' = true.
Proof.
  intros Ho E. destruct m as [e1 f1 k1 i1 r1 u1 b1 n1 o1 s1 m1], m' as [e2 f2 k2 i2 r2 u2 b2 n2 o2 s2 m2]. injection E as -> -> -> -> -> -> -> -> -> ->.
  unfold valid_member, valid_identity, valid_single. cbn. rewrite !andb_true_iff. intros [H _]. split; [exact H|].
  by rewrite (bool_decide_eq_false_2 (ob_State o = "ready")).
Qed.

Lemma valid_members_stateless o l l' seen :
  ob_State o <> "ready" -> stateless <$> l' = stateless <$> l -> valid_members o l seen = true -> valid_members o l' seen = true.
Proof.
  intros Ho. revert l' seen; induction l as [|m l IH]; intros [|m' l'] seen; try done. rewrite !fmap_cons. intros [E El]%cons_eq_inj.
  cbn [valid_members]. rewrite !andb_true_iff. intros [[Hm Hn] Hl]. assert (ob_Repository m' = ob_Repository m) as Er.
  { destruct m, m'. by injection E. }
  rewrite Er. split_and!; [|done|by apply IH]. eapply valid_member_stateless; [done| |done]. exact E.
Qed.

Lemma validObject_members o l :
  validObject o = true -> ob_State o <> "ready" -> stateless <$> l = stateless <$> ob_Members o -> validObject (ob_with_Members l o) = true.
Proof.
  unfold validObject. cbn [ob_with_Members ob_Members]. rewrite !andb_true_iff. intros [Hi H] Ho El. split; [done|].
  assert (List.length l = List.length (ob_Members o)) as Hlen by (apply (f_equal List.length) in El; by rewrite !length_fmap in El).
  destruct (ob_Members o) as [|m0 l0], l as [|m l]; try done. rewrite Hlen, !andb_true_iff in *. destruct H as [H Hl]. split; [done|].
  rewrite (valid_members_same o) by done. by eapply valid_members_stateless.
Qed.

(** ** Remotes and names *)

Lemma CanonicalRemote_valid raw canonical :
  CanonicalRemote raw = Some canonical -> ValidateRemote (if ValidateRemote raw then raw else canonical) = true.
Proof.
  unfold CanonicalRemote. destruct (ValidateRemote raw) eqn:E; [done|]. intros (u & _ & H)%bind_Some.
  repeat (case_match; simplify_eq; try done).
Qed.

Lemma valid_repo o : validObject o = true -> ob_Kind o = "repo" -> ob_Members o = [] /\ ValidateRemote (ob_Remote o) = true.
Proof.
  intros Hv Hk. unfold validObject in Hv. apply andb_true_iff in Hv as [_ Hv]. destruct (ob_Members o); [|by rewrite Hk in Hv].
  split; [done|]. unfold valid_single in Hv. rewrite Hk in Hv. change ("repo" == "work") with false in Hv. cbv zeta iota in Hv.
  rewrite !andb_true_iff in Hv. by destruct Hv as [[_ [_ ?]] _].
Qed.

Lemma routing_valid remote branch : ValidateRemote remote = true -> ValidBranch branch = true -> ValidWorkspaceRouting remote branch = true.
Proof. intros H1 H2. unfold ValidWorkspaceRouting. by rewrite H1, H2, orb_true_r. Qed.

Lemma distinct_ids_spec names seen :
  distinct_ids names seen = true -> Forall (fun n => ValidID n = true) names /\ NoDup names /\ Forall (fun n => n ∉ seen) names.
Proof.
  revert seen; induction names as [|n names IH]; intros seen; cbn [distinct_ids]; [by repeat constructor|].
  rewrite !andb_true_iff, bool_decide_eq_true. intros [[Hn Hs] H]. destruct (IH _ H) as (H1 & H2 & H3). split_and!.
  - by constructor.
  - constructor; [|done]. intros Hin. rewrite Forall_forall in H3. specialize (H3 n Hin). set_solver.
  - constructor; [done|]. eapply Forall_impl; [exact H3|]. simpl. set_solver.
Qed.

Lemma check_imports_spec inputs seen :
  check_imports inputs seen = None ->
  Forall (fun i => ValidID (wi_Repository i) = true /\ ValidWorkspaceRouting (wi_Remote i) (wi_Branch i) = true) inputs /\
  NoDup (wi_Repository <$> inputs) /\ Forall (fun i => wi_Repository i ∉ seen) inputs.
Proof.
  revert seen; induction inputs as [|i inputs IH]; intros seen; cbn [check_imports]; [by repeat constructor|].
  destruct (_ || _ || _ || _) eqn:E; [done|]. destruct (foreign_remote (wi_Remote i)); [done|]. intros H.
  rewrite !orb_false_iff, !negb_false_iff, bool_decide_eq_false in E. destruct E as [[[E1 E2] E3] _].
  destruct (IH _ H) as (H1 & H2 & H3). rewrite Forall_forall in H3. split_and!.
  - by constructor.
  - rewrite fmap_cons. constructor; [|done]. intros (i' & E & Hin)%list_elem_of_fmap. specialize (H3 i' Hin). rewrite <- E in H3. set_solver.
  - constructor; [done|]. apply Forall_forall. intros i' Hin. specialize (H3 i' Hin). set_solver.
Qed.

(** ** Planned records *)

(** A single record, but for its volume and its owner. *)
Definition plannable (o : Object) : bool :=
  ((ob_RestoredFrom o == "") || validSavedID (ob_RestoredFrom o)) && ValidID (ob_ID o) && ValidID (ob_Repository o) &&
  (if ob_Kind o == "work" then ValidWorkspaceRouting (ob_Remote o) (ob_Branch o)
   else (ob_Kind o == "repo") && ((ob_Branch o == "") || ValidBranch (ob_Branch o)) && ValidateRemote (ob_Remote o)).

Lemma plannable_valid o ref owner s :
  plannable o = true -> ob_Members o = [] -> ref <> "" -> random_id owner ->
  validObject (mkObject (ob_Excluded o) (ob_RestoredFrom o) (ob_Kind o) (ob_ID o) (ob_Repository o) (ob_Remote o) (ob_Branch o)
    ref owner s (ob_Members o)) = true.
Proof.
  destruct o as [e f k i r u b ? ? ? m]. cbn. intros Hp -> Href Hown. revert Hp Href Hown.
  intros Hp Href Hown%random_id_len. unfold plannable in Hp. unfold validObject, valid_identity, valid_single. cbn in *. rewrite Hown.
  rewrite !andb_true_iff in Hp. destruct Hp as [[[-> ->] ->] Hr]. rewrite (bool_decide_eq_false_2 (ref = "")) by done. cbn.
  destruct (k == "work"); [by rewrite Hr|]. rewrite !andb_true_iff in Hr. destruct Hr as [[-> ->] ->]. done.
Qed.

(** The members of a collection that is being planned. *)
Definition planned_member (id : string) (m : Object) : Prop :=
  ob_Members m = [] /\ ob_Kind m = "work" /\ ob_RestoredFrom m = "" /\ ob_ID m = workspaceMemberID id (ob_Repository m) (ob_Owner m) /\
  ValidID (ob_Repository m) = true /\ ValidWorkspaceRouting (ob_Remote m) (ob_Branch m) = true /\ ob_NativeRef m <> "" /\ random_id (ob_Owner m).

Lemma planned_member_valid o m : planned_member (ob_ID o) m -> ob_RestoredFrom o = "" -> ob_State o <> "ready" -> valid_member o m = true.
Proof.
  intros (Hm & Hk & Hf & Hid & Hrep & Hrt & Href & Hown) Ho Hs. unfold valid_member, valid_identity, valid_single.
  rewrite Hm, Hk, Hf, Ho, Hrep, Hrt, (random_id_len _ Hown), <- Hid. cbn. rewrite !bool_decide_eq_true_2 by done.
  rewrite (bool_decide_eq_false_2 (ob_NativeRef m = "")), (bool_decide_eq_false_2 (ob_State o = "ready")) by done. cbn. rewrite Hid.
  by rewrite workspaceMemberID_valid.
Qed.

Lemma planned_members_valid o l seen :
  ob_RestoredFrom o = "" -> ob_State o <> "ready" -> Forall (planned_member (ob_ID o)) l ->
  NoDup (ob_Repository <$> l) -> Forall (fun m => ob_Repository m ∉ seen) l -> valid_members o l seen = true.
Proof.
  intros Ho Hs. revert seen; induction l as [|m l IH]; intros seen Hl Hn Hd; [done|]. cbn [valid_members].
  rewrite fmap_cons in Hn. apply NoDup_cons in Hn as [Hm Hn]. apply Forall_cons in Hl as [Hpm Hl]. apply Forall_cons in Hd as [Hmd Hd].
  rewrite planned_member_valid, bool_decide_eq_true_2 by done. cbn. apply IH; [done..|]. apply Forall_forall. intros m' Hm'.
  rewrite Forall_forall in Hd. specialize (Hd m' Hm'). apply not_elem_of_union. split; [|done]. intros E%elem_of_singleton. apply Hm. rewrite <- E.
  by apply list_elem_of_fmap_2.
Qed.

Lemma planned_set_valid id owner members :
  ValidID id = true -> random_id owner -> set_size (List.length members) = true ->
  let o := mkObject false "" "work" id "" "" "" "" owner "creating" members in
  Forall (planned_member id) members -> NoDup (ob_Repository <$> members) -> validObject o = true.
Proof.
  intros Hid Hown Hsz o Hm Hn. assert (valid_identity o = true) as Hi.
  { unfold valid_identity, o. cbn [ob_RestoredFrom ob_ID ob_Kind ob_Owner]. by rewrite Hid, (random_id_len _ Hown). }
  assert (valid_members o members ∅ = true) as Hv.
  { apply planned_members_valid; [done|done|done|done|]. apply Forall_forall. intros m _. apply not_elem_of_empty. }
  unfold validObject. rewrite Hi. change (ob_Members o) with members. unfold set_size in Hsz. destruct members as [|m l]; [done|].
  rewrite andb_true_iff in Hsz. destruct Hsz as [-> ->]. exact Hv.
Qed.
