(* ===== verification/GitRegistryProofs.v ===== *)
(** * Ownership of native volumes by the Git registry

    The directory of records and the native volumes as a world, what each call may
    do to it (including every failure), and a logic for programs that hold the
    mutex of the service.  Every section of every method keeps the invariant that
    a native volume is named by a complete record and that every complete record is
    valid, whatever call fails and wherever it is interrupted. *)

From S2P Require Import Prelude GoText GoStrings GoURL GoDigest Core CoreChecks GitProtocol GitAgentProofs GitRegistry GitRecords.
From Stdlib Require Import Ascii String.
Open Scope string_scope.

(** ** The world *)

(** A record file: complete, or cut short by a creation that failed half-way. *)
Inductive file := Broken | Holds (o : Object).

Record gworld := mkGworld { gw_files : gmap (string * string) file; gw_volumes : gset string }.

Definition key (o : Object) : string * string := (ob_Kind o, ob_ID o).
Definition refs (o : Object) : list string := ob_NativeRef <$> Copies o.
Definition put (k : string * string) (f : file) (w : gworld) : gworld := mkGworld (<[k := f]> (gw_files w)) (gw_volumes w).
Definition with_volumes (v : gset string) (w : gworld) : gworld := mkGworld (gw_files w) v.
Definition file_name (kind id : string) : string := kind +:+ "-" +:+ id +:+ ".json".

(** The volume that a call may create or delete. *)
Definition made (e : geff) : option Object :=
  match e with
  | CreateVolume o _ | PrepareRepository o | ImportWorkspaceVolume o _ | ImportWorkspaceTreeVolume o | CreateSavedWorkspace o _ => Some o
  | _ => None
  end.
Definition removed (e : geff) : option Object :=
  match e with DeleteSourceVolume o | DeleteWorkspaceVolume o => Some o | _ => None end.

Definition succeeded (e : geff) : greply e -> Prop :=
  match e with
  | CreateVolume _ _ | PrepareRepository _ | ImportWorkspaceVolume _ _ | ImportWorkspaceTreeVolume _ | CreateSavedWorkspace _ _
  | DeleteSourceVolume _ | DeleteWorkspaceVolume _ | Reserve _ | Save _ | RemoveFile _ _ => fun a => a = None
  | _ => fun _ => False
  end.

(** What a call finds of the files; an inspection passes only on a volume that exists,
    an error of the file system is not the service's own, an identity is the text of
    sixteen random bytes, and a planned volume has a name. *)
Definition reads (w : gworld) (e : geff) : greply e -> Prop :=
  match e with
  | ReadFile kind id => fun c =>
      match c with
      | NoFile => gw_files w !! (kind, id) = None
      | ReadFailed err => errors_Is err ErrNotFound = false
      | Unreadable => gw_files w !! (kind, id) = Some Broken
      | Readable o => gw_files w !! (kind, id) = Some (Holds o)
      end
  | ReadDir => fun d =>
      match d with
      | None => gw_files w = ∅
      | Some (inr _) => True
      | Some (inl entries) => forall kind id f, gw_files w !! (kind, id) = Some f -> mkDirent (file_name kind id) true ∈ entries
      end
  | InspectVolume o => fun a => a = None -> ob_NativeRef o ∈ gw_volumes w
  | RandomID => fun a => random_id a
  | Plan _ _ | PlanSavedWorkspace _ _ => fun a => a <> inl ""
  | _ => fun _ => True
  end.

(** A call with its answer takes the world to another.  A creation that fails may
    have created its volume or not; one that a native task may still finish counts
    as done, and a deletion that succeeds has verified that the volume is absent. *)
Definition gstep (w : gworld) (e : geff) (a : greply e) (w' : gworld) : Prop :=
  reads w e a /\
  match made e, removed e with
  | Some o, _ =>
    w' = with_volumes ({[ob_NativeRef o]} ∪ gw_volumes w) w \/ (~ succeeded e a /\ w' = w)
  | None, Some o =>
    w' = with_volumes (gw_volumes w ∖ {[ob_NativeRef o]}) w \/ (~ succeeded e a /\ w' = w)
  | None, None =>
    match e with
    | Reserve o =>
      (gw_files w !! key o = None /\ (w' = put (key o) (Holds o) w \/ (~ succeeded e a /\ w' = put (key o) Broken w))) \/
      (~ succeeded e a /\ w' = w)
    | Save o => w' = put (key o) (Holds o) w \/ (~ succeeded e a /\ w' = w)
    | RemoveFile kind id =>
      (succeeded e a /\ w' = mkGworld (delete (kind, id) (gw_files w)) (gw_volumes w)) \/ (~ succeeded e a /\ w' = w)
    | _ => w' = w
    end
  end.

(** ** The invariant *)

Definition registered (w : gworld) : Prop :=
  forall v, v ∈ gw_volumes w -> exists k o, gw_files w !! k = Some (Holds o) /\ v ∈ refs o.

(** Every complete record is valid and at its own place. *)
Definition well_formed (w : gworld) : Prop :=
  forall k o, gw_files w !! k = Some (Holds o) -> key o = k /\ validObject o = true.

(** The object is valid, its record is there and names the same volumes. *)
Definition owns (w : gworld) (o : Object) : Prop :=
  validObject o = true /\ exists o0, gw_files w !! key o = Some (Holds o0) /\ refs o0 = refs o.

(** What has to hold before a call: a volume is created only under a record that
    names it, a record is valid, is rewritten with the same volumes, and removed only when
    its volumes are gone and, for a source, no Workspace routes to it. *)
Definition pre (w : gworld) (e : geff) : Prop :=
  match made e with
  | Some o => exists k o0, gw_files w !! k = Some (Holds o0) /\ ob_NativeRef o ∈ refs o0
  | None =>
    match e with
    | Reserve o => validObject o = true
    | Save o => owns w o
    | RemoveFile kind id =>
      (exists o, gw_files w !! (kind, id) = Some (Holds o) /\ Forall (fun r => r ∉ gw_volumes w) (refs o)) /\
      (kind = "repo" -> forall j o, gw_files w !! ("work", j) = Some (Holds o) -> routed id o = false)
    | _ => True
    end
  end.

Lemma pre_keeps w e a w' : registered w -> pre w e -> gstep w e a w' -> registered w'.
Proof.
  intros Hw Hp [_ Hs]. unfold pre in Hp. destruct (made e) as [o|].
  { destruct Hs as [-> |[_ ->]]; [|done]. intros v Hv. cbn in *. apply elem_of_union in Hv as [->%elem_of_singleton|Hv]; [done|by apply Hw]. }
  destruct (removed e) as [o|].
  { destruct Hs as [-> |[_ ->]]; [|done]. intros v Hv. cbn in *. apply elem_of_difference in Hv as [Hv _]. by apply Hw. }
  destruct e; try by subst.
  - destruct Hs as [(Hn & [->|[_ ->]])|[_ ->]]; [| |done]; intros v Hv; destruct (Hw v Hv) as (k & o0 & Hk & Hr); exists k, o0; cbn;
      (rewrite lookup_insert_ne; [done|congruence]).
  - destruct Hs as [->|[_ ->]]; [|done]. intros v Hv. destruct (Hw v Hv) as (k & o1 & Hk & Hr). destruct Hp as (_ & o0 & Ho & He). cbn.
    destruct (decide (k = key o)) as [->|Hne]; [|exists k, o1; by rewrite lookup_insert_ne].
    exists (key o), o. rewrite lookup_insert_eq. split; [done|]. rewrite <- He. congruence.
  - destruct Hs as [[_ ->]|[_ ->]]; [|done]. intros v Hv. destruct (Hw v Hv) as (k & o & Hk & Hr). exists k, o. cbn.
    split; [|done]. rewrite lookup_delete_ne; [done|]. intros <-. destruct Hp as [(o1 & Hk1 & Hp) _]. rewrite Hk in Hk1.
    injection Hk1 as <-. rewrite Forall_forall in Hp. by apply (Hp v Hr).
Qed.

Lemma pre_forms w e a w' : well_formed w -> pre w e -> gstep w e a w' -> well_formed w'.
Proof.
  assert (forall w o, well_formed w -> validObject o = true -> well_formed (put (key o) (Holds o) w)) as Hput.
  { intros w0 o Hw Hv k o' Hk. cbn in Hk. destruct (decide (key o = k)) as [<-|Hne]; [|rewrite lookup_insert_ne in Hk by done; by apply Hw].
    rewrite lookup_insert_eq in Hk. by injection Hk as <-. }
  intros Hw Hp [_ Hs]. unfold pre in Hp. destruct (made e) as [o|]; [by destruct Hs as [->|[_ ->]]|].
  destruct (removed e) as [o|]; [by destruct Hs as [->|[_ ->]]|]. destruct e; try by subst.
  - destruct Hs as [(Hn & [->|[_ ->]])|[_ ->]]; [by apply Hput| |done]. intros k o' Hk. cbn in Hk.
    destruct (decide (key o = k)) as [<-|Hne]; [by rewrite lookup_insert_eq in Hk|rewrite lookup_insert_ne in Hk by done; by apply Hw].
  - destruct Hs as [->|[_ ->]]; [|done]. apply Hput; [done|apply Hp].
  - destruct Hs as [[_ ->]|[_ ->]]; [|done]. intros k o Hk. cbn in Hk. apply lookup_delete_Some in Hk as [_ Hk]. by apply Hw.
Qed.

(** ** Sections *)

(** The program runs under the mutex from [w]; its result satisfies [Q]. *)
Fixpoint gwp {R} (Q : R -> gworld -> Prop) (p : reg R) (w : gworld) : Prop :=
  match p with
  | GRet r => Q r w
  | GDo e k => e <> Lock /\ e <> Unlock /\ pre w e /\ forall a w', gstep w e a w' -> gwp Q (k a) w'
  end.

Lemma gwp_bind {A B} (Q : B -> gworld -> Prop) (p : reg A) f w :
  gwp (fun a w' => gwp Q (f a) w') p w -> gwp Q (reg_bind p f) w.
Proof.
  revert w; induction p as [r|e k IH]; intros w; simpl; [done|]. intros (H1 & H2 & Hp & Hk). split_and!; try done.
  intros a w' Hs. by apply IH, Hk.
Qed.

Lemma gwp_conseq {R} (Q Q' : R -> gworld -> Prop) p w :
  gwp Q p w -> (forall r w', Q r w' -> Q' r w') -> gwp Q' p w.
Proof.
  intros H HQ. revert w H; induction p as [r|e k IH]; intros w; simpl; [by auto|]. intros (H1 & H2 & Hp & Hk). split_and!; try done.
  intros a w' Hs. by apply IH, Hk.
Qed.

(** Calls that leave the world alone. *)
Definition leaves (e : geff) : bool :=
  match e with
  | Lock | Unlock | Reserve _ | Save _ | RemoveFile _ _ | CreateVolume _ _ | PrepareRepository _ | ImportWorkspaceVolume _ _
  | ImportWorkspaceTreeVolume _ | CreateSavedWorkspace _ _ | DeleteSourceVolume _ | DeleteWorkspaceVolume _ => false
  | _ => true
  end.

Lemma gwp_leaves {R} (Q : R -> gworld -> Prop) e (k : greply e -> reg R) w :
  leaves e = true -> (forall a, reads w e a -> gwp Q (k a) w) -> gwp Q (reg_bind (do e) k) w.
Proof.
  intros He Hk. simpl. split_and!; [by destruct e|by destruct e|by destruct e|].
  intros a w' [Hr Hs]. assert (w' = w) as -> by by destruct e. by apply Hk.
Qed.

Lemma gwp_save {R} (Q : R -> gworld -> Prop) o (k : option goerror -> reg R) w :
  owns w o ->
  (forall a w', owns w' o -> gw_volumes w' = gw_volumes w -> (forall j, j <> key o -> gw_files w' !! j = gw_files w !! j) ->
     (a = None -> gw_files w' !! key o = Some (Holds o)) -> gwp Q (k a) w') ->
  gwp Q (reg_bind (do (Save o)) k) w.
Proof.
  intros Ho Hk. simpl. split_and!; [done|done|done|]. intros a w' [_ [->|[Ha ->]]]; simpl in *.
  - apply Hk; cbn; [|done|by intros j Hj; rewrite lookup_insert_ne|by intros _; rewrite lookup_insert_eq].
    split; [apply Ho|]. exists o. cbn. by rewrite lookup_insert_eq.
  - by apply Hk.
Qed.

Lemma gwp_make {R} (Q : R -> gworld -> Prop) e m (k : greply e -> reg R) w o :
  made e = Some m -> owns w o -> ob_NativeRef m ∈ refs o ->
  (forall a w', gw_files w' = gw_files w -> gw_volumes w ⊆ gw_volumes w' -> (succeeded e a -> ob_NativeRef m ∈ gw_volumes w') -> gwp Q (k a) w') ->
  gwp Q (reg_bind (do e) k) w.
Proof.
  intros Hm (_ & o0 & Ho & He) Hr Hk. simpl. split_and!; [by intros ->|by intros ->| |].
  - unfold pre. rewrite Hm. exists (key o), o0. by rewrite He.
  - intros a w' [_ Hs]. rewrite Hm in Hs. destruct Hs as [->|[Ha ->]]; apply Hk; try done; cbn; [set_solver|]. intros _. set_solver.
Qed.

Lemma gwp_unmake {R} (Q : R -> gworld -> Prop) e m (k : greply e -> reg R) w :
  removed e = Some m ->
  (forall a w', gw_files w' = gw_files w -> gw_volumes w' ⊆ gw_volumes w -> (succeeded e a -> ob_NativeRef m ∉ gw_volumes w') -> gwp Q (k a) w') ->
  gwp Q (reg_bind (do e) k) w.
Proof.
  intros Hm Hk. simpl. split_and!; [by intros ->|by intros ->|by destruct e|].
  intros a w' [_ Hs]. assert (made e = None) as E by by destruct e. rewrite E, Hm in Hs.
  destruct Hs as [->|[Ha ->]]; apply Hk; try done; cbn; set_solver.
Qed.

Lemma gwp_reserve {R} (Q : R -> gworld -> Prop) o (k : option goerror -> reg R) w :
  validObject o = true ->
  (forall a w', gw_volumes w' = gw_volumes w -> (a = None -> gw_files w' !! key o = Some (Holds o)) -> gwp Q (k a) w') ->
  gwp Q (reg_bind (do (Reserve o)) k) w.
Proof.
  intros Hv Hk. simpl. split_and!; try done. intros a w' [_ [(Hn & [->|[Ha ->]])|[Ha ->]]]; apply Hk; try done; cbn.
  intros _. by rewrite lookup_insert_eq.
Qed.

(** ** Objects *)

Lemma refs_state s o : refs (ob_with_State s o) = refs o.
Proof. unfold refs, Copies. by destruct o as [? ? ? ? ? ? ? ? ? ? []]. Qed.
Lemma refs_excluded b o : refs (ob_with_Excluded b o) = refs o.
Proof. unfold refs, Copies. by destruct o as [? ? ? ? ? ? ? ? ? ? []]. Qed.
Lemma refs_members l o : l <> [] -> refs (ob_with_Members l o) = ob_NativeRef <$> l.
Proof. unfold refs, Copies. by destruct l. Qed.
Lemma refs_single o : ob_Members o = [] -> refs o = [ob_NativeRef o].
Proof. unfold refs, Copies. by intros ->. Qed.

Lemma owns_refs w o o' : owns w o -> key o' = key o -> refs o' = refs o -> validObject o' = true -> owns w o'.
Proof. intros (_ & o0 & Hk & Hr) Ek Er Hv. split; [done|]. exists o0. by rewrite Ek, Er. Qed.
Lemma owns_state w s o : owns w o -> (s = "ready" -> all_ready o) -> owns w (ob_with_State s o).
Proof. intros H Hs. eapply owns_refs; [exact H|done|apply refs_state|]. apply validObject_state; [apply H|done]. Qed.
Lemma owns_files w w' o : owns w o -> gw_files w' = gw_files w -> owns w' o.
Proof. intros (Hv & o0 & Hk & Hr) E. split; [done|]. exists o0. by rewrite E. Qed.
Lemma owns_holds w o : validObject o = true -> gw_files w !! key o = Some (Holds o) -> owns w o.
Proof. intros Hv H. split; [done|]. by exists o. Qed.
Lemma single_ready o : ob_Members o = [] -> all_ready o.
Proof. intros H. unfold all_ready. by rewrite H. Qed.

(** Equality of objects is what [reflect.DeepEqual] decides. *)
Lemma Object_Equal_eq a b : Object_Equal a b = true -> a = b.
Proof.
  revert a b. fix IH 1. intros [e1 f1 k1 i1 r1 u1 b1 n1 o1 s1 m1] [e2 f2 k2 i2 r2 u2 b2 n2 o2 s2 m2]. simpl. rewrite !andb_true_iff, !bool_decide_eq_true.
  intros [Hall Hm]. assert (m1 = m2) as -> by (revert m2 Hm; induction m1 as [|x m1 IHm]; intros [|y m2]; try done;
    rewrite andb_true_iff; intros [Hx Hl]; f_equal; [by apply IH|by apply IHm]).
  destruct_and!. by subst.
Qed.

(** ** Preparation *)

(** A program that creates the volume of an object some record names. *)
Definition makes (create_ : Object -> reg (option goerror)) : Prop :=
  forall m o w (Q : option goerror -> gworld -> Prop), owns w o -> ob_NativeRef m ∈ refs o ->
    (forall a w', gw_files w' = gw_files w -> gw_volumes w ⊆ gw_volumes w' -> (a = None -> ob_NativeRef m ∈ gw_volumes w') -> Q a w') ->
    gwp Q (create_ m) w.

(** A program that leaves the world alone. *)
Definition fills (populate : option (Object -> reg (option goerror))) : Prop :=
  match populate with
  | None => True
  | Some fill => forall o w (Q : option goerror -> gworld -> Prop), (forall a, Q a w) -> gwp Q (fill o) w
  end.

Lemma makes_volume source : makes (fun o => do (CreateVolume o source)).
Proof. intros m o w Q Ho Hr HQ. apply (gwp_make Q (CreateVolume m source) m GRet w o); try done. Qed.
Lemma makes_import archive : makes (fun o => do (ImportWorkspaceVolume o archive)).
Proof. intros m o w Q Ho Hr HQ. apply (gwp_make Q (ImportWorkspaceVolume m archive) m GRet w o); try done. Qed.
Lemma makes_tree : makes (fun o => do (ImportWorkspaceTreeVolume o)).
Proof. intros m o w Q Ho Hr HQ. apply (gwp_make Q (ImportWorkspaceTreeVolume m) m GRet w o); try done. Qed.
Lemma makes_saved source : makes (fun o => do (CreateSavedWorkspace o source)).
Proof. intros m o w Q Ho Hr HQ. apply (gwp_make Q (CreateSavedWorkspace m source) m GRet w o); try done. Qed.
Lemma fills_git : fills (Some (fun o => do (Populate o))).
Proof. intros o w Q HQ. apply (gwp_leaves Q (Populate o) GRet); [done|]. intros a _. apply HQ. Qed.
Create HintDb registry.
#[local] Hint Resolve makes_volume makes_import makes_tree makes_saved fills_git : registry.

Lemma fills_run populate o w (Q : option goerror -> gworld -> Prop) :
  fills populate -> (forall a, Q a w) -> gwp Q (match populate with Some fill => fill o | None => GRet None end) w.
Proof. intros Hf HQ. destruct populate as [fill|]; [by apply Hf|apply HQ]. Qed.

(** What a successful preparation leaves. *)
Definition prepared (out : outcome) (w : gworld) : Prop :=
  match out with
  | (o, None) => gw_files w !! key o = Some (Holds o) /\ ob_State o = "ready" /\ Forall (fun r => r ∈ gw_volumes w) (refs o)
  | (_, Some _) => True
  end.

(** The object that a preparation publishes. *)
Definition published (object : Object) (out : outcome) (w : gworld) : Prop :=
  prepared out w /\ match out with (o, None) => o = ob_with_State "ready" object | (_, Some _) => True end.

Lemma resumePrepared_ok object create_ populate w :
  ob_Members object = [] -> owns w object -> makes create_ -> fills populate ->
  gwp (published object) (resumePrepared object create_ populate) w.
Proof.
  intros Hm Ho Hc Hf. unfold resumePrepared. apply gwp_leaves; [done|]. intros [err|] _; [done|]. case_match; [done|].
  apply gwp_bind. eapply Hc; [exact Ho|rewrite refs_single by done; by apply list_elem_of_singleton|].
  intros [err|] w1 Hf1 Hv1 Hr1; [done|]. specialize (Hr1 eq_refl). apply (owns_files _ w1) in Ho; [|done].
  set (created := ob_with_State "created" object). assert (owns w1 created) as Hcr by by apply owns_state.
  assert (forall w2, owns w2 created -> ob_NativeRef object ∈ gw_volumes w2 -> gwp (published object)
    (check do (InspectVolume created) else recover created ;;
     check (match populate with Some fill => fill created | None => GRet None end) else recover created ;;
     check do (Save (ob_with_State "ready" created)) else recover (ob_with_State "ready" created) ;;
     GRet (ob_with_State "ready" created, None)) w2) as Hrest.
  { intros w2 Ho2 Hr2. apply gwp_leaves; [done|]. intros [err|] _; [done|]. apply gwp_bind. apply fills_run; [done|]. intros [err|]; [done|].
    apply gwp_save; [apply owns_state; [done|]; intros _; by apply single_ready|]. intros [err|] w3 Ho3 Hv3 _ Hh3; [done|].
    split; [|done]. split; [by apply Hh3|]. split; [done|].
    rewrite refs_state, Hv3. unfold created. rewrite refs_state, refs_single by done. by constructor. }
  destruct (ob_State object != "created"); [|by apply Hrest].
  apply (gwp_save _ created _ w1); [done|]. intros [err|] w2 Ho2 Hv2 _ _; [done|]. apply Hrest; [done|by rewrite Hv2].
Qed.

Lemma createPrepared_ok object create_ populate w :
  ob_Members object = [] -> plannable object = true -> makes create_ -> fills populate ->
  gwp prepared (createPrepared object create_ populate) w.
Proof.
  intros Hm Hp Hc Hf. unfold createPrepared. apply gwp_leaves; [done|]. intros [err|] _; [done|].
  apply gwp_leaves; [done|]. intros [ref|err] Href; [|done]. apply gwp_leaves; [done|]. intros owner Hown.
  pose proof (plannable_valid object ref owner "creating" Hp Hm ltac:(naive_solver) Hown) as Hv.
  apply gwp_reserve; [done|]. intros [err|] w1 _ Hh; [done|].
  eapply gwp_conseq; [apply resumePrepared_ok; try done; by apply owns_holds, Hh|]. by intros r w' [? _].
Qed.

Lemma create_volume_ok object source w : ob_Members object = [] -> plannable object = true -> gwp prepared (create object source) w.
Proof. intros Hm Hp. apply createPrepared_ok; auto with registry. Qed.

Lemma prepare_members_ok object create_ populate :
  (forall i, makes (create_ i)) -> fills populate -> ob_State object <> "ready" -> forall rest before w,
  (before ++ rest)%list <> [] -> owns w (ob_with_Members (before ++ rest) object) ->
  Forall (fun m => ob_NativeRef m ∈ gw_volumes w /\ ob_State m = "ready") before ->
  gwp prepared (prepare_members object before rest create_ populate) w.
Proof.
  intros Hc Hf Hs. induction rest as [|member rest IH]; intros before w Hne Ho Hv; simpl.
  - rewrite app_nil_r in *. apply gwp_save.
    { apply owns_state; [done|]. intros _. eapply Forall_impl; [exact Hv|]. by intros m [_ ?]. }
    intros [err|] w1 Ho1 Hv1 _ Hh; [done|]. split; [by apply Hh|]. split; [done|]. rewrite refs_state, refs_members, Hv1 by done.
    apply Forall_fmap. eapply Forall_impl; [exact Hv|]. by intros m [? _].
  - set (whole := fun m => ob_with_Members (before ++ m :: rest) object).
    assert (forall m s w', owns w' (whole m) -> owns w' (whole (ob_with_State s m))) as Hwhole.
    { intros m s w' H. eapply owns_refs; [exact H|done| |].
      - unfold whole. rewrite !refs_members by (by destruct before). by rewrite !fmap_app.
      - apply (validObject_members (whole m)); [apply H|done|]. unfold whole. cbn. rewrite !fmap_app, !fmap_cons. done. }
    apply gwp_bind. eapply (Hc _ member (whole member)); [exact Ho|unfold whole; rewrite refs_members by (by destruct before); set_solver|].
    intros [err|] w1 Hf1 Hv1 Hr1; [done|]. specialize (Hr1 eq_refl). apply (owns_files _ w1) in Ho; [|done].
    apply gwp_save; [by apply (Hwhole member "created")|]. intros [err|] w2 Ho2 Hv2 _ _; [done|].
    apply gwp_leaves; [done|]. intros [err|] _; [done|]. apply gwp_bind. apply fills_run; [done|]. intros [err|]; [done|].
    apply gwp_save; [by apply (Hwhole (ob_with_State "created" member) "ready")|].
    intros [err|] w3 Ho3 Hv3 _ _; [done|]. apply IH.
    + by destruct before.
    + by rewrite <- app_assoc.
    + rewrite Hv3, Hv2. apply Forall_app. split; [eapply Forall_impl; [exact Hv|]; simpl; set_solver|]. by constructor.
Qed.

Lemma createPreparedSet_ok object create_ populate w :
  ob_Members object <> [] -> validObject object = true -> ob_State object <> "ready" -> (forall i, makes (create_ i)) -> fills populate ->
  gwp prepared (createPreparedSet object create_ populate) w.
Proof.
  intros Hm Hv Hs Hc Hf. unfold createPreparedSet. apply gwp_reserve; [done|]. intros [err|] w1 _ Hh; [done|].
  apply prepare_members_ok; try done. change ([] ++ ob_Members object)%list with (ob_Members object).
  replace (ob_with_Members (ob_Members object) object) with object by (by destruct object). by apply owns_holds, Hh.
Qed.

(** ** Reading and listing *)

Lemma drop_chars_app a b : drop_chars (String.length a) (a +:+ b) = b.
Proof. induction a as [|c a IH]; [done|]. exact IH. Qed.
Lemma take_chars_app a b : take_chars (String.length a) (a +:+ b) = a.
Proof. induction a as [|c a IH]; [by destruct b|]. simpl. by f_equal. Qed.
Lemma TrimPrefix_app p t : TrimPrefix (p +:+ t) p = t.
Proof. unfold TrimPrefix. by rewrite HasPrefix_refl, drop_chars_app. Qed.
Lemma HasSuffix_app t s : HasSuffix (t +:+ s) s = true.
Proof.
  unfold HasSuffix. rewrite length_app_string. replace (_ + _ - _)%nat with (String.length t) by lia. rewrite drop_chars_app.
  rewrite (bool_decide_eq_true_2 (s = s)), andb_true_r by done. apply Nat.leb_le. lia.
Qed.
Lemma TrimSuffix_app t s : TrimSuffix (t +:+ s) s = t.
Proof.
  unfold TrimSuffix. rewrite HasSuffix_app, length_app_string. replace (_ + _ - _)%nat with (String.length t) by lia. apply take_chars_app.
Qed.

(** The record at this place is this one, complete and valid. *)
Definition found (w : gworld) (kind id : string) (o : Object) : Prop :=
  gw_files w !! (kind, id) = Some (Holds o) /\ key o = (kind, id) /\ validObject o = true.

Lemma found_owns w kind id o : found w kind id o -> owns w o.
Proof. intros (Hf & Hk & Hv). split; [done|]. exists o. by rewrite Hk. Qed.

Lemma readObject_ok kind id w :
  gwp (fun r w' => w' = w /\ match r with
    | (o, None) => found w kind id o
    | (o, Some err) => o = zeroObject /\ (errors_Is err ErrNotFound = true -> gw_files w !! (kind, id) = None)
    end) (readObject kind id) w.
Proof.
  unfold readObject. apply gwp_leaves; [done|]. intros c Hc. split; [done|]. destruct c as [|err| |o]; simpl in Hc;
    [by split|split; [done|]; simpl; congruence|by split|].
  destruct (_ || _ || _) eqn:E; [done|]. bool_hyps. unfold found, key. by subst.
Qed.

(** [Get] gives the record without its exclusion, and the record itself with the
    error of an incomplete preparation. *)
Lemma Get_ok kind id w :
  gwp (fun r w' => w' = w /\
    match r with
    | (o, None) => exists o0, found w kind id o0 /\ ob_State o0 = "ready" /\ o = (if kind == "repo" then ob_with_Excluded false o0 else o0)
    | (o, Some _) => o = zeroObject \/ found w kind id o
    end) (Get kind id) w.
Proof.
  unfold Get. destruct (((kind != "repo") && (kind != "work")) || negb (ValidID id)); [simpl; auto|]. apply gwp_bind. eapply gwp_conseq; [apply readObject_ok|].
  intros [o [err|]] w' [-> Ho]; [destruct Ho; simpl; auto|]. destruct (ob_State o != "ready") eqn:E; bool_hyps; [simpl; auto|]. split; [done|]. by exists o.
Qed.

Lemma the_ok (p : reg outcome) (Q : answer Object -> gworld -> Prop) w :
  gwp (fun r w' => Q (match r with (o, None) => inl o | (_, Some err) => inr err end) w') p w -> gwp Q (the p) w.
Proof. intros H. apply gwp_bind. eapply gwp_conseq; [exact H|]. done. Qed.

Lemma list_entry_ok kind entry w :
  gwp (fun r w' => w' = w /\ (forall o, r = Some (inl o) -> found w kind (ob_ID o) o) /\
      (forall id, de_name entry = file_name kind id -> r <> None /\ forall o, r = Some (inl o) -> ob_ID o = id)) (list_entry kind entry) w.
Proof.
  unfold list_entry. set (p := kind +:+ "-"). set (id0 := TrimSuffix (TrimPrefix (de_name entry) p) ".json").
  assert (forall id, de_name entry = file_name kind id -> HasPrefix (de_name entry) p = true /\ HasSuffix (de_name entry) ".json" = true /\ id0 = id) as Hn.
  { intros id E. unfold id0. rewrite E. replace (file_name kind id) with (p +:+ id +:+ ".json") by (unfold file_name, p; by rewrite !str_app_assoc).
    split; [apply HasPrefix_refl|]. rewrite TrimPrefix_app, TrimSuffix_app. split; [|done]. rewrite <- str_app_assoc. apply HasSuffix_app. }
  destruct (_ || _) eqn:E.
  { split; [done|]. split; [done|]. intros id (H1 & H2 & _)%Hn. by rewrite H1, H2 in E. }
  case_match; [split; [done|split; [done|]]; intros id _; done|].
  apply gwp_bind, the_ok. eapply gwp_conseq; [apply readObject_ok|]. intros [o [err|]] w' [-> Ho]; (split; [done|]).
  - split; [done|]. intros id _. done.
  - split.
    + intros o' [= <-]. destruct Ho as (Hf & Hk & Hv). unfold found. pose proof Hk as [= Hk1 Hk2]. by rewrite Hk2.
    + intros id (_ & _ & <-)%Hn. split; [done|]. intros o' [= <-]. by destruct Ho as (_ & [= _ ?] & _).
Qed.

(** The listing is the records of the kind; it has all of them. *)
Definition listed (w : gworld) (kind : string) (l : list Object) : Prop :=
  Forall (fun o => found w kind (ob_ID o) o) l.

Lemma list_entries_ok kind entries result w :
  listed w kind result ->
  gwp (fun r w' => w' = w /\
    match r with
    | inl l => listed w kind l /\ (forall o, o ∈ result -> o ∈ l) /\
        (forall id regular, mkDirent (file_name kind id) regular ∈ entries -> exists o, o ∈ l /\ ob_ID o = id)
    | inr _ => True
    end) (list_entries kind entries result) w.
Proof.
  revert result; induction entries as [|entry entries IH]; intros result Hl; simpl.
  - split; [done|]. split; [done|]. split; [done|]. intros id regular H. by apply not_elem_of_nil in H.
  - apply (gwp_leaves _ CtxErr); [done|]. intros [err|] _; [done|]. apply gwp_bind. eapply gwp_conseq; [apply list_entry_ok|].
    intros r w' (-> & Ho & Hn). destruct r as [[o|err]|].
    + eapply gwp_conseq; [apply IH; apply Forall_app; split; [done|]; constructor; [by apply Ho|done]|]. intros [l|err] w' [-> H]; [|done].
      destruct H as (Hl' & Hin & Hall). split; [done|]. split; [done|]. split; [intros o' Ho'; apply Hin; set_solver|].
      intros id regular [Hd|Hd]%elem_of_cons; [|by eapply Hall]. exists o. split; [apply Hin; set_solver|].
      by apply (Hn id); [rewrite <- Hd|].
    + done.
    + eapply gwp_conseq; [by apply IH|]. intros [l|err] w' [-> H]; [|done]. destruct H as (Hl' & Hin & Hall). split; [done|]. split; [done|].
      split; [done|]. intros id regular [Hd|Hd]%elem_of_cons; [|by eapply Hall]. by destruct (Hn id) as [[] _]; [rewrite <- Hd|].
Qed.

Lemma listObjects_ok kind w :
  gwp (fun r w' => w' = w /\
    match r with
    | inl l => listed w kind l /\ (forall id f, gw_files w !! (kind, id) = Some f -> exists o, f = Holds o /\ o ∈ l)
    | inr _ => True
    end) (listObjects kind) w.
Proof.
  unfold listObjects. apply (gwp_leaves _ ReadDir); [done|]. intros [[entries|err]|] Hr; simpl in Hr.
  - eapply gwp_conseq; [apply list_entries_ok; constructor|]. intros [l|err] w' [-> H]; [|done]. destruct H as (Hl & _ & Hall).
    split; [done|]. split; [done|]. intros id f Hf. destruct (Hall id true) as (o & Ho & Hid); [by eapply Hr|].
    pose proof (proj1 (Forall_forall _ _) Hl o Ho) as (Hf' & _). rewrite Hid, Hf in Hf'. injection Hf' as ->. by exists o.
  - done.
  - split; [done|]. split; [constructor|]. intros id f Hf. by rewrite Hr, lookup_empty in Hf.
Qed.

(** ** Sections of the methods *)

(** Programs that only look. *)
Definition looks {R} (p : reg R) : Prop := forall w, gwp (fun _ w' => w' = w) p w.

Lemma gwp_looks {A B} (Q : B -> gworld -> Prop) (p : reg A) f w :
  looks p -> (forall a, gwp Q (f a) w) -> gwp Q (reg_bind p f) w.
Proof. intros Hp Hf. apply gwp_bind. eapply gwp_conseq; [apply Hp|]. intros a w' ->. apply Hf. Qed.

Lemma resolveBranch_ok repo branch w :
  gwp (fun r w' => w' = w /\ match r with inl name => ValidBranch name = true | inr _ => True end) (resolveBranch repo branch) w.
Proof.
  unfold resolveBranch. apply gwp_leaves; [done|]. intros [result|err] _; [|done]. destruct (_ || _ || _ || _) eqn:E; [done|].
  rewrite !orb_false_iff, !negb_false_iff in E. split; [done|]. apply E.
Qed.

Lemma resolveBranch_looks repo branch : looks (resolveBranch repo branch).
Proof. intros w. eapply gwp_conseq; [apply resolveBranch_ok|]. by intros r w' [? _]. Qed.

Lemma Get_looks kind id : looks (Get kind id).
Proof. intros w. eapply gwp_conseq; [apply Get_ok|]. by intros r w' [-> _]. Qed.

Lemma the_looks (p : reg outcome) : looks p -> looks (the p).
Proof. intros Hp w. apply the_ok. eapply gwp_conseq; [apply Hp|]. done. Qed.

(** A source that may be read, with its branch resolved. *)
Lemma gwp_source {R} (Q : R -> gworld -> Prop) name branch (f : goerror -> R) (k : Object -> string -> reg R) w :
  (forall err, Q (f err) w) ->
  (forall repo branch, ValidateRemote (ob_Remote repo) = true -> ValidBranch branch = true -> gwp Q (k repo branch) w) ->
  gwp Q (repo <- the (Get "repo" name) else f ;; check do (InspectVolume repo) else f ;;
         branch <- resolveBranch repo branch else f ;; k repo branch) w.
Proof.
  intros Hf Hk. apply gwp_bind, the_ok. eapply gwp_conseq; [apply Get_ok|]. intros [repo [err|]] w' [-> H]; [apply Hf|].
  destruct H as (o & (_ & [= Hkind _] & Hv) & _ & ->). destruct (valid_repo o Hv Hkind) as [_ Hr].
  apply gwp_leaves; [done|]. intros [err|] _; [apply Hf|]. apply gwp_bind. eapply gwp_conseq; [apply resolveBranch_ok|].
  intros [b|err] w' [-> Hb]; [|apply Hf]. by apply Hk.
Qed.

(** ** Methods *)

(** The mutex is free, after the world in which it was last released, or held. *)
Inductive mutex := Free (last : option gworld) | Held (w : gworld).

(** A method takes and releases the mutex; without it, it leaves the world alone.
    Its result satisfies [Q], with the mutex as it leaves it. *)
Fixpoint gsafe {R} (Q : R -> mutex -> Prop) (p : reg R) (m : mutex) : Prop :=
  match p with
  | GRet r => Q r m
  | GDo e k =>
    match e, m with
    | Lock, Free _ => forall a w, registered w -> gsafe Q (k a) (Held w)
    | Unlock, Held w => forall a, gsafe Q (k a) (Free (Some w))
    | Lock, Held _ | Unlock, Free _ => False
    | _, Held w => pre w e /\ forall a w', gstep w e a w' -> gsafe Q (k a) (Held w')
    | _, Free last => leaves e = true /\ forall a, gsafe Q (k a) (Free last)
    end
  end.

(** The result of a method that leaves the mutex free, in the world of the last release. *)
Definition returns {R} (Q : R -> gworld -> Prop) (r : R) (m : mutex) : Prop :=
  match m with Free None => True | Free (Some w) => Q r w | Held _ => False end.
Notation method_ok Q p := (forall last, gsafe (returns Q) p (Free last)).

Lemma gsafe_bind {A B} (Q : B -> mutex -> Prop) (p : reg A) (f : A -> reg B) m :
  gsafe (fun a m' => gsafe Q (f a) m') p m -> gsafe Q (reg_bind p f) m.
Proof.
  revert m; induction p as [r|e k IH]; intros m; simpl; [done|].
  destruct e, m; try done; try (intros [Hp Hk]; split; [exact Hp|]); try intros Hk; intros; auto.
Qed.

Lemma gsafe_conseq {R} (Q Q' : R -> mutex -> Prop) p m : gsafe Q p m -> (forall r m', Q r m' -> Q' r m') -> gsafe Q' p m.
Proof.
  intros H HQ. revert m H; induction p as [r|e k IH]; intros m; simpl; [by apply HQ|].
  destruct e, m; try done; try (intros [Hp Hk]; split; [exact Hp|]); try intros Hk; intros; auto.
Qed.

Lemma gwp_gsafe {R} (Q : R -> mutex -> Prop) (p : reg R) w : gwp (fun r w' => Q r (Held w')) p w -> gsafe Q p (Held w).
Proof.
  revert w; induction p as [r|e k IH]; intros w; simpl; [done|]. intros (H1 & H2 & Hp & Hk).
  destruct e; try done; (split; [exact Hp|]; intros a w' Hs; apply IH, Hk, Hs).
Qed.

Lemma gsafe_locked {R} (Q : R -> mutex -> Prop) (p : reg R) last :
  (forall w, registered w -> gwp (fun r w' => Q r (Free (Some w'))) p w) -> gsafe Q (locked_reg p) (Free last).
Proof. intros Hp a w Hw. cbn [reg_bind]. apply gsafe_bind, gwp_gsafe. eapply gwp_conseq; [by apply Hp|]. by intros r w' HQ []. Qed.

Lemma gsafe_section {R} (Q : R -> gworld -> Prop) (p : reg R) : (forall w, gwp Q p w) -> method_ok Q (locked_reg p).
Proof. intros Hp last. apply gsafe_locked. intros w _. apply Hp. Qed.

Lemma gsafe_ret {R} (Q : R -> gworld -> Prop) r : (forall w, Q r w) -> method_ok Q (GRet r).
Proof. intros H [w|]; [apply H|done]. Qed.

Section Methods.
Context (backend : Backend).

Lemma repo_single w id o : found w "repo" id o -> ob_Members o = [].
Proof. intros (_ & [= Hk _] & Hv). by apply valid_repo. Qed.

Lemma repair_source_ok source id w : found w "repo" id source -> gwp prepared (repair_source backend source) w.
Proof.
  intros Hs. pose proof (repo_single _ _ _ Hs) as Hm. pose proof (found_owns _ _ _ _ Hs) as Ho. unfold repair_source. apply gwp_bind.
  eapply (gwp_conseq (fun r w' => match r with
    | (o, None) => owns w' o /\ ob_Members o = [] /\ Forall (fun v => v ∈ gw_volumes w') (refs o)
    | (_, Some _) => True end)).
  - assert (ob_NativeRef source ∈ refs source) as Hin by (rewrite refs_single by done; by apply list_elem_of_singleton).
    destruct (bk_PrepareRepository backend); [|destruct (ob_State source != "ready")].
    + eapply (gwp_make _ (PrepareRepository source) source); [done|exact Ho|done|].
      intros [err|] w' Hf Hv Hr; [done|]. split; [by eapply owns_files|]. split; [done|]. rewrite refs_single by done. constructor; [by apply Hr|done].
    + eapply gwp_conseq; [apply resumePrepared_ok; auto with registry|]. intros [o [err|]] w' [Hp Eo]; [done|]. destruct Hp as (Hh & _ & Hv).
      subst o. split; [|done]. apply owns_holds; [|done]. apply validObject_state; [apply Ho|]. intros _. by apply single_ready.
    + apply gwp_leaves; [done|]. intros [err|] Hr; [done|]. split; [done|]. split; [done|]. rewrite refs_single by done. constructor; [by apply Hr|done].
  - intros [o [err|]] w' H; [done|]. destruct H as (Ho' & Hm' & Hv). apply gwp_looks; [apply resolveBranch_looks|]. intros [b|err]; [|done].
    apply gwp_save.
    { eapply owns_refs; [exact Ho'|done|by rewrite refs_excluded, refs_state|]. rewrite validObject_excluded.
      apply validObject_state; [apply Ho'|]. intros _. by apply single_ready. }
   
    intros [err|] w1 _ Hv1 _ Hh; [done|]. split; [by apply Hh|]. split; [done|]. by rewrite refs_excluded, refs_state, Hv1.
Qed.

Lemma find_source_in canonical sources source : find_source canonical sources = Some (Some source) -> source ∈ sources.
Proof.
  induction sources as [|o sources IH]; simpl; [done|]. destruct (CanonicalRemote (ob_Remote o)) as [n|]; [|done].
  case_match; [intros ?; right; auto|]. intros [= ->]. left.
Qed.

Lemma Add_ok id remote : method_ok prepared (Add backend id remote).
Proof.
  unfold Add. destruct (CanonicalRemote remote) as [canonical|] eqn:Hc; [|by apply gsafe_ret]. destruct (_ && _) eqn:Hid; [by apply gsafe_ret|].
  apply gsafe_section. intros w. apply gwp_bind. eapply gwp_conseq; [apply listObjects_ok|]. intros [sources|err] w' [-> Hl]; [|done].
  destruct (find_source canonical sources) as [[source|]|] eqn:E; [| |done].
  - destruct Hl as [Hl _]. eapply repair_source_ok. by eapply (proj1 (Forall_forall _ _) Hl), find_source_in.
  - apply create_volume_ok; [done|]. unfold plannable. cbn [ob_RestoredFrom ob_Kind ob_ID ob_Repository ob_Remote ob_Branch].
    rewrite (CanonicalRemote_valid _ _ Hc). assert (ValidID (if id == "" then "repo-" +:+ EncodeToString (take 6 (Sum256 canonical)) else id) = true)
      as -> by (destruct (bool_decide_reflect (id = "")); [apply repo_id_valid|by apply negb_false_iff]). done.
Qed.

Lemma UnregisterSource_ok id owner : method_ok (fun _ _ => True) (UnregisterSource id owner).
Proof.
  apply gsafe_section. intros w. apply gwp_bind, the_ok. eapply gwp_conseq; [apply readObject_ok|]. intros [o [err|]] w' [-> Ho]; [done|].
  destruct (ob_Owner o != owner); [done|]. apply (gwp_save _ _ GRet); [|done].
  eapply owns_refs; [by eapply found_owns|done|apply refs_excluded|]. rewrite validObject_excluded. apply Ho.
Qed.

Lemma RunGit_ok expected req : method_ok (fun _ _ => True) (RunGit expected req).
Proof.
  apply gsafe_section. intros w. apply gwp_looks; [apply Get_looks|]. intros [o [err|]]; [done|]. destruct (stale_source _ _ _); [done|].
  by apply (gwp_leaves _ (BackendGit req) GRet).
Qed.

(** A successful deletion leaves neither the record nor its volumes. *)
Definition record_gone (kind id : string) (r : option goerror) (w : gworld) : Prop := r = None -> gw_files w !! (kind, id) = None.

Lemma gwp_remove {R} (Q : R -> gworld -> Prop) kind id o (k : option goerror -> reg R) w :
  owns w o -> key o = (kind, id) -> Forall (fun r => r ∉ gw_volumes w) (refs o) ->
  (kind = "repo" -> forall j o, gw_files w !! ("work", j) = Some (Holds o) -> routed id o = false) ->
  (forall a w', (a = None -> gw_files w' !! (kind, id) = None) -> gwp Q (k a) w') ->
  gwp Q (reg_bind (do (RemoveFile kind id)) k) w.
Proof.
  intros (_ & o0 & Ho & Er) Hk Hv Hr HQ. simpl. split_and!; [done|done|split; [|exact Hr]|].
  - exists o0. rewrite <- Hk, Er. by split.
  - intros a w' [_ Hs]. simpl in Hs. destruct Hs as [[Ha ->]|[Ha ->]]; apply HQ; [|done]. intros _. cbn. by rewrite lookup_delete_eq.
Qed.

(** The record is removed and the directory synced. *)
Lemma gwp_removal kind id o w :
  owns w o -> key o = (kind, id) -> Forall (fun r => r ∉ gw_volumes w) (refs o) ->
  (kind = "repo" -> forall j o, gw_files w !! ("work", j) = Some (Holds o) -> routed id o = false) ->
  gwp (record_gone kind id) (check do (RemoveFile kind id) else Some ;; do SyncDir) w.
Proof.
  intros Ho Hk Hv Hr. eapply gwp_remove; [done..|]. intros [err|] w' Hg; [done|].
  apply (gwp_leaves _ SyncDir GRet); [done|]. intros a _ _. by apply Hg.
Qed.

Lemma DeleteSource_ok id owner : method_ok (record_gone "repo" id) (DeleteSource backend id owner).
Proof.
  unfold DeleteSource. destruct (_ || _); [by apply gsafe_ret|]. destruct (negb (bk_DeleteSource backend)); [by apply gsafe_ret|]. apply gsafe_section. intros w.
  apply gwp_bind, the_ok. eapply gwp_conseq; [apply readObject_ok|]. intros [o [err|]] w' [-> Ho]; [done|].
  destruct (ob_Owner o != owner); [done|]. destruct (_ && _); [done|]. apply gwp_bind. eapply gwp_conseq; [apply listObjects_ok|].
  intros [work|err] w' [-> Hl]; [|done]. destruct (existsb (routed id) work) eqn:Hrouted; [done|].
  apply gwp_leaves; [done|]. intros [err|] _; [done|]. pose proof (repo_single _ _ _ Ho) as Hm.
  apply gwp_save; [apply owns_state; [by eapply found_owns|done]|]. intros [err|] w1 Ho1 Hv1 Hother _; [done|].
  eapply (gwp_unmake _ (DeleteSourceVolume _)); [done|]. intros [err|] w2 Hf2 Hv2 Hgone; [done|].
  destruct Ho as (_ & Hk & _). apply (gwp_removal _ _ (ob_with_State "deleting" o)); [by eapply owns_files|done| |].
  - rewrite refs_state, refs_single by done. constructor; [by apply Hgone|done].
  - intros _ j o' Hj. rewrite Hf2, Hother in Hj by (unfold key in *; simpl; congruence). destruct Hl as [_ Hall].
    destruct (Hall j _ Hj) as (o1 & [= <-] & Hin). apply not_true_iff_false. intros Ht.
    apply not_true_iff_false in Hrouted. apply Hrouted, existsb_exists. exists o'. split; [by apply list_elem_of_In|done].
Qed.

(** ** Copies *)

Lemma plannable_copy id repository remote branch :
  ValidID id = true -> ValidID repository = true -> ValidWorkspaceRouting remote branch = true ->
  plannable (mkObject false "" "work" id repository remote branch "" "" "" []) = true.
Proof.
  intros H1 H2 H3. unfold plannable. cbn [ob_RestoredFrom ob_Kind ob_ID ob_Repository ob_Remote ob_Branch]. rewrite H1, H2. exact H3.
Qed.

Lemma CopyWorkspaceBranch_ok id repository branch : method_ok prepared (CopyWorkspaceBranch id repository branch).
Proof.
  unfold CopyWorkspaceBranch. destruct (_ || _) eqn:E; [by apply gsafe_ret|]. rewrite !orb_false_iff, !negb_false_iff in E. destruct E as [[E1 E2] _].
  apply gsafe_section. intros w. apply (gwp_source prepared _ _ failed); [done|]. intros repo b Hr Hb.
  apply create_volume_ok; [done|]. apply plannable_copy; [done|done|by apply routing_valid].
Qed.

(** The members planned so far, for these repositories. *)
Definition planned (id : string) (names : list string) (members : list Object) : Prop :=
  Forall (planned_member id) members /\ ob_Repository <$> members = names.

Lemma planned_snoc id names members name remote branch ref owner :
  planned id names members -> ValidID name = true -> ValidWorkspaceRouting remote branch = true -> ref <> "" -> random_id owner ->
  planned id (names ++ [name])
    (members ++ [mkObject false "" "work" (workspaceMemberID id name owner) name remote branch ref owner "creating" []]).
Proof.
  intros [Hm Hn] Hid Hr Href Hown. split; [|by rewrite fmap_app, Hn]. apply Forall_app. split; [done|]. constructor; [|done]. by split_and!.
Qed.

Lemma plan_copies_ok id names members sources before w :
  Forall (fun n => ValidID n = true) names -> planned id before members ->
  gwp (fun r w' => w' = w /\ match r with inl (members', _) => planned id (before ++ names) members' | inr _ => True end)
    (plan_copies id names members sources) w.
Proof.
  revert members sources before; induction names as [|name names IH]; intros members sources before Hids Hp; simpl; [by rewrite app_nil_r|].
  apply Forall_cons in Hids as [Hid Hids].
  apply (gwp_source _ name "" inr); [done|]. intros repo b Hr Hb. apply gwp_leaves; [done|]. intros owner Hown.
  apply gwp_leaves; [done|]. intros [ref|err] Href; [|done]. eapply gwp_conseq; [apply (IH _ _ (before ++ [name])%list); [done|]|].
  - apply planned_snoc; [done|done|by apply routing_valid|naive_solver|done].
  - intros [[members' ?]|err] w' [-> H]; [|done]. by rewrite <- app_assoc in H.
Qed.

Lemma planned_object id names members owner :
  planned id names members -> NoDup names -> set_size (List.length names) = true -> ValidID id = true -> random_id owner ->
  validObject (mkObject false "" "work" id "" "" "" "" owner "creating" members) = true.
Proof.
  intros [Hm Hn] Hd Hs Hid Hown. apply planned_set_valid; [done|done| |done|by rewrite Hn]. by rewrite <- Hn, length_fmap in Hs.
Qed.

Lemma planned_nonempty id names members : planned id names members -> set_size (List.length names) = true -> members <> [].
Proof. intros [_ <-] Hs ->. done. Qed.

Lemma CopyWorkspaceSet_ok id repositories : method_ok prepared (CopyWorkspaceSet id repositories).
Proof.
  unfold CopyWorkspaceSet. destruct (_ || _) eqn:E; [by apply gsafe_ret|]. rewrite !orb_false_iff, !negb_false_iff in E.
  destruct E as [[Hid Hs] Hd]. destruct (distinct_ids_spec _ _ Hd) as (Hids & Hnd & _).
  apply gsafe_section. intros w. apply gwp_leaves; [done|]. intros owner Hown.
  apply gwp_bind. eapply gwp_conseq; [by apply (plan_copies_ok id repositories [] [] [])|].
  intros [[members sources]|err] w' [-> Hm]; [|done]. simpl in Hm.
  apply createPreparedSet_ok; [by eapply planned_nonempty|by eapply planned_object|done|intros i; auto with registry|apply fills_git].
Qed.

(** ** Deletion *)

Lemma each_member_looks f ans members :
  (forall o, leaves (f o) = true) -> looks (each_member f ans members).
Proof.
  intros Hf w. induction members as [|m members IH]; simpl; [done|]. apply gwp_leaves; [done|]. intros a _.
  by destruct (ans m a).
Qed.

Lemma delete_volumes_ok members w :
  gwp (fun r w' => gw_files w' = gw_files w /\ gw_volumes w' ⊆ gw_volumes w /\
      (r = None -> Forall (fun m => ob_NativeRef m ∉ gw_volumes w') members)) (delete_volumes members) w.
Proof.
  revert w; induction members as [|m members IH]; intros w; simpl; [split_and!; try done; by constructor|].
  eapply (gwp_unmake _ (DeleteWorkspaceVolume m)); [done|]. intros [err|] w1 Hf Hv Hg; [by split_and!|].
  eapply gwp_conseq; [apply IH|]. intros r w2 (Hf2 & Hv2 & Hg2). split_and!; [congruence|set_solver|].
  intros Hr. constructor; [|by apply Hg2]. specialize (Hg eq_refl). set_solver.
Qed.

Lemma owned_removal w o id :
  owns w o -> key o = ("work", id) -> Forall (fun m => ob_NativeRef m ∉ gw_volumes w) (Copies o) ->
  gwp (record_gone "work" id) (check do (RemoveFile "work" id) else Some ;; do SyncDir) w.
Proof. intros Ho Hk Hv. apply (gwp_removal _ _ o); [done|done|by apply Forall_fmap|done]. Qed.

Lemma Copies_state s o : ob_NativeRef <$> Copies (ob_with_State s o) = ob_NativeRef <$> Copies o.
Proof. apply refs_state. Qed.

Lemma DeleteWorkspace_ok id owner : method_ok (record_gone "work" id) (DeleteWorkspace backend id owner).
Proof.
  unfold DeleteWorkspace. destruct (_ || _); [by apply gsafe_ret|]. destruct (negb (bk_CheckedDeletion backend)); [by apply gsafe_ret|]. apply gsafe_section. intros w.
  apply gwp_bind, the_ok. eapply gwp_conseq; [apply readObject_ok|]. intros [o [err|]] w' [-> Ho].
  { simpl. destruct (errors_Is err ErrNotFound) eqn:E; [|done]. intros _. by apply Ho. }
  destruct (ob_Owner o != owner); [done|]. destruct (_ && _); [done|].
  apply gwp_looks; [by apply each_member_looks|]. intros [err|]; [done|].
  apply gwp_save; [apply owns_state; [by eapply found_owns|done]|]. intros [err|] w1 Ho1 _ _ _; [done|].
  apply gwp_bind. eapply gwp_conseq; [apply delete_volumes_ok|]. intros [err|] w2 (Hf & _ & Hg); [done|].
  destruct Ho as (_ & Hk & _). eapply owned_removal; [by eapply owns_files|done|by apply Hg].
Qed.

Lemma cleanupNewWorkspace_ok expected : method_ok (record_gone "work" (ob_ID expected)) (cleanupNewWorkspace backend expected).
Proof.
  unfold cleanupNewWorkspace. destruct (negb (bk_DeleteWorkspaceVolume backend)); [by apply gsafe_ret|]. apply gsafe_section. intros w.
  apply gwp_bind, the_ok. eapply gwp_conseq; [apply readObject_ok|]. intros [o [err|]] w' [-> Ho]; [done|].
  destruct (_ || _); [done|]. apply gwp_bind. eapply gwp_conseq; [apply delete_volumes_ok|]. intros [err|] w2 (Hf & _ & Hg); [done|].
  pose proof (found_owns _ _ _ _ Ho) as Hw. destruct Ho as (_ & Hk & _). unfold removeNewWorkspaceRecord.
  pose proof Hk as [= _ Hid]. rewrite Hid. eapply owned_removal; [by eapply owns_files|done|by apply Hg].
Qed.

(** ** Methods of several sections *)

Lemma CreateEmptyWorkspace_ok name : method_ok (fun _ _ => True) (CreateEmptyWorkspace backend name).
Proof.
  unfold CreateEmptyWorkspace. destruct (negb (ValidID name)) eqn:Hn; [by apply gsafe_ret|]. apply negb_false_iff in Hn.
  intros last. apply gsafe_bind, gsafe_locked. intros w _.
  eapply gwp_conseq; [apply createPrepared_ok; [done|by apply plannable_copy|auto with registry|done]|]. intros [o [err|]] w' _; [|done].
  destruct (ob_ID o == ""); [done|]. apply gsafe_bind. eapply gsafe_conseq; [apply cleanupNewWorkspace_ok|]. by intros [e|] [[w1|]|] H.
Qed.

Lemma ListSources_ok : method_ok (fun _ _ => True) ListSources.
Proof.
  apply gsafe_section. intros w. apply gwp_bind. eapply gwp_conseq; [apply listObjects_ok|]. intros [l|err] w' [-> _]; [|done].
  apply gwp_bind. eapply gwp_conseq; [apply listObjects_ok|]. by intros [l'|err] w' [-> _].
Qed.

Lemma PrepareEnvironmentWorkspace_ok name : method_ok (fun _ _ => True) (PrepareEnvironmentWorkspace backend name).
Proof.
  intros last. unfold PrepareEnvironmentWorkspace. apply gsafe_bind. eapply gsafe_conseq; [apply ListSources_ok|].
  intros [sources|err] m Hm; [|by destruct m as [[]|]]. destruct m as [last'|]; [|done]. apply gsafe_bind.
  eapply (gsafe_conseq (returns (fun _ _ => True))).
  - destruct (_ <$> sources) as [|id [|]].
    + apply CreateEmptyWorkspace_ok.
    + eapply gsafe_conseq; [apply CopyWorkspaceBranch_ok|]. by intros r [[]|] H.
    + eapply gsafe_conseq; [apply CopyWorkspaceSet_ok|]. by intros r [[]|] H.
  - intros [o [err|]] [last2|] Hm'; [| |by destruct last2|]; try done. destruct (ob_ID o != ""); [|by destruct last2].
    apply gsafe_bind. eapply gsafe_conseq; [apply cleanupNewWorkspace_ok|]. by intros e [[]|] H.
Qed.

(** ** Imports *)

Lemma cleanupFailedImport_ok expected cause w : gwp prepared (cleanupFailedImport backend expected cause) w.
Proof.
  unfold cleanupFailedImport. destruct (_ || _ || _ || _ || _) eqn:Ev; [done|]. bool_hyps. destruct (negb (bk_DeleteWorkspaceVolume backend)); [done|].
  apply gwp_bind, the_ok. eapply gwp_conseq; [apply readObject_ok|]. intros [o [err|]] w' [-> Ho]; [done|].
  destruct (negb (Object_Equal o expected)) eqn:Eq; [done|]. bool_hyps. apply Object_Equal_eq in Eq as ->.
  assert (ob_Members expected = []) as Hm by (by destruct (ob_Members expected)).
  eapply (gwp_unmake _ (DeleteWorkspaceVolume expected)); [done|]. intros [err|] w1 Hf Hv Hg; [done|].
  pose proof (found_owns _ _ _ _ Ho) as Hw. destruct Ho as (_ & Hk & _).
  eapply (gwp_remove _ _ _ expected); [by eapply owns_files|done|rewrite refs_single by done; constructor; [by apply Hg|done]|done|].
  intros [err|] w2 _; [done|]. apply gwp_leaves; [done|]. by intros [err|] _.
Qed.

Lemma importPreparedWorkspace_ok object create_ w :
  ob_Members object = [] -> plannable object = true -> makes create_ -> gwp prepared (importPreparedWorkspace backend object create_) w.
Proof.
  intros Hm Hp Hc. unfold importPreparedWorkspace. apply gwp_bind. eapply gwp_conseq; [by apply createPrepared_ok|].
  intros [o [err|]] w' Ho; [|done]. destruct (ob_State o != "created"); [done|]. apply cleanupFailedImport_ok.
Qed.

Lemma ImportWorkspace_ok id repository remote branch archive :
  method_ok prepared (ImportWorkspace backend id repository remote branch archive).
Proof.
  unfold ImportWorkspace. destruct archive as [archive|]; [|by apply gsafe_ret]. destruct (_ || _) eqn:E; [by apply gsafe_ret|].
  rewrite !orb_false_iff, !negb_false_iff in E. destruct E as [[E1 E2] E3].
  destruct (foreign_remote remote); [by apply gsafe_ret|]. destruct (negb (bk_Import backend)); [by apply gsafe_ret|].
  apply gsafe_section. intros w. apply importPreparedWorkspace_ok; [done|by apply plannable_copy|auto with registry].
Qed.

Lemma ImportWorkspaceTree_ok id repository source : method_ok prepared (ImportWorkspaceTree backend id repository source).
Proof.
  unfold ImportWorkspaceTree. destruct (_ || _) eqn:E; [by apply gsafe_ret|]. rewrite !orb_false_iff, !negb_false_iff in E. destruct E as [[E1 E2] _]. destruct (negb (bk_ImportTree backend)); [by apply gsafe_ret|].
  apply gsafe_section. intros w. apply (gwp_source prepared _ _ failed); [done|]. intros repo b Hr Hb.
  apply importPreparedWorkspace_ok; [done|by apply plannable_copy, routing_valid|auto with registry].
Qed.

Lemma plan_imports_ok id inputs members seen before w :
  Forall (fun i => ValidID (wi_Repository i) = true /\ ValidWorkspaceRouting (wi_Remote i) (wi_Branch i) = true) inputs ->
  planned id before members ->
  gwp (fun r w' => w' = w /\ match r with inl members' => planned id (before ++ (wi_Repository <$> inputs)) members' | inr _ => True end)
    (plan_imports id inputs members seen) w.
Proof.
  revert members seen before; induction inputs as [|input inputs IH]; intros members seen before Hi Hp; cbn [plan_imports]; [by rewrite app_nil_r|].
  apply Forall_cons in Hi as [[Hid Hr] Hi]. apply (gwp_leaves _ RandomID); [done|]. intros owner Hown.
  apply gwp_leaves; [done|]. intros [ref|err] Href; [|done]. destruct (_ || _); [done|].
  eapply gwp_conseq; [apply (IH _ _ (before ++ [wi_Repository input])%list); [done|]|].
  - apply planned_snoc; [done|done|done|naive_solver|done].
  - intros [members'|err] w' [-> H]; [|done]. by rewrite <- app_assoc in H.
Qed.

Lemma ImportWorkspaceSet_ok id inputs : method_ok prepared (ImportWorkspaceSet backend id inputs).
Proof.
  unfold ImportWorkspaceSet. destruct (_ || _) eqn:E; [by apply gsafe_ret|]. rewrite !orb_false_iff, !negb_false_iff in E. destruct E as [Hid Hs].
  destruct (check_imports inputs ∅) eqn:Hc; [by apply gsafe_ret|]. destruct (check_imports_spec _ _ Hc) as (Hi & Hnd & _).
  rewrite <- (length_fmap wi_Repository) in Hs.
  destruct (negb (bk_Import backend)); [by apply gsafe_ret|]. apply gsafe_section. intros w. apply gwp_leaves; [done|]. intros owner Hown.
  apply gwp_bind. eapply gwp_conseq; [by apply (plan_imports_ok id inputs [] ∅ [])|]. intros [members|err] w' [-> Hm]; [|done]. simpl in Hm.
  apply createPreparedSet_ok; [by eapply planned_nonempty|by eapply planned_object|done|intros i; auto with registry|done].
Qed.

(** ** Restored copies *)

Lemma delete_all_ok members failures w :
  gwp (fun r w' => gw_files w' = gw_files w /\ gw_volumes w' ⊆ gw_volumes w /\ (forall err, err ∈ failures -> err ∈ r) /\
      (r = [] -> Forall (fun m => ob_NativeRef m ∉ gw_volumes w') members)) (delete_all members failures) w.
Proof.
  revert failures w; induction members as [|m members IH]; intros failures w; simpl; [by split_and!|].
  eapply (gwp_unmake _ (DeleteWorkspaceVolume m)); [done|]. intros e w1 Hf Hv Hg. eapply gwp_conseq; [apply IH|].
  intros r w2 (Hf2 & Hv2 & Hin & Hg2). split_and!; [congruence|set_solver|intros err Herr; apply Hin; set_solver|].
  intros ->. constructor; [|by apply Hg2]. destruct e as [err|].
  - exfalso. apply (not_elem_of_nil err), Hin. simpl. set_solver.
  - specialize (Hg eq_refl). set_solver.
Qed.

Lemma cleanupRestoredWorkspace_ok o w :
  owns w o -> ob_Kind o = "work" -> gwp (record_gone "work" (ob_ID o)) (cleanupRestoredWorkspace o) w.
Proof.
  intros Ho Hk. unfold cleanupRestoredWorkspace. apply gwp_bind. eapply gwp_conseq; [apply delete_all_ok|].
  intros failures w1 (Hf & _ & _ & Hg). destruct failures as [|err failures]; simpl; [|done].
  assert (gwp (record_gone "work" (ob_ID o)) (removeNewWorkspaceRecord o) w1) as Hrm.
  { eapply owned_removal; [by eapply owns_files|unfold key; by rewrite Hk|by apply Hg]. }
  apply (gwp_leaves _ (FinishSnapshotWorkspaceCopy _ _ _)); [done|]. intros [err|] _; [|done]. by destruct (errors_Is err ErrNotFound).
Qed.

Lemma restore_failed_ok o cause w : owns w o -> ob_Kind o = "work" -> gwp prepared (restore_failed o cause) w.
Proof.
  intros Ho Hk. unfold restore_failed. apply gwp_save; [by apply owns_state|]. intros e w1 Ho1 _ _ _. apply gwp_bind.
  eapply gwp_conseq; [by apply cleanupRestoredWorkspace_ok|]. by intros [err|] w2 _.
Qed.

(** The volumes do not depend on the states of the copies. *)
Lemma alter_refs s (i : nat) (l : list Object) : ob_NativeRef <$> alter (ob_with_State s) i l = ob_NativeRef <$> l.
Proof. revert i; induction l as [|m l IH]; intros [|i]; try done. cbn. f_equal. apply IH. Qed.

Lemma copy_state_refs i s o : refs (copy_with_State i s o) = refs o.
Proof.
  unfold copy_with_State. destruct (ob_Members o) as [|m l] eqn:E; [by rewrite refs_state|].
  rewrite refs_members by (by destruct i). rewrite alter_refs. unfold refs, Copies. by rewrite E.
Qed.
Lemma copy_state_key i s o : key (copy_with_State i s o) = key o.
Proof. unfold copy_with_State. by destruct (ob_Members o). Qed.

Lemma alter_stateless s (i : nat) (l : list Object) : stateless <$> alter (ob_with_State s) i l = stateless <$> l.
Proof. revert i; induction l as [|m l IH]; intros [|i]; try done. cbn. f_equal. apply IH. Qed.

Lemma copy_state_valid i s o :
  validObject o = true -> (ob_Members o <> [] -> ob_State o <> "ready") -> validObject (copy_with_State i s o) = true.
Proof.
  intros Hv Hs. unfold copy_with_State. destruct (ob_Members o) as [|m l] eqn:E; [apply validObject_state; [done|]; intros _; by apply single_ready|].
  apply validObject_members; [done|by apply Hs|]. rewrite alter_stateless, E. done.
Qed.

(** The copies up to [i] exist; there are [n] sources left. *)
Record restoring (w : gworld) (o : Object) (i n : nat) : Prop := {
  rs_owns : owns w o;
  rs_kind : ob_Kind o = "work";
  rs_state : ob_Members o <> [] -> ob_State o <> "ready";
  rs_length : List.length (refs o) = (i + n)%nat;
  rs_made : Forall (fun r => r ∈ gw_volumes w) (take i (refs o)) }.

Lemma restoring_state w o i n j s : restoring w o i n -> restoring w (copy_with_State j s o) i n.
Proof.
  intros [Ho Hk Hs Hl Hm]. pose proof (copy_state_key j s o) as Ek. split.
  - eapply owns_refs; [exact Ho|done|apply copy_state_refs|]. apply copy_state_valid; [apply Ho|done].
  - injection Ek as -> _. done.
  - unfold copy_with_State. destruct (ob_Members o) as [|m l] eqn:E; [by intros []|]. intros _. by apply Hs.
  - by rewrite copy_state_refs.
  - by rewrite copy_state_refs.
Qed.

(** The members up to [i] are ready. *)
Definition readied (o : Object) (i : nat) : Prop := Forall (fun m => ob_State m = "ready") (take i (ob_Members o)).

Lemma readied_created o i : readied o i -> readied (copy_with_State i "created" o) i.
Proof.
  unfold readied, copy_with_State. destruct (ob_Members o) as [|m l] eqn:E; cbn [ob_with_State ob_with_Members ob_Members]; [by rewrite E|].
  rewrite take_alter. by rewrite decide_False by lia.
Qed.

Lemma readied_ready o i : readied o i -> readied (copy_with_State i "ready" o) (S i).
Proof.
  unfold readied, copy_with_State. destruct (ob_Members o) as [|m l] eqn:E; cbn [ob_with_State ob_with_Members ob_Members]; [by rewrite E, !take_nil|].
  generalize (m :: l). clear. intros l. revert l; induction i as [|i IH]; intros [|m l]; cbn; intros H; [constructor|by repeat constructor|constructor|].
  apply Forall_cons in H as [? ?]. constructor; [done|]. by apply IH.
Qed.

Lemma restoring_next w w' o i n r :
  restoring w o i (S n) -> gw_files w' = gw_files w -> gw_volumes w ⊆ gw_volumes w' -> refs o !! i = Some r -> r ∈ gw_volumes w' ->
  restoring w' o (S i) n.
Proof.
  intros [Ho Hk Hs Hl Hm] Hf Hv Hr Hin. split; [by eapply owns_files|done|done|lia|]. erewrite take_S_r by done. apply Forall_app.
  split; [eapply Forall_impl; [exact Hm|]; simpl; set_solver|by constructor].
Qed.

Lemma restoring_member w o i n : restoring w o i (S n) -> exists m, Copies o !! i = Some m /\ refs o !! i = Some (ob_NativeRef m).
Proof.
  intros [_ _ _ Hl _]. unfold refs in *. rewrite length_fmap in Hl. destruct (lookup_lt_is_Some_2 (Copies o) i) as [m Hm]; [lia|].
  exists m. split; [done|]. by rewrite list_lookup_fmap, Hm.
Qed.

Lemma restoring_saved w w' o i n :
  restoring w o i n -> owns w' o -> gw_volumes w' = gw_volumes w -> restoring w' o i n.
Proof. intros [Ho Hk Hs Hl Hm] Ho' Hv. split; [done..|]. by rewrite Hv. Qed.

Lemma restore_members_ok sources : forall i o w,
  restoring w o i (List.length sources) -> readied o i ->
  gwp (fun r w' => match r with inl o' => restoring w' o' (i + List.length sources) 0 /\ readied o' (i + List.length sources)
                   | inr out => prepared out w' end)
    (restore_members o i sources) w.
Proof.
  induction sources as [|source sources IH]; intros i o w Hr Hd; cbn [restore_members].
  { simpl in *. by rewrite Nat.add_0_r. }
  assert (forall o' w' err j n, restoring w' o' j n -> gwp (fun r w' => match r with
    inl o' => restoring w' o' (i + List.length (source :: sources)) 0 /\ readied o' (i + List.length (source :: sources))
    | inr out => prepared out w' end) (r <~ restore_failed o' err ;; GRet (inr r)) w') as Hfail.
  { intros o' w' err j n H. apply gwp_bind. eapply gwp_conseq; [apply restore_failed_ok; apply H|]. done. }
  apply (gwp_leaves _ CtxErr); [done|]. intros [err|] _; [by eapply Hfail|].
  destruct (restoring_member _ _ _ _ Hr) as (m & Hm & Href). rewrite Hm. cbn [default from_option id].
  apply gwp_bind. eapply (gwp_conseq (fun a w1 => gw_files w1 = gw_files w /\ gw_volumes w ⊆ gw_volumes w1 /\ (a = None -> ob_NativeRef m ∈ gw_volumes w1))).
  { assert (ob_NativeRef m ∈ refs o) as Hin by by eapply list_elem_of_lookup_2. pose proof (rs_owns _ _ _ _ Hr) as Ho.
    destruct (rs_registered source) as [repo|]; [eapply makes_volume|eapply makes_saved]; eauto. }
  intros [err|] w1 (Hf & Hv & Hin).
  { eapply (Hfail o w1 err i (List.length (source :: sources))). destruct Hr as [Ho Hk Hs Hl Hmd]. split; [by eapply owns_files|done|done|done|].
    eapply Forall_impl; [exact Hmd|]. simpl. set_solver. }
  pose proof (restoring_next _ _ _ _ _ _ Hr Hf Hv Href (Hin eq_refl)) as H1. apply (restoring_state _ _ _ _ i "created") in H1.
  apply gwp_save; [apply H1|]. intros e w2 Ho2 Hv2 _ _. pose proof (restoring_saved _ _ _ _ _ H1 Ho2 Hv2) as H2.
  destruct e as [err|]; [by eapply Hfail|]. apply gwp_leaves; [done|]. intros [err|] _; [by eapply Hfail|].
  apply gwp_looks; [intros w3; destruct (rs_registered source); [by apply (gwp_leaves _ (Populate _) GRet)|done]|].
  intros [err|]; [by eapply Hfail|]. eapply gwp_conseq; [apply IH; [by apply restoring_state|by apply readied_ready, readied_created]|].
  intros [o'|out] w3 H3; [|done]. simpl. by rewrite <- Nat.add_succ_comm.
Qed.

Lemma restoring_ready w o n : restoring w o n 0 -> readied o n -> all_ready o.
Proof.
  intros [_ _ _ Hl _] Hd. unfold all_ready, readied, refs, Copies in *. destruct (ob_Members o) as [|m l]; [constructor|].
  rewrite length_fmap in Hl. by rewrite take_ge in Hd by lia.
Qed.

Lemma publish_restored_ok savedID prepare o w n :
  restoring w o n 0 -> readied o n -> gwp prepared (publish_restored savedID prepare o) w.
Proof.
  intros Hr Hd. pose proof (restoring_ready _ _ _ Hr Hd) as Hall.
  assert (forall w', restoring w' o n 0 -> gwp prepared (e <~ do (Save (ob_with_State "ready" o)) ;;
    match e with
    | Some err => if prepare then GRet (recover (ob_with_State "creating" (ob_with_State "ready" o)) err) else restore_failed (ob_with_State "ready" o) err
    | None =>
      check do (FinishSnapshotWorkspaceCopy savedID (ob_ID (ob_with_State "ready" o)) (ob_Owner (ob_with_State "ready" o)))
        else (fun err => (ob_with_State "ready" o, Some (Wrapped (Joined [err; Plain ErrRecoveryRequired])))) ;;
      GRet (ob_with_State "ready" o, None)
    end) w') as Hpub.
  { intros w' [Ho Hk Hs Hl Hm]. apply gwp_save; [by apply owns_state|]. intros [err|] w1 Ho1 Hv1 _ Hh.
    - destruct prepare; [done|]. by apply restore_failed_ok.
    - apply gwp_leaves; [done|]. intros [err|] _; [done|]. split; [by apply Hh|]. split; [done|].
      rewrite refs_state, Hv1. rewrite take_ge in Hm by lia. done. }
  unfold publish_restored. destruct prepare; [|by apply Hpub].
  apply gwp_save; [apply owns_state; [apply Hr|done]|]. intros [err|] w1 Ho1 Hv1 _ _; [done|]. apply gwp_leaves; [done|]. intros [err|] _; [done|].
  apply Hpub. eapply restoring_saved; [done| |done]. eapply owns_refs; [exact Ho1|done|by rewrite refs_state|apply Hr].
Qed.

Lemma select_sources_looks byName names sources : looks (select_sources byName names sources).
Proof.
  revert sources; induction names as [|name names IH]; intros sources w; cbn [select_sources]; [done|].
  destruct (byName !! name); [apply IH|]. apply (gwp_source _ name "" inr); [done|]. intros repo b _ _. apply IH.
Qed.

Lemma restoreSources_looks saved repositories : looks (restoreSources saved repositories).
Proof.
  intros w. unfold restoreSources. apply gwp_leaves; [done|]. intros [all|err] _; [|done]. destruct (_ || _); [done|].
  destruct (saved_by_name all ∅); [apply select_sources_looks|done].
Qed.

Lemma plan_restore_ok id savedID owner several sources members w :
  Forall (fun m => ob_Members m = [] /\ ob_Kind m = "work" /\ ob_State m = "creating") members ->
  gwp (fun r w' => w' = w /\ match r with
      | inl members' => Forall (fun m => ob_Members m = [] /\ ob_Kind m = "work" /\ ob_State m = "creating") members' /\
          List.length members' = (List.length members + List.length sources)%nat
      | inr _ => True
      end) (plan_restore id savedID owner several sources members) w.
Proof.
  revert members; induction sources as [|source sources IH]; intros members Hm; cbn [plan_restore]; [by rewrite Nat.add_0_r|].
  apply gwp_looks; [intros w'; destruct several; [by apply (gwp_leaves _ RandomID GRet)|done]|]. intros memberOwner.
  apply gwp_looks; [intros w'; destruct (rs_registered source); [by apply (gwp_leaves _ (Plan _ _) GRet)|by apply (gwp_leaves _ (PlanSavedWorkspace _ _) GRet)]|].
  intros [ref|err]; [|done]. eapply gwp_conseq; [apply IH; apply Forall_app; split; [done|by constructor]|].
  intros [members'|err] w' [-> H]; [|done]. rewrite length_app in H. simpl in *. split; [done|]. destruct H as [? ->]. split; [done|lia].
Qed.

Lemma restored_object_restoring id savedID owner members w :
  Forall (fun m => ob_Members m = [] /\ ob_Kind m = "work" /\ ob_State m = "creating") members -> members <> [] ->
  let o := restored_object id savedID owner members in
  validObject o = true -> gw_files w !! key o = Some (Holds o) -> restoring w o 0 (List.length members).
Proof.
  intros Hm Hne o Hv Hh. assert (ob_Kind o = "work" /\ ob_State o = "creating" /\ List.length (refs o) = List.length members) as (Hk & Hst & Hl).
  { unfold o, restored_object. destruct members as [|m [|m' l]]; [done| |by split_and!; [..|unfold refs, Copies; cbn; rewrite length_fmap]].
    apply Forall_cons in Hm as [(Hm & Hk & Hst) _]. split_and!; [done|done|]. by rewrite refs_single. }
  split; [by apply owns_holds|done|by rewrite Hst|done|constructor].
Qed.

Lemma RestoreWorkspaceSelectionWithData_ok id saved repositories prepare :
  method_ok prepared (RestoreWorkspaceSelectionWithData backend id saved repositories prepare).
Proof.
  unfold RestoreWorkspaceSelectionWithData. destruct (_ || _); [by apply gsafe_ret|].
  destruct (ValidateRepositorySelection repositories); [|by apply gsafe_ret]. destruct (_ || _); [by apply gsafe_ret|].
  apply gsafe_section. intros w. apply gwp_looks; [apply restoreSources_looks|]. intros [sources|err]; [|done].
  destruct ((List.length sources <? 1)%nat || _) eqn:E; [done|]. apply gwp_leaves; [done|]. intros owner _.
  apply gwp_bind. eapply gwp_conseq; [by apply plan_restore_ok|]. intros [members|err] w' [-> Hm]; [|done]. destruct Hm as [Hm Hl].
  destruct (negb (validObject _)) eqn:Hv; [done|]. apply negb_false_iff in Hv. apply gwp_reserve; [done|]. intros [err|] w1 _ Hh; [done|].
  assert (members <> []) as Hne by (destruct members, sources; done).
  pose proof (restored_object_restoring id (snap_ID saved) owner members w1 Hm Hne Hv (Hh eq_refl)) as Hr.
  apply gwp_leaves; [done|]. intros [err|] _; [apply restore_failed_ok; apply Hr|].
  apply gwp_bind. eapply gwp_conseq; [apply restore_members_ok; [simpl in Hl; by rewrite <- Hl|constructor]|].
  intros [o|out] w2 H; [|done]. destruct H. by eapply publish_restored_ok.
Qed.

Lemma CleanupRestoredWorkspace_ok id : method_ok (fun _ _ => True) (CleanupRestoredWorkspace backend id).
Proof.
  unfold CleanupRestoredWorkspace. destruct (_ || _); [by apply gsafe_ret|]. apply gsafe_section. intros w. apply gwp_bind.
  eapply gwp_conseq; [apply Get_ok|]. intros [o err] w' [-> H]. destruct (bool_decide (err = None) && _).
  - apply gwp_leaves; [done|]. by intros [err'|] _.
  - destruct err as [err|]; [|done]. destruct (negb (errors_Is err ErrRecoveryRequired) || _) eqn:E; [done|]. bool_hyps.
    destruct H as [->|H]; [done|]. eapply gwp_conseq; [apply cleanupRestoredWorkspace_ok; [by eapply found_owns|by destruct H as (_ & [= ? _] & _)]|done].
Qed.

Lemma DeleteRestoredCopy_ok expected : method_ok (record_gone "work" (ob_ID expected)) (DeleteRestoredCopy backend expected).
Proof.
  unfold DeleteRestoredCopy. destruct (_ || _ || _); [by apply gsafe_ret|]. destruct (_ || _); [by apply gsafe_ret|].
  apply gsafe_section. intros w. apply gwp_bind, the_ok. eapply gwp_conseq; [apply Get_ok|]. intros [o [err|]] w' [-> H]; [done|].
  destruct H as (o0 & Ho & _ & ->). simpl. destruct (negb (Object_Equal o0 expected)) eqn:E; [done|]. bool_hyps. apply Object_Equal_eq in E as ->.
  apply gwp_save; [apply owns_state; [by eapply found_owns|done]|]. intros [err|] w1 Ho1 _ _ _; [done|].
  apply (cleanupRestoredWorkspace_ok (ob_with_State "creating" expected)); [done|]. by destruct Ho as (_ & [= ?] & _).
Qed.

Lemma ListWorkspaces_ok : method_ok (fun _ _ => True) ListWorkspaces.
Proof. apply gsafe_section. intros w. eapply gwp_conseq; [apply listObjects_ok|done]. Qed.

(** Reading without the mutex. *)
Lemma Get_free kind id last : gsafe (fun _ m => m = Free last) (Get kind id) (Free last).
Proof.
  unfold Get. destruct (_ || _); [done|]. apply gsafe_bind. unfold readObject. simpl. split; [done|]. intros c.
  destruct (match c with NoFile => _ | _ => _ end) as [o [err|]]; [done|]. by destruct (ob_State o != "ready").
Qed.

Lemma Workspace_of_ok id : method_ok (fun _ _ => True) (Workspace_of id).
Proof.
  intros last. unfold Workspace_of. apply gsafe_bind. unfold the. apply gsafe_bind. eapply gsafe_conseq; [apply Get_free|].
  intros [o [err|]] m ->; [by destruct last|]. simpl. apply gsafe_bind.
  eapply (gsafe_conseq (fun _ m => m = Free last)); [|by intros [err|] m ->; destruct last].
  induction (Copies o) as [|m l IH]; simpl; [done|]. split; [done|]. by intros [err|].
Qed.

End Methods.
