(* ===== verification/GitSystem.v ===== *)
(** * The Git registry at work

    Any number of calls of the methods of [RepositoryService], interleaved call
    by call over one directory of records, with the mutex of the service, calls
    that fail and a controller that stops anywhere.  The native volumes are
    always named by complete records, every returned call tells the truth about
    the directory, and a record removed takes nothing with it that is in use. *)

From S2P Require Import Prelude GoText GoStrings GoURL GoDigest Core CoreChecks CoreProofs GitProtocol GitAgentProofs GitRegistry GitRecords GitRegistryProofs.
From Stdlib Require Import Ascii String.
Open Scope string_scope.

(** ** Calls in progress *)

(** Where a call stands: outside the mutex (with the world in which it last
    released it), or inside. *)
Inductive place := Outside (last : option gworld) | Inside.

(** A call, with what its result promises of the world in which it released the mutex. *)
Inductive call :=
| Call {R : Type} (Q : R -> gworld -> Prop) (p : reg R) (at_ : place).

Definition inside (c : call) : Prop := match c with Call _ _ Inside => True | _ => False end.

Section System.
Context (backend : Backend).

(** The exported methods and what each promises. *)
Inductive registry_method : forall R : Type, (R -> gworld -> Prop) -> reg R -> Prop :=
| RAdd id remote : registry_method _ prepared (Add backend id remote)
| RUnregister id owner : registry_method _ (fun _ _ => True) (UnregisterSource id owner)
| RDeleteSource id owner : registry_method _ (record_gone "repo" id) (DeleteSource backend id owner)
| RRunGit expected req : registry_method _ (fun _ _ => True) (RunGit expected req)
| RListSources : registry_method _ (fun _ _ => True) ListSources
| RListWorkspaces : registry_method _ (fun _ _ => True) ListWorkspaces
| RWorkspace id : registry_method _ (fun _ _ => True) (Workspace_of id)
| RCopy id repository branch : registry_method _ prepared (CopyWorkspaceBranch id repository branch)
| RCopySet id repositories : registry_method _ prepared (CopyWorkspaceSet id repositories)
| RDeleteWorkspace id owner : registry_method _ (record_gone "work" id) (DeleteWorkspace backend id owner)
| RCreateEmpty name : registry_method _ (fun _ _ => True) (CreateEmptyWorkspace backend name)
| RPrepareEnvironment name : registry_method _ (fun _ _ => True) (PrepareEnvironmentWorkspace backend name)
| RCleanupNew expected : registry_method _ (record_gone "work" (ob_ID expected)) (cleanupNewWorkspace backend expected)
| RImport id repository remote branch archive : registry_method _ prepared (ImportWorkspace backend id repository remote branch archive)
| RImportTree id repository source : registry_method _ prepared (ImportWorkspaceTree backend id repository source)
| RImportSet id inputs : registry_method _ prepared (ImportWorkspaceSet backend id inputs)
| RRestore id saved repositories prepare :
    registry_method _ prepared (RestoreWorkspaceSelectionWithData backend id saved repositories prepare)
| RCleanupRestored id : registry_method _ (fun _ _ => True) (CleanupRestoredWorkspace backend id)
| RDeleteRestored expected : registry_method _ (record_gone "work" (ob_ID expected)) (DeleteRestoredCopy backend expected).

Lemma registry_method_ok R Q p : registry_method R Q p -> method_ok Q p.
Proof.
  destruct 1.
  - apply Add_ok.
  - apply UnregisterSource_ok.
  - apply DeleteSource_ok.
  - apply RunGit_ok.
  - apply ListSources_ok.
  - apply ListWorkspaces_ok.
  - apply Workspace_of_ok.
  - apply CopyWorkspaceBranch_ok.
  - apply CopyWorkspaceSet_ok.
  - apply DeleteWorkspace_ok.
  - apply CreateEmptyWorkspace_ok.
  - apply PrepareEnvironmentWorkspace_ok.
  - apply cleanupNewWorkspace_ok.
  - apply ImportWorkspace_ok.
  - apply ImportWorkspaceTree_ok.
  - apply ImportWorkspaceSet_ok.
  - apply RestoreWorkspaceSelectionWithData_ok.
  - apply CleanupRestoredWorkspace_ok.
  - apply DeleteRestoredCopy_ok.
Qed.

(** ** Steps *)

Record registry := mkRegistry { rg_world : gworld; rg_calls : list call }.

Inductive rstep : registry -> registry -> Prop :=
| RStart R Q p w cs : registry_method R Q p -> rstep (mkRegistry w cs) (mkRegistry w (cs ++ [Call Q p (Outside None)]))
| RAcquire R (Q : R -> gworld -> Prop) (k : _ -> reg R) last a w cs i :
    cs !! i = Some (Call Q (GDo Lock k) (Outside last)) -> Forall (fun c => ~ inside c) cs ->
    rstep (mkRegistry w cs) (mkRegistry w (<[i := Call Q (k a) Inside]> cs))
| RRelease R (Q : R -> gworld -> Prop) (k : _ -> reg R) a w cs i :
    cs !! i = Some (Call Q (GDo Unlock k) Inside) ->
    rstep (mkRegistry w cs) (mkRegistry w (<[i := Call Q (k a) (Outside (Some w))]> cs))
| RDo R (Q : R -> gworld -> Prop) e (k : greply e -> reg R) at_ a w w' cs i :
    cs !! i = Some (Call Q (GDo e k) at_) -> e <> Lock -> e <> Unlock -> gstep w e a w' ->
    rstep (mkRegistry w cs) (mkRegistry w' (<[i := Call Q (k a) at_]> cs))
| RCrash w cs : rstep (mkRegistry w cs) (mkRegistry w []).

(** A call goes on as its method promises. *)
Definition keeps_promise (w : gworld) (c : call) : Prop :=
  match c with
  | Call Q p (Outside last) => gsafe (returns Q) p (Free last)
  | Call Q p Inside => gsafe (returns Q) p (Held w)
  end.

Definition alone (cs : list call) : Prop := forall i j c d, cs !! i = Some c -> cs !! j = Some d -> inside c -> inside d -> i = j.

Definition registry_ok (s : registry) : Prop :=
  registered (rg_world s) /\ well_formed (rg_world s) /\ alone (rg_calls s) /\ Forall (keeps_promise (rg_world s)) (rg_calls s).

(** A call inside the mutex keeps the others to their promises. *)
Lemma others_keep w w' cs i c d :
  alone cs -> Forall (keeps_promise w) cs -> cs !! i = Some c -> (inside c \/ w' = w) -> keeps_promise w' d ->
  Forall (keeps_promise w') (<[i := d]> cs).
Proof.
  intros Ha Hf Hc Hi Hd. apply Forall_lookup. intros j x. destruct (decide (i = j)) as [<-|Hne].
  { rewrite list_lookup_insert_eq; [by intros [= <-]|by eapply lookup_lt_Some]. }
  rewrite list_lookup_insert_ne by done. intros Hx. pose proof (proj1 (Forall_lookup _ _) Hf j x Hx) as Hk.
  destruct Hi as [Hi| ->]; [|done]. destruct x as [R Q p [last|]]; [done|]. by destruct Hne; eapply Ha.
Qed.

Lemma alone_insert cs i c d : alone cs -> cs !! i = Some c -> (inside d -> inside c) -> alone (<[i := d]> cs).
Proof.
  intros Ha Hc Hi j k x y. assert (forall j x, <[i := d]> cs !! j = Some x -> inside x -> exists x0, cs !! j = Some x0 /\ inside x0) as Hl.
  { intros j' x'. destruct (decide (i = j')) as [<-|Hne]; [|rewrite list_lookup_insert_ne by done; eauto].
    rewrite list_lookup_insert_eq by (by eapply lookup_lt_Some). intros [= <-] ?. eauto. }
  intros Hx Hy Hix Hiy. destruct (Hl _ _ Hx Hix) as (x0 & ? & ?), (Hl _ _ Hy Hiy) as (y0 & ? & ?). by eapply (Ha j k).
Qed.

Lemma alone_acquire cs i d : Forall (fun c => ~ inside c) cs -> alone (<[i := d]> cs).
Proof.
  intros Hf j k x y Hx Hy Hix Hiy. rewrite Forall_lookup in Hf. assert (forall j x, <[i := d]> cs !! j = Some x -> inside x -> i = j) as Hl.
  { intros j' x' Hx' Hi'. destruct (decide (i = j')); [done|]. rewrite list_lookup_insert_ne in Hx' by done. by destruct (Hf _ _ Hx'). }
  by rewrite <- (Hl _ _ Hx Hix), <- (Hl _ _ Hy Hiy).
Qed.

(** A call made inside the mutex has what it needs, and outside it leaves the world alone. *)
Lemma keeps_promise_do {R} (Q : R -> gworld -> Prop) e (k : greply e -> reg R) at_ w :
  e <> Lock -> e <> Unlock -> keeps_promise w (Call Q (GDo e k) at_) ->
  match at_ with
  | Inside => pre w e /\ forall a w', gstep w e a w' -> keeps_promise w' (Call Q (k a) Inside)
  | Outside last => leaves e = true /\ forall a, keeps_promise w (Call Q (k a) (Outside last))
  end.
Proof. intros H1 H2. unfold keeps_promise. destruct at_, e; try done; cbn; tauto. Qed.

Lemma leaves_world w e a w' : leaves e = true -> gstep w e a w' -> w' = w.
Proof. intros He [_ Hs]. by destruct e. Qed.

Lemma registry_step s s' : registry_ok s -> rstep s s' -> registry_ok s'.
Proof.
  intros (Hw & Hwf & Ha & Hf) Hs. destruct Hs as [R Q p w cs Hm|R Q k last a w cs i Hc Hn|R Q k a w cs i Hc|R Q e k at_ a w w' cs i Hc H1 H2 Hg|w cs];
    cbn [rg_world rg_calls] in *.
  - split_and!; cbn; [done|done| |apply Forall_app; split; [done|constructor; [|done]]; by apply (registry_method_ok R Q p)].
    intros i j c d Hi Hj Hic Hid. apply lookup_snoc_Some in Hi as [[_ Hi]|[_ <-]]; [|done]. apply lookup_snoc_Some in Hj as [[_ Hj]|[_ <-]]; [|done].
    by eapply (Ha i j).
  - pose proof (proj1 (Forall_lookup _ _) Hf i _ Hc) as Hk. split_and!; cbn; [done|done|by apply alone_acquire|].
    eapply others_keep; [done|done|done|by right|]. by apply Hk.
  - pose proof (proj1 (Forall_lookup _ _) Hf i _ Hc) as Hk. split_and!; cbn; [done|done|by eapply alone_insert|].
    eapply others_keep; [done|done|done|by right|]. by apply Hk.
  - pose proof (keeps_promise_do Q e k at_ w H1 H2 (proj1 (Forall_lookup _ _) Hf i _ Hc)) as Hk. destruct at_ as [last|].
    + destruct Hk as [He Hk]. apply leaves_world in Hg as ->; [|done]. split_and!; cbn; [done|done|by eapply alone_insert|].
      eapply others_keep; [done|done|done|by right|]. apply Hk.
    + destruct Hk as [Hp Hk]. split_and!; cbn; [by eapply pre_keeps|by eapply pre_forms|by eapply alone_insert|].
      eapply others_keep; [done|done|done|by left|]. by apply Hk.
  - split_and!; cbn; [done|done|by intros ? ? ? ? Hi|constructor].
Qed.

(** ** Runs *)

Definition fresh_registry : registry := mkRegistry (mkGworld ∅ ∅) [].

Definition served (s : registry) : Prop := rtc rstep fresh_registry s.

Lemma served_ok s : served s -> registry_ok s.
Proof.
  unfold served. assert (registry_ok fresh_registry) as H.
  { split_and!; [| |by intros ? ? ? ? Hi|constructor]; [intros v Hv; by apply not_elem_of_empty in Hv|by intros k o Hk]. }
  revert H. generalize fresh_registry. intros s0 H0. induction 1 as [|x y z Hs _ IH]; [done|]. apply IH. by eapply registry_step.
Qed.

(** What changed a step of the world. *)
Lemma served_moves s s' :
  served s -> rstep s s' -> rg_world s' = rg_world s \/ exists e a, pre (rg_world s) e /\ gstep (rg_world s) e a (rg_world s').
Proof.
  intros (Hw & _ & Ha & Hf)%served_ok Hs. destruct Hs as [| | |R Q e k at_ a w w' cs i Hc H1 H2 Hg|]; try by left. cbn [rg_world rg_calls] in *.
  pose proof (keeps_promise_do Q e k at_ w H1 H2 (proj1 (Forall_lookup _ _) Hf i _ Hc)) as Hk. destruct at_ as [last|].
  - left. destruct Hk. by eapply leaves_world.
  - right. destruct Hk. by exists e, a.
Qed.

End System.

(** ** Driving one call *)

(** Up to [n] calls of one program alone, with the answers of [h]; [None] when it
    misuses the mutex. *)
Fixpoint drive {R} (h : forall e, gworld -> greply e * gworld) (n : nat) (p : reg R) (w : gworld) (at_ : place)
    : option (reg R * gworld * place) :=
  match n, p with
  | S n, GDo e k =>
    match e as e' return (greply e' -> reg R) -> option (reg R * gworld * place) with
    | Lock => fun k => match at_ with Outside _ => drive h n (k tt) w Inside | Inside => None end
    | Unlock => fun k => match at_ with Inside => drive h n (k tt) w (Outside (Some w)) | Outside _ => None end
    | e => fun k => drive h n (k (fst (h e w))) (snd (h e w)) at_
    end k
  | _, _ => Some (p, w, at_)
  end.

Lemma drive_steps backend h {R} Q n (p : reg R) w at_ p' w' at_' :
  (forall e w, e <> Lock -> e <> Unlock -> gstep w e (fst (h e w)) (snd (h e w))) ->
  drive h n p w at_ = Some (p', w', at_') ->
  rtc (rstep backend) (mkRegistry w [Call Q p at_]) (mkRegistry w' [Call Q p' at_']).
Proof.
  intros Hh. revert p w at_; induction n as [|n IH]; intros p w at_ Hd; [by injection Hd as <- <- <-|].
  destruct p as [r0|e k]; [by injection Hd as <- <- <-|].
  assert (forall w1 at1 a, rstep backend (mkRegistry w [Call Q (GDo e k) at_]) (mkRegistry w1 [Call Q (k a) at1]) ->
    drive h n (k a) w1 at1 = Some (p', w', at_') -> rtc (rstep backend) (mkRegistry w [Call Q (GDo e k) at_]) (mkRegistry w' [Call Q p' at_'])) as Hgo.
  { intros w1 at1 a Hs Hd'. eapply rtc_l; [exact Hs|]. by eapply IH. }
  destruct e; cbn in Hd;
    try (eapply Hgo; [|exact Hd]; eapply (RDo backend R Q _ k at_ _ w _ [_] 0); [done|done|done|by apply Hh]).
  - destruct at_ as [last|]; [|done]. eapply Hgo; [|exact Hd]. eapply (RAcquire backend R Q k last _ w [_] 0); [done|]. apply Forall_singleton. intros [].
  - destruct at_ as [last|]; [done|]. eapply Hgo; [|exact Hd]. by eapply (RRelease backend R Q k _ w [_] 0).
Qed.

(** Calls that all succeed; the remote has one branch. *)
Definition smooth (e : geff) (w : gworld) : greply e * gworld :=
  match e as e' return greply e' * gworld with
  | Lock | Unlock => (tt, w)
  | RandomID => ("0123456789abcdef0123456789abcdef", w)
  | ReadFile kind id =>
    (match gw_files w !! (kind, id) with None => NoFile | Some Broken => Unreadable | Some (Holds o) => Readable o end, w)
  | ReadDir => (Some (inl ((fun kf => mkDirent (file_name kf.1.1 kf.1.2) true) <$> map_to_list (gw_files w))), w)
  | Plan _ id | PlanSavedWorkspace id _ => (inl ("volume-" +:+ id), w)
  | BackendGit req => (inl (mkResponse [] "1111111111111111111111111111111111111111" "refs/heads/main" 0 "" ""), w)
  | SavedWorkspaces _ => (inl [], w)
  | Reserve o =>
    match gw_files w !! key o with
    | None => (None, put (key o) (Holds o) w)
    | Some _ => (Some (Plain ErrAlreadyExists), w)
    end
  | Save o => (None, put (key o) (Holds o) w)
  | RemoveFile kind id => (None, mkGworld (delete (kind, id) (gw_files w)) (gw_volumes w))
  | InspectVolume o => (if bool_decide (ob_NativeRef o ∈ gw_volumes w) then None else Some (Plain ErrNotFound), w)
  | CreateVolume o _ | PrepareRepository o | ImportWorkspaceVolume o _ | ImportWorkspaceTreeVolume o | CreateSavedWorkspace o _ =>
    (None, with_volumes ({[ob_NativeRef o]} ∪ gw_volumes w) w)
  | DeleteSourceVolume o | DeleteWorkspaceVolume o => (None, with_volumes (gw_volumes w ∖ {[ob_NativeRef o]}) w)
  | CtxErr | SyncDir | Populate _ | CheckSourceDeletion _ | CheckWorkspaceVolumeDeletion _ | BeginSnapshotWorkspaceCopy _ _ _
  | FinishSnapshotWorkspaceCopy _ _ _ | PrepareData _ => (None, w)
  end.

Lemma smooth_gstep e w : e <> Lock -> e <> Unlock -> gstep w e (fst (smooth e w)) (snd (smooth e w)).
Proof.
  intros H1 H2. destruct e; try done; try (by split; [|by left]).
  - split; [|done]. destruct (EncodeToString_surj 16 "0123456789abcdef0123456789abcdef") as (l & Hl & E); [done|done|]. by exists l.
  - split; [|done]. simpl. by destruct (gw_files w !! (kind, id)) as [[|o]|].
  - split; [|done]. simpl. intros kind id f Hf. apply list_elem_of_fmap. exists (kind, id, f). by rewrite elem_of_map_to_list.
  - split; [simpl; by destruct (gw_files w !! key o)|]. simpl. destruct (gw_files w !! key o) as [f|] eqn:E; [by right|].
    left. split; [done|]. by left.
  - split; [|done]. simpl. case_bool_decide; [done|by intros].
Qed.

Definition full_backend : Backend := mkBackend true true true true true true true true.

(** The creation of a record that fails after the file was created. *)
Definition torn (e : geff) (w : gworld) : greply e * gworld :=
  match e as e' return greply e' * gworld with
  | Reserve o =>
    match gw_files w !! key o with
    | None => (Some (Plain ErrMessage), put (key o) Broken w)
    | Some _ => (Some (Plain ErrAlreadyExists), w)
    end
  | e => smooth e w
  end.

Lemma torn_gstep e w : e <> Lock -> e <> Unlock -> gstep w e (fst (torn e w)) (snd (torn e w)).
Proof.
  intros H1 H2. destruct e; try by apply smooth_gstep.
  split; [simpl; by destruct (gw_files w !! key o)|]. simpl. destruct (gw_files w !! key o) as [f|] eqn:E; [by right|].
  left. split; [done|]. by right.
Qed.

(** A source registered, a Workspace copied from it, and deleted up to the removal of its record. *)
Definition add_tools : reg outcome := Add full_backend "tools" "https://github.com/acme/tools.git".
Definition copy_tools : reg outcome := CopyWorkspaceBranch "work" "tools" "".
Definition delete_work : reg (option goerror) := DeleteWorkspace full_backend "work" "0123456789abcdef0123456789abcdef".
Definition after_drive {R} h n (p : reg R) (w : gworld) : gworld := match drive h n p w (Outside None) with Some (_, w', _) => w' | None => w end.
Definition empty_world : gworld := mkGworld ∅ ∅.
Definition added : gworld := after_drive smooth 100 add_tools empty_world.
Definition copied : gworld := after_drive smooth 100 copy_tools added.
Definition unlinked : gworld := after_drive smooth 5 delete_work copied.
Definition torn_world : gworld := after_drive torn 100 add_tools empty_world.

Lemma driven_call h {R} Q n (p : reg R) w p' w' at_ :
  (forall e w, e <> Lock -> e <> Unlock -> gstep w e (fst (h e w)) (snd (h e w))) ->
  registry_method full_backend R Q p -> served full_backend (mkRegistry w []) -> drive h n p w (Outside None) = Some (p', w', at_) ->
  served full_backend (mkRegistry w' [Call Q p' at_]).
Proof.
  intros Hh Hm Hs Hd. unfold served in *. etrans; [exact Hs|]. eapply rtc_l; [by apply (RStart full_backend R Q p)|].
  by eapply drive_steps.
Qed.

Lemma served_idle w cs : served full_backend (mkRegistry w cs) -> served full_backend (mkRegistry w []).
Proof. intros H. eapply rtc_r; [exact H|]. apply RCrash. Qed.

(** What a step does to a record. *)
Lemma served_record backend s s' kind id f :
  served backend s -> rstep backend s s' -> gw_files (rg_world s) !! (kind, id) = Some f ->
  match gw_files (rg_world s') !! (kind, id) with
  | Some f' => f = Broken -> f' = Broken
  | None => exists o, f = Holds o /\ Forall (fun v => v ∉ gw_volumes (rg_world s)) (refs o) /\
      (kind = "repo" -> forall j work, gw_files (rg_world s) !! ("work", j) = Some (Holds work) -> routed id work = false)
  end.
Proof.
  intros Hs Hr Hf. destruct (served_moves backend s s' Hs Hr) as [->|(e & a & Hp & _ & Hg)]; [by rewrite Hf|].
  revert Hp Hg. unfold pre. destruct (made e) as [o|] eqn:Em.
  { intros _ [->|[_ ->]]; cbn; by rewrite Hf. }
  destruct (removed e) as [o|]; [intros _ [->|[_ ->]]; cbn; by rewrite Hf|].
  destruct e; try (by intros _ ->; rewrite Hf).
  - intros _ [(Hn & [->|[_ ->]])|[_ ->]]; [| |by rewrite Hf]; cbn; (rewrite lookup_insert_ne by congruence; by rewrite Hf).
  - intros (_ & o0 & Ho & _) [->|[_ ->]]; [|by rewrite Hf]. cbn. destruct (decide (key o = (kind, id))) as [E|E].
    + rewrite E, lookup_insert_eq. rewrite E, Hf in Ho. by injection Ho as ->.
    + by rewrite lookup_insert_ne, Hf.
  - intros [(o & Ho & Hv) Hw] [[_ ->]|[_ ->]]; [|by rewrite Hf]. cbn. destruct (decide ((kind0, id0) = (kind, id))) as [[= -> ->]|E].
    + rewrite lookup_delete_eq. rewrite Hf in Ho. injection Ho as ->. by exists o.
    + by rewrite lookup_delete_ne, Hf.
Qed.

Lemma broken_stays backend s s' kind id :
  served backend s -> rtc (rstep backend) s s' -> gw_files (rg_world s) !! (kind, id) = Some Broken ->
  gw_files (rg_world s') !! (kind, id) = Some Broken.
Proof.
  intros Hs. induction 1 as [|s s1 s' Hr _ IH]; [done|]. intros Hf. apply IH; [by eapply rtc_r|].
  pose proof (served_record backend s s1 kind id _ Hs Hr Hf) as H. destruct (gw_files (rg_world s1) !! (kind, id)) as [f|]; [by rewrite H|].
  by destruct H as (o & ? & _).
Qed.
