(* ===== verification/GitProperties.v ===== *)
(** * Properties of the Git access

    The trusted agent: what it may push, and with which arguments it runs Git.
    The registry: its volumes, its records and the answers of its methods, for
    any interleaving of calls. *)

From S2P Require Import Prelude GoText GoStrings GoURL GoDigest Core CoreChecks.
From S2P Require Import GitProtocol GitAgent GitAgentProofs GitRegistry GitRecords GitRegistryProofs GitSystem.
From Stdlib Require Import Ascii String.
Open Scope string_scope.

(** ** The agent *)

Lemma agent_history h req repos workspaces hist r before a x after_ :
  agent_run h (RunAgent req repos workspaces) [] = (hist, r) -> hist = (before ++ existT a x :: after_)%list ->
  push_act (path_Join repos (ag_Repository req)) req before a.
Proof.
  intros Hr Hh. destruct (agent_run_ok _ _ _ _ _ _ _ (RunAgent_acts req repos workspaces) Hr) as (_ & new & Hn & Hacts).
  simpl in Hn. subst new. exact (Hacts before (existT a x) after_ Hh).
Qed.

(** The command of a push: never forced, only with a lease on the old commit (or
    on the absence of the branch), and with one refspec. *)
Definition push_command (old next ref remote : string) : list string :=
  ["push"; "--porcelain"; "--no-verify"; "--force-with-lease=" +:+ ref +:+ ":" +:+ (if decide (old = ZeroOID) then "" else old); "--";
   remote; next +:+ ":" +:+ ref].

Lemma push_arguments_command req :
  push_arguments req = push_command (ag_OldOID req) (ag_NewOID req) (ag_Ref req) (ag_Remote req).
Proof. unfold push_arguments, push_command. by case_bool_decide; case_decide. Qed.

(** The words of the refspec hold nothing that would change its meaning. *)
Lemma push_refspec next ref :
  ValidHeadRef ref = true -> ValidOID next = true ->
  Split (next +:+ ":" +:+ ref) ":" = [next; ref] /\ HasPrefix (next +:+ ":" +:+ ref) "+" = false /\ no_sep "*" (next +:+ ":" +:+ ref).
Proof.
  intros Href Hnew. change (":" +:+ ref) with (String ":" ref). split_and!.
  - rewrite Split_app, !Split_word; [done| |by apply oid_colon]. apply head_ref_inert; [done|]. simpl. tauto.
  - apply ValidOID_chars in Hnew as [Hc Hl]. destruct next as [|c next]; [done|]. change "+" with (single "+").
    change (String c next +:+ ?t) with (String c (next +:+ t)). rewrite HasPrefix_first.
    destruct (Ascii.eqb_spec "+" c) as [<-|]; [by vm_compute in Hc|done].
  - unfold no_sep. rewrite all_chars_app. apply andb_true_iff. split.
    + apply ValidOID_chars in Hnew as [Hc _]. eapply all_chars_impl; [|exact Hc]. intros c Hr.
      destruct (Ascii.eqb_spec c "*") as [->|]; [by vm_compute in Hr|done].
    + simpl. apply head_ref_inert; [done|]. simpl. tauto.
Qed.

(** C7: Whatever Git answers, the agent pushes only for the operation [push], in
    the repository of the request, at most once, and only after Git has said that
    the new object is a commit and, unless the branch is new, that the old commit
    is its ancestor.  The command is the one written out in [push_command]: its
    lease names the branch and the old commit (nothing for a new branch), and its
    only refspec is the new commit and the branch, neither forced nor a pattern.
    The agent reports success only when the report of this command has exactly one
    line about a ref, which names this commit and this branch with the flag of the
    expected change. *)
Theorem push_is_exact h req repos workspaces hist r :
  agent_run h (RunAgent req repos workspaces) [] = (hist, r) ->
  let dir := path_Join repos (ag_Repository req) in
  let command := push_command (ag_OldOID req) (ag_NewOID req) (ag_Ref req) (ag_Remote req) in
  let refspec := ag_NewOID req +:+ ":" +:+ ag_Ref req in
  (forall before d args out after_,
     hist = (before ++ existT (AGit d args) out :: after_)%list -> List.hd "" args = "push" ->
     ag_Operation req = "push" /\ d = dir /\ args = command /\
     (Split refspec ":" = [ag_NewOID req; ag_Ref req] /\ HasPrefix refspec "+" = false /\ no_sep "*" refspec) /\
     push_checked dir req before /\ Forall (fun e => pushes e = false) before) /\
  (forall rsp, ag_Operation req = "push" -> r = inl rsp ->
     rsp_OID rsp = ag_NewOID req /\ rsp_Ref rsp = ag_Ref req /\
     exists out, ran hist dir command (inl out) /\ reports_update (ag_OldOID req) (ag_NewOID req) (ag_Ref req) out).
Proof.
  intros Hr dir. cbv zeta. rewrite <- push_arguments_command. split.
  - intros before d args out after_ Hh Hp. destruct (agent_history _ _ _ _ _ _ _ _ _ _ Hr Hh) as [_ H].
    destruct (H Hp) as (? & ? & ? & ? & ? & Href & _ & Hnew & _). split_and!; try done; by apply push_refspec.
  - intros rsp Hop ->. destruct (agent_run_ok _ _ _ _ _ _ _ (RunAgent_acts req repos workspaces) Hr) as [Hq _].
    destruct (Hq rsp Hop eq_refl) as (-> & out & Hran & Hc). split_and!; [done..|].
    exists out. split; [done|by apply confirmedPush_report].
Qed.

(** A push of a new commit to an existing branch. *)
Definition old_commit : string := "1111111111111111111111111111111111111111".
Definition new_commit : string := "2222222222222222222222222222222222222222".
Definition push_request : AgentRequest :=
  mkAgentRequest [] "refs/heads/main" [] "push" "tools" "" "https://github.com/acme/tools.git" "" old_commit new_commit None.
Definition push_report : string :=
  "To https://github.com/acme/tools.git" +:+ single LF +:+ " " +:+ single TAB +:+ new_commit +:+ ":refs/heads/main" +:+
  single TAB +:+ "1111111..2222222" +:+ single LF +:+ "Done" +:+ single LF.
Definition obliging (hist : list happened) (a : act) : ans a :=
  match a as a' return ans a' with
  | AGit _ args => inl (if List.hd "" args == "push" then push_report else if List.hd "" args == "cat-file" then "commit" +:+ single LF else "")
  | AMkdirTemp _ => inl ""
  | APack _ _ => (0%Z, None)
  | ALstat _ => StatDir
  | AIndex _ _ | AWriteFile _ _ | ARename _ _ | ACtxErr => None
  end.

Lemma push_is_exact_witness :
  snd (agent_run obliging (RunAgent push_request "/repos" "/work") []) = inl (mkResponse [] new_commit "refs/heads/main" 0 "" "") /\
  exists out, ran (fst (agent_run obliging (RunAgent push_request "/repos" "/work") [])) "/repos/tools"
      (push_command old_commit new_commit "refs/heads/main" "https://github.com/acme/tools.git") (inl out) /\
    reports_update old_commit new_commit "refs/heads/main" out.
Proof.
  assert (snd (agent_run obliging (RunAgent push_request "/repos" "/work") []) = inl (mkResponse [] new_commit "refs/heads/main" 0 "" ""))
    as Hr by by vm_compute.
  split; [exact Hr|]. destruct (push_is_exact obliging push_request "/repos" "/work" _ _ (surjective_pairing _)) as [_ H].
  destruct (H _ eq_refl Hr) as (_ & _ & out & Hran & Hc). exists out. exact (conj Hran Hc).
Defined.

(** C20: No argument that the agent takes from a request, from the remote or from
    a repository can act as an option of Git: in every command it runs, whatever
    was answered before, a word before [--] that starts with a dash is one of the
    options written in the source, or the lease of a branch. *)
Theorem git_arguments_are_inert h req repos workspaces :
  Forall (fun e => match projT1 e with AGit _ args => inert args | _ => True end) (fst (agent_run h (RunAgent req repos workspaces) [])).
Proof.
  destruct (agent_run h (RunAgent req repos workspaces) []) as [hist r] eqn:Hr. apply Forall_forall. intros [a x] He. simpl.
  apply list_elem_of_split in He as (before & after_ & Hh). pose proof (agent_history _ _ _ _ _ _ _ _ _ _ Hr Hh) as H.
  destruct a; try done. apply H.
Qed.

(** ** The registry *)

(** A run of a program alone, with any answers. *)
Fixpoint runs {R} (p : reg R) (w : gworld) (r : R) (w' : gworld) : Prop :=
  match p with
  | GRet r0 => r0 = r /\ w = w'
  | GDo e k => exists a w1, gstep w e a w1 /\ runs (k a) w1 r w'
  end.

Lemma runs_bind {A B} (p : reg A) (f : A -> reg B) w r w' :
  runs (reg_bind p f) w r w' -> exists a w1, runs p w a w1 /\ runs (f a) w1 r w'.
Proof.
  revert w; induction p as [a|e k IH]; intros w; cbn [reg_bind runs]; [by exists a, w|].
  intros (a & w1 & Hg & H). destruct (IH _ _ H) as (b & w2 & H1 & H2). exists b, w2. split; [by exists a, w1|done].
Qed.

Lemma runs_gwp {R} (Q : R -> gworld -> Prop) (p : reg R) w r w' : gwp Q p w -> runs p w r w' -> Q r w'.
Proof.
  revert w; induction p as [r0|e k IH]; intros w; cbn [gwp runs]; [by intros ? [<- <-]|].
  intros (_ & _ & _ & Hk) (a & w1 & Hg & H). eapply IH; [by eapply Hk|done].
Qed.

(** What a section proves holds of the runs of the method. *)
Lemma runs_locked {R} (Q : R -> gworld -> Prop) (p : reg R) w r w' : gwp Q p w -> runs (locked_reg p) w r w' -> Q r w'.
Proof.
  intros Hp (a & w1 & [_ Hl] & H). cbn in Hl. subst w1. cbn [reg_bind] in H. apply runs_bind in H as (r1 & w1 & H1 & b & w2 & [_ Hu] & [<- <-]).
  cbn in Hu. subst w2. by eapply runs_gwp.
Qed.

(** C6: In every state that calls of the registry reach, interleaved in any
    order, with any call of the backend or of the file system failing and the
    controller stopping at any point, a native volume that exists is named by a
    complete record; so no preparation, deletion, import or restore loses track
    of a volume. *)
Theorem volumes_are_registered backend s v :
  served backend s -> v ∈ gw_volumes (rg_world s) ->
  exists k o, gw_files (rg_world s) !! k = Some (Holds o) /\ v ∈ refs o.
Proof. intros Hs. apply (served_ok _ _ Hs). Qed.

Definition ready_object (kind id repository branch ref : string) : Object :=
  mkObject false "" kind id repository "https://github.com/acme/tools.git" branch ref "0123456789abcdef0123456789abcdef" "ready" [].

Lemma add_drives :
  drive smooth 100 add_tools empty_world (Outside None) =
  Some (GRet (ready_object "repo" "tools" "tools" "" "volume-tools", None), added, Outside (Some added)).
Proof. by vm_compute. Qed.

Lemma copy_drives :
  drive smooth 100 copy_tools added (Outside None) =
  Some (GRet (ready_object "work" "work" "tools" "main" "volume-work", None), copied, Outside (Some copied)).
Proof. by vm_compute. Qed.

Lemma torn_drives :
  drive torn 100 add_tools empty_world (Outside None) = Some (GRet (failed (Plain ErrMessage)), torn_world, Outside (Some torn_world)).
Proof. by vm_compute. Qed.

Lemma delete_drives :
  exists k, drive smooth 5 delete_work copied (Outside None) = Some (GDo (RemoveFile "work" "work") k, unlinked, Inside).
Proof.
  assert (match drive smooth 5 delete_work copied (Outside None) with
          | Some (GDo e _, _, Inside) => match e with RemoveFile kind id => (kind == "work") && (id == "work") | _ => false end
          | _ => false end = true) as H by by vm_compute.
  unfold unlinked, after_drive. destruct (drive smooth 5 delete_work copied (Outside None)) as [[[[|e k] w] [|]]|]; try discriminate H.
  destruct e; try discriminate H. apply andb_true_iff in H as [->%bool_decide_eq_true ->%bool_decide_eq_true]. by exists k.
Qed.

Lemma added_served : served full_backend (mkRegistry added []).
Proof. eapply served_idle, driven_call; [apply smooth_gstep|apply RAdd|apply rtc_refl|exact add_drives]. Qed.

Lemma copied_served : served full_backend (mkRegistry copied [Call prepared (GRet (ready_object "work" "work" "tools" "main" "volume-work", None)) (Outside (Some copied))]).
Proof. eapply driven_call; [apply smooth_gstep|apply RCopy|exact added_served|exact copy_drives]. Qed.

Lemma torn_served : served full_backend (mkRegistry torn_world []).
Proof. eapply served_idle, driven_call; [apply torn_gstep|apply RAdd|apply rtc_refl|exact torn_drives]. Qed.

Lemma volumes_are_registered_witness :
  exists w, served full_backend (mkRegistry w []) /\ "volume-tools" ∈ gw_volumes w /\
    exists k o, gw_files w !! k = Some (Holds o) /\ "volume-tools" ∈ refs o.
Proof.
  assert (bool_decide ("volume-tools" ∈ gw_volumes added) = true) as Hv by by vm_compute. apply bool_decide_eq_true in Hv.
  revert Hv. generalize added_served. generalize added. intros w Hs Hv. exists w. split; [exact Hs|]. split; [exact Hv|].
  exact (volumes_are_registered full_backend (mkRegistry w []) _ Hs Hv).
Defined.






(** C19: A step of the registry that removes a record removes one that names no
    existing volume any more; the record of a source is removed only while no
    record of a Workspace routes its pushes to that source. *)
Theorem removed_records_are_unused backend s s' kind id f :
  served backend s -> rstep backend s s' -> gw_files (rg_world s) !! (kind, id) = Some f ->
  gw_files (rg_world s') !! (kind, id) = None ->
  exists o, f = Holds o /\ Forall (fun v => v ∉ gw_volumes (rg_world s)) (refs o) /\
    (kind = "repo" -> forall j work, gw_files (rg_world s) !! ("work", j) = Some (Holds work) -> routed id work = false).
Proof. intros Hs Hr Hf Hn. pose proof (served_record backend s s' kind id f Hs Hr Hf) as H. by rewrite Hn in H. Qed.

Lemma removal_step w k :
  let Q := record_gone "work" "work" in
  rstep full_backend (mkRegistry w [Call Q (GDo (RemoveFile "work" "work") k) Inside])
    (mkRegistry (mkGworld (delete ("work", "work") (gw_files w)) (gw_volumes w)) [Call Q (k None) Inside]).
Proof.
  intros Q. eapply (RDo full_backend _ Q (RemoveFile "work" "work") k Inside None w _ [_] 0); [done|done|done|].
  by apply (smooth_gstep (RemoveFile "work" "work")).
Qed.

Lemma unlinked_record : exists f, gw_files unlinked !! ("work", "work") = Some f.
Proof. eexists. by vm_compute. Qed.

(** The Workspace is deleted: its volume is gone, its record is about to be. *)
Lemma removed_records_are_unused_witness :
  exists s s' f, served full_backend s /\ rstep full_backend s s' /\ gw_files (rg_world s) !! ("work", "work") = Some f /\
    gw_files (rg_world s') !! ("work", "work") = None /\
    exists o, f = Holds o /\ Forall (fun v => v ∉ gw_volumes (rg_world s)) (refs o) /\
      ("work" = "repo" -> forall j work, gw_files (rg_world s) !! ("work", j) = Some (Holds work) -> routed "work" work = false).
Proof.
  destruct delete_drives as [k Hk]. destruct unlinked_record as [f Hf]. revert Hk Hf. generalize unlinked. intros w Hk Hf.
  pose proof (driven_call smooth _ 5 delete_work copied _ _ _ smooth_gstep (RDeleteWorkspace _ _ _) (served_idle _ _ copied_served) Hk) as Hs.
  eexists _, _, f. split; [exact Hs|]. split; [exact (removal_step w k)|]. split; [exact Hf|]. split; [exact (lookup_delete_eq _ _)|].
  exact (removed_records_are_unused full_backend _ _ "work" "work" f Hs (removal_step w k) Hf (lookup_delete_eq _ _)).
Defined.

(** A listing of a kind with a truncated record fails. *)
Lemma truncated_listing kind id w :
  gw_files w !! (kind, id) = Some Broken -> gwp (fun r w' => w' = w /\ exists err, r = inr err) (listObjects kind) w.
Proof.
  intros Hf. eapply gwp_conseq; [apply listObjects_ok|]. intros [l|err] w' [-> H]; [|eauto]. destruct H as [_ H].
  by destruct (H id Broken Hf) as (o & ? & _).
Qed.

(** The calls that list the records of a kind. *)
Lemma truncated_sources kind id w r w' :
  kind = "repo" \/ kind = "work" -> gw_files w !! (kind, id) = Some Broken -> runs ListSources w r w' -> exists err, r = inr err.
Proof.
  intros Hk Hf. apply (runs_locked (fun r _ => exists err, r = inr err)). apply gwp_bind. destruct Hk as [-> | ->].
  - eapply gwp_conseq; [by eapply truncated_listing|]. intros r0 w0 [_ [err ->]]. by exists err.
  - eapply gwp_conseq; [apply listObjects_ok|]. intros [l|err] w0 [-> _]; [|by exists err]. apply gwp_bind.
    eapply gwp_conseq; [by eapply truncated_listing|]. intros r0 w0 [_ [err ->]]. by exists err.
Qed.

Lemma truncated_add backend id0 remote id w r w' :
  gw_files w !! ("repo", id) = Some Broken -> runs (Add backend id0 remote) w r w' -> snd r <> None.
Proof.
  intros Hf. unfold Add. destruct (CanonicalRemote remote); [|by intros [<- _]]. destruct (_ && _); [by intros [<- _]|].
  apply (runs_locked (fun r _ => snd r <> None)). apply gwp_bind. eapply gwp_conseq; [by eapply truncated_listing|]. by intros r0 w0 [_ [err ->]].
Qed.

(** C39: The creation of a record ([reserve]) that fails after it created the
    file leaves a truncated record that nothing removes: from then on, whatever
    calls are made, the record is there, no call lists the sources, and when it
    is the record of a source none is added. *)
Theorem truncated_record_is_permanent backend s s' kind id :
  served backend s -> gw_files (rg_world s) !! (kind, id) = Some Broken -> kind = "repo" \/ kind = "work" ->
  rtc (rstep backend) s s' ->
  gw_files (rg_world s') !! (kind, id) = Some Broken /\
  (forall r w', runs ListSources (rg_world s') r w' -> exists err, r = inr err) /\
  (kind = "repo" -> forall id0 remote r w', runs (Add backend id0 remote) (rg_world s') r w' -> snd r <> None).
Proof.
  intros Hs Hf Hk Hr. pose proof (broken_stays backend s s' kind id Hs Hr Hf) as Hb. split; [done|]. split.
  - intros r w'. by eapply truncated_sources.
  - intros -> id0 remote r w'. by eapply truncated_add.
Qed.

(** The first source could not be recorded. *)
Lemma truncated_record_is_permanent_witness :
  exists w, served full_backend (mkRegistry w []) /\ forall r w', runs ListSources w r w' -> exists err, r = inr err.
Proof.
  assert (gw_files torn_world !! ("repo", "tools") = Some Broken) as Hf by by vm_compute. revert Hf. generalize torn_served.
  generalize torn_world. intros w Hs Hf. exists w. split; [exact Hs|].
  exact (proj1 (proj2 (truncated_record_is_permanent full_backend (mkRegistry w []) (mkRegistry w []) "repo" "tools" Hs Hf
                         (or_introl eq_refl) (rtc_refl _ _)))).
Defined.
