(* ===== verification/WorkspaceModel.v ===== *)
(** * The Workspace service: data, effects and programs

    [src/internal/workspace] drives the catalog and the runtime provider.  Its
    methods are programs over the calls they make: reads and transitions of the
    catalog, calls of the provider, of the Workspace provider, of the manager of
    data areas and of the functions a composition installs, the lifecycle locks
    and the clock.  What a call answers is decided by an interpretation of the
    effects; the programs only fix which calls are made, in which order, and what
    is made of the answers.

    A Go interface assertion on a collaborator succeeds or fails with the method
    set of its type, which [Service] records as one boolean per method.  An
    assertion without [ok] that fails is [Panic]. *)

From S2P Require Import Prelude GoText Core CoreChecks CatalogState Catalog Resources Lifecycle Snapshots Runs Store.
From Stdlib Require Import Ascii String.
Open Scope string_scope.

(** ** Data *)

Record EnvironmentSpec := mkSpec {
  es_DeferStart : bool;
  es_OwnedWorkspace : bool;
  es_Volume : string;
  es_DNSMode : string;
  es_EphemeralInstance : string;
  es_ExpectedWorkspace : string;
  es_TemporaryWorkspace : option Workspace;
  es_SkipDefaultResource : bool;
  es_PersistentResource : string;
  es_ExpectedResource : PersistentResourceRef;
  es_Name : string;
  es_WorkspacePath : string;
  es_AccessMode : string;
  es_Base : string;
  es_Resources : ResourceBudget }.

Record EnvironmentRuntimeAttachment := mkRuntimeAttachment {
  ra_Attachment : EnvironmentAttachment;
  ra_Resource : PersistentResource }.

Record EnvironmentResourceBinding := mkBinding {
  bind_InstanceID : string;
  bind_WorkspacePath : string;
  bind_ReadOnly : bool;
  bind_Attachments : list EnvironmentRuntimeAttachment }.

Record EnvironmentRuntimeSpec := mkRuntimeSpec {
  rs_DeferStart : bool;
  rs_DNSMode : string;
  rs_Attachments : list EnvironmentRuntimeAttachment;
  rs_InstanceID : string;
  rs_TemporaryWorkspace : bool;
  rs_ResourceMaintenance : bool;
  rs_PersistentResource : PersistentResource;
  rs_Name : string;
  rs_WorkspacePath : string;
  rs_ReadOnly : bool;
  rs_Base : string;
  rs_Resources : ResourceBudget }.

Record EnvironmentRuntime := mkRuntime {
  rt_Ref : string;
  rt_Base : option BaseRef;
  rt_Resources : ResourceBudget }.

Record EnvironmentRuntimeStatus := mkStatus { status_Absent : bool; status_State : string }.
Definition EnvironmentRunning := "running".
Definition EnvironmentStopped := "stopped".

Record EnvironmentResourceRequest := mkResourceRequest {
  rr_EnvironmentID : string;
  rr_InstanceID : string;
  rr_Workspace : Workspace;
  rr_Base : string;
  rr_ReadOnly : bool }.

Record EnvironmentResourceSelection := mkSelection {
  sel_Key : string;
  sel_Target : string;
  sel_Origin : ResourceGeneration }.

(** The archive of an import is a reader that only its consumer looks at. *)
Record EnvironmentResourceImport := mkImport {
  imp_Key : string;
  imp_Target : string;
  imp_Kind : string;
  imp_Digest : string }.

Record ResourceGenerationPublication := mkPublication {
  pub_Generation : ResourceGeneration;
  pub_Candidate : PersistentResource;
  pub_State : string }.

Record ExecutionRequest := mkExecution {
  exec_Stdin : string;
  exec_WorkingDirectory : string;
  exec_Argv : list string }.

Record BaseInfo := mkBaseInfo { info_Name : string; info_Revision : string }.

(** What a command returned is not inspected by the service. *)
Record ExecutionResult := mkExecutionResult {
  exec_ExitCode : Z;
  exec_Stdout : string;
  exec_Stderr : string;
  exec_StdoutTruncated : bool;
  exec_StderrTruncated : bool;
  exec_StdoutBytes : Z;
  exec_StderrBytes : Z }.

Definition MaxExecutionInputBytes : Z := 2 ^ 20.

Record ManagedWorkspace := mkManaged {
  mw_Workspace : Workspace;
  mw_Name : string;
  mw_State : string;
  mw_Repositories : list string;
  mw_Environments : list string;
  mw_Snapshots : list string;
  mw_Stores : list string }.

Record SnapshotComponentInspection := mkComponentInspection {
  ci_Role : string;
  ci_State : string;
  ci_Provider : string;
  ci_Project : string;
  ci_Pool : string;
  ci_Object : string;
  ci_Presence : string;
  ci_Check : string;
  ci_References : option Z;
  ci_Backing : string }.

Record SnapshotInspection := mkInspection {
  insp_ID : string;
  insp_Environment : string;
  insp_State : string;
  insp_Partial : bool;
  insp_Components : list SnapshotComponentInspection }.

(** ** Effects *)

(** The context of a call: that of the caller, or one of [newCleanupContext],
    which a cancellation of the caller does not reach. *)
Inductive ctx := Parent | Detached.

(** Reads of the catalog. *)
Inductive query :=
| QEnvironment (name : string)
| QLease (name : string)
| QResource (id : string)
| QSnapshot (id : string)
| QRestore (id : string)
| QLeases
| QEnvironments
| QSnapshots
| QResources
| QOwnedCleanup (name : string)
| QResourcesIdle (name : string)
| QSnapshotIdle (name : string).

Definition query_value (q : query) : Type :=
  match q with
  | QEnvironment _ => Environment
  | QLease _ => WorkspaceLease
  | QResource _ => PersistentResource
  | QSnapshot _ => Snapshot
  | QRestore _ => SnapshotRestore
  | QLeases => list WorkspaceLease
  | QEnvironments => list Environment
  | QSnapshots => list Snapshot
  | QResources => list PersistentResource
  | QOwnedCleanup _ => Workspace
  | QResourcesIdle _ | QSnapshotIdle _ => unit
  end.

(** A provider that creates a runtime with a receipt callback: it calls the
    callback any number of times, sees what it returned, and returns. *)
Inductive creation :=
| Returned (a : answer EnvironmentRuntime)
| Receipt (created : EnvironmentRuntime) (next : option goerror -> creation).

(** The entry point that creates the runtime. *)
Inductive creator :=
| WithReceipt
| FromSnapshot (saved : Snapshot)
| FromArchive (privateRoot : string) (limit : Z).

Inductive effect :=
(* store: locks, reads, transitions *)
| LockLifecycle (domain id : string)
| UnlockLifecycle (domain id : string)
| Ask (c : ctx) (q : query)
| Mutate (c : ctx) (op : store_op)
| Prepare (c : ctx) (lease : WorkspaceLease)
| InstanceOf (environment : Environment)
(* context and clock *)
| CtxErr
| Now
(* runtime *)
| CreateEnvironment (spec : EnvironmentRuntimeSpec)
| CreateWith (how : creator) (spec : EnvironmentRuntimeSpec)
| ProviderCallsBack (name : string) (before : list (EnvironmentRuntime * option goerror)) (created : EnvironmentRuntime)
| ProviderReturns (name : string) (before : list (EnvironmentRuntime * option goerror)) (a : answer EnvironmentRuntime)
| DeleteEnvironment (c : ctx) (ref : string)
| InspectEnvironment (ref : string)
| StartEnvironment (ref : string)
| StartEnvironmentWithResources (ref : string) (binding : EnvironmentResourceBinding)
| StopEnvironment (ref : string)
| VerifyEnvironmentIdentity (ref instance : string)
| SupportsEnvironmentResources
| ExecEnvironment (ref : string) (req : ExecutionRequest)
| ExecEnvironmentStream (ref : string) (req : ProcessRequest)
| ShellEnvironmentStream (ref : string)
| PublishBase (environment : Environment) (lease : WorkspaceLease) (base : string)
| CommitImage (environment : Environment) (lease : WorkspaceLease) (image : string)
| PlanSnapshot (source : SnapshotSource) (id : string)
| CreateSnapshotComponent (source : SnapshotSource) (c : SnapshotComponent)
| VerifySnapshotComponent (c : SnapshotComponent)
| DeleteSnapshotComponent (c : SnapshotComponent)
| SnapshotImage (c : SnapshotComponent)
| InspectSnapshotComponent (c : SnapshotComponent)
| DeleteRestoreComponent (c : SnapshotComponent)
(* Workspace provider *)
| Resolve (path : string)
| ProviderWorkspaces
| DeleteWorkspace (work : Workspace)
(* manager of data areas *)
| PlanEnvironmentResources (request : EnvironmentResourceRequest) (selected : list EnvironmentResourceSelection)
| PlanSavedEnvironmentResources (request : EnvironmentResourceRequest) (saved : Snapshot)
| PlanImportedEnvironmentResources (request : EnvironmentResourceRequest) (inputs : list EnvironmentResourceImport)
| MaterializeEnvironmentResources (lease : WorkspaceLease)
| ImportEnvironmentResources (lease : WorkspaceLease) (inputs : list EnvironmentResourceImport)
| DeleteEnvironmentResources (c : ctx) (lease : WorkspaceLease)
| PublishEnvironmentGeneration (lease : WorkspaceLease) (area : EnvironmentAttachment)
| EmptyResource (lease : WorkspaceLease) (area : EnvironmentAttachment)
(* functions of the composition and of the callers *)
| DefaultResource (work : Workspace)
| SelectEnvironmentResources (request : EnvironmentResourceRequest)
| DeleteWorkspaceResource (id work : string)
| CheckSnapshotName (id : string)
| CallerAuthorizes (environment : Environment) (instance : string)
| CallerOperates (environment : Environment) (instance : string)
| CallerRemoves
| CallerConsumes (saved : Snapshot).

Definition reply (e : effect) : Type :=
  match e with
  | LockLifecycle _ _ => answer unit
  | UnlockLifecycle _ _ | ProviderCallsBack _ _ _ | ProviderReturns _ _ _ => unit
  | Ask _ q => answer (query_value q)
  | Mutate _ _ => answer unit
  | Prepare _ _ => answer WorkspaceLease
  | InstanceOf _ => answer string
  | CtxErr => answer unit
  | Now => Z
  | CreateEnvironment _ => answer EnvironmentRuntime
  | CreateWith _ _ => creation
  | InspectEnvironment _ => answer EnvironmentRuntimeStatus
  | SupportsEnvironmentResources => bool
  | ExecEnvironment _ _ | ExecEnvironmentStream _ _ => answer ExecutionResult
  | PublishBase _ _ _ | CommitImage _ _ _ => answer BaseInfo
  | SnapshotImage _ => answer BaseRef
  | PlanSnapshot _ _ => answer (list SnapshotComponent)
  | InspectSnapshotComponent _ => SnapshotComponentInspection * option goerror
  | Resolve _ => answer Workspace
  | ProviderWorkspaces => answer (list ManagedWorkspace)
  | PlanEnvironmentResources _ _ | PlanSavedEnvironmentResources _ _ | PlanImportedEnvironmentResources _ _ =>
      answer (list EnvironmentResourcePlan)
  | MaterializeEnvironmentResources _ | ImportEnvironmentResources _ _ => answer (list EnvironmentRuntimeAttachment)
  | PublishEnvironmentGeneration _ _ => answer ResourceGenerationPublication
  | DefaultResource _ => answer PersistentResource
  | SelectEnvironmentResources _ => answer (list EnvironmentResourceSelection)
  | _ => answer unit
  end.

(** ** Programs *)

Inductive prog (R : Type) :=
| Ret (r : R)
| Do (e : effect) (k : reply e -> prog R)
| Panic.
Arguments Ret {R} r.
Arguments Do {R} e k.
Arguments Panic {R}.

Fixpoint prog_bind {R R'} (p : prog R) (f : R -> prog R') : prog R' :=
  match p with
  | Ret r => f r
  | Do e k => Do e (fun a => prog_bind (k a) f)
  | Panic => Panic
  end.
#[export] Instance prog_ret : MRet prog := fun _ => Ret.
#[export] Instance prog_mbind : MBind prog := fun _ _ f p => prog_bind p f.

(** [if err != nil { return wrap(err) }]. *)
Definition wrapped {R R'} (wrap : goerror -> goerror) (p : prog (answer R)) (f : R -> prog (answer R')) : prog (answer R') :=
  prog_bind p (fun a => match a with inl r => f r | inr err => Ret (inr (wrap err)) end).

Declare Scope prog_scope.
Delimit Scope prog_scope with prog.
Open Scope prog_scope.

Notation "x <- p ;; q" := (wrapped id p (fun x => q))
  (at level 20, p at level 99, q at level 200, right associativity) : prog_scope.
Notation "'try' p ;; q" := (wrapped id p (fun _ => q))
  (at level 20, p at level 99, q at level 200, right associativity) : prog_scope.
Notation "x <- p 'or' w ;; q" := (wrapped w p (fun x => q))
  (at level 20, p at level 99, w at level 99, q at level 200, right associativity) : prog_scope.
Notation "'try' p 'or' w ;; q" := (wrapped w p (fun _ => q))
  (at level 20, p at level 99, w at level 99, q at level 200, right associativity) : prog_scope.
Notation "'stop_if' b 'with' e ;; q" := (if b then Ret (inr e) else q)
  (at level 20, b at level 100, e at level 99, q at level 200, right associativity,
   format "'stop_if'  b  'with'  e  ;; '//' q") : prog_scope.

Definition failing {R} (e : error) : prog (answer R) := Ret (inr (Plain e)).
Definition of_result {R} (r : result R) : prog (answer R) :=
  match r with Ok r => Ret (inl r) | Err e => failing e end.

(** One call. *)
Definition call (e : effect) : prog (reply e) := Do e Ret.

(** [fmt.Errorf("...: %w", err)] and [errors.Join(err, e)]. *)
Definition recovery (err : goerror) : goerror := Joined [err; Plain ErrRecoveryRequired].

(** A lock held until the function returns, [defer unlock()]. *)
Definition locked {R} (wrap : goerror -> goerror) (domain id : string) (body : prog (answer R)) : prog (answer R) :=
  wrapped wrap (call (LockLifecycle domain id)) (fun _ =>
    prog_bind body (fun r => Do (UnlockLifecycle domain id) (fun _ => Ret r))).
