(* ===== verification/WorkspaceService.v ===== *)
(** * The Workspace service: Environments

    [src/internal/workspace]: creation, cleanup, deletion, start, stop,
    execution and the operations on data areas of an Environment.  One
    definition per method, its early returns in the order of the code; log lines
    and the text of errors are left out. *)

From S2P Require Import Prelude GoText Core CoreChecks CatalogState Catalog Resources Lifecycle Snapshots Runs Store.
From S2P Require Import WorkspaceModel.
From Stdlib Require Import Ascii String.
Open Scope string_scope.
Open Scope prog_scope.

(** ** The service and what its collaborators implement *)

(** The optional methods of a data area manager. *)
Record Manager := mkManager {
  mg_import : bool;     (* PlanImportedEnvironmentResources, ImportEnvironmentResources *)
  mg_saved : bool;      (* PlanSavedEnvironmentResources *)
  mg_publish : bool;    (* PublishEnvironmentGeneration *)
  mg_empty : bool       (* EmptyEnvironmentResource *) }.

Record WorkspaceService := mkWorkspaceService {
  (* runtime *)
  rt_has_receipt : bool;
  rt_has_snapshot_creation : bool;
  rt_has_archive : bool;
  rt_has_inspect : bool;
  rt_has_stop : bool;
  rt_has_start : bool;
  rt_has_start_resources : bool;
  rt_has_verify : bool;
  rt_has_supports : bool;
  rt_has_stream : bool;
  rt_has_shell : bool;
  rt_has_publish : bool;
  rt_has_commit : bool;
  rt_has_snapshots : bool;
  rt_has_snapshot_image : bool;
  rt_has_snapshot_inspect : bool;
  rt_has_restore : bool;
  (* store *)
  st_has_resources : bool;        (* GetPersistentResource *)
  st_has_snapshot_creation : bool; (* snapshotCreationCatalog *)
  st_has_saved_resources : bool;  (* savedEnvironmentResourceCatalog *)
  st_has_resource_catalog : bool; (* environmentResourceCatalog *)
  st_has_owned_cleanup : bool;
  st_has_resources_idle : bool;
  st_has_snapshot_idle : bool;
  st_has_instance : bool;
  st_has_leases : bool;
  st_has_environments : bool;     (* environmentLister *)
  st_has_managed : bool;          (* managedWorkspaceCatalog *)
  st_has_snapshots : bool;        (* snapshotCatalog *)
  st_has_get_snapshot : bool;
  st_has_list_snapshots : bool;
  st_has_snapshot_image : bool;
  st_has_restores : bool;         (* restoreCatalog *)
  (* Workspace provider *)
  pv_has_list : bool;
  pv_has_delete : bool;
  (* configuration *)
  environmentResources : option Manager;
  has_selectEnvironmentResources : bool;
  has_defaultResource : bool;
  has_deleteWorkspaceResource : bool;
  has_checkSnapshotName : bool }.

(** ** Validation and locks *)

Definition validateEnvironmentName (name : string) : result string :=
  _ ← ValidateEnvironmentName name; Ok name.

Definition normalizeAccessMode (mode : string) : result string :=
  if mode == "" then Ok WorkspaceReadWrite
  else if (mode == WorkspaceReadOnly) || (mode == WorkspaceReadWrite) then Ok mode
  else Err ErrInvalidArgument.

(** [os.IsNotExist] looks at the error itself, not at what it wraps. *)
Definition os_IsNotExist (err : goerror) : bool :=
  match err with Plain e => e == ErrNotExist | _ => false end.
Definition isNotFound (err : goerror) : bool := errors_Is err ErrNotFound || os_IsNotExist err.

Definition lockEnvironment {R} (name : string) (body : prog (answer R)) : prog (answer R) :=
  locked id "environment" name body.
Definition lockWorkspace {R} (id_ : string) (body : prog (answer R)) : prog (answer R) :=
  locked id "workspace" id_ body.

Section Service.
Context (s : WorkspaceService).

(** [LockResourceName]. *)
Definition LockResourceName {R} (name : string) (body : prog (answer R)) : prog (answer R) :=
  stop_if negb (is_ok (ValidateEnvironmentName name)) || (41 <? len name)%Z with Plain ErrInvalidArgument ;;
  locked id "resource-name" name body.

Definition checkLifecycleIdle (name : string) : prog (answer unit) :=
  try (if st_has_resources_idle s then call (Ask Parent (QResourcesIdle name)) else Ret (inl tt)) ;;
  try (if st_has_snapshot_idle s then call (Ask Parent (QSnapshotIdle name)) else Ret (inl tt)) ;;
  Ret (inl tt).

(** ** Data areas *)

Definition is_nil {A} (l : list A) : bool := match l with [] => true | _ => false end.

Definition area_request (spec_Base : string) (work : Workspace) (lease : WorkspaceLease) : EnvironmentResourceRequest :=
  mkResourceRequest (lease_EnvironmentID lease) (lease_InstanceID lease) work spec_Base
    (lease_AccessMode lease == WorkspaceReadOnly).

(** [provider, ok := s.runtime.(...); !ok || !provider.SupportsEnvironmentResources()]. *)
Definition supports_resources : prog bool :=
  if rt_has_supports s then call SupportsEnvironmentResources else Ret false.

(** [s.environmentResources != nil]. *)
Definition has_manager : bool := match environmentResources s with Some _ => true | None => false end.

Definition planEnvironmentResources (spec : EnvironmentSpec) (work : Workspace) (lease : WorkspaceLease) (saved : bool)
  : prog (answer (list EnvironmentResourcePlan)) :=
  if negb (has_selectEnvironmentResources s) || bool_decide (es_TemporaryWorkspace spec <> None) then Ret (inl []) else
  let request := area_request (es_Base spec) work lease in
  selected <- call (SelectEnvironmentResources request) ;;
  if is_nil selected then Ret (inl []) else
  if saved then failing ErrUnsupported else
  prog_bind supports_resources (fun supported =>
  if negb supported || negb has_manager then failing ErrUnsupported else
  if negb (st_has_resource_catalog s) then failing ErrUnsupported else
  call (PlanEnvironmentResources request selected)).

Definition planImportedEnvironmentResources (work : Workspace) (lease : WorkspaceLease)
    (inputs : list EnvironmentResourceImport) : prog (answer (list EnvironmentResourcePlan)) :=
  if is_nil inputs then Ret (inl []) else
  match environmentResources s with
  | Some manager =>
    if negb (mg_import manager) then failing ErrUnsupported else
    prog_bind supports_resources (fun supported =>
    if negb supported then failing ErrUnsupported else
    if negb (st_has_resource_catalog s) then failing ErrUnsupported else
    call (PlanImportedEnvironmentResources (area_request "" work lease) inputs))
  | None => failing ErrUnsupported
  end.

Definition planSavedEnvironmentResources (spec : EnvironmentSpec) (work : Workspace) (lease : WorkspaceLease)
    (saved : Snapshot) : prog (answer (list EnvironmentResourcePlan)) :=
  if is_nil (env_Attachments (src_Environment (snap_Source saved))) then Ret (inl []) else
  match environmentResources s with
  | Some manager =>
    if negb (mg_saved manager) then failing ErrUnsupported else
    if negb (st_has_saved_resources s) then failing ErrUnsupported else
    call (PlanSavedEnvironmentResources (area_request (es_Base spec) work lease) saved)
  | None => failing ErrUnsupported
  end.

Fixpoint resolve_areas (lease : WorkspaceLease) (attachments : list EnvironmentAttachment)
    (areas : list EnvironmentRuntimeAttachment) : prog (answer (list EnvironmentRuntimeAttachment)) :=
  match attachments with
  | [] => Ret (inl areas)
  | a :: attachments =>
    r <- call (Ask Parent (QResource (ref_ID (att_Resource a)))) or (fun err => Joined [Plain ErrRecoveryRequired; err]) ;;
    stop_if (Ref r != att_Resource a) || (res_EnvironmentInstance r != lease_InstanceID lease) ||
            (res_Kind r != gen_Kind (att_Origin a)) || (res_State r != "ready") || res_SourceOnly r ||
            (res_CopySource r != zeroRef) || res_CopyCompleted r with Plain ErrRecoveryRequired ;;
    resolve_areas lease attachments (areas ++ [mkRuntimeAttachment a r])%list
  end.

Definition resolveEnvironmentRuntimeResources (lease : WorkspaceLease) : prog (answer (list EnvironmentRuntimeAttachment)) :=
  if negb (st_has_resources s) then failing ErrUnsupported else resolve_areas lease (lease_Attachments lease) [].

(** ** Cleanup *)

(** [lease, err := GetWorkspaceLease(...); err != nil && !errors.Is(err, ErrNotFound)]. *)
Definition lease_or_zero (a : answer WorkspaceLease) : answer WorkspaceLease :=
  match a with
  | inl lease => inl lease
  | inr err => if errors_Is err ErrNotFound then inl zeroLease else inr err
  end.

Definition finalizeAbsentEnvironment (c : ctx) (name : string) : prog (answer unit) :=
  lease <- prog_bind (call (Ask c (QLease name))) (fun a => Ret (lease_or_zero a)) ;;
  try (if is_nil (lease_Attachments lease) then Ret (inl tt) else
       if negb (st_has_resource_catalog s) || negb has_manager then failing ErrRecoveryRequired else
       absent <- call (Prepare c lease) or recovery ;;
       try call (DeleteEnvironmentResources c absent) or recovery ;;
       Ret (inl tt)) ;;
  try call (Mutate c (OpFinalizeEnvironmentDelete name)) or (fun err => Joined [Plain ErrRecoveryRequired; err]) ;;
  Ret (inl tt).

(** The helpers of [cleanup.go] return a nil error as [None]. *)
Definition error_of {R} (a : answer R) : option goerror := match a with inl _ => None | inr err => Some err end.

Definition deleteRuntimeForCleanup (ref : string) : prog (option goerror) :=
  prog_bind (call (DeleteEnvironment Detached ref)) (fun a =>
  Ret (if EnvironmentDeletionComplete (error_of a) then None else Wrapped <$> error_of a)).

Definition finalizeEnvironmentForCleanup (environmentID : string) : prog (option goerror) :=
  prog_bind (finalizeAbsentEnvironment Detached environmentID) (fun a => Ret (recovery <$> error_of a)).

Definition markEnvironmentRecovery (lease : WorkspaceLease) : prog (option goerror) :=
  prog_bind (call (Mutate Detached (OpMarkEnvironmentRecoveryRequired lease))) (fun a => Ret (error_of a)).

Definition failCreatedEnvironment (lease : WorkspaceLease) (cause : goerror) : prog goerror :=
  prog_bind (deleteRuntimeForCleanup (lease_RuntimeRef lease)) (fun cleanupErr =>
  match cleanupErr with
  | None =>
    prog_bind (finalizeEnvironmentForCleanup (lease_EnvironmentID lease)) (fun finalizeErr =>
    Ret (Join [Some cause; finalizeErr]))
  | Some _ =>
    prog_bind (markEnvironmentRecovery (lease_with_State WorkspaceLeaseCleanupRequired lease)) (fun markErr =>
    Ret (Join [Some cause; cleanupErr; markErr; Some (Plain ErrRecoveryRequired)]))
  end).

(** The branch of [deleteAndFinalize] whose provider did not report complete deletion. *)
Definition retain_undeleted (name ref : string) (cause : goerror) : prog (answer unit) :=
  lease <- call (Ask Parent (QLease name)) or (fun leaseErr => Joined [cause; leaseErr; Plain ErrRecoveryRequired]) ;;
  stop_if lease_RuntimeRef lease != ref with Joined [cause; Plain ErrCapabilityStale; Plain ErrRecoveryRequired] ;;
  prog_bind (markEnvironmentRecovery (lease_with_State WorkspaceLeaseCleanupRequired lease)) (fun markErr =>
  Ret (inr (Join [Some cause; markErr; Some (Plain ErrRecoveryRequired)]))).

Definition deleteAndFinalize (name ref : string) : prog (answer unit) :=
  lease <- prog_bind (call (Ask Parent (QLease name))) (fun a => Ret (lease_or_zero a)) ;;
  if lease_RuntimeAbsent lease then
    stop_if lease_RuntimeRef lease != ref with Plain ErrCapabilityStale ;;
    finalizeAbsentEnvironment Parent name
  else
  prog_bind (call (DeleteEnvironment Parent ref)) (fun a =>
  match (if EnvironmentDeletionComplete (error_of a) then None else error_of a) with
  | Some err => retain_undeleted name ref (Wrapped err)
  | None =>
    try finalizeAbsentEnvironment Parent name or (fun err => recovery (Wrapped err)) ;;
    Ret (inl tt)
  end).

(** ** Creation *)

Definition refuses_resource (spec : EnvironmentSpec) : bool :=
  (es_SkipDefaultResource spec && (es_PersistentResource spec != "")) ||
  ((es_ExpectedResource spec != zeroRef) &&
   (negb (ValidPersistentResourceRef (es_ExpectedResource spec)) ||
    (ref_ID (es_ExpectedResource spec) != es_PersistentResource spec))).

Definition explicit_resource (spec : EnvironmentSpec) : prog (answer PersistentResource) :=
  if es_PersistentResource spec == "" then Ret (inl zeroResource) else
  if negb (st_has_resources s) then failing ErrUnsupported else
  persistent <- call (Ask Parent (QResource (es_PersistentResource spec))) ;;
  stop_if (res_State persistent != "ready") || negb (ValidPersistentResourceRef (Ref persistent))
    with Plain ErrRecoveryRequired ;;
  Ret (inl persistent).

Definition select_workspace (spec : EnvironmentSpec) (mode : string) (persistent : PersistentResource)
  : prog (answer Workspace) :=
  match es_TemporaryWorkspace spec with
  | Some temporary =>
    stop_if (es_WorkspacePath spec != "") || negb (ValidTemporaryWorkspace temporary) || (mode != WorkspaceReadWrite) ||
            ((es_PersistentResource spec != "") &&
             ((es_ExpectedResource spec != Ref persistent) || res_SourceOnly persistent))
      with Plain ErrInvalidArgument ;;
    Ret (inl temporary)
  | None => call (Resolve (es_WorkspacePath spec))
  end.

(** The second resolution, under the lock of the Workspace. *)
Definition recheck_workspace (spec : EnvironmentSpec) (workspace : Workspace) : prog (answer unit) :=
  match es_TemporaryWorkspace spec with
  | Some _ => Ret (inl tt)
  | None =>
    current <- call (Resolve (es_WorkspacePath spec)) ;;
    stop_if current != workspace with Plain ErrCapabilityStale ;;
    Ret (inl tt)
  end.

Definition require_unused (name : string) : prog (answer unit) :=
  prog_bind (call (Ask Parent (QEnvironment name))) (fun a =>
  match a with
  | inl _ => Ret (inr (Wrapped (Plain ErrAlreadyExists)))
  | inr err => if isNotFound err then Ret (inl tt) else Ret (inr err)
  end).

Definition default_resource (spec : EnvironmentSpec) (workspace : Workspace) (persistent : PersistentResource)
  : prog (answer PersistentResource) :=
  if (es_PersistentResource spec == "") && negb (es_SkipDefaultResource spec) && has_defaultResource s then
    persistent <- call (DefaultResource workspace) ;;
    stop_if (persistent != zeroResource) &&
            ((res_WorkspaceID persistent != ws_ID workspace) || (res_State persistent != "ready") ||
             negb (ValidPersistentResourceRef (Ref persistent))) with Plain ErrRecoveryRequired ;;
    Ret (inl persistent)
  else Ret (inl persistent).

Definition new_lease (spec : EnvironmentSpec) (instanceID mode : string) (workspace : Workspace)
    (persistent : PersistentResource) (now : Z) : WorkspaceLease :=
  mkLease [] false (es_EphemeralInstance spec != "") "" instanceID (Ref persistent) (ws_ID workspace) (ws_Path workspace)
    (es_Name spec) mode (es_Name spec) "" WorkspaceLeaseAcquiring now.

Definition plan_areas (spec : EnvironmentSpec) (saved : option Snapshot) (creator_ : option creator)
    (imports : list EnvironmentResourceImport) (workspace : Workspace) (lease : WorkspaceLease)
  : prog (answer (list EnvironmentResourcePlan)) :=
  match creator_, saved with
  | Some _, _ => planImportedEnvironmentResources workspace lease imports
  | None, Some saved => planSavedEnvironmentResources spec workspace lease saved
  | None, None => planEnvironmentResources spec workspace lease false
  end.

(** [for _, plan := range plans { lease.Attachments = append(...) }] and
    [lease.SnapshotSource = saved.ID]. *)
Definition reserved_lease (lease : WorkspaceLease) (plans : list EnvironmentResourcePlan) (saved : option Snapshot)
  : WorkspaceLease :=
  mkLease (plan_Attachment <$> plans) (lease_RuntimeAbsent lease) (lease_Ephemeral lease)
    match saved with Some saved => snap_ID saved | None => "" end
    (lease_InstanceID lease) (lease_PersistentResource lease) (lease_WorkspaceID lease) (lease_SourcePath lease)
    (lease_EnvironmentID lease) (lease_AccessMode lease) (lease_Owner lease) (lease_RuntimeRef lease) (lease_State lease)
    (lease_AcquiredAt lease).

(** The reservation; an unchecked assertion on the store panics. *)
Definition begin_create (lease : WorkspaceLease) (plans : list EnvironmentResourcePlan) (saved : option Snapshot)
  : prog (answer unit) :=
  match is_nil plans, saved with
  | false, Some saved =>
    if negb (st_has_saved_resources s) then Panic else
    call (Mutate Parent (OpBeginEnvironmentCreateFromSnapshotWithResources lease saved plans))
  | false, None =>
    if negb (st_has_resource_catalog s) then Panic else
    call (Mutate Parent (OpBeginEnvironmentCreateWithResources lease plans))
  | true, Some saved =>
    if negb (st_has_snapshot_creation s) then Panic else
    call (Mutate Parent (OpBeginEnvironmentCreateFromSnapshot lease saved))
  | true, None => call (Mutate Parent (OpBeginEnvironmentCreate lease))
  end.

Definition materialize (lease : WorkspaceLease) (plans : list EnvironmentResourcePlan)
    (imports : list EnvironmentResourceImport) : prog (answer (list EnvironmentRuntimeAttachment)) :=
  if is_nil plans then Ret (inl []) else
  prog_bind (
    match environmentResources s with
    | None => Panic
    | Some manager =>
      if is_nil imports then call (MaterializeEnvironmentResources lease)
      else if negb (mg_import manager) then Panic
      else call (ImportEnvironmentResources lease imports)
    end) (fun a =>
  match a with
  | inl attachments => Ret (inl attachments)
  | inr err =>
    prog_bind (finalizeEnvironmentForCleanup (lease_EnvironmentID lease)) (fun finalizeErr =>
    Ret (inr (Join [Some err; finalizeErr])))
  end).

(** The receipt callback and the variables it captures: [lease.RuntimeRef] and
    [recorded]. *)
Definition record_runtime (captured : WorkspaceLease * bool) (created : EnvironmentRuntime)
  : prog ((WorkspaceLease * bool) * option goerror) :=
  let '(lease, recorded) := captured in
  if recorded || (TrimSpace (rt_Ref created) == "") then Ret (captured, Some (Plain ErrIncompatibleState)) else
  let lease := lease_with_RuntimeRef (rt_Ref created) lease in
  prog_bind (call (Mutate Parent (OpRecordEnvironmentRuntime lease))) (fun a =>
  match a with
  | inr err => Ret ((lease, recorded), Some err)
  | inl _ => Ret ((lease, true), None)
  end).

(** A creation with receipts, driven by the provider. *)
Fixpoint run_creation (name : string) (before : list (EnvironmentRuntime * option goerror)) (t : creation)
    (captured : WorkspaceLease * bool) : prog ((WorkspaceLease * bool) * answer EnvironmentRuntime) :=
  match t with
  | Returned a => Do (ProviderReturns name before a) (fun _ => Ret (captured, a))
  | Receipt created next =>
    Do (ProviderCallsBack name before created) (fun _ =>
    prog_bind (record_runtime captured created) (fun r =>
    run_creation name (before ++ [(created, r.2)])%list (next r.2) r.1))
  end.

Definition create_runtime (saved : option Snapshot) (creator_ : option creator) (runtimeSpec : EnvironmentRuntimeSpec)
    (lease : WorkspaceLease) : prog ((WorkspaceLease * bool) * answer EnvironmentRuntime) :=
  let with_receipt how :=
    Do (CreateWith how runtimeSpec) (fun t => run_creation (rs_Name runtimeSpec) [] t (lease, false)) in
  match creator_, saved with
  | Some how, _ => with_receipt how
  | None, Some saved => if negb (rt_has_snapshot_creation s) then Panic else with_receipt (FromSnapshot saved)
  | None, None =>
    if rt_has_receipt s then with_receipt WithReceipt
    else prog_bind (call (CreateEnvironment runtimeSpec)) (fun a => Ret ((lease, false), a))
  end.

(** [return core.Environment{}, s.failCreatedEnvironment(ctx, lease, cause)]. *)
Definition fail_created {R} (lease : WorkspaceLease) (cause : goerror) : prog (answer R) :=
  prog_bind (failCreatedEnvironment lease cause) (fun err => Ret (inr err)).

(** Retain the reservation for recovery and return [cause]. *)
Definition retain_created {R} (lease : WorkspaceLease) (cause : goerror) : prog (answer R) :=
  prog_bind (markEnvironmentRecovery (lease_with_State WorkspaceLeaseCleanupRequired lease)) (fun markErr =>
  Ret (inr (Join [Some cause; markErr; Some (Plain ErrRecoveryRequired)]))).

(** What follows an error of the provider. *)
Definition creation_failed {R} (lease : WorkspaceLease) (err : goerror) : prog (answer R) :=
  if lease_RuntimeRef lease != "" then fail_created lease (Wrapped err) else
  if errors_Is err ErrRecoveryRequired then retain_created lease (Wrapped err) else
  prog_bind (finalizeEnvironmentForCleanup (lease_EnvironmentID lease)) (fun releaseErr =>
  Ret (inr (Join [Some (Wrapped err); releaseErr]))).

Definition published_environment (spec : EnvironmentSpec) (mode : string) (resources : ResourceBudget)
    (workspace : Workspace) (persistent : PersistentResource) (lease : WorkspaceLease) (created : EnvironmentRuntime)
    (now : Z) : Environment :=
  mkEnvironment (es_OwnedWorkspace spec) (es_Volume spec) (es_DNSMode spec) (lease_Attachments lease) (Ref persistent)
    (es_Name spec) workspace mode (rt_Base created) resources (rt_Ref created) now.

(** From the record of the runtime to the commit. *)
Definition publish_created (spec : EnvironmentSpec) (mode : string) (resources : ResourceBudget)
    (workspace : Workspace) (persistent : PersistentResource) (captured : WorkspaceLease * bool)
    (created : EnvironmentRuntime) : prog (answer Environment) :=
  let '(lease, recorded) := captured in
  if recorded && (lease_RuntimeRef lease != rt_Ref created) then fail_created lease (Plain ErrCapabilityStale) else
  prog_bind (if recorded then Ret (captured, None) else record_runtime captured created) (fun r =>
  let lease := r.1.1 in
  match r.2 with
  | Some err => fail_created lease (Wrapped err)
  | None =>
    let returned := if (rt_Resources created == zeroBudget) && negb (ResourceBudgetHasFinite resources)
                    then resources else rt_Resources created in
    if returned != resources then fail_created lease (Wrapped (Plain ErrIncompatibleState)) else
    prog_bind (call Now) (fun now =>
    let environment := published_environment spec mode resources workspace persistent lease created now in
    let lease := lease_with_State WorkspaceLeaseActive lease in
    prog_bind (call (Mutate Parent (OpCommitEnvironmentCreate environment lease))) (fun a =>
    match a with
    | inr err => fail_created lease (Wrapped err)
    | inl _ => Ret (inl environment)
    end))
  end).

Definition runtime_spec (spec : EnvironmentSpec) (mode : string) (resources : ResourceBudget) (workspace : Workspace)
    (persistent : PersistentResource) (instanceID : string) (attachments : list EnvironmentRuntimeAttachment)
  : EnvironmentRuntimeSpec :=
  mkRuntimeSpec (es_DeferStart spec) (es_DNSMode spec) attachments instanceID
    (bool_decide (es_TemporaryWorkspace spec <> None))
    (bool_decide (es_TemporaryWorkspace spec <> None) && (es_PersistentResource spec != ""))
    persistent (es_Name spec) (ws_Path workspace) (mode == WorkspaceReadOnly) (es_Base spec) resources.

(** From the reservation to the result. *)
Definition create_reserved (spec : EnvironmentSpec) (saved : option Snapshot) (creator_ : option creator)
    (imports : list EnvironmentResourceImport) (mode : string) (resources : ResourceBudget) (workspace : Workspace)
    (persistent : PersistentResource) (lease : WorkspaceLease) (plans : list EnvironmentResourcePlan)
  : prog (answer Environment) :=
  attachments <- materialize lease plans imports ;;
  prog_bind (create_runtime saved creator_
      (runtime_spec spec mode resources workspace persistent (lease_InstanceID lease) attachments) lease) (fun r =>
  match r.2 with
  | inr err => creation_failed r.1.1 err
  | inl created =>
    if TrimSpace (rt_Ref created) == "" then retain_created r.1.1 (Wrapped (Plain ErrIncompatibleState)) else
    publish_created spec mode resources workspace persistent r.1 created
  end).

(** Under both locks, up to the reservation. *)
Definition create_locked (nonce : list ascii) (spec : EnvironmentSpec) (saved : option Snapshot)
    (creator_ : option creator) (imports : list EnvironmentResourceImport) (mode : string) (resources : ResourceBudget)
    (persistent : PersistentResource) (workspace : Workspace) : prog (answer Environment) :=
  try recheck_workspace spec workspace ;;
  try require_unused (es_Name spec) ;;
  persistent <- default_resource spec workspace persistent ;;
  let instanceID := if es_EphemeralInstance spec != "" then es_EphemeralInstance spec else NewEnvironmentInstanceID nonce in
  prog_bind (call Now) (fun now =>
  let lease := new_lease spec instanceID mode workspace persistent now in
  plans <- plan_areas spec saved creator_ imports workspace lease ;;
  let lease := reserved_lease lease plans saved in
  try begin_create lease plans saved or Wrapped ;;
  create_reserved spec saved creator_ imports mode resources workspace persistent lease plans).

(** [nonce] are the random bytes of the new instance identity. *)
Definition create (nonce : list ascii) (spec : EnvironmentSpec) (saved : option Snapshot) (creator_ : option creator)
    (imports : list EnvironmentResourceImport) : prog (answer Environment) :=
  stop_if negb (DNSMode_Valid (es_DNSMode spec)) with Plain ErrInvalidArgument ;;
  name <- of_result (validateEnvironmentName (es_Name spec)) ;;
  stop_if (es_EphemeralInstance spec != "") && negb (ValidEnvironmentInstanceID (es_EphemeralInstance spec))
    with Plain ErrInvalidArgument ;;
  lockEnvironment name (
    mode <- of_result (normalizeAccessMode (es_AccessMode spec)) ;;
    resources <- of_result (ResolveResourceBudget (es_Resources spec)) ;;
    stop_if refuses_resource spec with Plain ErrInvalidArgument ;;
    persistent <- explicit_resource spec ;;
    stop_if (es_ExpectedResource spec != zeroRef) && (Ref persistent != es_ExpectedResource spec)
      with Plain ErrCapabilityStale ;;
    workspace <- select_workspace spec mode persistent ;;
    stop_if (es_ExpectedWorkspace spec != "") && (ws_ID workspace != es_ExpectedWorkspace spec)
      with Plain ErrCapabilityStale ;;
    locked Wrapped "workspace" (ws_ID workspace)
      (create_locked nonce spec saved creator_ imports mode resources persistent workspace)).

Definition Create (nonce : list ascii) (spec : EnvironmentSpec) : prog (answer Environment) :=
  create nonce spec None None [].

Definition with_DNSMode (mode : string) (spec : EnvironmentSpec) : EnvironmentSpec :=
  mkSpec (es_DeferStart spec) (es_OwnedWorkspace spec) (es_Volume spec) mode (es_EphemeralInstance spec)
    (es_ExpectedWorkspace spec) (es_TemporaryWorkspace spec) (es_SkipDefaultResource spec) (es_PersistentResource spec)
    (es_ExpectedResource spec) (es_Name spec) (es_WorkspacePath spec) (es_AccessMode spec) (es_Base spec) (es_Resources spec).
(** [spec.SkipDefaultResource = spec.PersistentResource == ""]. *)
Definition skip_default (spec : EnvironmentSpec) : EnvironmentSpec :=
  mkSpec (es_DeferStart spec) (es_OwnedWorkspace spec) (es_Volume spec) (es_DNSMode spec) (es_EphemeralInstance spec)
    (es_ExpectedWorkspace spec) (es_TemporaryWorkspace spec) (es_PersistentResource spec == "") (es_PersistentResource spec)
    (es_ExpectedResource spec) (es_Name spec) (es_WorkspacePath spec) (es_AccessMode spec) (es_Base spec) (es_Resources spec).

(** [source] says whether the reader is not nil. *)
Definition CreateFromArchiveWithData (nonce : list ascii) (spec : EnvironmentSpec) (source : bool) (privateRoot : string)
    (limit : Z) (inputs : list EnvironmentResourceImport) : prog (answer Environment) :=
  stop_if negb (rt_has_archive s) with Plain ErrUnsupported ;;
  stop_if negb source || (limit <=? 0)%Z || (es_Base spec != "") with Plain ErrInvalidArgument ;;
  create nonce (skip_default spec) None (Some (FromArchive privateRoot limit)) inputs.

Definition CreateFromArchive (nonce : list ascii) (spec : EnvironmentSpec) (source : bool) (privateRoot : string)
    (limit : Z) : prog (answer Environment) :=
  CreateFromArchiveWithData nonce spec source privateRoot limit [].

Definition CreateFromSnapshot (nonce : list ascii) (spec : EnvironmentSpec) (savedID : string) : prog (answer Environment) :=
  stop_if negb (st_has_snapshot_creation s) with Plain ErrUnsupported ;;
  stop_if negb (rt_has_snapshot_creation s) with Plain ErrUnsupported ;;
  stop_if (es_Base spec != "") || bool_decide (es_TemporaryWorkspace spec <> None) with Plain ErrInvalidArgument ;;
  saved <- call (Ask Parent (QSnapshot savedID)) ;;
  let source := src_Environment (snap_Source saved) in
  stop_if snap_State saved != "ready" with Plain ErrIncompatibleState ;;
  stop_if xorb (ref_ID (env_PersistentResource source) != "") (es_PersistentResource spec != "")
    with Plain ErrInvalidArgument ;;
  stop_if (es_DNSMode spec != "") && (DNSMode_Effective (es_DNSMode spec) != DNSMode_Effective (env_DNSMode source))
    with Plain ErrInvalidArgument ;;
  create nonce (skip_default (with_DNSMode (env_DNSMode source) spec)) (Some saved) None [].

(** ** Deletion *)

Fixpoint resource_deletions (work : Workspace) (all : list PersistentResource) : prog (answer unit) :=
  match all with
  | [] => Ret (inl tt)
  | resource :: all =>
    if res_WorkspaceID resource != ws_ID work then resource_deletions work all else
    if negb (has_deleteWorkspaceResource s) then failing ErrUnsupported else
    try call (DeleteWorkspaceResource (res_ID resource) (ws_ID work)) or Wrapped ;;
    resource_deletions work all
  end.

Definition uses_workspace (work : Workspace) (l : WorkspaceLease) : bool :=
  (lease_WorkspaceID l == ws_ID work) || (lease_SourcePath l == ws_Path work).
Definition environment_uses_workspace (work : Workspace) (e : Environment) : bool :=
  (ws_ID (env_Workspace e) == ws_ID work) || (ws_Path (env_Workspace e) == ws_Path work).

Definition DeleteManagedWorkspace (work : Workspace) : prog (answer unit) :=
  stop_if negb (HasPrefix (ws_Path work) "managed:") || negb (HasPrefix (ws_ID work) "workspace:managed:")
    with Plain ErrInvalidArgument ;;
  stop_if negb (pv_has_delete s) with Plain ErrUnsupported ;;
  stop_if negb (st_has_managed s) with Plain ErrUnsupported ;;
  lockWorkspace (ws_ID work) (
    leases <- call (Ask Parent QLeases) ;;
    stop_if existsb (uses_workspace work) leases with Plain ErrStorageBusy ;;
    envs <- call (Ask Parent QEnvironments) ;;
    stop_if existsb (environment_uses_workspace work) envs with Plain ErrStorageBusy ;;
    call (DeleteWorkspace work)).

Definition DeleteOwnedWorkspace (work : Workspace) : prog (answer unit) :=
  stop_if negb (st_has_managed s) with Plain ErrUnsupported ;;
  all <- call (Ask Parent QResources) ;;
  try resource_deletions work all ;;
  try DeleteManagedWorkspace work or Wrapped ;;
  Ret (inl tt).

Definition finishOwnedWorkspaceCleanup (name : string) : prog (answer unit) :=
  if negb (st_has_owned_cleanup s) then Ret (inl tt) else
  prog_bind (call (Ask Parent (QOwnedCleanup name))) (fun a =>
  match a with
  | inr err => if errors_Is err ErrNotFound then Ret (inl tt) else Ret (inr err)
  | inl work =>
    try DeleteOwnedWorkspace work or recovery ;;
    call (Mutate Parent (OpFinalizeOwnedWorkspaceCleanup name work))
  end).

(** [instance != ""]: the run must still be the one that was reviewed. *)
Definition check_run (name instance : string) : prog (answer unit) :=
  if instance == "" then Ret (inl tt) else
  prog_bind (call (Ask Parent (QLease name))) (fun a =>
  match a with
  | inl lease =>
    stop_if negb (lease_Ephemeral lease) || (lease_InstanceID lease != instance) with Plain ErrCapabilityStale ;;
    Ret (inl tt)
  | inr leaseErr =>
    if negb (isNotFound leaseErr) then Ret (inr leaseErr) else
    prog_bind (call (Ask Parent (QEnvironment name))) (fun a =>
    match a with
    | inr envErr => if isNotFound envErr then Ret (inl tt) else Ret (inr (Joined [Plain ErrRecoveryRequired; envErr]))
    | inl _ => Ret (inr (Joined [Plain ErrRecoveryRequired]))
    end)
  end).

(** The public policy: a running Environment is stopped only by force. *)
Definition user_policy (environment : Environment) (force : bool) : prog (answer unit) :=
  stop_if negb (rt_has_inspect s && rt_has_stop s) with Plain ErrUnsupported ;;
  status <- call (InspectEnvironment (env_RuntimeRef environment)) ;;
  if status_State status == EnvironmentRunning then
    stop_if negb force with Wrapped (Plain ErrStorageBusy) ;;
    call (StopEnvironment (env_RuntimeRef environment))
  else stop_if status_State status != EnvironmentStopped with Plain ErrIncompatibleState ;;
  Ret (inl tt).

(** The lease of an Environment that was never published. *)
Definition delete_unpublished (name : string) (expected : option Workspace) : prog (answer unit) :=
  prog_bind (call (Ask Parent (QLease name))) (fun a =>
  match a with
  | inr leaseErr => if isNotFound leaseErr then finishOwnedWorkspaceCleanup name else Ret (inr leaseErr)
  | inl lease =>
    stop_if match expected with
            | Some work => (lease_WorkspaceID lease != ws_ID work) || (lease_SourcePath lease != ws_Path work)
            | None => false
            end with Plain ErrIncompatibleState ;;
    if lease_RuntimeAbsent lease then finalizeAbsentEnvironment Parent name else
    stop_if lease_RuntimeRef lease == "" with Wrapped (Plain ErrRecoveryRequired) ;;
    deleteAndFinalize name (lease_RuntimeRef lease)
  end).

Definition deleteWithPolicy (name : string) (expected : option Workspace) (instance : string) (user force : bool)
  : prog (answer unit) :=
  try of_result (validateEnvironmentName name) ;;
  lockEnvironment name (
    try checkLifecycleIdle name ;;
    try check_run name instance ;;
    prog_bind (call (Ask Parent (QEnvironment name))) (fun a =>
    match a with
    | inl environment =>
      stop_if match expected with Some work => env_Workspace environment != work | None => false end
        with Plain ErrIncompatibleState ;;
      try (if user then user_policy environment force else Ret (inl tt)) ;;
      try deleteAndFinalize name (env_RuntimeRef environment) ;;
      finishOwnedWorkspaceCleanup name
    | inr err => if negb (isNotFound err) then Ret (inr err) else delete_unpublished name expected
    end)).

Definition Delete (name : string) : prog (answer unit) := deleteWithPolicy name None "" false false.
Definition DeleteUser (name : string) (force : bool) : prog (answer unit) := deleteWithPolicy name None "" true force.
Definition DeleteTemporary (name : string) (work : Workspace) : prog (answer unit) :=
  stop_if negb (ValidTemporaryWorkspace work) with Plain ErrInvalidArgument ;;
  deleteWithPolicy name (Some work) "" false false.
Definition DeleteRun (name instance : string) : prog (answer unit) :=
  stop_if negb (ValidEnvironmentInstanceID instance) with Plain ErrInvalidArgument ;;
  deleteWithPolicy name None instance false false.

End Service.
