(* ===== verification/WorkspaceAccess.v ===== *)
(** * The Workspace service: use of Environments and snapshots

    [src/internal/workspace]: the methods that use an existing Environment
    (start, stop, execution, client access, data areas, images) and those that
    capture, read and delete snapshots. *)

From S2P Require Import Prelude GoText Core CoreChecks CatalogState Catalog Resources Lifecycle Snapshots Runs Store.
From S2P Require Import WorkspaceModel WorkspaceService.
From Stdlib Require Import Ascii String.
Open Scope string_scope.
Open Scope prog_scope.

Section Access.
Context (s : WorkspaceService).

(** ** Reading *)

Definition Get (name : string) : prog (answer Environment) :=
  try of_result (validateEnvironmentName name) ;; call (Ask Parent (QEnvironment name)).

Definition List_environments : prog (answer (list Environment)) :=
  stop_if negb (st_has_environments s) with Wrapped (Plain ErrUnsupported) ;; call (Ask Parent QEnvironments).

(** The names of the Environments that use a Workspace, sorted. *)
Definition consumers (w : Workspace) (leases : list WorkspaceLease) (envs : list Environment) : list string :=
  sort_by id (elements (list_to_set (C := gset string)
    ((lease_EnvironmentID <$> List.filter (uses_workspace w) leases) ++
     (env_Name <$> List.filter (environment_uses_workspace w) envs)))).

Definition describe_workspace (leases : list WorkspaceLease) (envs : list Environment) (snapshots : list Snapshot)
    (resources : list PersistentResource) (w : ManagedWorkspace) : ManagedWorkspace :=
  mkManaged (mw_Workspace w) (mw_Name w) (mw_State w) (mw_Repositories w)
    (consumers (mw_Workspace w) leases envs)
    (snap_ID <$> List.filter (fun saved => ws_ID (env_Workspace (src_Environment (snap_Source saved))) == ws_ID (mw_Workspace w)) snapshots)
    (res_ID <$> List.filter (fun r => res_WorkspaceID r == ws_ID (mw_Workspace w)) resources).

Definition ListManagedWorkspaces : prog (answer (list ManagedWorkspace)) :=
  stop_if negb (pv_has_list s) with Plain ErrUnsupported ;;
  stop_if negb (st_has_managed s) with Plain ErrUnsupported ;;
  all <- call ProviderWorkspaces ;;
  leases <- call (Ask Parent QLeases) ;;
  envs <- call (Ask Parent QEnvironments) ;;
  snapshots <- call (Ask Parent QSnapshots) ;;
  resources <- call (Ask Parent QResources) ;;
  Ret (inl (describe_workspace leases envs snapshots resources <$> all)).

(** ** Start and stop *)

Definition startRuntimeWithLease (environment : Environment) (lease : WorkspaceLease) : prog (answer unit) :=
  if negb (is_nil (lease_Attachments lease)) then
    stop_if negb (rt_has_start_resources s) with Plain ErrUnsupported ;;
    areas <- resolveEnvironmentRuntimeResources s lease ;;
    call (StartEnvironmentWithResources (env_RuntimeRef environment)
            (mkBinding (lease_InstanceID lease) (lease_SourcePath lease) (lease_AccessMode lease == WorkspaceReadOnly) areas))
  else
  stop_if negb (rt_has_start s) with Wrapped (Plain ErrUnsupported) ;;
  call (StartEnvironment (env_RuntimeRef environment)).

Definition start (name expected : string) : prog (answer unit) :=
  try of_result (validateEnvironmentName name) ;;
  lockEnvironment name (
    try checkLifecycleIdle s name ;;
    environment <- call (Ask Parent (QEnvironment name)) ;;
    stop_if (expected != "") && (ws_ID (env_Workspace environment) != expected) with Plain ErrIncompatibleState ;;
    lease <- call (Ask Parent (QLease name)) or (fun _ => Wrapped (Plain ErrRecoveryRequired)) ;;
    stop_if (lease_EnvironmentID lease != name) || negb (MatchesEnvironment lease environment)
      with Wrapped (Plain ErrRecoveryRequired) ;;
    startRuntimeWithLease environment lease).

Definition Start (name : string) : prog (answer unit) := start name "".
Definition StartForWorkspace (name expected : string) : prog (answer unit) :=
  stop_if expected == "" with Plain ErrInvalidArgument ;; start name expected.

Definition stopForWorkspace (name work : string) : prog (answer unit) :=
  try of_result (validateEnvironmentName name) ;;
  lockEnvironment name (
    environment <- call (Ask Parent (QEnvironment name)) ;;
    stop_if (work != "") && (ws_ID (env_Workspace environment) != work) with Plain ErrCapabilityStale ;;
    stop_if negb (rt_has_stop s) with Wrapped (Plain ErrUnsupported) ;;
    call (StopEnvironment (env_RuntimeRef environment))).

Definition Stop (name : string) : prog (answer unit) := stopForWorkspace name "".
Definition StopForWorkspace (name work : string) : prog (answer unit) :=
  stop_if work == "" with Plain ErrInvalidArgument ;; stopForWorkspace name work.

(** ** Execution *)

Definition maybe_locked {R} (lock : bool) (name : string) (body : prog (answer R)) : prog (answer R) :=
  if lock then lockEnvironment name body else body.

Definition exec (name : string) (req : ExecutionRequest) (workspace : string) : prog (answer ExecutionResult) :=
  try of_result (validateEnvironmentName name) ;;
  stop_if is_nil (exec_Argv req) || (MaxExecutionInputBytes <? len (exec_Stdin req))%Z with Plain ErrInvalidArgument ;;
  maybe_locked (workspace != "") name (
    environment <- call (Ask Parent (QEnvironment name)) ;;
    stop_if (workspace != "") && (ws_ID (env_Workspace environment) != workspace) with Plain ErrIncompatibleState ;;
    call (ExecEnvironment (env_RuntimeRef environment) req)).

Definition Exec (name : string) (req : ExecutionRequest) : prog (answer ExecutionResult) := exec name req "".
Definition ExecForWorkspace (name workspace : string) (req : ExecutionRequest) : prog (answer ExecutionResult) :=
  stop_if workspace == "" with Plain ErrInvalidArgument ;; exec name req workspace.

Definition ExecForResource (name instance : string) (resource : PersistentResourceRef) (req : ExecutionRequest)
  : prog (answer ExecutionResult) :=
  try of_result (validateEnvironmentName name) ;;
  stop_if negb (ValidEnvironmentInstanceID instance) || negb (ValidPersistentResourceRef resource)
    with Plain ErrInvalidArgument ;;
  lockEnvironment name (
    env <- call (Ask Parent (QEnvironment name)) ;;
    stop_if negb (st_has_instance s) with Plain ErrUnsupported ;;
    current <- call (InstanceOf env) ;;
    stop_if (current != instance) || (env_PersistentResource env != resource) with Plain ErrCapabilityStale ;;
    Exec name req).

(** The three streams of the callers that pass them are not nil. *)
Definition ExecRunStream (name instance : string) (request : ProcessRequest) (streams : bool) : prog (answer ExecutionResult) :=
  stop_if negb (ValidEnvironmentInstanceID instance) || is_nil (proc_Argv request) || negb streams
    with Plain ErrInvalidArgument ;;
  try of_result (ValidateProcessRequest request) ;;
  try of_result (validateEnvironmentName name) ;;
  lockEnvironment name (
    lease <- call (Ask Parent (QLease name)) ;;
    stop_if negb (lease_Ephemeral lease) || (lease_InstanceID lease != instance) || (lease_State lease != WorkspaceLeaseActive)
      with Plain ErrCapabilityStale ;;
    env <- call (Ask Parent (QEnvironment name)) ;;
    stop_if env_RuntimeRef env != lease_RuntimeRef lease with Plain ErrIncompatibleState ;;
    stop_if negb (rt_has_stream s) with Plain ErrUnsupported ;;
    call (ExecEnvironmentStream (env_RuntimeRef env) request)).

Definition runningEnvironment (name : string) : prog (answer Environment) :=
  env <- call (Ask Parent (QEnvironment name)) ;;
  lease <- call (Ask Parent (QLease name)) ;;
  stop_if lease_Ephemeral lease || negb (ValidEnvironmentInstanceID (lease_InstanceID lease)) ||
          negb (MatchesEnvironment lease env) with Plain ErrIncompatibleState ;;
  stop_if negb (rt_has_inspect s) with Plain ErrUnsupported ;;
  status <- call (InspectEnvironment (env_RuntimeRef env)) ;;
  stop_if status_State status != EnvironmentRunning with Plain ErrIncompatibleState ;;
  Ret (inl env).

Definition ExecStream (name : string) (request : ProcessRequest) (streams : bool) : prog (answer ExecutionResult) :=
  stop_if negb streams with Plain ErrInvalidArgument ;;
  try of_result (ValidateProcessRequest request) ;;
  try of_result (validateEnvironmentName name) ;;
  lockEnvironment name (
    env <- runningEnvironment name ;;
    stop_if negb (rt_has_stream s) with Plain ErrUnsupported ;;
    call (ExecEnvironmentStream (env_RuntimeRef env) request)).

Definition ExecUser (name : string) (request : ExecutionRequest) : prog (answer ExecutionResult) :=
  stop_if negb (is_ok (ValidateEnvironmentName name)) ||
          negb (is_ok (ValidateProcessRequest (mkProcessRequest "" (exec_Argv request) false))) ||
          (MaxExecutionInputBytes <? len (exec_Stdin request))%Z with Plain ErrInvalidArgument ;;
  lockEnvironment name (
    env <- runningEnvironment name ;;
    call (ExecEnvironment (env_RuntimeRef env) request)).

(** [PrepareShellStream] and the function it returns. *)
Definition ShellStream (name : string) (streams : bool) : prog (answer unit) :=
  try of_result (validateEnvironmentName name) ;;
  environment <- call (Ask Parent (QEnvironment name)) ;;
  stop_if negb (rt_has_shell s) with Wrapped (Plain ErrUnsupported) ;;
  stop_if negb streams with Plain ErrInvalidArgument ;;
  call (ShellEnvironmentStream (env_RuntimeRef environment)).

(** ** Client access *)

Definition stale_target (expected : option StreamTarget) (env : Environment) (lease : WorkspaceLease) : bool :=
  match expected with
  | None => false
  | Some t => negb (StreamTarget_Valid t) || (tgt_Environment t != env_Name env) || (tgt_Instance t != lease_InstanceID lease) ||
              (tgt_Workspace t != ws_ID (env_Workspace env)) || (tgt_AccessMode t != env_AccessMode env)
  end.

Definition WithClientAccess (name : string) (expected : option StreamTarget) (resume authorize : bool) : prog (answer unit) :=
  try of_result (validateEnvironmentName name) ;;
  lockEnvironment name (
    try checkLifecycleIdle s name ;;
    env <- call (Ask Parent (QEnvironment name)) ;;
    lease <- call (Ask Parent (QLease name)) or (fun _ => Plain ErrRecoveryRequired) ;;
    stop_if (lease_State lease != WorkspaceLeaseActive) || negb (MatchesEnvironment lease env) ||
            (lease_Owner lease != env_Name env) || (lease_SnapshotSource lease != "") || IsZero (lease_AcquiredAt lease) ||
            IsZero (env_CreatedAt env) || (env_CreatedAt env <? lease_AcquiredAt lease)%Z ||
            negb (ValidEnvironmentInstanceID (lease_InstanceID lease)) with Plain ErrRecoveryRequired ;;
    stop_if stale_target expected env lease with Plain ErrCapabilityStale ;;
    stop_if negb (rt_has_verify s && rt_has_inspect s) with Plain ErrUnsupported ;;
    try call (VerifyEnvironmentIdentity (env_RuntimeRef env) (lease_InstanceID lease)) ;;
    try (if authorize then call (CallerAuthorizes env (lease_InstanceID lease)) else Ret (inl tt)) ;;
    state <- call (InspectEnvironment (env_RuntimeRef env)) ;;
    stop_if status_Absent state with Plain ErrRecoveryRequired ;;
    state <- (if (status_State state == EnvironmentStopped) && resume then
                try startRuntimeWithLease env lease ;; call (InspectEnvironment (env_RuntimeRef env))
              else Ret (inl state)) ;;
    stop_if status_State state != EnvironmentRunning with Plain ErrIncompatibleState ;;
    call (CallerOperates env (lease_InstanceID lease))).

(** ** Data areas *)

Definition inspectOwnedEnvironmentLease (env : Environment) : prog (answer WorkspaceLease) :=
  lease <- call (Ask Parent (QLease (env_Name env))) or (fun _ => Wrapped (Plain ErrRecoveryRequired)) ;;
  stop_if (lease_EnvironmentID lease != env_Name env) || negb (MatchesEnvironment lease env) || (lease_Owner lease == "") ||
          negb (ValidEnvironmentInstanceID (lease_InstanceID lease)) with Plain ErrRecoveryRequired ;;
  stop_if (env_PersistentResource env != zeroRef) && negb (ValidPersistentResourceRef (env_PersistentResource env))
    with Plain ErrRecoveryRequired ;;
  stop_if negb (st_has_instance s) with Plain ErrUnsupported ;;
  instance <- call (InstanceOf env) ;;
  stop_if instance != lease_InstanceID lease with Plain ErrCapabilityStale ;;
  stop_if negb (rt_has_verify s) with Plain ErrUnsupported ;;
  try call (VerifyEnvironmentIdentity (env_RuntimeRef env) instance) ;;
  Ret (inl lease).

(** The Environment is stopped and not absent. *)
Definition require_stopped (env : Environment) : prog (answer unit) :=
  stop_if negb (rt_has_inspect s) with Plain ErrUnsupported ;;
  status <- call (InspectEnvironment (env_RuntimeRef env)) ;;
  stop_if status_Absent status || (status_State status != EnvironmentStopped) with Wrapped (Plain ErrIncompatibleState) ;;
  Ret (inl tt).

Definition has_publish : bool := match environmentResources s with Some m => mg_publish m | None => false end.
Definition has_empty : bool := match environmentResources s with Some m => mg_empty m | None => false end.

Definition CollectEnvironmentResource (name key : string) : prog (answer ResourceGenerationPublication) :=
  try of_result (validateEnvironmentName name) ;;
  stop_if negb has_publish with Plain ErrUnsupported ;;
  lockEnvironment name (
    try checkLifecycleIdle s name ;;
    env <- call (Ask Parent (QEnvironment name)) ;;
    lockWorkspace (ws_ID (env_Workspace env)) (
      lease <- inspectOwnedEnvironmentLease env ;;
      try require_stopped env ;;
      match List.find (fun area => att_Key area == key) (lease_Attachments lease) with
      | Some area => call (PublishEnvironmentGeneration lease area)
      | None => failing ErrNotFound
      end)).

Definition EmptyEnvironmentResource (name : string) (expected : EnvironmentAttachment) : prog (answer unit) :=
  try of_result (validateEnvironmentName name) ;;
  stop_if negb (ValidEnvironmentAttachments [expected]) with Plain ErrInvalidArgument ;;
  stop_if negb has_empty with Plain ErrUnsupported ;;
  lockEnvironment name (
    env <- call (Ask Parent (QEnvironment name)) ;;
    lockWorkspace (ws_ID (env_Workspace env)) (
      lease <- inspectOwnedEnvironmentLease env ;;
      stop_if negb (existsb (fun area => area == expected) (lease_Attachments lease)) with Plain ErrCapabilityStale ;;
      try require_stopped env ;;
      call (EmptyResource lease expected))).

Definition CleanupRestoredData (work : Workspace) (remove : bool) : prog (answer unit) :=
  stop_if (ws_ID work == "") || negb (HasPrefix (ws_Path work) "managed:") || negb remove with Plain ErrInvalidArgument ;;
  stop_if negb (st_has_leases s) with Plain ErrUnsupported ;;
  lockWorkspace (ws_ID work) (
    current <- call (Resolve (ws_Path work)) ;;
    stop_if (ws_ID current != ws_ID work) || (ws_Path current != ws_Path work) with Plain ErrCapabilityStale ;;
    all <- call (Ask Parent QLeases) ;;
    stop_if existsb (uses_workspace work) all with Plain ErrStorageBusy ;;
    call CallerRemoves).

(** ** Images *)

Definition PublishTemporaryBase (name : string) (work : Workspace) (base : string) : prog (answer BaseInfo) :=
  try of_result (validateEnvironmentName name) ;;
  stop_if negb (ValidTemporaryWorkspace work) with Plain ErrInvalidArgument ;;
  lockEnvironment name (
    env <- call (Ask Parent (QEnvironment name)) ;;
    stop_if (env_Workspace env != work) || (env_PersistentResource env != zeroRef) with Plain ErrCapabilityStale ;;
    lockWorkspace (ws_ID work) (
      lease <- call (Ask Parent (QLease name)) ;;
      stop_if (lease_State lease != WorkspaceLeaseActive) || (lease_EnvironmentID lease != name) ||
              (lease_WorkspaceID lease != ws_ID work) || (lease_SourcePath lease != ws_Path work) ||
              (lease_RuntimeRef lease != env_RuntimeRef env) || negb (ValidEnvironmentInstanceID (lease_InstanceID lease)) ||
              (lease_PersistentResource lease != zeroRef) with Plain ErrRecoveryRequired ;;
      stop_if negb (rt_has_publish s) with Plain ErrUnsupported ;;
      call (PublishBase env lease base))).

(** ** Snapshots *)

Definition withSnapshotSourceMode {R} (name : string) (allowRunning : bool) (operation_ : SnapshotSource -> prog (answer R))
  : prog (answer R) :=
  try of_result (validateEnvironmentName name) ;;
  lockEnvironment name (
    try checkLifecycleIdle s name ;;
    environment <- call (Ask Parent (QEnvironment name)) ;;
    stop_if negb (HasPrefix (ws_Path (env_Workspace environment)) "managed:") || (ws_ID (env_Workspace environment) == "")
      with Wrapped (Plain ErrUnsupported) ;;
    lockWorkspace (ws_ID (env_Workspace environment)) (
      lease <- inspectOwnedEnvironmentLease environment ;;
      if negb (rt_has_verify s) then Panic else
      stop_if negb (rt_has_inspect s) with Plain ErrUnsupported ;;
      status <- call (InspectEnvironment (env_RuntimeRef environment)) ;;
      try (if is_nil (lease_Attachments lease) then Ret (inl []) else resolveEnvironmentRuntimeResources s lease) ;;
      stop_if (status_State status != EnvironmentStopped) &&
              (negb allowRunning || negb (status_State status == EnvironmentRunning))
        with Wrapped (Plain ErrIncompatibleState) ;;
      try call CtxErr ;;
      try call (VerifyEnvironmentIdentity (env_RuntimeRef environment) (lease_InstanceID lease)) ;;
      operation_ (mkSource environment (lease_InstanceID lease)))).

Definition InspectSnapshotSource (name : string) : prog (answer SnapshotSource) :=
  withSnapshotSourceMode name false (fun source => Ret (inl source)).

Definition Commit (name image : string) : prog (answer BaseInfo) :=
  withSnapshotSourceMode name true (fun source =>
    lease <- call (Ask Parent (QLease name)) ;;
    stop_if negb (rt_has_commit s) with Plain ErrUnsupported ;;
    call (CommitImage (src_Environment source) lease image)).

(** [fail] of [captureSnapshotLocked]: the reservation is kept and marked. *)
Definition capture_failed (result_ : Snapshot) (cause : goerror) : prog (Snapshot * option goerror) :=
  prog_bind (call (Mutate Detached (OpMarkSnapshotRecovery (snap_ID result_)))) (fun a =>
  let result_ := match a with inl _ => snap_with_State "recovery-required" result_ | inr _ => result_ end in
  Ret (result_, Some (Wrapped (Join [Some (Plain ErrRecoveryRequired); Some cause; error_of a])))).

(** [result.Components[i] = component]. *)
Definition set_component (i : nat) (c : SnapshotComponent) (x : Snapshot) : Snapshot :=
  snap_with_Components (<[i := c]> (snap_Components x)) x.

(** The calls of one round, without those for the image. *)
Definition capture_component (source : SnapshotSource) (id : string) (i : nat) (component : SnapshotComponent)
    (result_ : Snapshot) : prog (Snapshot * answer SnapshotComponent) :=
  prog_bind (call CtxErr) (fun a => match a with inr err => Ret (result_, inr err) | inl _ =>
  prog_bind (call (CreateSnapshotComponent source component)) (fun a => match a with inr err => Ret (result_, inr err) | inl _ =>
  prog_bind (call (Mutate Parent (OpRecordSnapshotComponent id component "created"))) (fun a =>
  match a with inr err => Ret (result_, inr err) | inl _ =>
  let component := comp_with_State "created" component in
  let result_ := set_component i component result_ in
  prog_bind (call (VerifySnapshotComponent component)) (fun a => match a with inr err => Ret (result_, inr err) | inl _ =>
  prog_bind (call (Mutate Parent (OpRecordSnapshotComponent id component "verified"))) (fun a =>
  match a with inr err => Ret (result_, inr err) | inl _ =>
  let component := comp_with_State "verified" component in
  Ret (set_component i component result_, inl component)
  end) end) end) end) end).

(** The image of a component with role "image". *)
Definition capture_image (id : string) (component : SnapshotComponent) (result_ : Snapshot) : prog (answer Snapshot) :=
  if comp_Role component != "image" then Ret (inl result_) else
  stop_if negb (rt_has_snapshot_image s) || negb (st_has_snapshot_image s) with Plain ErrUnsupported ;;
  image <- call (SnapshotImage component) ;;
  try call (Mutate Parent (OpRecordSnapshotImage id image)) ;;
  Ret (inl (snap_with_Image (Some image) result_)).

Fixpoint capture_loop (source : SnapshotSource) (id : string) (i : nat) (components : list SnapshotComponent)
    (result_ : Snapshot) : prog (Snapshot * option goerror) :=
  match components with
  | [] =>
    prog_bind (call (Mutate Parent (OpCommitSnapshot id))) (fun a =>
    match a with
    | inr err => capture_failed result_ err
    | inl _ => Ret (snap_with_State "ready" result_, None)
    end)
  | component :: components =>
    prog_bind (capture_component source id i component result_) (fun r =>
    match r.2 with
    | inr err => capture_failed r.1 err
    | inl component =>
      prog_bind (capture_image id component r.1) (fun a =>
      match a with
      | inr err => capture_failed r.1 err
      | inl result_ => capture_loop source id (S i) components result_
      end)
    end)
  end.

(** A snapshot beside an error names a reservation that is kept. *)
Definition captureSnapshotLocked (source : SnapshotSource) (id : string) : prog (Snapshot * option goerror) :=
  prog_bind (call (PlanSnapshot source id)) (fun a =>
  match a with
  | inr err => Ret (zeroSnapshot, Some err)
  | inl components =>
    prog_bind (call Now) (fun now =>
    let planned := mkSnapshot None now id source "capturing" components in
    prog_bind (call (Mutate Parent (OpBeginSnapshot planned))) (fun a =>
    match a with
    | inr err => Ret (zeroSnapshot, Some err)
    | inl _ => capture_loop source id 0 components planned
    end))
  end).

Definition captureSnapshot (nonce : list ascii) (name : string) (allowRunning : bool) (expected id_ : string)
  : prog (answer (Snapshot * option goerror)) :=
  stop_if negb (rt_has_snapshots s) with Plain ErrUnsupported ;;
  stop_if negb (st_has_snapshots s) with Plain ErrUnsupported ;;
  let id_ := if id_ == "" then "snap-" +:+ EncodeToString nonce else id_ in
  LockResourceName id_ (
    try (if has_checkSnapshotName s then call (CheckSnapshotName id_) else Ret (inl tt)) ;;
    withSnapshotSourceMode name allowRunning (fun source =>
      stop_if (expected != "") && (ws_ID (env_Workspace (src_Environment source)) != expected) with Plain ErrCapabilityStale ;;
      prog_bind (captureSnapshotLocked source id_) (fun r => Ret (inl r)))).

Definition CaptureSnapshot (nonce : list ascii) (name : string) := captureSnapshot nonce name true "" "".
Definition CaptureStoppedSnapshot (nonce : list ascii) (name : string) := captureSnapshot nonce name false "" "".
Definition CaptureStoppedSnapshotForWorkspace (nonce : list ascii) (name expected : string)
  : prog (answer (Snapshot * option goerror)) :=
  stop_if expected == "" with Plain ErrInvalidArgument ;; captureSnapshot nonce name false expected "".
Definition CaptureNamedSnapshot (nonce : list ascii) (environment name : string) : prog (answer (Snapshot * option goerror)) :=
  stop_if name == "" with Plain ErrInvalidArgument ;; captureSnapshot nonce environment true "" name.

Definition withSavedSnapshot {R} (id_ : string) (use : Snapshot -> prog (answer R)) : prog (answer R) :=
  stop_if negb (st_has_get_snapshot s) with Plain ErrUnsupported ;;
  observed <- call (Ask Parent (QSnapshot id_)) ;;
  lockEnvironment (env_Name (src_Environment (snap_Source observed))) (
    lockWorkspace (ws_ID (env_Workspace (src_Environment (snap_Source observed)))) (
      current <- call (Ask Parent (QSnapshot id_)) ;;
      stop_if (snap_ID current != snap_ID observed) || (snap_Source current != snap_Source observed)
        with Plain ErrCapabilityStale ;;
      use current)).

Fixpoint delete_components (id_ : string) (components : list SnapshotComponent) : prog (answer unit) :=
  match components with
  | [] => call (Mutate Parent (OpFinalizeSnapshotDelete id_))
  | component :: components =>
    if comp_State component == "absent" then delete_components id_ components else
    try call (DeleteSnapshotComponent component) or (fun err => Wrapped (Joined [Plain ErrRecoveryRequired; err])) ;;
    try call (Mutate Parent (OpRecordSnapshotComponent id_ component "absent")) ;;
    delete_components id_ components
  end.

Definition DeleteSnapshot (id_ : string) : prog (answer unit) :=
  stop_if negb (rt_has_snapshots s) with Plain ErrUnsupported ;;
  stop_if negb (st_has_snapshots s) with Plain ErrUnsupported ;;
  withSavedSnapshot id_ (fun current =>
    try call (Mutate Parent (OpBeginSnapshotDelete id_)) ;;
    delete_components id_ (snap_Components current)).

Fixpoint verify_components (components : list SnapshotComponent) : prog (answer unit) :=
  match components with
  | [] => call CtxErr
  | c :: components =>
    try call CtxErr ;;
    stop_if comp_State c != "verified" with Plain ErrIncompatibleState ;;
    if comp_Role c == "base" then verify_components components else
    try call (VerifySnapshotComponent c) ;;
    verify_components components
  end.

Definition ReadSnapshot (id_ : string) (consume : bool) : prog (answer unit) :=
  stop_if negb consume with Plain ErrInvalidArgument ;;
  stop_if negb (rt_has_snapshots s) with Plain ErrUnsupported ;;
  withSavedSnapshot id_ (fun saved =>
    stop_if snap_State saved != "ready" with Plain ErrIncompatibleState ;;
    try verify_components (snap_Components saved) ;;
    call (CallerConsumes saved)).

Definition ListSnapshots_of (name : string) : prog (answer (list Snapshot)) :=
  try (if name != "" then of_result (validateEnvironmentName name) else Ret (inl "")) ;;
  stop_if negb (st_has_list_snapshots s) with Plain ErrUnsupported ;;
  saved <- call (Ask Parent QSnapshots) ;;
  Ret (inl (List.filter (fun item => (name == "") || (env_Name (src_Environment (snap_Source item)) == name)) saved)).

Definition snapshotInspectionFailure (err : goerror) : string :=
  if errors_Is err ErrUnsupported then "unsupported"
  else if errors_Is err ErrCapabilityStale then "ownership_changed"
  else if errors_Is err ErrIncompatibleState || errors_Is err ErrInvalidArgument then "invalid"
  else "unavailable".

(** What the loop of [InspectSnapshot] makes of one observation. *)
Definition inspected (c : SnapshotComponent) (item : SnapshotComponentInspection) (observedErr : option goerror)
  : SnapshotComponentInspection :=
  mkComponentInspection (comp_Role c) (comp_State c) (ci_Provider item) (ci_Project item) (ci_Pool item) (ci_Object item)
    match observedErr with
    | Some _ => if ci_Presence item == "" then "unknown" else ci_Presence item
    | None => ci_Presence item
    end
    match observedErr with Some err => snapshotInspectionFailure err | None => ci_Check item end
    (ci_References item) "uninspected".

Definition unsupported_item : SnapshotComponentInspection :=
  mkComponentInspection "" "" "" "" "" "" "unknown" "unsupported" None "uninspected".

Fixpoint inspect_components (components : list SnapshotComponent) (result_ : SnapshotInspection) : prog SnapshotInspection :=
  match components with
  | [] => Ret result_
  | c :: components =>
    prog_bind (if rt_has_snapshot_inspect s then call (InspectSnapshotComponent c) else Ret (unsupported_item, None)) (fun r =>
    let partial := insp_Partial result_ || negb (rt_has_snapshot_inspect s) || bool_decide (is_Some r.2) in
    inspect_components components
      (mkInspection (insp_ID result_) (insp_Environment result_) (insp_State result_) partial
         (insp_Components result_ ++ [inspected c r.1 r.2])%list))
  end.

(** The inspection is returned beside the error. *)
Definition InspectSnapshot (id_ : string) : prog (answer (SnapshotInspection * option goerror)) :=
  withSavedSnapshot id_ (fun saved =>
    prog_bind (inspect_components (snap_Components saved)
      (mkInspection (snap_ID saved) (env_Name (src_Environment (snap_Source saved))) (snap_State saved) false [])) (fun result_ =>
    prog_bind (call CtxErr) (fun a =>
    Ret (inl (result_, match a with
                       | inr err => Some err
                       | inl _ => if insp_Partial result_ then Some (Plain ErrRecoveryRequired) else None
                       end))))).

(** ** Legacy restores *)

Fixpoint restore_cleanups (id_ : string) (components : list SnapshotComponent) (errs : list goerror) : prog (list goerror) :=
  match components with
  | [] => Ret errs
  | c :: components =>
    if comp_State c == "absent" then restore_cleanups id_ components errs else
    prog_bind (call (DeleteRestoreComponent c)) (fun a =>
    match a with
    | inr err => restore_cleanups id_ components (errs ++ [err])%list
    | inl _ =>
      prog_bind (call (Mutate Parent (OpRecordRestoreComponent id_ c "absent"))) (fun a =>
      restore_cleanups id_ components match a with inr err => (errs ++ [err])%list | inl _ => errs end)
    end)
  end.

Definition cleanupSnapshotRestoreLocked (op : SnapshotRestore) : prog (answer unit) :=
  current <- call (Ask Parent (QRestore (rst_ID op))) ;;
  stop_if (rst_Current current != rst_Current op) || (rst_Saved current != rst_Saved op) with Plain ErrCapabilityStale ;;
  try call (Mutate Parent (OpBeginRestoreCleanup (rst_ID op))) ;;
  prog_bind (restore_cleanups (rst_ID op) (rst_Components current) []) (fun errs =>
  if negb (is_nil errs) then Ret (inr (Wrapped (Joined (Plain ErrRecoveryRequired :: errs)))) else
  call (Mutate Parent (OpFinalizeRestoreCleanup (rst_ID op)))).

Definition CleanupLegacySnapshotRestore (id_ : string) : prog (answer unit) :=
  stop_if negb (rt_has_restore s) with Plain ErrUnsupported ;;
  stop_if negb (st_has_restores s) with Plain ErrUnsupported ;;
  op <- call (Ask Parent (QRestore id_)) ;;
  lockEnvironment (env_Name (src_Environment (rst_Current op))) (
    lockWorkspace (ws_ID (env_Workspace (src_Environment (rst_Current op)))) (
      cleanupSnapshotRestoreLocked op)).

End Access.
