(* ===== verification/WorkspaceProtocol.v ===== *)
(** * The ownership protocol of an Environment

    What the Workspace service and its collaborators promise each other about
    one Environment name: the entry of the catalog and the native runtimes that
    exist for it form a [slot], and every call moves the slot in a way its
    contract allows.  [run_ok] and [wp] say that a program keeps to its side:
    it moves the slot only under the lifecycle lock of the name, and after each
    call no runtime exists that the catalog does not own.  Other threads may
    meanwhile do anything that leaves the entry alone ([slot_le]).  A runtime that
    disappears without the service having asked for its deletion is entered in a
    log of losses, so that a program can promise to leave the runtimes alone. *)

From S2P Require Import Prelude GoText Core CoreChecks CatalogState Catalog Resources Lifecycle Snapshots Runs Store.
From S2P Require Import LifecycleProofs ReservationProofs WorkspaceModel WorkspaceService.
From Stdlib Require Import Ascii String.
Open Scope string_scope.

(** ** Slots *)

(** The lease and the Environment stored under the name, the native runtimes
    that exist for it, those that were lost so far (removed by something other
    than a deletion the service asked for), and whether its data areas are idle. *)
Record slot := mkSlot {
  sl_lease : option WorkspaceLease;
  sl_env : option Environment;
  sl_refs : gset string;
  sl_lost : list string;
  sl_idle : Prop }.

(** No runtime appears, and one that disappears, [spared] apart, is lost. *)
Definition shrinks_but (spared : gset string) (x y : slot) : Prop :=
  exists gone, sl_lost y = (sl_lost x ++ gone)%list /\ sl_refs y ⊆ sl_refs x /\
    sl_refs x ⊆ sl_refs y ∪ list_to_set gone ∪ spared.
Notation shrinks := (shrinks_but ∅).

#[export] Instance shrinks_preorder : PreOrder shrinks.
Proof.
  split.
  - intros x. exists []. split_and!; [by rewrite app_nil_r|done|set_solver].
  - intros x y z (g & E & H1 & H2) (h & F & H3 & H4). exists (g ++ h)%list.
    rewrite list_to_set_app_L. split_and!; [by rewrite F, E, app_assoc|set_solver..].
Qed.

Lemma shrinks_but_sub spared x y : shrinks_but spared x y -> sl_refs y ⊆ sl_refs x.
Proof. by intros (gone & _ & H & _). Qed.

(** Without a runtime nothing can be lost. *)
Lemma shrinks_empty x y : sl_refs x = ∅ -> sl_lost x `prefix_of` sl_lost y -> sl_refs y = ∅ -> shrinks x y.
Proof. intros Hx [gone E] Hy. exists gone. split_and!; [done|set_solver..]. Qed.

(** The entry is left alone and copies may end; what others may do to a slot. *)
Definition slot_but (spared : gset string) (x y : slot) : Prop :=
  sl_lease y = sl_lease x /\ sl_env y = sl_env x /\ shrinks_but spared x y /\ (sl_idle x -> sl_idle y).
Notation slot_le := (slot_but ∅).

#[export] Instance slot_le_preorder : PreOrder slot_le.
Proof.
  split; [by intros x|]. intros x y z (? & ? & ? & ?) (? & ? & ? & ?).
  unfold slot_but. split_and!; [congruence..|by transitivity y|auto].
Qed.

Lemma slot_but_le spared x y z : slot_le x y -> slot_but spared y z -> slot_but spared x z.
Proof.
  intros (E1 & E2 & (g & E & H1 & H2) & E3) (F1 & F2 & (h & F & H3 & H4) & F3).
  split_and!; [congruence..| |auto]. exists (g ++ h)%list. rewrite list_to_set_app_L.
  split_and!; [by rewrite F, E, app_assoc|set_solver..].
Qed.

Lemma slot_but_sub spared x y : slot_but spared x y -> sl_refs y ⊆ sl_refs x.
Proof. intros (_ & _ & H & _). by eapply shrinks_but_sub. Qed.

(** Every runtime that exists is owned by a lease that does not claim its
    absence and that names it or does not name one yet. *)
Definition slot_inv (x : slot) : Prop :=
  forall ref, ref ∈ sl_refs x -> exists l, sl_lease x = Some l /\ lease_RuntimeAbsent l = false /\
    (lease_RuntimeRef l = ref \/ lease_RuntimeRef l = "").

Lemma slot_inv_le spared x y : slot_inv x -> slot_but spared x y -> slot_inv y.
Proof. intros H Hle ref Href. apply (slot_but_sub _ _ _ Hle) in Href. destruct Hle as (-> & _). by apply H. Qed.

Section Name.
Context (n : string).

(** What the catalog guarantees of an entry. *)
Record slot_ok (x : slot) : Prop := {
  ok_name : forall l, sl_lease x = Some l -> lease_EnvironmentID l = n;
  ok_env : forall e, sl_env x = Some e -> env_Name e = n /\
    exists l, sl_lease x = Some l /\ lease_RuntimeRef l = env_RuntimeRef e /\ env_RuntimeRef e <> "";
  ok_idle : forall l, sl_lease x = Some l -> lease_State l <> WorkspaceLeaseActive -> sl_idle x;
  ok_none : sl_lease x = None -> sl_idle x }.

Definition slot_good (x : slot) : Prop := slot_ok x /\ slot_inv x.

(** ** The provider's side *)

(** The runtime the provider has announced: the one whose receipt was accepted,
    else the last one with a reference. *)
Definition announce (known : option string * bool) (receipt : EnvironmentRuntime * option goerror) : option string * bool :=
  if known.2 || (TrimSpace (rt_Ref receipt.1) == "") then known
  else (Some (rt_Ref receipt.1), match receipt.2 with None => true | Some _ => false end).
Definition announced (before : list (EnvironmentRuntime * option goerror)) : option string * bool :=
  fold_left announce before (None, false).

Definition only (ref : string) (refs : gset string) : Prop := refs ⊆ {[ ref ]}.

(** When the callback is called, only the announced runtime may exist. *)
Definition callback_contract (before : list (EnvironmentRuntime * option goerror)) (created : EnvironmentRuntime)
    (refs : gset string) : Prop :=
  match (announced (before ++ [(created, None)])).1 with
  | Some ref => only ref refs
  | None => True
  end.

(** When the creation returns a runtime, only that one may exist, or the one
    whose receipt was accepted (or announced, when the one returned has no
    reference); when it fails, only the announced one, and none at all when there
    was no receipt and the error does not ask for recovery. *)
Definition return_contract (before : list (EnvironmentRuntime * option goerror)) (a : answer EnvironmentRuntime)
    (refs : gset string) : Prop :=
  match a, announced before with
  | inl _, (Some ref, true) => only ref refs
  | inl created, (Some ref, false) => only (if TrimSpace (rt_Ref created) == "" then ref else rt_Ref created) refs
  | inl created, (None, _) => TrimSpace (rt_Ref created) <> "" -> only (rt_Ref created) refs
  | inr _, (Some ref, _) => only ref refs
  | inr err, (None, _) => errors_Is err ErrRecoveryRequired = false -> refs = ∅
  end.

(** ** The catalog's side *)

Definition with_entry (x y : slot) (lease : option WorkspaceLease) (env : option Environment) : Prop :=
  sl_lease y = lease /\ sl_env y = env /\ shrinks x y.

(** A successful transition of the entry. *)
Definition op_step (op : store_op) (x y : slot) : Prop :=
  match op with
  | OpBeginEnvironmentCreate lease | OpBeginEnvironmentCreateFromSnapshot lease _
  | OpBeginEnvironmentCreateWithResources lease _ | OpBeginEnvironmentCreateFromSnapshotWithResources lease _ _ =>
    sl_lease x = None /\ sl_env x = None /\ lease_RuntimeAbsent lease = false /\ with_entry x y (Some lease) None
  | OpRecordEnvironmentRuntime lease =>
    exists old, sl_lease x = Some old /\ sl_env x = None /\ lease_RuntimeAbsent lease = lease_RuntimeAbsent old /\
      (lease_RuntimeRef old = "" \/ lease_RuntimeRef old = lease_RuntimeRef lease) /\
      with_entry x y (Some lease) None
  | OpCommitEnvironmentCreate environment lease =>
    exists old, sl_lease x = Some old /\ lease_RuntimeRef old = lease_RuntimeRef lease /\
      lease_RuntimeRef lease = env_RuntimeRef environment /\ MatchesEnvironment (publishedLease lease) environment = true /\
      with_entry x y (Some (publishedLease lease)) (Some environment)
  | OpMarkEnvironmentRecoveryRequired lease =>
    exists old new, sl_lease x = Some old /\ lease_RuntimeAbsent new = lease_RuntimeAbsent old /\
      lease_State new = WorkspaceLeaseCleanupRequired /\
      lease_RuntimeRef new = (if lease_RuntimeRef old == "" then lease_RuntimeRef lease else lease_RuntimeRef old) /\
      with_entry x y (Some new) (sl_env x)
  | OpFinalizeEnvironmentDelete _ => with_entry x y None None
  | _ => slot_le x y
  end.

Definition ask_step (q : query) (a : answer (query_value q)) (x : slot) : Prop :=
  match q as q' return answer (query_value q') -> Prop with
  | QEnvironment m => fun a => m = n ->
    match a with inl e => sl_env x = Some e | inr err => isNotFound err = true -> sl_env x = None end
  | QLease m => fun a => m = n ->
    match a with inl l => sl_lease x = Some l | inr err => isNotFound err = true -> sl_lease x = None end
  | QResourcesIdle m => fun a => m = n -> match a with inl _ => sl_idle x | inr _ => True end
  | _ => fun _ => True
  end a.

(** Answers that do not concern the entry. *)
Definition answer_contract (e : effect) : reply e -> Prop :=
  match e as e' return reply e' -> Prop with
  | PlanEnvironmentResources _ _ | PlanSavedEnvironmentResources _ _ | PlanImportedEnvironmentResources _ _ =>
    fun a => match a with inl plans => Forall (fun p => plan_contract (plan_Resource p)) plans | inr _ => True end
  | _ => fun _ => True
  end.

(** A lease without an identity gets one. *)
Definition identified (id_ : string) (x y : slot) : Prop :=
  exists l, sl_lease x = Some l /\ lease_InstanceID l = "" /\ sl_lease y = Some (lease_with_InstanceID id_ l) /\
    sl_env y = sl_env x /\ shrinks x y /\ (sl_idle x -> sl_idle y).

(** What the provider does for an entry: it leaves the catalog alone. *)
Definition provides (x y : slot) : Prop :=
  sl_lease y = sl_lease x /\ sl_env y = sl_env x /\ (sl_idle x -> sl_idle y) /\ sl_lost x `prefix_of` sl_lost y.

(** One call, from the point of view of the entry. *)
Definition slot_step (e : effect) : reply e -> slot -> slot -> Prop :=
  match e as e' return reply e' -> slot -> slot -> Prop with
  | Ask _ q => fun a x y => slot_le x y /\ ask_step q a y
  | Mutate _ op => fun a x y => match a with inl _ => op_step op x y | inr _ => slot_le x y end
  | Prepare _ lease => fun a x y =>
    match a with
    | inl absent => sl_lease x = Some lease /\ lease_RuntimeAbsent absent = true /\ lease_RuntimeRef absent = lease_RuntimeRef lease /\
        with_entry x y (Some absent) (sl_env x)
    | inr _ => slot_le x y
    end
  | CreateWith _ _ => fun _ x y => provides x y
  | ProviderCallsBack _ before created => fun _ x y => provides x y /\ callback_contract before created (sl_refs y)
  | ProviderReturns _ before a => fun _ x y => provides x y /\ return_contract before a (sl_refs y)
  | CreateEnvironment _ => fun a x y => provides x y /\ return_contract [] a (sl_refs y)
  | DeleteEnvironment _ ref => fun a x y =>
    slot_but {[ ref ]} x y /\ (EnvironmentDeletionComplete (error_of a) = true -> ref ∉ sl_refs y)
  | InstanceOf _ => fun a x y =>
    match a with
    | inl id_ => (slot_le x y /\ exists l, sl_lease x = Some l /\ lease_InstanceID l = id_) \/ identified id_ x y
    | inr _ => slot_le x y
    end
  | PublishEnvironmentGeneration _ _ => fun _ x y => with_entry x y (sl_lease x) (sl_env x)
  | _ => fun _ x y => slot_le x y
  end.

(** ** The service's side *)

(** Operations on the catalog that concern no entry and start no copy. *)
Definition plain_op (op : store_op) : bool :=
  match op with
  | OpFinalizeOwnedWorkspaceCleanup _ _ | OpBeginSnapshot _ | OpRecordSnapshotComponent _ _ _ | OpCommitSnapshot _
  | OpRecordSnapshotImage _ _ | OpMarkSnapshotRecovery _ | OpBeginSnapshotDelete _ | OpFinalizeSnapshotDelete _
  | OpRecordRestoreComponent _ _ _ | OpBeginRestoreCleanup _ | OpFinalizeRestoreCleanup _ => true
  | _ => false
  end.

Definition begin_contract (lease : WorkspaceLease) (plans : list EnvironmentResourcePlan) : Prop :=
  lease_EnvironmentID lease = n /\ Forall (fun p => plan_contract (plan_Resource p)) plans.

(** The transitions a holder of the lock may ask for. *)
Definition op_permitted (op : store_op) (x : slot) : Prop :=
  match op with
  | OpBeginEnvironmentCreate lease | OpBeginEnvironmentCreateFromSnapshot lease _ => begin_contract lease []
  | OpBeginEnvironmentCreateWithResources lease plans
  | OpBeginEnvironmentCreateFromSnapshotWithResources lease _ plans => begin_contract lease plans
  | OpRecordEnvironmentRuntime lease => lease_EnvironmentID lease = n
  | OpCommitEnvironmentCreate environment lease => env_Name environment = n /\ lease_EnvironmentID lease = n
  | OpMarkEnvironmentRecoveryRequired lease => lease_EnvironmentID lease = n /\ sl_idle x
  | OpFinalizeEnvironmentDelete m => m = n
  | op => plain_op op = true
  end.

(** The lock of the name, which only [locked] takes and releases. *)
Definition is_name_lock (domain id_ : string) : bool := (domain == "environment") && (id_ == n).

Definition permitted (e : effect) (x : slot) : Prop :=
  match e with
  | LockLifecycle domain id_ | UnlockLifecycle domain id_ => is_name_lock domain id_ = false
  | Mutate _ op => op_permitted op x
  | Prepare _ lease => lease_EnvironmentID lease = n
  | CreateEnvironment spec | CreateWith _ spec => rs_Name spec = n
  | ProviderCallsBack name _ _ | ProviderReturns name _ _ => name = n
  | InstanceOf environment => env_Name environment = n
  | PublishEnvironmentGeneration lease _ => lease_EnvironmentID lease = n
  | _ => True
  end.

(** A call that moves no entry. *)
Definition quiet (e : effect) : bool :=
  match e with
  | Mutate _ op => plain_op op
  | Prepare _ _ | CreateEnvironment _ | CreateWith _ _ | ProviderCallsBack _ _ _ | ProviderReturns _ _ _
  | DeleteEnvironment _ _ | PublishEnvironmentGeneration _ _ | InstanceOf _ => false
  | _ => true
  end.

(** A program under the lock of the name: [Q] holds of its result and of the
    entry when it returns, whatever its calls answer within their contracts and
    whatever others do in between. *)
Fixpoint run_ok {R} (Q : R -> slot -> Prop) (p : prog R) (x : slot) : Prop :=
  match p with
  | Ret r => forall y, slot_le x y -> slot_good y -> Q r y
  | Panic => forall y, slot_le x y -> slot_good y -> False
  | Do e k => forall y, slot_le x y -> slot_good y ->
      permitted e y /\
      forall a z, slot_step e a y z -> answer_contract e a -> slot_ok z -> slot_inv z /\ run_ok Q (k a) z
  end.

(** A program of a thread: [g] is the entry at the time the lock was taken and
    now, while the lock is held.  [P] holds of the result when the lock is
    released. *)
Definition ghost : Type := option (slot * slot).
Definition ghost_le (g h : ghost) : Prop :=
  match g, h with
  | None, None => True
  | Some (x0, x), Some (y0, y) => y0 = x0 /\ slot_le x y
  | _, _ => False
  end.
Definition ghost_good (g : ghost) : Prop := match g with Some (_, x) => slot_good x | None => True end.

Definition is_lock (e : effect) : bool := match e with LockLifecycle d i => is_name_lock d i | _ => false end.
Definition is_unlock (e : effect) : bool := match e with UnlockLifecycle d i => is_name_lock d i | _ => false end.

(** Whether a lock was granted. *)
Definition granted (e : effect) : reply e -> bool :=
  match e as e' return reply e' -> bool with
  | LockLifecycle _ _ => fun a => match a with inl _ => true | inr _ => false end
  | _ => fun _ => false
  end.

Definition ghost_step (e : effect) (a : reply e) (g h : ghost) : Prop :=
  match g with
  | None => if is_lock e && granted e a then exists x, h = Some (x, x) else h = None
  | Some (x0, x) => if is_unlock e then h = None else exists y, h = Some (x0, y) /\ slot_step e a x y
  end.

(** What may be called: without the lock only what moves no entry. *)
Definition ghost_permitted (e : effect) (g : ghost) : Prop :=
  match g with
  | None => if is_lock e then True else quiet e = true /\ is_unlock e = false
  | Some (_, x) => if is_unlock e then True else permitted e x
  end.

(** Programs that move no entry and take no lock of the name. *)
Fixpoint outside {R} (Q : R -> Prop) (p : prog R) : Prop :=
  match p with
  | Ret r => Q r
  | Panic => False
  | Do e k => quiet e = true /\ is_lock e = false /\ is_unlock e = false /\
      forall a, answer_contract e a -> outside Q (k a)
  end.

Fixpoint wp {R} (P : slot -> R -> slot -> Prop) (p : prog R) (g : ghost) : Prop :=
  match p with
  | Ret _ => g = None
  | Panic => forall h, ghost_le g h -> ghost_good h -> False
  | Do e k => forall h, ghost_le g h -> ghost_good h ->
      ghost_permitted e h /\
      (is_unlock e = true -> exists r x0 x, h = Some (x0, x) /\ (forall a, outside (fun r' => r' = r) (k a)) /\ P x0 r x) /\
      forall a i, ghost_step e a h i -> answer_contract e a ->
        (match i with Some (_, z) => slot_ok z | None => True end) ->
        (match h with Some _ => (match i with Some (_, z) => slot_inv z | None => True end)
         | None => True end) /\
        ((match i with Some (_, z) => slot_inv z | None => True end) -> wp P (k a) i)
  end.

(** ** Rules *)

Lemma slot_good_le spared x y : slot_good x -> slot_but spared x y -> slot_ok y -> slot_good y.
Proof. intros [_ H] Hle Hok. split; [done|by eapply slot_inv_le]. Qed.

Lemma run_ok_le {R} (Q : R -> slot -> Prop) p x y : run_ok Q p x -> slot_le x y -> run_ok Q p y.
Proof.
  destruct p; simpl; intros H Hle z Hz Hg;
    exact (H z (transitivity Hle Hz) Hg).
Qed.

Lemma run_ok_above {R} (Q : R -> slot -> Prop) p x :
  (forall y, slot_le x y -> slot_good y -> run_ok Q p y) -> run_ok Q p x.
Proof. destruct p; simpl; intros H y Hy Hg; exact (H y Hy Hg y (reflexivity y) Hg). Qed.

Lemma run_ok_conseq {R} (Q Q' : R -> slot -> Prop) p x :
  run_ok Q p x -> (forall r y, slot_le x x -> slot_good y -> Q r y -> Q' r y) -> run_ok Q' p x.
Proof.
  intros H HQ. assert (forall r y, slot_good y -> Q r y -> Q' r y) as HQ' by (intros; by apply HQ). clear HQ. revert x H.
  induction p as [r|e k IH|]; simpl; intros x H; [by auto| |done].
  intros y Hy Hg. destruct (H y Hy Hg) as [Hp Hs]. split; [done|].
  intros a z Hst Ha Hok. destruct (Hs a z Hst Ha Hok). auto.
Qed.

(** The log of losses only grows. *)
Lemma slot_step_lost e a x y : slot_step e a x y -> sl_lost x `prefix_of` sl_lost y.
Proof.
  assert (forall spared, shrinks_but spared x y -> sl_lost x `prefix_of` sl_lost y) as Hs
    by (intros spared (gone & E & _); by exists gone).
  assert (forall spared, slot_but spared x y -> sl_lost x `prefix_of` sl_lost y) as Hb
    by (intros spared (_ & _ & H & _); by eapply Hs).
  pose proof (Hb ∅) as Hle.
  assert (forall l e', with_entry x y l e' -> sl_lost x `prefix_of` sl_lost y) as Hw by (intros l e' (_ & _ & H); by eapply Hs).
  assert (provides x y -> sl_lost x `prefix_of` sl_lost y) as Hp by by intros (_ & _ & _ & ?).
  destruct e; simpl; try exact Hle; try exact Hp; try (by intros [H _]; auto); try apply Hw.
  - destruct a as [[]|]; [|exact Hle]. destruct op; simpl; try exact Hle; try apply Hw; try (by intros (_ & _ & _ & H); eauto);
      try (by intros (? & _ & _ & _ & _ & H); eauto); by intros (? & ? & _ & _ & _ & _ & H); eauto.
  - destruct a as [absent|]; [|exact Hle]. intros (_ & _ & _ & H). eauto.
  - destruct a as [id_|]; [|exact Hle]. intros [[H _]|(l & _ & _ & _ & _ & H & _)]; eauto.
  - intros [H _]. eauto.
Qed.

Lemma run_ok_lost {R} (Q : R -> slot -> Prop) p x :
  run_ok Q p x -> run_ok (fun r y => sl_lost x `prefix_of` sl_lost y /\ Q r y) p x.
Proof.
  assert (forall y, slot_le x y -> sl_lost x `prefix_of` sl_lost y) as Hle by (intros y (_ & _ & (gone & E & _) & _); by exists gone).
  revert x Hle. induction p as [r|e k IH|]; simpl; intros x Hle H; [by auto| |done].
  intros y Hy Hg. destruct (H y Hy Hg) as [Hp Hs]. split; [done|].
  intros a z Hst Ha Hok. destruct (Hs a z Hst Ha Hok) as [Hi Hk]. split; [done|].
  eapply run_ok_conseq; [apply IH; [|exact Hk]|].
  - intros w (_ & _ & (gone & E & _) & _). by exists gone.
  - intros r w _ _ [Hw HQ]. split; [|done]. transitivity (sl_lost z); [|done]. transitivity (sl_lost y); [by apply Hle|].
    by eapply slot_step_lost.
Qed.

Lemma run_ok_bind {R R'} (Q : R' -> slot -> Prop) (p : prog R) (f : R -> prog R') x :
  run_ok (fun r y => run_ok Q (f r) y) p x -> run_ok Q (prog_bind p f) x.
Proof.
  revert x. induction p as [r|e k IH|]; simpl; intros x H; [by apply run_ok_above| |done].
  intros y Hy Hg. destruct (H y Hy Hg) as [Hp Hs]. split; [done|].
  intros a z Hst Ha Hok. destruct (Hs a z Hst Ha Hok). auto.
Qed.

(** [err := p; if err != nil { return wrap(err) }; f]. *)
Lemma run_ok_wrapped {R R'} (Q : answer R' -> slot -> Prop) wrap (p : prog (answer R)) (f : R -> prog (answer R')) x :
  run_ok (fun a y => match a with inl r => run_ok Q (f r) y | inr err => run_ok Q (Ret (inr (wrap err))) y end) p x ->
  run_ok Q (wrapped wrap p f) x.
Proof. intros H. apply run_ok_bind, (run_ok_conseq _ _ _ _ H). by intros [r|err]. Qed.

(** One call that moves no entry. *)
Lemma quiet_step e a x y : quiet e = true -> slot_step e a x y -> slot_le x y /\ slot_step e a y y.
Proof.
  destruct e; simpl; try done; try (by intros _ []).
  intros Hop H. destruct a as [[]|]; [|done]. by destruct op.
Qed.

Lemma quiet_permitted e x : quiet e = true -> is_lock e = false -> is_unlock e = false -> permitted e x.
Proof. destruct e; simpl; try done. by destruct op. Qed.

Lemma run_ok_quiet {R} (Q : R -> slot -> Prop) e (k : reply e -> prog R) x :
  quiet e = true -> is_lock e = false -> is_unlock e = false ->
  (forall a y, slot_le x y -> slot_good y -> slot_step e a y y -> answer_contract e a -> run_ok Q (k a) y) ->
  run_ok Q (Do e k) x.
Proof.
  intros Hq Hl Hu H y Hy Hg. split; [by apply quiet_permitted|]. intros a z Hst Ha Hok.
  destruct (quiet_step e a y z Hq Hst) as [Hle Hz]. assert (slot_good z) as Hz' by by eapply slot_good_le.
  split; [apply Hz'|]. apply H; try done. by transitivity y.
Qed.

(** A transition of the entry. *)
Lemma run_ok_mutate {R} (Q : R -> slot -> Prop) c op (k : answer unit -> prog R) x :
  (forall y, slot_le x y -> slot_good y -> op_permitted op y /\
     (forall z, slot_ok z -> op_step op y z -> slot_inv z /\ run_ok Q (k (inl tt)) z)) ->
  (forall err y, slot_le x y -> slot_good y -> run_ok Q (k (inr err)) y) ->
  run_ok Q (Do (Mutate c op) k) x.
Proof.
  intros Hop Herr y Hy Hg. destruct (Hop y Hy Hg) as [Hp Hst]. split; [done|].
  intros [[]|err] z Hz _ Hok; simpl in Hz; [by apply Hst|].
  assert (slot_good z) as Hgz by by eapply slot_good_le. split; [apply Hgz|]. apply Herr; [by transitivity y|done].
Qed.

Lemma outside_bind {R R'} (Q : R' -> Prop) (p : prog R) (f : R -> prog R') :
  outside (fun r => outside Q (f r)) p -> outside Q (prog_bind p f).
Proof. induction p as [r|e k IH|]; simpl; [done| |done]. intros (? & ? & ? & H). split_and!; auto. Qed.

Lemma outside_conseq {R} (Q Q' : R -> Prop) p : outside Q p -> (forall r, Q r -> Q' r) -> outside Q' p.
Proof. intros H HQ. revert H. induction p as [r|e k IH|]; simpl; [auto| |done]. intros (? & ? & ? & H). split_and!; auto. Qed.

Lemma run_ok_reading {R} (Q : R -> slot -> Prop) (p : prog R) x :
  outside (fun r => forall y, slot_le x y -> slot_good y -> Q r y) p -> run_ok Q p x.
Proof.
  intros H. assert (forall z, slot_le x z -> run_ok Q p z) as G; [|by apply G].
  induction p as [r|e k IH|]; simpl in *; [|destruct H as (Hq & Hl & Hu & H)|done].
  - intros z Hz y Hy Hg. apply H; [by transitivity z|done].
  - intros z Hz y Hy Hg. split; [by apply quiet_permitted|]. intros a w Hst Ha Hok.
    destruct (quiet_step e a y w Hq Hst) as [Hle _]. split; [by eapply slot_inv_le; [apply Hg|]|].
    apply IH; [by apply H|]. do 2 (etransitivity; [eassumption|]). done.
Qed.

Lemma run_ok_outside {R R'} (Q : R' -> slot -> Prop) (p : prog R) (f : R -> prog R') x :
  outside (fun r => forall y, slot_le x y -> slot_good y -> run_ok Q (f r) y) p -> run_ok Q (prog_bind p f) x.
Proof. intros H. by apply run_ok_bind, run_ok_reading. Qed.

(** The program of a thread: what it does before it takes the lock, and what it
    does under the lock. *)
Lemma wp_outside {R R'} (P : slot -> R' -> slot -> Prop) (p : prog R) (f : R -> prog R') :
  outside (fun r => wp P (f r) None) p -> wp P (prog_bind p f) None.
Proof.
  induction p as [r|e k IH|]; simpl; [done| |done]. intros (Hq & Hl & Hu & H) [[]|] Hh Hg; [done|].
  unfold ghost_permitted, ghost_step. rewrite Hl, Hu. split; [done|]. split; [done|].
  intros a i -> Ha _. split; [done|]. intros _. auto.
Qed.

(** Another lock, taken before that of the name and released after it. *)
Lemma wp_outer_unlock {R} (P : slot -> R -> slot -> Prop) (p : prog R) domain id_ g :
  is_name_lock domain id_ = false -> wp P p g ->
  wp P (prog_bind p (fun r => Do (UnlockLifecycle domain id_) (fun _ => Ret r))) g.
Proof.
  intros Hd. revert g. induction p as [r|e k IH|]; intros g H; simpl in *; [|intros h Hh Hg|done].
  - subst g. intros [[]|] Hh Hg; [done|]. unfold ghost_permitted, ghost_step, is_unlock. rewrite Hd. split; [done|]. split; [done|].
    intros a i -> _ _. done.
  - destruct (H h Hh Hg) as (H1 & H2 & H3). split; [done|]. split.
    + intros Hu. destruct (H2 Hu) as (r & x0 & x & E & Hk & HP). exists r, x0, x. split_and!; [done| |done].
      intros a. apply outside_bind, (outside_conseq _ _ _ (Hk a)). intros r' ->. by split_and!.
    + intros a i Hi Ha Hok. destruct (H3 a i Hi Ha Hok) as [H4 H5]. split; [done|]. intros Hinv. auto.
Qed.

Lemma wp_outer_lock {R} (P : slot -> answer R -> slot -> Prop) wrap domain id_ (body : prog (answer R)) :
  is_name_lock domain id_ = false -> wp P body None -> wp P (locked wrap domain id_ body) None.
Proof.
  intros Hd H. apply wp_outside. split_and!; [done..|]. intros [[]|err] _; [|done]. by apply wp_outer_unlock.
Qed.

Lemma wp_body {R} (P : slot -> R -> slot -> Prop) (body : prog R) x0 x :
  run_ok (P x0) body x ->
  wp P (prog_bind body (fun r => Do (UnlockLifecycle "environment" n) (fun _ => Ret r))) (Some (x0, x)).
Proof.
  revert x. induction body as [r|e k IH|]; intros x H; simpl.
  - intros [[y0 y]|] Hh Hg; [|done]. destruct Hh as [-> Hle]. unfold ghost_permitted, is_unlock, is_name_lock.
    rewrite !bool_decide_eq_true_2 by done. simpl. split; [done|]. split.
    + intros _. exists r, x0, y. split_and!; [done..|]. by apply H.
    + intros a i Hi _ _. unfold ghost_step, is_unlock, is_name_lock in Hi.
      rewrite !bool_decide_eq_true_2 in Hi by done. simpl in Hi. by subst i.
  - intros [[y0 y]|] Hh Hg; [|done]. destruct Hh as [-> Hle]. destruct (H y Hle Hg) as [Hp Hs].
    assert (is_unlock e = false) as Hu by (destruct e; try done; apply Hp).
    unfold ghost_permitted, ghost_step. rewrite Hu. split; [done|]. split; [done|].
    intros a i (z & -> & Hst) Ha Hok. destruct (Hs a z Hst Ha Hok) as [Hi Hk]. split; [done|]. intros _. by apply IH.
  - intros [[y0 y]|] Hh Hg; [|done]. destruct Hh as [_ Hle]. by apply (H y).
Qed.

Lemma wp_locked {R} (P : slot -> answer R -> slot -> Prop) wrap (body : prog (answer R)) :
  (forall x, slot_good x -> run_ok (P x) body x) -> wp P (locked wrap "environment" n body) None.
Proof.
  intros H. unfold locked, wrapped, call. simpl. intros [g|] Hh _; [by destruct g|].
  unfold ghost_permitted, ghost_step, is_lock, is_name_lock. rewrite !bool_decide_eq_true_2 by done.
  simpl. split; [done|]. split; [done|].
  intros [[]|err] i Hi _ Hok; simpl in Hi; [|subst i; by split].
  destruct Hi as [x ->]. split; [done|]. intros Hinv. apply wp_body, H. by split.
Qed.

End Name.
