(* ===== verification/WorkspaceProofs.v ===== *)
(** * The Workspace service keeps the ownership protocol

    Cleanup, creation and deletion, verified against the contracts of
    [WorkspaceProtocol]. *)

From S2P Require Import Prelude GoText Core CoreChecks CoreProofs CatalogState Catalog Resources Lifecycle Snapshots Runs Store.
From S2P Require Import LifecycleProofs ReservationProofs WorkspaceModel WorkspaceService WorkspaceProtocol.
From Stdlib Require Import Ascii String.
Open Scope string_scope.
Open Scope prog_scope.

#[local] Arguments run_ok : simpl never.
#[local] Arguments prog_bind : simpl never.

(** Nothing is left under the name. *)
Definition clean (x : slot) : Prop := sl_lease x = None /\ sl_env x = None /\ sl_refs x = ∅.

Lemma no_refs_le spared x y : sl_refs x = ∅ -> slot_but spared x y -> sl_refs y = ∅.
Proof. intros H E%slot_but_sub. set_solver. Qed.

Lemma clean_le x y : clean x -> slot_le x y -> clean y.
Proof. intros (H1 & H2 & H3) Hle. pose proof (no_refs_le _ _ _ H3 Hle). destruct Hle as (E1 & E2 & _). split_and!; [congruence..|done]. Qed.

Lemma no_refs_inv x : sl_refs x = ∅ -> slot_inv x.
Proof. intros H ref Href. set_solver. Qed.

Lemma only_le ref spared x y : only ref (sl_refs x) -> slot_but spared x y -> only ref (sl_refs y).
Proof. intros H E%slot_but_sub. unfold only in *. set_solver. Qed.

(** The runtimes of an entry that was replaced. *)
Lemma with_entry_sub x y l e : with_entry x y l e -> sl_refs y ⊆ sl_refs x.
Proof. intros (_ & _ & H). by eapply shrinks_but_sub. Qed.

(** [recovers err]: the error asks for recovery. *)
Definition recovers (err : goerror) : Prop := errors_Is err ErrRecoveryRequired = true.

Lemma recovers_joined errs : Plain ErrRecoveryRequired ∈ errs -> recovers (Joined errs).
Proof.
  intros H. unfold recovers. simpl. apply existsb_exists. exists (Plain ErrRecoveryRequired).
  split; [by apply list_elem_of_In|done].
Qed.

Lemma recovers_join errs err : recovers err -> Some err ∈ errs -> recovers (Join errs).
Proof.
  intros H Hin. unfold recovers, Join. simpl. apply existsb_exists. exists err. split; [|done].
  apply list_elem_of_In, list_elem_of_omap. by exists (Some err).
Qed.

(** Calls that move no entry. *)
Ltac quietly a y Hle Hg Hst :=
  apply run_ok_quiet; [reflexivity..|]; intros a y Hle Hg Hst ?; simpl in Hst.
Ltac returns z Hz Hg := intros z Hz Hg.
Ltac branch E :=
  cbv zeta; match goal with |- run_ok _ _ (if ?b then _ else _) _ => destruct b eqn:E end.

Section Proofs.
Context (n : string) (s : WorkspaceService).

Notation run_ok := (run_ok n).
Notation slot_good := (slot_good n).
Notation slot_ok := (slot_ok n).

(** ** Cleanup *)

Definition finalized (x : slot) (a : answer unit) (y : slot) : Prop :=
  match a with
  | inl _ => clean y
  | inr err => sl_refs y = ∅ /\ (~ recovers err -> slot_le x y)
  end.

Lemma finalize_ok c x :
  sl_refs x = ∅ -> run_ok (fun a y => match a with inl _ => clean y | inr _ => sl_refs y = ∅ end)
    (call (Mutate c (OpFinalizeEnvironmentDelete n))) x.
Proof.
  intros Hx. apply run_ok_mutate.
  - intros y Hy Hg. split; [done|]. intros z Hz Hent.
    assert (sl_refs z = ∅) by (apply (no_refs_le _ x y Hx) in Hy; apply with_entry_sub in Hent; set_solver).
    split; [by apply no_refs_inv|]. returns w Hw Hgw. apply (clean_le z); [|done]. by destruct Hent as (? & ? & _).
  - intros err y Hy Hg. returns w Hw Hgw. eapply no_refs_le; [|exact Hw]. by eapply no_refs_le.
Qed.

Lemma prepare_ok {R} (Q : R -> slot -> Prop) c lease (k : answer WorkspaceLease -> prog R) x :
  lease_EnvironmentID lease = n -> sl_refs x = ∅ -> (forall a y, sl_refs y = ∅ -> slot_good y -> run_ok Q (k a) y) ->
  run_ok Q (Do (Prepare c lease) k) x.
Proof.
  intros Hn Hx H y Hy Hg. split; [done|]. intros a z Hz _ Hok.
  assert (sl_refs z = ∅) as Hr.
  { apply (no_refs_le _ x y Hx) in Hy. simpl in Hz. destruct a as [absent|]; [|by eapply no_refs_le].
    destruct Hz as (_ & _ & _ & Hz%with_entry_sub). set_solver. }
  split; [by apply no_refs_inv|]. apply H; [done|]. split; [done|by apply no_refs_inv].
Qed.

Lemma finalizeAbsentEnvironment_ok c x :
  sl_refs x = ∅ -> run_ok (finalized x) (finalizeAbsentEnvironment s c n) x.
Proof.
  intros Hx. unfold finalizeAbsentEnvironment. apply run_ok_wrapped. cbn [prog_bind call].
  quietly a y Hy Hg Hst. destruct Hst as [_ Hst]. returns z Hz Hgz. pose proof (no_refs_le _ _ _ Hx Hy) as Hry.
  pose proof (no_refs_le _ _ _ Hry Hz) as Hrz.
  destruct (lease_or_zero a) as [lease|err] eqn:El.
  2: { returns w Hw Hgw. split; [by eapply no_refs_le|]. intros _. do 2 (etransitivity; [eassumption|]). done. }
  apply run_ok_wrapped.
  assert (run_ok (fun a w => sl_refs w = ∅ /\ forall err, a = inr err -> recovers err)
    (if is_nil (lease_Attachments lease) then Ret (inl tt) else
       if negb (st_has_resource_catalog s) || negb (has_manager s) then failing ErrRecoveryRequired else
       absent <- call (Prepare c lease) or recovery ;;
       try call (DeleteEnvironmentResources c absent) or recovery ;;
       Ret (inl tt)) z) as Hareas.
  { destruct (is_nil (lease_Attachments lease)) eqn:En; [returns w Hw Hgw; split; [by eapply no_refs_le|done]|].
    destruct (_ || _); [returns w Hw Hgw; split; [by eapply no_refs_le|]; by intros err [= <-]|].
    assert (lease_EnvironmentID lease = n) as Hn.
    { destruct a as [l|err']; simpl in El.
      - injection El as ->. specialize (Hst eq_refl). by apply Hg in Hst.
      - destruct (errors_Is err' ErrNotFound); [by injection El as <-|done]. }
    unfold wrapped, call. cbn [prog_bind]. apply prepare_ok; [done|done|]. intros [absent|err] w Hw Hgw.
    - quietly b v Hv Hgv Hst'. destruct b as [[]|err]; returns u Hu Hgu;
        (split; [by eapply no_refs_le; [eapply no_refs_le; [exact Hw|exact Hv]|]|]); [done|].
      intros err' [= <-]. apply recovers_joined. set_solver.
    - returns u Hu Hgu. split; [by eapply no_refs_le|]. intros err' [= <-]. apply recovers_joined. set_solver. }
  eapply run_ok_conseq; [exact Hareas|]. intros [[]|err] w _ Hgw [Hrw Hrec].
  2: { returns v Hv Hgv. split; [by eapply no_refs_le|]. intros Hno. exfalso. apply Hno. by apply Hrec. }
  apply run_ok_wrapped. eapply run_ok_conseq; [by apply finalize_ok|]. intros [[]|err] v _ Hgv HQ; returns u Hu Hgu.
  - by apply (clean_le v).
  - split; [by eapply no_refs_le|]. intros Hno. exfalso. apply Hno, recovers_joined. set_solver.
Qed.

Lemma finalizeEnvironmentForCleanup_ok x :
  sl_refs x = ∅ ->
  run_ok (fun r y => match r with None => clean y | Some err => recovers err end) (finalizeEnvironmentForCleanup s n) x.
Proof.
  intros Hx. unfold finalizeEnvironmentForCleanup. apply run_ok_bind.
  eapply run_ok_conseq; [by apply finalizeAbsentEnvironment_ok|]. intros [[]|err] y _ Hg HQ; returns z Hz Hgz; simpl.
  - by apply (clean_le y).
  - apply recovers_joined. set_solver.
Qed.

(** The lease to mark names the runtimes that may exist, or none. *)
Definition owns (lease : WorkspaceLease) (x : slot) : Prop :=
  lease_RuntimeRef lease = "" \/ only (lease_RuntimeRef lease) (sl_refs x).

Lemma markEnvironmentRecovery_ok lease x :
  lease_EnvironmentID lease = n -> sl_idle x -> owns lease x ->
  run_ok (fun _ _ => True) (markEnvironmentRecovery lease) x.
Proof.
  intros Hn Hi Ho. unfold markEnvironmentRecovery. cbn [prog_bind call]. apply run_ok_mutate; [|done].
  intros y Hy Hg. split; [split; [done|by apply Hy]|].
  intros z Hz (old & new & Hold & Hab & _ & Href & Hent). split; [|done]. pose proof (with_entry_sub _ _ _ _ Hent) as Hr.
  destruct Hent as (Hl & _). intros ref Hin. apply Hr in Hin. destruct (proj2 Hg ref Hin) as (l & Hl' & Hab' & Hrr). simplify_eq.
  exists new. split; [done|]. split; [congruence|]. rewrite Href. case_bool_decide as E; [|destruct Hrr; tauto].
  destruct Ho as [Ho|Ho]; [by right|left]. apply (slot_but_sub _ _ _ Hy) in Hin. apply Ho in Hin. set_solver.
Qed.

Lemma delete_runtime_ok {R} (Q : R -> slot -> Prop) c ref (k : answer unit -> prog R) x :
  (forall a y, slot_but {[ ref ]} x y -> slot_good y -> (EnvironmentDeletionComplete (error_of a) = true -> ref ∉ sl_refs y) ->
     run_ok Q (k a) y) ->
  run_ok Q (Do (DeleteEnvironment c ref) k) x.
Proof.
  intros H y Hy Hg. split; [done|]. intros a z [Hz Hd] _ Hok.
  assert (slot_good z) as Hgz by by eapply slot_good_le. split; [apply Hgz|]. apply H; try done. by eapply slot_but_le.
Qed.

Lemma only_absent ref refs : only ref refs -> ref ∉ refs -> refs = ∅.
Proof. unfold only. set_solver. Qed.

Lemma failCreatedEnvironment_ok lease cause x :
  lease_EnvironmentID lease = n -> sl_idle x -> only (lease_RuntimeRef lease) (sl_refs x) ->
  run_ok (fun err y => ~ recovers err -> clean y) (failCreatedEnvironment s lease cause) x.
Proof.
  intros Hn Hi Ho. unfold failCreatedEnvironment, deleteRuntimeForCleanup. cbn [prog_bind call].
  apply delete_runtime_ok. intros a y Hy Hg Hd. pose proof (only_le _ _ _ _ Ho Hy) as Hoy.
  destruct (EnvironmentDeletionComplete (error_of a)) eqn:Ec.
  - apply run_ok_bind. rewrite Hn. eapply run_ok_conseq.
    + apply finalizeEnvironmentForCleanup_ok. eapply only_absent; [exact Hoy|by apply Hd].
    + intros [err|] z _ Hgz HQ; returns w Hw Hgw; intros Hno; [|by apply (clean_le z)].
      exfalso. apply Hno. eapply recovers_join; [exact HQ|set_solver].
  - assert (exists err, Wrapped <$> error_of a = Some err) as [err ->] by (destruct a as [|err]; [done|by eexists]).
    apply run_ok_bind. eapply run_ok_conseq.
    + apply markEnvironmentRecovery_ok; [done|by apply Hy|by right].
    + intros r z _ _ _. returns w Hw Hgw. intros Hno. exfalso. apply Hno.
      apply (recovers_join _ (Plain ErrRecoveryRequired)); [done|set_solver].
Qed.

(** ** Creation *)

(** A creation under way: the catalog holds the reservation [lease], with the
    reference of the runtime once its receipt was accepted. *)
Record creating (lease : WorkspaceLease) (captured : WorkspaceLease * bool) (x : slot) : Prop := {
  cr_lease : sl_lease x = Some (if captured.2 then captured.1 else lease);
  cr_env : sl_env x = None;
  cr_captured : captured.1 = lease_with_RuntimeRef (lease_RuntimeRef captured.1) lease;
  cr_recorded : captured.2 = true -> lease_RuntimeRef captured.1 <> "" }.

(** What a reservation looks like. *)
Definition reservation (lease : WorkspaceLease) : Prop :=
  lease_EnvironmentID lease = n /\ lease_RuntimeRef lease = "" /\ lease_RuntimeAbsent lease = false /\
  lease_State lease = WorkspaceLeaseAcquiring.

Lemma with_RuntimeRef_self lease : lease_with_RuntimeRef (lease_RuntimeRef lease) lease = lease.
Proof. by destruct lease. Qed.

Lemma creating_start lease x :
  reservation lease -> sl_lease x = Some lease -> sl_env x = None -> creating lease (lease, false) x.
Proof. intros (_ & H & _) ? ?. split; simpl; [done..|by rewrite with_RuntimeRef_self|done]. Qed.

Lemma creating_le lease captured x y : creating lease captured x -> slot_le x y -> creating lease captured y.
Proof. intros [] (E1 & E2 & _). split; [congruence..|done|done]. Qed.

Lemma captured_fields lease captured x :
  reservation lease -> creating lease captured x ->
  lease_EnvironmentID captured.1 = n /\ lease_RuntimeAbsent captured.1 = false /\
  lease_State captured.1 = WorkspaceLeaseAcquiring /\ lease_Attachments captured.1 = lease_Attachments lease.
Proof. intros (H1 & _ & H2 & H3) [_ _ -> _]. done. Qed.

Lemma creating_idle lease captured x : reservation lease -> creating lease captured x -> slot_ok x -> sl_idle x.
Proof.
  intros Hr Hc Hok. pose proof (captured_fields _ _ _ Hr Hc) as (_ & _ & Hst & _). destruct Hc as [Hl _ _ _].
  eapply ok_idle; [exact Hok|exact Hl|]. destruct captured.2; [by rewrite Hst|]. destruct Hr as (_ & _ & _ & ->). done.
Qed.

(** While the catalog names no runtime, or the one that may exist. *)
Lemma creating_inv lease captured x :
  reservation lease -> creating lease captured x ->
  (captured.2 = true -> only (lease_RuntimeRef captured.1) (sl_refs x)) -> slot_inv x.
Proof.
  intros Hr Hc Ho ref Hin. pose proof (captured_fields _ _ _ Hr Hc) as (_ & Hab & _). destruct Hc as [Hl _ _ _].
  eexists. split; [exact Hl|]. destruct captured.2; simpl.
  - split; [done|left]. specialize (Ho eq_refl). apply Ho in Hin. set_solver.
  - destruct Hr as (_ & -> & -> & _). split; [done|by right].
Qed.

(** The captured variables agree with what the provider has announced. *)
Definition tracks (captured : WorkspaceLease * bool) (known : option string * bool) : Prop :=
  captured.2 = known.2 /\ lease_RuntimeRef captured.1 = default "" known.1 /\ (known.1 = None -> known.2 = false).

Lemma record_runtime_ok lease captured known created x :
  reservation lease -> creating lease captured x -> tracks captured known ->
  (match (announce known (created, None)).1 with Some ref => only ref (sl_refs x) | None => True end) ->
  run_ok (fun r y => creating lease r.1 y /\ tracks r.1 (announce known (created, r.2)) /\
      match (announce known (created, None)).1 with Some ref => only ref (sl_refs y) | None => True end)
    (record_runtime captured created) x.
Proof.
  intros Hr Hc (Ht1 & Ht2 & Ht3) Hcb. destruct captured as [cl rec]. simpl in *. unfold record_runtime, announce in *. simpl in *.
  subst rec. destruct (known.2 || (TrimSpace (rt_Ref created) == "")) eqn:E.
  { returns y Hy Hg. split; [by eapply creating_le|]. split; [done|].
    destruct known.1; [by eapply only_le|done]. }
  apply orb_false_iff in E as [Ek Et]. rewrite Ek in *. apply bool_decide_eq_false in Et. simpl in Hcb.
  assert (rt_Ref created <> "") as Hne by (intros E; by rewrite E in Et).
  set (cl' := lease_with_RuntimeRef (rt_Ref created) cl).
  assert (cl' = lease_with_RuntimeRef (rt_Ref created) lease) as Hcl'
    by (unfold cl'; destruct Hc as [_ _ Hcap _]; simpl in Hcap; by rewrite Hcap).
  cbn [prog_bind call]. apply run_ok_mutate.
  - intros y Hy Hg. split; [rewrite Hcl'; apply Hr|].
    intros z Hz (old & _ & _ & _ & _ & Hent).
    assert (creating lease (cl', true) z) as Hcz by (destruct Hent as (H1 & H2 & _); by split).
    assert (only (rt_Ref created) (sl_refs z)) as Hoz
      by (apply slot_but_sub in Hy; apply with_entry_sub in Hent; unfold only in *; set_solver).
    split; [by eapply creating_inv|].
    returns w Hw Hgw. simpl. split; [by eapply creating_le|]. split; [done|by eapply only_le].
  - intros err y Hy Hg. returns w Hw Hgw. simpl. split; [|split; [done|eapply only_le; [by eapply only_le|done]]].
    assert (creating lease (cl, false) w) as [H1 H2 _ _] by (eapply creating_le; [by eapply creating_le|done]). by split.
Qed.

Lemma creating_only lease captured x :
  creating lease captured x -> slot_inv x -> captured.2 = true -> only (lease_RuntimeRef captured.1) (sl_refs x).
Proof.
  intros [Hl _ _ Hne] Hinv Hrec ref Hin. rewrite Hrec in Hl. destruct (Hinv ref Hin) as (l & Hl' & _ & Href). simplify_eq.
  destruct Href as [<-|E]; [set_solver|]. by apply Hne in Hrec.
Qed.

(** The entry the provider leaves alone. *)
Lemma creating_provider lease captured x y :
  creating lease captured x -> provides x y -> creating lease captured y.
Proof. intros [] (E1 & E2 & _). split; [congruence..|done|done]. Qed.

Lemma announced_snoc before receipt : announced (before ++ [receipt]) = announce (announced before) receipt.
Proof. apply fold_left_app. Qed.

Lemma return_contract_le before a x y :
  return_contract before a (sl_refs x) -> slot_le x y -> return_contract before a (sl_refs y).
Proof.
  intros H E%slot_but_sub. unfold return_contract, only in *.
  destruct a, (announced before) as [[ref|] []]; intros; set_solver.
Qed.

Lemma tracked_ref captured known : tracks captured known -> captured.2 = true -> known = (Some (lease_RuntimeRef captured.1), true).
Proof.
  intros (H1 & H2 & H3) Hrec. destruct known as [[ref|] b]; simpl in *; [congruence|]. specialize (H3 eq_refl). congruence.
Qed.

Lemma run_creation_ok lease t : forall before captured x,
  reservation lease -> creating lease captured x -> tracks captured (announced before) ->
  run_ok (fun r y => creating lease r.1 y /\ exists before', tracks r.1 (announced before') /\ return_contract before' r.2 (sl_refs y))
    (run_creation n before t captured) x.
Proof.
  induction t as [a|created next IH]; intros before captured x Hr Hc Ht; simpl.
  - intros y Hy Hg. split; [done|]. intros [] z [Hpr Hret] _ Hok.
    assert (creating lease captured z) as Hcz by (eapply creating_provider; [by eapply creating_le|done..]). split.
    + eapply creating_inv; [done..|]. intros Hrec. apply tracked_ref in Ht; [|done].
      unfold return_contract in Hret. rewrite Ht in Hret. by destruct a.
    + returns w Hw Hgw. split; [by eapply creating_le|]. exists before. split; [done|by eapply return_contract_le].
  - intros y Hy Hg. split; [done|]. intros [] z [Hpr Hcb] _ Hok.
    assert (creating lease captured z) as Hcz by (eapply creating_provider; [by eapply creating_le|done..]).
    unfold callback_contract in Hcb. rewrite announced_snoc in Hcb. split.
    + eapply creating_inv; [done..|]. intros Hrec. apply tracked_ref in Ht; [|done]. rewrite Ht in Hcb. exact Hcb.
    + apply run_ok_bind. eapply run_ok_conseq; [by apply (record_runtime_ok lease captured (announced before))|].
      intros r w _ Hgw (Hcw & Htw & _). apply IH; [done..|]. by rewrite announced_snoc.
Qed.

Lemma create_runtime_ok lease saved creator_ runtimeSpec x :
  (creator_ = None -> saved <> None -> rt_has_snapshot_creation s = true) ->
  reservation lease -> sl_lease x = Some lease -> sl_env x = None -> rs_Name runtimeSpec = n ->
  run_ok (fun r y => creating lease r.1 y /\ exists before, tracks r.1 (announced before) /\ return_contract before r.2 (sl_refs y))
    (create_runtime s saved creator_ runtimeSpec lease) x.
Proof.
  intros Hflag Hr Hl He Hn. unfold create_runtime.
  assert (creating lease (lease, false) x) as Hc by by apply creating_start.
  assert (tracks (lease, false) (None, false)) as Ht by (destruct Hr as (_ & E & _); by repeat split).
  assert (forall how, run_ok (fun r y => creating lease r.1 y /\ exists before, tracks r.1 (announced before) /\
      return_contract before r.2 (sl_refs y))
    (Do (CreateWith how runtimeSpec) (fun t => run_creation (rs_Name runtimeSpec) [] t (lease, false))) x) as Hwith.
  { intros how y Hy Hg. split; [done|]. intros t z Hpr _ Hok.
    assert (creating lease (lease, false) z) as Hcz by (eapply creating_provider; [by eapply creating_le|done..]).
    split; [by eapply creating_inv|]. rewrite Hn. by apply run_creation_ok. }
  destruct creator_ as [how|]; [done|]. destruct saved as [saved|].
  { rewrite Hflag by done. apply Hwith. }
  destruct (rt_has_receipt s); [apply Hwith|]. cbn [prog_bind call]. intros y Hy Hg. split; [done|].
  intros a z [Hpr Hret] _ Hok.
  assert (creating lease (lease, false) z) as Hcz by (eapply creating_provider; [by eapply creating_le|done..]).
  split; [by eapply creating_inv|]. returns w Hw Hgw. split; [by eapply creating_le|]. exists [].
  split; [done|by eapply return_contract_le].
Qed.

Lemma announced_ref before ref : (announced before).1 = Some ref -> TrimSpace ref <> "".
Proof.
  revert ref. induction before as [|receipt before IH] using rev_ind; intros ref; [done|].
  rewrite announced_snoc. unfold announce. destruct (_ || _) eqn:E; [apply IH|]. simpl. intros [= <-].
  apply orb_false_iff in E as [_ E]. by apply bool_decide_eq_false in E.
Qed.

(** The Environment is published and only its runtime may exist. *)
Definition published (env : Environment) (x : slot) : Prop :=
  sl_env x = Some env /\
  (exists l, sl_lease x = Some l /\ MatchesEnvironment l env = true) /\ only (env_RuntimeRef env) (sl_refs x).

Lemma published_le env x y : published env x -> slot_le x y -> published env y.
Proof.
  intros (H1 & (l & H2 & H3) & H4) Hle. pose proof (only_le _ _ _ _ H4 Hle). destruct Hle as (E1 & E2 & _).
  split; [congruence|]. split; [exists l; split; congruence|done].
Qed.

(** Once reserved, a creation ends published, or clean, or asks for recovery. *)
Definition settled_outcome (r : answer Environment) (x : slot) : Prop :=
  match r with
  | inl env => published env x
  | inr err => ~ recovers err -> clean x
  end.

Lemma settled_outcome_le r x y : settled_outcome r x -> slot_le x y -> settled_outcome r y.
Proof. destruct r; simpl; intros H Hle; [by eapply published_le|]. intros Hno. by apply (clean_le x); [apply H|]. Qed.

Lemma fail_created_ok lease cause x :
  lease_EnvironmentID lease = n -> sl_idle x -> only (lease_RuntimeRef lease) (sl_refs x) ->
  run_ok settled_outcome (fail_created s lease cause) x.
Proof.
  intros Hn Hi Ho. unfold fail_created. apply run_ok_bind. eapply run_ok_conseq; [by apply failCreatedEnvironment_ok|].
  intros err y _ Hg HQ. returns z Hz Hgz. intros Hno. by apply (clean_le y); [apply HQ|].
Qed.

Lemma retain_created_ok lease cause x :
  lease_EnvironmentID lease = n -> sl_idle x -> owns lease x -> run_ok settled_outcome (retain_created lease cause) x.
Proof.
  intros Hn Hi Ho. unfold retain_created. apply run_ok_bind. eapply run_ok_conseq; [by apply markEnvironmentRecovery_ok|].
  intros r y _ _ _. returns z Hz Hgz. intros Hno. exfalso. apply Hno.
  apply (recovers_join _ (Plain ErrRecoveryRequired)); [done|set_solver].
Qed.

Lemma creation_failed_ok lease captured before err x :
  reservation lease -> creating lease captured x -> tracks captured (announced before) ->
  return_contract before (inr err) (sl_refs x) -> slot_ok x ->
  run_ok settled_outcome (creation_failed s captured.1 err) x.
Proof.
  intros Hr Hc (Ht1 & Ht2 & Ht3) Hret Hok. pose proof (captured_fields _ _ _ Hr Hc) as (Hn & _).
  pose proof (creating_idle _ _ _ Hr Hc Hok) as Hi. pose proof (announced_ref before) as Hne.
  unfold creation_failed. unfold return_contract in Hret. destruct (announced before) as [[ref|] b]; simpl in *.
  - assert (ref <> "") as Href by (intros ->; by apply (Hne "")). rewrite Ht2, bool_decide_eq_false_2 by done.
    apply fail_created_ok; [done..|]. by rewrite Ht2.
  - rewrite Ht2. simpl. destruct (errors_Is err ErrRecoveryRequired) eqn:E; [by apply retain_created_ok; [..|left]|].
    apply run_ok_bind. rewrite Hn. eapply run_ok_conseq; [apply finalizeEnvironmentForCleanup_ok; by apply Hret|].
    intros [rerr|] y _ _ HQ; returns z Hz Hgz; intros Hno; [|by apply (clean_le y)].
    exfalso. apply Hno. eapply recovers_join; [exact HQ|set_solver].
Qed.

(** The runtime is recorded, by the provider's receipt or after its return. *)
Definition recorded_as (lease : WorkspaceLease) (created : EnvironmentRuntime) (r : (WorkspaceLease * bool) * option goerror)
    (x : slot) : Prop :=
  creating lease r.1 x /\ lease_RuntimeRef r.1.1 = rt_Ref created /\ only (rt_Ref created) (sl_refs x) /\
  (r.2 = None -> r.1.2 = true).

Lemma recorded_as_le lease created r x y : recorded_as lease created r x -> slot_le x y -> recorded_as lease created r y.
Proof. intros (H1 & H2 & H3 & H4) Hle. split_and!; [by eapply creating_le|done|by eapply only_le|done]. Qed.

Lemma record_returned_ok lease captured before created x :
  reservation lease -> creating lease captured x -> tracks captured (announced before) -> captured.2 = false ->
  return_contract before (inl created) (sl_refs x) -> TrimSpace (rt_Ref created) <> "" ->
  run_ok (recorded_as lease created) (record_runtime captured created) x.
Proof.
  intros Hr Hc Ht Hrec Hret Hne. pose proof Ht as (Ht1 & _ & _).
  assert (only (rt_Ref created) (sl_refs x)) as Ho.
  { unfold return_contract in Hret. destruct (announced before) as [[ref|] []]; simpl in *; [congruence| |by apply Hret..].
    by rewrite bool_decide_eq_false_2 in Hret. }
  assert (forall o, announce (announced before) (created, o) =
    (Some (rt_Ref created), match o with None => true | Some _ => false end)) as Ha.
  { intros o. unfold announce. simpl. by rewrite <- Ht1, Hrec, bool_decide_eq_false_2. }
  eapply run_ok_conseq; [apply (record_runtime_ok lease captured (announced before)); [done..|by rewrite Ha]|].
  intros [captured' err] y _ _ (Hcy & Hty & Hoy). simpl in *. rewrite !Ha in *. destruct Hty as (E1 & E2 & _). simpl in *.
  split_and!; [done..|]. simpl. by intros ->.
Qed.

Lemma commit_ok lease created spec mode resources workspace persistent r now x :
  es_Name spec = n -> reservation lease -> recorded_as lease created r x -> r.2 = None -> slot_ok x ->
  run_ok settled_outcome
    (prog_bind (call (Mutate Parent (OpCommitEnvironmentCreate
         (published_environment spec mode resources workspace persistent r.1.1 created now)
         (lease_with_State WorkspaceLeaseActive r.1.1)))) (fun a =>
     match a with
     | inr err => fail_created s (lease_with_State WorkspaceLeaseActive r.1.1) (Wrapped err)
     | inl _ => Ret (inl (published_environment spec mode resources workspace persistent r.1.1 created now))
     end)) x.
Proof.
  intros Hn Hr (Hc & Href & Ho & Hrec) Hnone Hok. pose proof (captured_fields _ _ _ Hr Hc) as (Hid & Hab & _).
  pose proof (creating_idle _ _ _ Hr Hc Hok) as Hi. cbn [prog_bind call]. apply run_ok_mutate.
  - intros y Hy Hg. split; [done|]. intros z Hz (old & H1 & H2 & H3 & H4 & Hent).
    assert (only (rt_Ref created) (sl_refs z)) as Hoz
      by (pose proof (only_le _ _ _ _ Ho Hy); apply with_entry_sub in Hent; unfold only in *; set_solver).
    destruct Hent as (H5 & H6 & _).
    split.
    + intros ref Hin. eexists. split; [exact H5|]. split; [done|left]. simpl. rewrite Href. apply Hoz in Hin. set_solver.
    + returns w Hw Hgw. simpl. eapply published_le; [|exact Hw]. split_and!; [done|by eexists|done].
  - intros err y Hy Hg. apply fail_created_ok; [done|by apply Hy|]. simpl. rewrite Href. by eapply only_le.
Qed.

Lemma publish_created_ok lease captured before created spec mode resources workspace persistent x :
  es_Name spec = n -> reservation lease -> creating lease captured x -> tracks captured (announced before) ->
  return_contract before (inl created) (sl_refs x) -> TrimSpace (rt_Ref created) <> "" -> slot_good x ->
  run_ok settled_outcome (publish_created s spec mode resources workspace persistent captured created) x.
Proof.
  intros Hn Hr Hc Ht Hret Hne [Hok Hinv]. pose proof (creating_idle _ _ _ Hr Hc Hok) as Hi.
  pose proof (captured_fields _ _ _ Hr Hc) as (Hid & _). unfold publish_created. destruct captured as [cl recorded].
  branch Estale.
  { apply andb_true_iff in Estale as [-> _]. apply fail_created_ok; [done..|]. by apply (creating_only lease (cl, true)). }
  assert (run_ok (recorded_as lease created) (if recorded then Ret (cl, recorded, None) else record_runtime (cl, recorded) created) x) as Hrun.
  { destruct recorded; [|by eapply record_returned_ok]. apply negb_false_iff, bool_decide_eq_true in Estale.
    pose proof (creating_only _ _ _ Hc Hinv eq_refl) as Ho. simpl in Ho. rewrite Estale in Ho.
    returns y Hy Hg. eapply recorded_as_le; [|exact Hy]. by split_and!. }
  apply run_ok_bind. eapply run_ok_conseq; [exact Hrun|]. intros r y _ [Hoky _] Hrec. pose proof Hrec as (Hcy & Href & Hoy & _).
  pose proof (captured_fields _ _ _ Hr Hcy) as (Hidy & _). pose proof (creating_idle _ _ _ Hr Hcy Hoky) as Hiy.
  assert (forall cause, run_ok settled_outcome (fail_created s r.1.1 cause) y) as Hfail
    by (intros; apply fail_created_ok; [done..|by rewrite Href]).
  destruct r.2 as [err|] eqn:Er; [apply Hfail|]. branch Eb; [apply Hfail|].
  change (prog_bind (call Now) ?f) with (Do Now f). quietly now z Hz Hgz Hst.
  apply (commit_ok lease created spec mode resources workspace persistent r now z); try done; [by eapply recorded_as_le|apply Hgz].
Qed.

Lemma materialize_ok lease plans imports x :
  (plans <> [] -> has_manager s = true /\
     (imports <> [] -> exists m, environmentResources s = Some m /\ mg_import m = true)) ->
  reservation lease -> sl_lease x = Some lease -> sl_env x = None -> sl_refs x = ∅ ->
  run_ok (fun a y => match a with
    | inl _ => sl_lease y = Some lease /\ sl_env y = None
    | inr err => ~ recovers err -> clean y
    end) (materialize s lease plans imports) x.
Proof.
  intros Hflags Hr Hl He Hrefs. unfold materialize.
  assert (forall y, slot_le x y -> sl_lease y = Some lease /\ sl_env y = None /\ sl_refs y = ∅) as Hle.
  { intros y Hy. pose proof (no_refs_le _ _ _ Hrefs Hy). destruct Hy as (E1 & E2 & _). split_and!; congruence. }
  destruct plans as [|plan plans]; cbn [is_nil]; [returns y Hy Hg; by apply Hle in Hy as (? & ? & _)|].
  destruct Hflags as [Hm Himp]; [done|]. unfold has_manager in Hm. destruct (environmentResources s) as [m|] eqn:Em; [|done].
  apply run_ok_bind. apply (run_ok_conseq _ (fun a y => slot_le x y)).
  { destruct imports as [|i imports]; cbn [is_nil].
    - apply run_ok_quiet; [done..|]. intros a y Hy Hg _ _. returns z Hz Hgz. by transitivity y.
    - destruct Himp as (m' & [= <-] & ->); [done|]. apply run_ok_quiet; [done..|]. intros a y Hy Hg _ _. returns z Hz Hgz. by transitivity y. }
  intros [attachments|err] y _ Hg Hy; [returns z Hz Hgz; assert (slot_le x z) as Hxz by (by transitivity y); by apply Hle in Hxz as (? & ? & _)|].
  apply run_ok_bind. destruct Hr as (Hid & _). rewrite Hid. eapply run_ok_conseq; [apply finalizeEnvironmentForCleanup_ok; by apply Hle|].
  intros [ferr|] z _ _ HQ; returns w Hw Hgw; intros Hno; [|by apply (clean_le z)].
  exfalso. apply Hno. eapply recovers_join; [exact HQ|set_solver].
Qed.

Lemma create_reserved_ok spec saved creator_ imports mode resources workspace persistent lease plans x :
  (plans <> [] -> has_manager s = true /\
     (imports <> [] -> exists m, environmentResources s = Some m /\ mg_import m = true)) ->
  (creator_ = None -> saved <> None -> rt_has_snapshot_creation s = true) ->
  es_Name spec = n -> reservation lease -> sl_lease x = Some lease -> sl_env x = None -> sl_refs x = ∅ ->
  run_ok settled_outcome (create_reserved s spec saved creator_ imports mode resources workspace persistent lease plans) x.
Proof.
  intros Hplans Hflag Hn Hr Hl He Hrefs. unfold create_reserved. apply run_ok_wrapped.
  eapply run_ok_conseq; [by apply materialize_ok|]. intros [attachments|err] y _ _ HQ.
  2: { returns z Hz Hgz. intros Hno. by apply (clean_le y); [apply HQ|]. }
  destruct HQ as [Hly Hey]. apply run_ok_bind. eapply run_ok_conseq; [by apply create_runtime_ok|].
  intros [captured a] z _ Hgz (Hc & before & Ht & Hret). simpl in *. destruct a as [created|err].
  - destruct (TrimSpace (rt_Ref created) == "") eqn:Etrim.
    + apply retain_created_ok.
      * by apply (captured_fields lease captured z).
      * eapply creating_idle; [done..|apply Hgz].
      * unfold owns. destruct captured.2 eqn:Erec; [right; by eapply creating_only; [..|apply Hgz|]|].
        unfold return_contract in Hret. destruct Ht as (Ht1 & Ht2 & _).
        destruct (announced before) as [[ref|] b]; simpl in *; [|by left]. right. rewrite Ht2.
        destruct b; [congruence|]. by rewrite Etrim in Hret.
    + apply bool_decide_eq_false in Etrim. by eapply publish_created_ok.
  - eapply creation_failed_ok; [done..|apply Hgz].
Qed.

(** ** Programs that only read *)

Lemma run_ok_aside {R R'} (Q : answer R' -> slot -> Prop) (T : answer R -> Prop) wrap (p : prog (answer R))
    (f : R -> prog (answer R')) x :
  outside n T p ->
  (forall r, T (inl r) -> forall y, slot_le x y -> slot_good y -> run_ok Q (f r) y) ->
  (forall err y, slot_le x y -> slot_good y -> Q (inr (wrap err)) y) ->
  run_ok Q (wrapped wrap p f) x.
Proof.
  intros Hp Hok Herr. apply run_ok_outside, (outside_conseq _ _ _ _ Hp). intros [r|err] HT y Hy Hg; [by apply Hok|].
  returns z Hz Hgz. apply Herr; [by transitivity y|done].
Qed.

(** A lock of another domain. *)
Lemma run_ok_inner_lock {R} (Q : answer R -> slot -> Prop) wrap domain id_ (body : prog (answer R)) x :
  domain <> "environment" ->
  (forall y, slot_le x y -> slot_good y -> run_ok (fun r z => forall w, slot_le z w -> slot_good w -> Q r w) body y) ->
  (forall err y, slot_le x y -> slot_good y -> Q (inr (wrap err)) y) ->
  run_ok Q (locked wrap domain id_ body) x.
Proof.
  intros Hd Hbody Herr. assert (is_name_lock n domain id_ = false) as Hl by (unfold is_name_lock; by rewrite bool_decide_eq_false_2).
  apply run_ok_quiet; [done..|]. intros [[]|err] y Hy Hg _ _; [|returns z Hz Hgz; apply Herr; [by transitivity y|done]].
  apply run_ok_bind. eapply run_ok_conseq; [by apply Hbody|]. intros r z _ _ HQ.
  apply run_ok_quiet; [done..|]. intros _ w Hw Hgw _ _. returns v Hv Hgv. apply HQ; [by transitivity w|done].
Qed.

End Proofs.
