(* ===== verification/WorkspaceLifecycle.v ===== *)
(** * Creation and deletion as a whole

    The methods of the Workspace service that create and delete an Environment,
    from their first check to the release of the lock of the name: what the entry
    of the catalog and the native runtimes are when they return. *)

From S2P Require Import Prelude GoText Core CoreChecks CoreProofs CatalogState Catalog Resources Lifecycle Snapshots Runs Store.
From S2P Require Import LifecycleProofs ReservationProofs WorkspaceModel WorkspaceService WorkspaceProtocol WorkspaceProofs.
From Stdlib Require Import Ascii String.
Open Scope string_scope.
Open Scope prog_scope.

#[local] Arguments run_ok : simpl never.
#[local] Arguments prog_bind : simpl never.

(** A program made of reads, by cases on what they answer. *)
Ltac aside :=
  repeat match goal with
  | |- outside _ ?Q (Ret ?r) => change (Q r); cbv beta iota
  | |- outside _ ?Q (failing ?e) => change (Q (inr (Plain e))); cbv beta iota
  | |- outside _ _ (of_result _) => unfold of_result; cbv beta iota
  | |- outside _ _ (if ?b then _ else _) => destruct b eqn:?
  | |- outside _ _ (match ?a with _ => _ end) => destruct a eqn:?
  | |- outside _ _ (Do _ _) => split_and!; [reflexivity..|let a := fresh "a" in intros a ?; cbn in a]
  | |- outside _ _ (call _) => split_and!; [reflexivity..|let a := fresh "a" in intros a ?; cbn in a]
  | |- match ?a with inl _ => _ | inr _ => _ end => destruct a
  | |- outside _ _ (wrapped _ _ _) => apply outside_bind
  | |- outside _ _ (prog_bind _ _) => apply outside_bind
  end.

Section Lifecycle.
Context (n : string) (s : WorkspaceService).

Notation run_ok := (run_ok n).
Notation slot_good := (slot_good n).
Notation slot_ok := (slot_ok n).
Notation outside := (outside n).

(** ** Creation *)

Lemma explicit_resource_aside spec : outside (fun _ => True) (explicit_resource s spec).
Proof. unfold explicit_resource. by aside. Qed.

Lemma select_workspace_aside spec mode persistent : outside (fun _ => True) (select_workspace spec mode persistent).
Proof. unfold select_workspace. by aside. Qed.

Lemma recheck_workspace_aside spec workspace : outside (fun _ => True) (recheck_workspace spec workspace).
Proof. unfold recheck_workspace. by aside. Qed.

Lemma require_unused_aside name : outside (fun _ => True) (require_unused name).
Proof. unfold require_unused. by aside. Qed.

Lemma default_resource_aside spec workspace persistent : outside (fun _ => True) (default_resource s spec workspace persistent).
Proof. unfold default_resource. by aside. Qed.

(** The combinations of arguments the exported methods pass to [create]. *)
Definition creation_args (saved : option Snapshot) (creator_ : option creator) (imports : list EnvironmentResourceImport)
  : Prop :=
  match creator_, saved with
  | Some _, None => True
  | None, Some _ => imports = [] /\ st_has_snapshot_creation s = true /\ rt_has_snapshot_creation s = true
  | None, None => imports = []
  | Some _, Some _ => False
  end.

(** Planned areas come with everything that is needed to reserve and fill them. *)
Definition plans_served (saved : option Snapshot) (imports : list EnvironmentResourceImport)
    (plans : list EnvironmentResourcePlan) : Prop :=
  Forall (fun p => plan_contract (plan_Resource p)) plans /\
  (plans <> [] ->
    (has_manager s = true /\ (imports <> [] -> exists m, environmentResources s = Some m /\ mg_import m = true)) /\
    match saved with Some _ => st_has_saved_resources s = true | None => st_has_resource_catalog s = true end).

Lemma plan_areas_aside spec saved creator_ imports workspace lease :
  creation_args saved creator_ imports ->
  outside (fun a => match a with inl plans => plans_served saved imports plans | inr _ => True end)
    (plan_areas s spec saved creator_ imports workspace lease).
Proof.
  intros Hargs. assert (plans_served saved imports []) as Hnil by by split.
  unfold plan_areas. destruct creator_ as [how|], saved as [saved|]; simpl in Hargs; [done|..].
  - unfold planImportedEnvironmentResources, supports_resources. aside; try done. split; [done|]. intros _.
    rewrite negb_false_iff in *. split_and!; [by unfold has_manager; simplify_option_eq|by eexists|done].
  - destruct Hargs as (-> & _ & _). unfold planSavedEnvironmentResources. aside; try done. split; [done|]. intros _.
    rewrite negb_false_iff in *. split_and!; [by unfold has_manager; simplify_option_eq|done|done].
  - subst imports. unfold planEnvironmentResources, supports_resources. aside; try done. split; [done|]. intros _.
    rewrite ?orb_false_iff, ?negb_false_iff in *. naive_solver.
Qed.

Lemma begin_create_ok lease plans saved imports x :
  (saved <> None -> st_has_snapshot_creation s = true) -> plans_served saved imports plans ->
  lease_EnvironmentID lease = n -> slot_good x ->
  run_ok (fun a y => match a with
    | inl _ => clean x /\ sl_lease y = Some lease /\ sl_env y = None /\ sl_refs y = ∅
    | inr _ => slot_le x y
    end) (begin_create s lease plans saved) x.
Proof.
  intros Hsaved [Hplans Hserved] Hn [_ Hinv].
  assert (forall op, (forall y, op_permitted n op y) ->
    (forall y z, op_step op y z -> sl_lease y = None /\ sl_env y = None /\ lease_RuntimeAbsent lease = false /\ with_entry y z (Some lease) None) ->
    run_ok (fun a y => match a with
      | inl _ => clean x /\ sl_lease y = Some lease /\ sl_env y = None /\ sl_refs y = ∅
      | inr _ => slot_le x y
      end) (call (Mutate Parent op)) x) as Hop.
  { intros op Hp Hstep. apply run_ok_mutate.
    - intros y Hy Hg. split; [done|]. intros z Hz (H1 & H2 & _ & Hent)%Hstep. pose proof (with_entry_sub _ _ _ _ Hent) as H5.
      destruct Hent as (H3 & H4 & _). pose proof (slot_but_sub _ _ _ Hy) as E3. destruct Hy as (E1 & E2 & _).
      assert (sl_refs x = ∅) as Hx.
      { apply set_eq. intros ref. split; [|set_solver]. intros (l & Hl & _)%Hinv. congruence. }
      assert (sl_refs z = ∅) as Hrz by (apply set_eq; intros ref; rewrite Hx in E3; set_solver). split; [by apply no_refs_inv|]. returns w Hw Hgw.
      pose proof (no_refs_le _ _ _ Hrz Hw). destruct Hw as (F1 & F2 & _). split_and!; [|congruence..]. split_and!; congruence.
    - intros err y Hy Hg. returns w Hw Hgw. by transitivity y. }
  unfold begin_create. destruct plans as [|plan plans], saved as [saved|]; cbn [is_nil].
  - rewrite Hsaved by done. by apply Hop.
  - by apply Hop.
  - destruct Hserved as [_ ->]; [done|]. by apply Hop.
  - destruct Hserved as [_ ->]; [done|]. by apply Hop.
Qed.

(** What is left when [Create] returns: the published Environment with the only
    runtime that exists, under a name that was free; or, unless the error asks for
    recovery, what was there before. *)
Definition create_outcome (x : slot) (r : answer Environment) (y : slot) : Prop :=
  match r with
  | inl env => clean x /\ published env y
  | inr err => ~ recovers err -> slot_le x y
  end.

Lemma create_outcome_le x r y z : create_outcome x r y -> slot_le y z -> create_outcome x r z.
Proof.
  destruct r as [env|err]; simpl; [|intros H Hz Hno; transitivity y; auto].
  intros [Hx Hy] Hz. split; [done|by eapply published_le].
Qed.

Lemma clean_slot_le x y : clean x -> sl_lost x `prefix_of` sl_lost y -> clean y -> slot_ok y -> slot_le x y.
Proof.
  intros (H1 & H2 & H3) Hlost (E1 & E2 & E3) Hok. split_and!; [congruence..|by apply shrinks_empty|].
  intros _. by apply (ok_none _ _ Hok).
Qed.

Lemma slot_le_lost x y : slot_le x y -> sl_lost x `prefix_of` sl_lost y.
Proof. intros (_ & _ & (gone & E & _) & _). by exists gone. Qed.

Lemma clean_above x y : slot_good x -> slot_le x y -> clean y -> clean x.
Proof.
  intros [_ Hinv] (F1 & F2 & _) (E1 & E2 & _). split_and!; [congruence..|].
  apply set_eq. intros ref. split; [|set_solver]. intros (l & Hl & _)%Hinv. congruence.
Qed.

Lemma create_locked_ok nonce spec saved creator_ imports mode resources persistent workspace x :
  es_Name spec = n -> creation_args saved creator_ imports -> slot_good x ->
  run_ok (create_outcome x) (create_locked s nonce spec saved creator_ imports mode resources persistent workspace) x.
Proof.
  intros Hn Hargs Hg. unfold create_locked.
  assert (forall err y, slot_le x y -> create_outcome x (inr err) y) as Herr by (by intros err y Hy _).
  eapply run_ok_aside; [apply recheck_workspace_aside| |by intros; apply Herr]. intros _ _ y Hy Hgy.
  assert (forall z, slot_le y z -> slot_le x z) as Hxy by (intros; by transitivity y).
  eapply run_ok_aside; [apply require_unused_aside| |by intros; apply Herr, Hxy]. intros _ _ z Hz Hgz.
  eapply run_ok_aside; [apply default_resource_aside| |by intros; apply Herr, Hxy; transitivity z].
  intros persistent' _ w Hw Hgw. change (prog_bind (call Now) ?f) with (Do Now f). quietly now v Hv Hgv Hst.
  assert (slot_le x v) as Hxv by (apply Hxy; do 2 (etransitivity; [eassumption|]); done).
  eapply run_ok_aside; [by apply plan_areas_aside| |by intros; apply Herr; transitivity v].
  intros plans Hplans u Hu Hgu. cbv zeta. set (lease := reserved_lease _ plans saved).
  assert (reservation n lease) as Hr by by split_and!.
  apply run_ok_wrapped.
  eapply run_ok_conseq; [apply run_ok_lost, (begin_create_ok lease plans saved imports); [|done..]|].
  { intros Hs. destruct creator_ as [how|], saved as [saved|]; try done. by destruct Hargs as (_ & ? & _). }
  intros [[]|err] t _ Hgt [Hlost HQ]; [|returns r Hrr Hgr; intros _; transitivity u; [by transitivity v|by transitivity t]].
  destruct HQ as (Hcu & H1 & H2 & H3). assert (slot_le x u) as Hxu by by transitivity v.
  assert (clean x) as Hcx by by apply (clean_above x u).
  eapply run_ok_conseq; [apply run_ok_lost, create_reserved_ok; try done|].
  { by apply Hplans. }
  { intros -> Hs. destruct saved; [|done]. by destruct Hargs as (_ & _ & ?). }
  intros [env|err'] r _ Hgr [Hlost' HQ]; [by split|]. intros Hno. apply clean_slot_le; [done| |by apply HQ|apply Hgr].
  apply slot_le_lost in Hxu. by do 2 (etransitivity; [eassumption|]).
Qed.

Lemma of_result_aside {R} (r : result R) : outside (fun _ => True) (of_result r).
Proof. by destruct r. Qed.

Lemma validated_name name name' : validateEnvironmentName name = Ok name' -> name' = name.
Proof. unfold validateEnvironmentName. by intros (u & _ & [= ->])%bind_ok. Qed.

Lemma create_ok nonce spec saved creator_ imports :
  creation_args saved creator_ imports -> es_Name spec = n ->
  wp n create_outcome (create s nonce spec saved creator_ imports) None.
Proof.
  intros Hargs Hn. unfold create. destruct (negb _); [done|].
  destruct (validateEnvironmentName (es_Name spec)) as [name|e] eqn:Ev; [|done]. apply validated_name in Ev as ->.
  change (wrapped id (of_result (Ok ?r)) ?f) with (f r). cbv beta. destruct (_ && _); [done|]. rewrite Hn.
  apply wp_locked. intros x Hg.
  assert (forall err y z, slot_le x y -> slot_le y z -> create_outcome x (inr err) z) as Herr
    by (intros err y z Hy Hz _; by transitivity y).
  eapply run_ok_aside; [apply of_result_aside| |by intros; eapply Herr]. intros mode _ y Hy Hgy.
  eapply run_ok_aside; [apply of_result_aside| |by intros; eapply Herr]. intros resources _ z Hz Hgz.
  assert (slot_le x z) as Hxz by by transitivity y. clear y Hy Hgy Hz.
  branch E1; [returns w Hw Hgw; by eapply Herr|].
  eapply run_ok_aside; [apply explicit_resource_aside| |by intros; eapply Herr]. intros persistent _ y Hy Hgy.
  assert (slot_le x y) as Hxy by by transitivity z. clear z Hxz Hy Hgz.
  branch E2; [returns w Hw Hgw; by eapply Herr|].
  eapply run_ok_aside; [apply select_workspace_aside| |by intros; eapply Herr]. intros workspace _ z Hz Hgz.
  assert (slot_le x z) as Hxz by by transitivity y.
  branch E3; [returns w Hw Hgw; by eapply Herr|].
  apply run_ok_inner_lock; [done| |by intros; eapply Herr]. intros w Hw Hgw.
  eapply run_ok_conseq; [by apply create_locked_ok|]. intros r t _ _ HQ u Hu Hgu. apply (create_outcome_le x r t); [|done].
  assert (slot_le x w) as Hxw by by transitivity z. destruct r as [env|err]; simpl in *.
  - destruct HQ as [Hcw HQ]. split; [|done]. by apply (clean_above x w).
  - intros Hno. transitivity w; [done|by apply HQ].
Qed.

Lemma Create_ok nonce spec : es_Name spec = n -> wp n create_outcome (Create s nonce spec) None.
Proof. intros Hn. by apply create_ok. Qed.

Lemma CreateFromArchiveWithData_ok nonce spec source privateRoot limit inputs :
  es_Name spec = n -> wp n create_outcome (CreateFromArchiveWithData s nonce spec source privateRoot limit inputs) None.
Proof.
  intros Hn. unfold CreateFromArchiveWithData. destruct (negb (rt_has_archive s)); [done|]. destruct (_ || _); [done|].
  by apply create_ok.
Qed.

Lemma CreateFromSnapshot_ok nonce spec savedID :
  es_Name spec = n -> wp n create_outcome (CreateFromSnapshot s nonce spec savedID) None.
Proof.
  intros Hn. unfold CreateFromSnapshot. destruct (st_has_snapshot_creation s) eqn:E1; [|done].
  destruct (rt_has_snapshot_creation s) eqn:E2; [|done]. simpl. destruct (_ || _); [done|].
  apply wp_outside. split_and!; [done..|]. intros [saved|err] _; [|done]. simpl.
  destruct (_ != _); [done|]. destruct (xorb _ _); [done|]. destruct (_ && _); [done|]. by apply create_ok.
Qed.

(** ** Deletion *)

(** What is left when a deletion returns: nothing, or, unless the error asks for
    recovery, what was there before or nothing. *)
Definition delete_outcome {R} (x : slot) (r : answer R) (y : slot) : Prop :=
  match r with
  | inl _ => clean y
  | inr err => ~ recovers err -> slot_le x y \/ clean y
  end.

Lemma delete_outcome_le {R} x (r : answer R) y z : delete_outcome x r y -> slot_le y z -> delete_outcome x r z.
Proof.
  destruct r as [v|err]; simpl; intros H Hz; [by apply (clean_le y)|]. intros Hno.
  destruct (H Hno) as [Hle|Hc]; [left; by transitivity y|right; by apply (clean_le y)].
Qed.

Lemma delete_outcome_from {R} x0 x (r : answer R) y : slot_le x0 x -> delete_outcome x r y -> delete_outcome x0 r y.
Proof.
  destruct r as [v|err]; simpl; intros Hle H; [done|]. intros Hno.
  destruct (H Hno) as [Hy|Hc]; [left; by transitivity x|by right].
Qed.

Lemma finalized_delete x a y : finalized x a y -> delete_outcome x a y.
Proof. destruct a as [[]|err]; simpl; [done|]. intros [_ H] Hno. left. auto. Qed.

(** The runtimes that may exist are those of the lease, which names [ref]. *)
Definition named (ref : string) (x : slot) : Prop :=
  ref <> "" /\ forall l, sl_lease x = Some l -> lease_RuntimeRef l = ref.

Lemma named_le ref spared x y : named ref x -> slot_but spared x y -> named ref y.
Proof. intros [Hne Hl] (E & _). split; [done|]. intros l. rewrite E. apply Hl. Qed.

Lemma named_only ref x : named ref x -> slot_inv x -> only ref (sl_refs x).
Proof.
  intros [Hne Hl] Hinv r Hr. destruct (Hinv r Hr) as (l & Hl' & _ & Href). apply Hl in Hl'. destruct Href; subst; [set_solver|].
  congruence.
Qed.

Lemma absent_no_refs x l : slot_inv x -> sl_lease x = Some l -> lease_RuntimeAbsent l = true -> sl_refs x = ∅.
Proof.
  intros Hinv Hl Hab. apply set_eq. intros r. split; [|set_solver]. intros (l' & Hl' & Hab' & _)%Hinv. congruence.
Qed.

Lemma retain_undeleted_ok ref cause x :
  sl_idle x -> named ref x -> run_ok (fun r _ => exists err, r = inr err /\ recovers err) (retain_undeleted n ref cause) x.
Proof.
  intros Hi Hnamed. unfold retain_undeleted, wrapped. cbn [prog_bind call]. quietly a y Hy Hg Hst. destruct Hst as [_ Hst].
  destruct a as [lease|err]; [|returns z Hz Hgz; eexists; split; [done|]; apply recovers_joined; set_solver].
  specialize (Hst eq_refl). simpl in Hst. branch E; [returns z Hz Hgz; eexists; split; [done|]; apply recovers_joined; set_solver|].
  apply negb_false_iff, bool_decide_eq_true in E. apply run_ok_bind. eapply run_ok_conseq.
  - apply markEnvironmentRecovery_ok; [by apply (ok_name _ _ (proj1 Hg)) in Hst|by apply Hy|].
    right. simpl. rewrite E. apply named_only; [by eapply named_le|apply Hg].
  - intros r z _ _ _. returns w Hw Hgw. eexists. split; [done|].
    apply (recovers_join _ (Plain ErrRecoveryRequired)); [done|set_solver].
Qed.

Lemma deleteAndFinalize_ok ref x :
  sl_idle x -> named ref x -> run_ok (delete_outcome x) (deleteAndFinalize s n ref) x.
Proof.
  intros Hi Hnamed. unfold deleteAndFinalize. apply run_ok_wrapped. cbn [prog_bind call].
  quietly a y Hy Hg Hst. destruct Hst as [_ Hst]. specialize (Hst eq_refl). simpl in Hst.
  returns z Hz Hgz. destruct (lease_or_zero a) as [lease|err] eqn:El.
  2: { returns w Hw Hgw. intros _. left. do 2 (etransitivity; [eassumption|]). done. }
  assert (slot_le x z) as Hxz by by transitivity y. destruct (lease_RuntimeAbsent lease) eqn:Hab.
  - destruct a as [l|err]; simpl in El; [injection El as ->|by destruct (errors_Is err ErrNotFound); simplify_eq].
    assert (sl_refs z = ∅) as Hrz.
    { apply (absent_no_refs z lease); [apply Hgz| |done]. destruct Hz as (E & _). congruence. }
    branch E; [returns w Hw Hgw; left; by transitivity z|].
    eapply run_ok_conseq; [by apply finalizeAbsentEnvironment_ok|]. intros r w _ _ HQ.
    apply (delete_outcome_from _ z); [done|by apply finalized_delete].
  - pose proof (named_le _ _ _ _ Hnamed Hxz) as Hnz. cbn [prog_bind call]. apply delete_runtime_ok. intros d w Hw Hgw Hd.
    pose proof (named_only _ _ (named_le _ _ _ _ Hnz Hw) (proj2 Hgw)) as Ho.
    destruct (EnvironmentDeletionComplete (error_of d)) eqn:Ec.
    + apply run_ok_wrapped. eapply run_ok_conseq; [apply finalizeAbsentEnvironment_ok; apply (only_absent ref); auto|].
      intros [[]|err] v _ _ HQ; returns u Hu Hgu; [by apply (clean_le v)|].
      intros Hno. exfalso. apply Hno, recovers_joined. set_solver.
    + assert (exists err, error_of d = Some err) as [err ->] by (destruct d as [|err]; [done|by eexists]).
      eapply run_ok_conseq; [apply retain_undeleted_ok; [by apply Hw, Hxz|by eapply named_le]|].
      intros r v _ _ (err' & -> & Hrec) Hno. done.
Qed.

Lemma resource_deletions_aside work all : outside (fun _ => True) (resource_deletions s work all).
Proof.
  induction all as [|r all IH]; [done|]. simpl. destruct (negb (bool_decide _)); [done|]. destruct (negb _); [done|].
  apply outside_bind. split_and!; [done..|]. by intros [[]|err] _.
Qed.

Lemma finishOwnedWorkspaceCleanup_aside name : outside (fun _ => True) (finishOwnedWorkspaceCleanup s name).
Proof.
  unfold finishOwnedWorkspaceCleanup, DeleteOwnedWorkspace, DeleteManagedWorkspace, lockWorkspace, locked. aside; try done.
  eapply outside_conseq; [apply resource_deletions_aside|]. intros [[]|err] _; by aside.
Qed.

(** Once the entry is gone, what remains to be cleaned leaves it gone. *)
Lemma finish_ok x name y : clean y -> run_ok (delete_outcome x) (finishOwnedWorkspaceCleanup s name) y.
Proof.
  intros Hc. apply run_ok_reading. eapply outside_conseq; [apply finishOwnedWorkspaceCleanup_aside|]. intros r _ z Hz Hg.
  pose proof (clean_le _ _ Hc Hz). destruct r; simpl; [done|by right].
Qed.

Lemma checkLifecycleIdle_ok x :
  st_has_resources_idle s = true ->
  run_ok (fun a y => slot_le x y /\ (forall v, a = inl v -> sl_idle y)) (checkLifecycleIdle s n) x.
Proof.
  intros Hidle. unfold checkLifecycleIdle. rewrite Hidle. apply run_ok_wrapped. quietly a y Hy Hg Hst.
  destruct Hst as [_ Hst]. returns z Hz Hgz. assert (slot_le x z) as Hxz by by transitivity y.
  destruct a as [[]|err]; [|returns w Hw Hgw; split; [by transitivity z|done]].
  specialize (Hst eq_refl). simpl in Hst. apply Hz in Hst.
  apply run_ok_wrapped. destruct (st_has_snapshot_idle s).
  - quietly b w Hw Hgw Hst'. returns v Hv Hgv. destruct b as [[]|err]; returns u Hu Hgu;
      (split; [|by intros; apply Hu, Hv, Hw]); do 3 (etransitivity; [eassumption|]); done.
  - returns w Hw Hgw. returns v Hv Hgv. split; [by do 2 (etransitivity; [eassumption|])|by intros; apply Hv, Hw].
Qed.

Lemma check_run_aside name instance : outside (fun _ => True) (check_run name instance).
Proof. unfold check_run. by aside. Qed.

Lemma user_policy_aside environment force : outside (fun _ => True) (user_policy s environment force).
Proof. unfold user_policy. by aside. Qed.

Lemma delete_unpublished_ok expected x :
  sl_idle x -> sl_env x = None -> run_ok (delete_outcome x) (delete_unpublished s n expected) x.
Proof.
  intros Hi He. unfold delete_unpublished. cbn [prog_bind call]. quietly a y Hy Hg Hst. destruct Hst as [_ Hst].
  specialize (Hst eq_refl). simpl in Hst. destruct a as [lease|err].
  - branch E1; [returns z Hz Hgz; left; by transitivity y|].
    eapply (run_ok_conseq _ (delete_outcome y)); [|intros r z _ _; by apply delete_outcome_from].
    branch E2.
    { eapply run_ok_conseq; [apply finalizeAbsentEnvironment_ok; eapply absent_no_refs; [apply Hg|done..]|].
      intros r z _ _. apply finalized_delete. }
    branch E3; [returns z Hz Hgz; intros Hno; by exfalso; apply Hno|]. apply bool_decide_eq_false in E3.
    apply deleteAndFinalize_ok; [by apply Hy|]. split; [done|]. intros l Hl. congruence.
  - branch E; [|returns z Hz Hgz; left; by transitivity y]. apply finish_ok.
    specialize (Hst eq_refl). destruct Hy as (_ & E2 & _). split_and!; [done|congruence|].
    apply set_eq. intros r. split; [|set_solver]. intros (l & Hl & _)%(proj2 Hg). congruence.
Qed.

Lemma deleteWithPolicy_ok expected instance user force :
  st_has_resources_idle s = true ->
  wp n delete_outcome (deleteWithPolicy s n expected instance user force) None.
Proof.
  intros Hidle. unfold deleteWithPolicy. destruct (validateEnvironmentName n) as [name|e] eqn:Ev; [|done].
  apply wp_locked. intros x Hg. apply run_ok_wrapped. eapply run_ok_conseq; [by apply checkLifecycleIdle_ok|].
  intros [[]|err] y _ Hgy [Hy Hi]; [|returns z Hz Hgz; left; by transitivity y]. specialize (Hi tt eq_refl).
  eapply (run_ok_conseq _ (delete_outcome y)); [|intros r z _ _; by apply delete_outcome_from].
  eapply run_ok_aside; [apply check_run_aside| |by intros; left]. intros _ _ z Hz Hgz.
  eapply (run_ok_conseq _ (delete_outcome z)); [|intros r w _ _; by apply delete_outcome_from].
  cbn [prog_bind call]. quietly a w Hw Hgw Hst. destruct Hst as [_ Hst]. specialize (Hst eq_refl). simpl in Hst.
  eapply (run_ok_conseq _ (delete_outcome w)); [|intros r v _ _; by apply delete_outcome_from].
  assert (sl_idle w) as Hiw by by apply Hw, Hz. destruct a as [environment|err].
  2: { branch E; [returns v Hv Hgv; by left|]. apply negb_false_iff in E. apply delete_unpublished_ok; auto. }
  branch E; [returns v Hv Hgv; by left|].
  eapply (run_ok_aside _ _ (fun _ => True)); [by destruct user; [apply user_policy_aside|]| |by intros; left].
  intros _ _ v Hv Hgv. eapply (run_ok_conseq _ (delete_outcome v)); [|intros r u _ _; by apply delete_outcome_from].
  apply run_ok_wrapped. eapply run_ok_conseq; [apply deleteAndFinalize_ok; [by apply Hv|]|].
  - destruct (ok_env _ _ (proj1 Hgw) _ Hst) as (_ & l & Hl & Href & Hne). split; [done|]. intros l' Hl'.
    destruct Hv as (Ev1 & _). congruence.
  - intros [[]|err] u _ _ HQ; [by apply finish_ok|]. returns t Ht Hgt. by eapply delete_outcome_le.
Qed.

End Lifecycle.
