(* ===== verification/WorkspaceFrames.v ===== *)
(** * The methods that use an Environment leave its entry alone

    Start, stop, execution, client access, data areas, images and snapshots: under
    the lock of the name, and whatever their calls answer, these methods move no
    entry; at most a lease without an identity gets one. *)

From S2P Require Import Prelude GoText Core CoreChecks CoreProofs CatalogState Catalog Resources Lifecycle Snapshots Runs Store.
From S2P Require Import LifecycleProofs ReservationProofs WorkspaceModel WorkspaceService WorkspaceAccess WorkspaceProtocol.
From S2P Require Import WorkspaceProofs WorkspaceLifecycle.
From Stdlib Require Import Ascii String.
Open Scope string_scope.
Open Scope prog_scope.

#[local] Arguments run_ok : simpl never.
#[local] Arguments prog_bind : simpl never.
#[local] Arguments outside : simpl never.

(** The same Environment with the same lease and the same runtimes, those that
    were lost apart. *)
Definition same_entry (x y : slot) : Prop :=
  sl_env y = sl_env x /\ shrinks x y /\
  (sl_lease y = sl_lease x \/ exists l id_, sl_lease x = Some l /\ lease_InstanceID l = "" /\ sl_lease y = Some (lease_with_InstanceID id_ l)).

Lemma same_entry_le x y z : same_entry x y -> slot_le y z -> same_entry x z.
Proof.
  intros (H1 & H2 & H3) (E1 & E2 & E3 & _). split_and!; [congruence|by transitivity y|]. rewrite E1. destruct H3; [left; congruence|by right].
Qed.

Lemma same_entry_refl x : same_entry x x.
Proof. split_and!; [done..|by left]. Qed.

Lemma same_entry_identified id_ x y z : same_entry x y -> identified id_ y z -> slot_inv y -> same_entry x z /\ slot_inv z.
Proof.
  intros (H1 & H2 & H3) (l & E1 & E2 & E3 & E4 & E5 & _) Hinv. split.
  - split_and!; [congruence|by transitivity y|right]. destruct H3 as [H3|(l' & id' & H3 & H4 & H5)].
    + exists l, id_. split_and!; [congruence|done|done].
    + rewrite E1 in H5. injection H5 as ->. exists l', id_. by split_and!.
  - intros ref Hin. apply (shrinks_but_sub _ _ _ E5) in Hin. destruct (Hinv ref Hin) as (l' & Hl & Hab & Hr). rewrite E1 in Hl. injection Hl as <-.
    exists (lease_with_InstanceID id_ l). by split_and!.
Qed.

(** An early return before any call. *)
Ltac stops :=
  repeat match goal with |- wp _ _ (if ?b then _ else _) None => destruct b; [reflexivity|] end.

Section Frames.
Context (n : string) (s : WorkspaceService).

Notation run_ok := (run_ok n).
Notation slot_good := (slot_good n).
Notation outside := (outside n).

(** The entry is the one at the time the lock was taken. *)
Definition kept {R} (x : slot) (_ : R) (y : slot) : Prop := same_entry x y.

(** ** Rules *)

Lemma kept_reading {R} (p : prog R) x0 x : same_entry x0 x -> outside (fun _ => True) p -> run_ok (kept x0) p x.
Proof.
  intros Hx Hp. apply run_ok_reading, (outside_conseq _ _ _ _ Hp). intros r _ y Hy Hg. by eapply same_entry_le.
Qed.

(** The rules hold of any postcondition that an early return satisfies. *)
Section Rules.
Context {R : Type} (Q : answer R -> slot -> Prop) (x0 : slot).
Context (Hstop : forall err y, same_entry x0 y -> Q (inr err) y).

Lemma kept_stop err x : same_entry x0 x -> run_ok Q (Ret (inr err)) x.
Proof. intros Hx y Hy Hg. apply Hstop. by eapply same_entry_le. Qed.

Lemma kept_aside {R'} (T : answer R' -> Prop) wrap (p : prog (answer R')) (f : R' -> prog (answer R)) x :
  same_entry x0 x -> outside T p ->
  (forall r y, T (inl r) -> same_entry x0 y -> slot_good y -> run_ok Q (f r) y) -> run_ok Q (wrapped wrap p f) x.
Proof.
  intros Hx Hp Hf. eapply run_ok_aside; [exact Hp| |].
  - intros r HT y Hy Hg. apply Hf; [done|by eapply same_entry_le|done].
  - intros err y Hy Hg. apply Hstop. by eapply same_entry_le.
Qed.

(** The Environment and the lease the catalog holds under the name. *)
Lemma kept_environment c wrap (f : Environment -> prog (answer R)) x :
  same_entry x0 x -> (forall e y, env_Name e = n -> same_entry x0 y -> slot_good y -> run_ok Q (f e) y) ->
  run_ok Q (wrapped wrap (call (Ask c (QEnvironment n))) f) x.
Proof.
  intros Hx Hf. apply run_ok_quiet; [done..|]. intros a y Hy Hg [_ Hst] _. specialize (Hst eq_refl).
  assert (same_entry x0 y) as Hxy by by eapply same_entry_le. destruct a as [e|err].
  - apply Hf; [by apply (ok_env _ _ (proj1 Hg)) in Hst as [? _]|done..].
  - by apply kept_stop.
Qed.

Lemma kept_lease c wrap (f : WorkspaceLease -> prog (answer R)) x :
  same_entry x0 x -> (forall l y, lease_EnvironmentID l = n -> same_entry x0 y -> slot_good y -> run_ok Q (f l) y) ->
  run_ok Q (wrapped wrap (call (Ask c (QLease n))) f) x.
Proof.
  intros Hx Hf. apply run_ok_quiet; [done..|]. intros a y Hy Hg [_ Hst] _. specialize (Hst eq_refl).
  assert (same_entry x0 y) as Hxy by by eapply same_entry_le. destruct a as [l|err].
  - apply Hf; [by apply (ok_name _ _ (proj1 Hg)) in Hst|done..].
  - by apply kept_stop.
Qed.

Lemma kept_instance wrap e (f : string -> prog (answer R)) x :
  env_Name e = n -> same_entry x0 x ->
  (forall instance y, same_entry x0 y -> slot_good y -> run_ok Q (f instance) y) ->
  run_ok Q (wrapped wrap (call (InstanceOf e)) f) x.
Proof.
  intros Hn Hx Hf y Hy Hg. split; [done|]. intros a z Hz _ Hok.
  assert (same_entry x0 z /\ slot_inv z) as [Hxz Hiz].
  { apply (same_entry_le x0 x y Hx) in Hy. assert (slot_le y z \/ exists id_, identified id_ y z) as [Hz'|[id_ Hz']]
      by (destruct a; simpl in Hz; [destruct Hz as [[? _]|]; eauto|eauto]); [|by eapply same_entry_identified; [..|apply Hg]].
    split; [by eapply same_entry_le|]. eapply slot_inv_le; [apply Hg|done]. }
  split; [done|]. destruct a as [instance|err]; [by apply Hf|by apply kept_stop].
Qed.

End Rules.

Lemma kept_inner_lock {R} wrap domain id_ (body : prog (answer R)) x0 x :
  domain <> "environment" -> same_entry x0 x ->
  (forall y, same_entry x0 y -> slot_good y -> run_ok (kept x0) body y) -> run_ok (kept x0) (locked wrap domain id_ body) x.
Proof.
  intros Hd Hx Hbody. apply run_ok_inner_lock; [done| |intros err y Hy Hg; by eapply same_entry_le].
  intros y Hy Hg. eapply run_ok_conseq; [apply Hbody; [by eapply same_entry_le|done]|].
  intros r z _ _ Hz w Hw Hgw. by eapply same_entry_le.
Qed.

(** ** Threads *)

Lemma wp_reading {R} P (p : prog R) : outside (fun _ => True) p -> wp n P p None.
Proof.
  induction p as [r|e k IH|]; simpl; [done| |done]. intros (Hq & Hl & Hu & H) [[]|] Hh Hg; [done|].
  unfold ghost_permitted, ghost_step. rewrite Hl, Hu. split; [done|]. split; [done|].
  intros a i -> Ha _. split; [done|]. intros _. auto.
Qed.

(** A body that only reads, under the lock of whatever name. *)
Lemma wp_locked_reading {R} wrap m (body : prog (answer R)) :
  outside (fun _ => True) body -> wp n kept (locked wrap "environment" m body) None.
Proof.
  intros H. destruct (decide (m = n)) as [->|Hm].
  - apply wp_locked. intros x Hg. by apply kept_reading; [apply same_entry_refl|].
  - apply wp_reading. apply outside_bind.
    assert (is_name_lock n "environment" m = false) as Hl by (unfold is_name_lock; by rewrite (bool_decide_eq_false_2 (m = n)), andb_false_r).
    split_and!; [done..|]. intros [[]|err] _; [|done]. apply outside_bind, (outside_conseq _ _ _ _ H). intros r _. by split_and!.
Qed.

Lemma wp_entry {R} wrap (body : prog (answer R)) :
  (forall x0 x, same_entry x0 x -> slot_good x -> run_ok (kept x0) body x) -> wp n kept (locked wrap "environment" n body) None.
Proof. intros H. apply wp_locked. intros x Hg. apply H; [apply same_entry_refl|done]. Qed.

(** [if _, err := validateEnvironmentName(name); err != nil { return err }]. *)
Lemma wp_validated {R} P name (f : string -> prog (answer R)) :
  wp n P (f name) None -> wp n P (wrapped id (of_result (validateEnvironmentName name)) f) None.
Proof.
  intros H. apply wp_outside. destruct (validateEnvironmentName name) as [name'|e] eqn:E; [|done].
  by apply validated_name in E as ->.
Qed.

(** ** Programs that only read *)

Lemma checkLifecycleIdle_aside name : outside (fun _ => True) (checkLifecycleIdle s name).
Proof. unfold checkLifecycleIdle. by aside. Qed.

Lemma resolve_areas_aside lease attachments : forall areas, outside (fun _ => True) (resolve_areas lease attachments areas).
Proof.
  induction attachments as [|a attachments IH]; intros areas; [done|]. simpl. apply outside_bind. split_and!; [done..|].
  intros [r|err] _; [|done]. aside; [done|]. apply IH.
Qed.

Lemma resolve_aside lease : outside (fun _ => True) (resolveEnvironmentRuntimeResources s lease).
Proof. unfold resolveEnvironmentRuntimeResources. destruct (negb _); [done|]. apply resolve_areas_aside. Qed.

Lemma startRuntimeWithLease_aside environment lease : outside (fun _ => True) (startRuntimeWithLease s environment lease).
Proof.
  unfold startRuntimeWithLease. destruct (negb (is_nil _)); [destruct (negb _); [done|]|by aside].
  apply outside_bind, (outside_conseq _ _ _ _ (resolve_aside lease)). intros [areas|err] _; by aside.
Qed.

Lemma require_stopped_aside env : outside (fun _ => True) (require_stopped s env).
Proof. unfold require_stopped. by aside. Qed.

Lemma delete_components_aside id_ components : outside (fun _ => True) (delete_components id_ components).
Proof.
  induction components as [|c components IH]; [by aside|]. simpl. destruct (comp_State c == "absent"); [done|].
  apply outside_bind. split_and!; [done..|]. intros [[]|err] _; [|done].
  apply outside_bind. split_and!; [done..|]. by intros [[]|err] _.
Qed.

Lemma verify_components_aside components : outside (fun _ => True) (verify_components components).
Proof.
  induction components as [|c components IH]; [by aside|]. simpl. apply outside_bind. split_and!; [done..|].
  intros [[]|err] _; [|done]. simpl. destruct (_ != _); [done|]. destruct (comp_Role c == "base"); [done|].
  apply outside_bind. split_and!; [done..|]. by intros [[]|err] _.
Qed.

Lemma inspect_components_aside components : forall r, outside (fun _ => True) (inspect_components s components r).
Proof.
  induction components as [|c components IH]; intros r; [done|]. simpl. apply outside_bind.
  destruct (rt_has_snapshot_inspect s); [split_and!; [done..|]; intros a _; apply IH|apply IH].
Qed.

Lemma restore_cleanups_aside id_ components : forall errs, outside (fun _ => True) (restore_cleanups id_ components errs).
Proof.
  induction components as [|c components IH]; intros errs; [done|]. simpl. destruct (comp_State c == "absent"); [done|].
  apply outside_bind. split_and!; [done..|]. intros [[]|err] _; [|apply IH].
  apply outside_bind. split_and!; [done..|]. intros a _. apply IH.
Qed.

Lemma capture_failed_aside result_ cause : outside (fun _ => True) (capture_failed result_ cause).
Proof. unfold capture_failed. by aside. Qed.

Lemma capture_component_aside source id_ i component result_ :
  outside (fun _ => True) (capture_component source id_ i component result_).
Proof. unfold capture_component. by aside. Qed.

Lemma capture_image_aside id_ component result_ : outside (fun _ => True) (capture_image s id_ component result_).
Proof. unfold capture_image. by aside. Qed.

Lemma capture_loop_aside source id_ components : forall i result_, outside (fun _ => True) (capture_loop s source id_ i components result_).
Proof.
  induction components as [|c components IH]; intros i result_; simpl; apply outside_bind.
  - split_and!; [done..|]. intros [[]|err] _; [done|apply capture_failed_aside].
  - apply (outside_conseq _ _ _ _ (capture_component_aside source id_ i c result_)). intros [result' [c'|err]] _; [|apply capture_failed_aside].
    apply outside_bind, (outside_conseq _ _ _ _ (capture_image_aside id_ c' _)). intros [r|err] _; [apply IH|apply capture_failed_aside].
Qed.

Lemma captureSnapshotLocked_aside source id_ : outside (fun _ => True) (captureSnapshotLocked s source id_).
Proof.
  unfold captureSnapshotLocked. apply outside_bind. split_and!; [done..|]. intros [components|err] _; [|done].
  apply outside_bind. split_and!; [done..|]. intros now _. apply outside_bind. split_and!; [done..|].
  intros [[]|err] _; [apply capture_loop_aside|done].
Qed.

(** ** Use of an Environment *)

Lemma Get_kept : wp n kept (Get n) None.
Proof. apply wp_validated. by apply wp_reading; aside. Qed.

Lemma List_environments_kept : wp n kept (List_environments s) None.
Proof. apply wp_reading. unfold List_environments. by aside. Qed.

Lemma ListManagedWorkspaces_kept : wp n kept (ListManagedWorkspaces s) None.
Proof. apply wp_reading. unfold ListManagedWorkspaces. by aside. Qed.

Lemma start_kept expected : wp n kept (start s n expected) None.
Proof.
  apply wp_validated, wp_locked_reading. apply outside_bind, (outside_conseq _ _ _ _ (checkLifecycleIdle_aside n)).
  intros [[]|err] _; [|done]. aside; try done. apply startRuntimeWithLease_aside.
Qed.

Lemma stopForWorkspace_kept work : wp n kept (stopForWorkspace s n work) None.
Proof. apply wp_validated, wp_locked_reading. by aside. Qed.


Lemma exec_kept req work : wp n kept (exec n req work) None.
Proof.
  apply wp_validated. stops. unfold maybe_locked. destruct (_ != _).
  - apply wp_locked_reading. by aside.
  - apply wp_reading. by aside.
Qed.

Lemma ExecForResource_kept instance resource req : wp n kept (ExecForResource s n instance resource req) None.
Proof.
  apply wp_validated. stops. apply wp_entry. intros x0 x Hx Hg. apply (kept_environment _ x0); [done..|].
  intros env y Hn Hy Hgy. branch E1; [by apply (kept_stop _ x0)|]. apply (kept_instance _ x0); [done..|].
  intros current z Hz Hgz. branch E2; [by apply (kept_stop _ x0)|]. apply kept_reading; [done|].
  unfold Exec, exec. change (maybe_locked ("" != "") n ?body) with body. by aside.
Qed.

Lemma ExecRunStream_kept instance request streams : wp n kept (ExecRunStream s n instance request streams) None.
Proof.
  unfold ExecRunStream. stops. apply wp_outside. destruct (ValidateProcessRequest request); [|done].
  apply wp_validated, wp_locked_reading. by aside.
Qed.

Lemma runningEnvironment_aside name : outside (fun _ => True) (runningEnvironment s name).
Proof. unfold runningEnvironment. by aside. Qed.

Lemma ExecStream_kept request streams : wp n kept (ExecStream s n request streams) None.
Proof.
  unfold ExecStream. stops. apply wp_outside. destruct (ValidateProcessRequest request); [|done].
  apply wp_validated, wp_locked_reading, outside_bind, (outside_conseq _ _ _ _ (runningEnvironment_aside n)).
  intros [env|err] _; by aside.
Qed.

Lemma ExecUser_kept request : wp n kept (ExecUser s n request) None.
Proof.
  unfold ExecUser. stops. apply wp_locked_reading, outside_bind, (outside_conseq _ _ _ _ (runningEnvironment_aside n)).
  intros [env|err] _; by aside.
Qed.

Lemma ShellStream_kept streams : wp n kept (ShellStream s n streams) None.
Proof. apply wp_validated, wp_reading. by aside. Qed.

Lemma WithClientAccess_kept expected resume authorize : wp n kept (WithClientAccess s n expected resume authorize) None.
Proof.
  apply wp_validated, wp_locked_reading. apply outside_bind, (outside_conseq _ _ _ _ (checkLifecycleIdle_aside n)).
  intros [[]|err] _; [|done]. aside; try done;
    eapply outside_conseq; [apply startRuntimeWithLease_aside| |apply startRuntimeWithLease_aside|]; intros [[]|err] _; by aside.
Qed.

(** ** Data areas and images *)

(** The lease of the Environment, with a verified identity. *)
Lemma inspectOwned_kept env x0 x :
  env_Name env = n -> same_entry x0 x ->
  run_ok (fun a y => same_entry x0 y /\ forall lease, a = inl lease -> lease_EnvironmentID lease = n /\ rt_has_verify s = true)
    (inspectOwnedEnvironmentLease s env) x.
Proof.
  intros Hn Hx. unfold inspectOwnedEnvironmentLease. set (Q := fun a y => _ /\ _).
  assert (forall err y, same_entry x0 y -> Q (inr err) y) as Hstop by by split. rewrite Hn.
  apply (kept_lease Q x0); [done..|]. intros lease y Hl Hy Hgy. branch E1; [by apply (kept_stop Q x0)|].
  branch E2; [by apply (kept_stop Q x0)|]. branch E3; [by apply (kept_stop Q x0)|].
  apply (kept_instance Q x0); [done..|]. intros instance z Hz Hgz. branch E4; [by apply (kept_stop Q x0)|].
  branch E5; [by apply (kept_stop Q x0)|]. apply negb_false_iff in E5.
  apply (kept_aside Q x0 Hstop (fun _ => True)); [done|by aside|]. intros [] w _ Hw Hgw v Hv Hgv.
  split; [by eapply same_entry_le|]. by intros lease' [= <-].
Qed.

Lemma kept_inspectOwned {R} wrap env (f : WorkspaceLease -> prog (answer R)) x0 x :
  env_Name env = n -> same_entry x0 x ->
  (forall lease y, lease_EnvironmentID lease = n -> rt_has_verify s = true -> same_entry x0 y -> slot_good y -> run_ok (kept x0) (f lease) y) ->
  run_ok (kept x0) (wrapped wrap (inspectOwnedEnvironmentLease s env) f) x.
Proof.
  intros Hn Hx Hf. apply run_ok_wrapped. eapply run_ok_conseq; [by apply inspectOwned_kept|].
  intros [lease|err] y _ Hg [Hy Hl]; [|by apply (kept_stop _ x0)]. destruct (Hl lease eq_refl). by apply Hf.
Qed.

(** A publication may start a copy of the area, the entry stays. *)
Lemma publish_kept lease area x0 x :
  lease_EnvironmentID lease = n -> same_entry x0 x -> run_ok (kept x0) (call (PublishEnvironmentGeneration lease area)) x.
Proof.
  intros Hn Hx y Hy Hg. split; [done|]. intros a z (E1 & E2 & E3) _ Hok. apply (same_entry_le x0 x y Hx) in Hy as (H1 & H2 & H3).
  split.
  - intros ref Hin. apply (shrinks_but_sub _ _ _ E3), (proj2 Hg) in Hin as (l & Hl & Hr). exists l. split; [congruence|done].
  - intros w Hw Hgw. eapply same_entry_le; [|exact Hw]. split_and!; [congruence|by transitivity y|]. by rewrite E1.
Qed.

Lemma CollectEnvironmentResource_kept key : wp n kept (CollectEnvironmentResource s n key) None.
Proof.
  apply wp_validated. stops. apply wp_entry. intros x0 x Hx Hg.
  apply (kept_aside _ x0 (fun _ _ H => H) (fun _ => True)); [done|apply checkLifecycleIdle_aside|]. intros _ y _ Hy _.
  apply (kept_environment _ x0); [done..|]. intros env z Hn Hz _. apply kept_inner_lock; [done..|]. intros w Hw _.
  apply kept_inspectOwned; [done..|]. intros lease v Hl _ Hv _.
  apply (kept_aside _ x0 (fun _ _ H => H) (fun _ => True)); [done|apply require_stopped_aside|]. intros _ u _ Hu _.
  destruct (List.find _ _); [by apply publish_kept|by apply (kept_stop _ x0)].
Qed.

Lemma EmptyEnvironmentResource_kept expected : wp n kept (EmptyEnvironmentResource s n expected) None.
Proof.
  apply wp_validated. stops. apply wp_entry. intros x0 x Hx Hg.
  apply (kept_environment _ x0); [done..|]. intros env z Hn Hz _. apply kept_inner_lock; [done..|]. intros w Hw _.
  apply kept_inspectOwned; [done..|]. intros lease v Hl _ Hv _. branch E; [by apply (kept_stop _ x0)|].
  apply kept_reading; [done|]. apply outside_bind, (outside_conseq _ _ _ _ (require_stopped_aside env)). intros [[]|err] _; by aside.
Qed.

Lemma CleanupRestoredData_kept work remove : wp n kept (CleanupRestoredData s work remove) None.
Proof. apply wp_reading. unfold CleanupRestoredData, lockWorkspace, locked. by aside. Qed.

Lemma DeleteManagedWorkspace_kept work : wp n kept (DeleteManagedWorkspace s work) None.
Proof. apply wp_reading. unfold DeleteManagedWorkspace, lockWorkspace, locked. by aside. Qed.

Lemma DeleteOwnedWorkspace_kept work : wp n kept (DeleteOwnedWorkspace s work) None.
Proof.
  apply wp_reading. unfold DeleteOwnedWorkspace, DeleteManagedWorkspace, lockWorkspace, locked. aside; try done.
  eapply outside_conseq; [apply resource_deletions_aside|]. intros [[]|err] _; by aside.
Qed.

Lemma PublishTemporaryBase_kept work base : wp n kept (PublishTemporaryBase s n work base) None.
Proof. apply wp_validated. stops. apply wp_locked_reading. unfold lockWorkspace, locked. by aside. Qed.

(** ** Snapshots *)

Lemma withSnapshotSourceMode_kept {R} allowRunning (operation_ : SnapshotSource -> prog (answer R)) :
  (forall source, outside (fun _ => True) (operation_ source)) ->
  wp n kept (withSnapshotSourceMode s n allowRunning operation_) None.
Proof.
  intros Hop. apply wp_validated. apply wp_entry. intros x0 x Hx Hg.
  apply (kept_aside _ x0 (fun _ _ H => H) (fun _ => True)); [done|apply checkLifecycleIdle_aside|]. intros _ y _ Hy _.
  apply (kept_environment _ x0); [done..|]. intros env z Hn Hz _. branch E; [by apply (kept_stop _ x0)|].
  apply kept_inner_lock; [done..|]. intros w Hw _. apply kept_inspectOwned; [done..|]. intros lease v Hl Hf Hv _. rewrite Hf.
  apply kept_reading; [done|]. aside; try done;
    (eapply outside_conseq; [apply resolve_aside|]; intros [areas|err] _; aside; done).
Qed.

Lemma InspectSnapshotSource_kept : wp n kept (InspectSnapshotSource s n) None.
Proof. by apply withSnapshotSourceMode_kept. Qed.

Lemma Commit_kept image : wp n kept (Commit s n image) None.
Proof. apply withSnapshotSourceMode_kept. intros source. by aside. Qed.

Lemma captureSnapshot_kept nonce allowRunning expected id_ : wp n kept (captureSnapshot s nonce n allowRunning expected id_) None.
Proof.
  unfold captureSnapshot, LockResourceName. stops. cbv zeta. stops. apply wp_outer_lock; [done|]. apply wp_outside.
  assert (wp n kept (withSnapshotSourceMode s n allowRunning (fun source =>
    stop_if (expected != "") && (ws_ID (env_Workspace (src_Environment source)) != expected) with Plain ErrCapabilityStale ;;
    prog_bind (captureSnapshotLocked s source (if id_ == "" then "snap-" +:+ EncodeToString nonce else id_)) (fun r => Ret (inl r)))) None) as Hw.
  { apply withSnapshotSourceMode_kept. intros source. destruct (_ && _); [done|].
    by apply outside_bind, (outside_conseq _ _ _ _ (captureSnapshotLocked_aside source _)). }
  destruct (has_checkSnapshotName s); [|done]. split_and!; [done..|]. by intros [[]|err] _.
Qed.

Lemma withSavedSnapshot_kept {R} id_ (use : Snapshot -> prog (answer R)) :
  (forall saved, outside (fun _ => True) (use saved)) -> wp n kept (withSavedSnapshot s id_ use) None.
Proof.
  intros Huse. unfold withSavedSnapshot. stops. apply wp_outside. split_and!; [done..|]. intros [observed|err] _; [|done].
  apply wp_locked_reading. unfold lockWorkspace, locked. aside; try done.
  eapply outside_conseq; [apply Huse|]. intros r _. by aside.
Qed.

Lemma DeleteSnapshot_kept id_ : wp n kept (DeleteSnapshot s id_) None.
Proof.
  unfold DeleteSnapshot. stops. apply withSavedSnapshot_kept. intros saved. aside; try done. apply delete_components_aside.
Qed.

Lemma ReadSnapshot_kept id_ consume : wp n kept (ReadSnapshot s id_ consume) None.
Proof.
  unfold ReadSnapshot. stops. apply withSavedSnapshot_kept. intros saved. destruct (_ != _); [done|].
  apply outside_bind, (outside_conseq _ _ _ _ (verify_components_aside _)). intros [[]|err] _; by aside.
Qed.

Lemma ListSnapshots_of_kept name : wp n kept (ListSnapshots_of s name) None.
Proof. apply wp_reading. unfold ListSnapshots_of. by aside. Qed.

Lemma InspectSnapshot_kept id_ : wp n kept (InspectSnapshot s id_) None.
Proof.
  apply withSavedSnapshot_kept. intros saved. apply outside_bind, (outside_conseq _ _ _ _ (inspect_components_aside _ _)).
  intros r _. by aside.
Qed.

Lemma CleanupLegacySnapshotRestore_kept id_ : wp n kept (CleanupLegacySnapshotRestore s id_) None.
Proof.
  unfold CleanupLegacySnapshotRestore. stops. apply wp_outside. split_and!; [done..|]. intros [op|err] _; [|done].
  apply wp_locked_reading. unfold lockWorkspace, locked, cleanupSnapshotRestoreLocked. aside; try done.
  eapply outside_conseq; [apply restore_cleanups_aside|]. intros errs _. by aside.
Qed.

End Frames.
