(* ===== verification/WorkspaceStore.v ===== *)
(** * The store keeps its side of the ownership protocol

    The entry of a name as the catalog file holds it, and the proof that every
    operation of the store the Workspace service calls moves the entries the way
    [WorkspaceProtocol] promises: a failed operation moves none, a successful one
    moves the entry it names by its step and leaves every other entry alone. *)

From S2P Require Import Prelude GoText Core CoreChecks CoreProofs CatalogState CatalogChecks Catalog Resources Lifecycle Snapshots Runs.
From S2P Require Import CatalogSpec AttachmentSpec Settled Transactions ResourceProofs CopyProofs LifecycleProofs ReservationProofs Store.
From S2P Require Import WorkspaceModel WorkspaceService WorkspaceProtocol.
From Stdlib Require Import Ascii String.
Open Scope string_scope.

(** ** Entries *)

Definition slot_of (d : environmentFileState) (refs : gset string) (lost : list string) (n : string) : slot :=
  mkSlot (Leases d !! n) (Environments d !! n) refs lost (idle_contract n d).

(** An attached area has an identity. *)
Lemma attached_id d n l a :
  Settled d -> Leases d !! n = Some l -> a ∈ lease_Attachments l -> ref_ID (att_Resource a) <> "".
Proof.
  intros Hd Hl Ha. pose proof (settled_commit d Hd) as (_ & Hv & _)%validateCommit_ok.
  apply envres_areas in Hv as (held & Hh & _). destruct (Hh n l Hl) as [Hat _]. destruct Hat as (_ & Hat & _).
  { left. intros E. rewrite E in Ha. by apply not_elem_of_nil in Ha. }
  apply ValidEnvironmentAttachments_spec in Hat as (_ & Hok & _). rewrite Forall_forall in Hok.
  destruct (Hok a Ha) as (_ & Href & _). by apply valid_ref_nonempty, valid_env_ref.
Qed.

(** A copy of an attached area is the publication of a running Environment. *)
Lemma area_copy d n l a id_ r :
  Settled d -> Leases d !! n = Some l -> a ∈ lease_Attachments l ->
  PersistentResources d !! id_ = Some r -> ref_ID (res_CopySource r) = ref_ID (att_Resource a) ->
  lease_State l = WorkspaceLeaseActive /\ res_State r <> "planned".
Proof.
  intros Hd Hl Ha Hr He. pose proof (attached_id d n l a Hd Hl Ha) as Hne.
  assert (res_CopySource r <> zeroRef) as Hz by (intros E; rewrite E in He; by apply Hne).
  destruct (settled_resources d Hd) as [Hres _]. destruct (Hres id_ r Hr) as (_ & _ & _ & _ & Hc).
  destruct (Hc Hz) as (source & Hs & (_ & _ & Href & _) & Hf).
  assert (environmentGenerationCopy d source r l = true) as Hg.
  { apply (Hf n l Hl). unfold leaseHasResource. apply orb_true_iff. right. apply existsb_exists. exists a.
    split; [by apply list_elem_of_In|]. apply bool_decide_eq_true. rewrite <- He, <- Href. done. }
  split; [by apply generation_copy_lease in Hg as [? _]|]. unfold environmentGenerationCopy in Hg.
  destruct (_ || negb (MatchesEnvironment _ _)); [done|]. destruct (_ || (res_Kind r != res_Kind source)) eqn:E; [done|].
  intros Ep. rewrite Ep in E. bool_hyps. done.
Qed.

Lemma inactive_idle d n l :
  Settled d -> Leases d !! n = Some l -> lease_State l <> WorkspaceLeaseActive -> lease_idle d l.
Proof.
  intros Hd Hl Hst a Ha. unfold persistentCopyReserved. apply map_any_false. intros id_ r Hr. apply bool_decide_eq_false.
  intros E. by destruct (area_copy d n l a id_ r Hd Hl Ha Hr E).
Qed.

Lemma slot_of_ok d refs lost n : Settled d -> slot_ok n (slot_of d refs lost n).
Proof.
  intros Hd. split; simpl.
  - intros l Hl. by apply (settled_leases d Hd) in Hl as [? _].
  - intros e He. apply (settled_envs d Hd) in He as (Hn & l & Hl & Hm). split; [done|]. 
    apply matches_fields in Hm as (_ & _ & _ & _ & _ & H1 & H2 & _). exists l. simpl in H1, H2. split_and!; [done|done|congruence].
  - intros l Hl Hst l' Hl'. simplify_eq. by eapply inactive_idle.
  - intros Hl l' Hl'. congruence.
Qed.

(** The store leaves the runtimes alone. *)
Lemma shrinks_natives x y : sl_refs y = sl_refs x -> sl_lost y = sl_lost x -> shrinks x y.
Proof. intros E F. exists []. rewrite E, F, app_nil_r. split_and!; [done..|set_solver]. Qed.

Lemma with_entry_of d d' refs lost n l e :
  Leases d' !! n = l -> Environments d' !! n = e -> with_entry (slot_of d refs lost n) (slot_of d' refs lost n) l e.
Proof. intros. split_and!; [done..|by apply shrinks_natives]. Qed.

(** An entry whose lease and areas are left alone. *)
Lemma slot_of_same d d' refs lost n :
  Leases d' !! n = Leases d !! n -> Environments d' !! n = Environments d !! n ->
  (idle_contract n d -> idle_contract n d') -> slot_le (slot_of d refs lost n) (slot_of d' refs lost n).
Proof. intros. split_and!; [done..|by apply shrinks_natives|done]. Qed.

Lemma idle_same d d' n :
  Leases d' !! n = Leases d !! n -> PersistentResources d' = PersistentResources d -> idle_contract n d -> idle_contract n d'.
Proof. intros Hl Hp Hi l. rewrite Hl. intros H a Ha. specialize (Hi l H a Ha). unfold persistentCopyReserved in *. by rewrite Hp. Qed.

(** New planned records start no copy of an area in use. *)
Lemma idle_planned d d' n :
  Settled d' -> Leases d' !! n = Leases d !! n ->
  (forall id_ r, PersistentResources d' !! id_ = Some r -> PersistentResources d !! id_ = Some r \/ res_State r = "planned") ->
  idle_contract n d -> idle_contract n d'.
Proof.
  intros Hd Hl Hnew Hi l Hl' a Ha. unfold persistentCopyReserved. apply map_any_false. intros id_ r Hr. apply bool_decide_eq_false.
  intros E. destruct (Hnew id_ r Hr) as [Hold|Hp].
  - rewrite Hl in Hl'. specialize (Hi l Hl' a Ha). unfold persistentCopyReserved in Hi. rewrite map_any_false in Hi.
    specialize (Hi id_ r Hold). by apply bool_decide_eq_false in Hi.
  - by destruct (area_copy d' n l a id_ r Hd Hl' Ha Hr E).
Qed.

(** ** Operations *)

(** What an operation does to the catalog when it succeeds; when it fails it
    does nothing. *)
Definition Moves {A} (P : environmentFileState -> A -> environmentFileState -> Prop) (op : operation A) : Prop :=
  forall flt k k' r, settled_disk k -> op flt k = (k', r) ->
    match r with Ok a => P (catalog_of k) a (catalog_of k') | Err _ => catalog_of k' = catalog_of k end.

(** The same of a closure, whose state is dropped unless it is dirty. *)
Definition moves {A} (P : environmentFileState -> A -> environmentFileState -> Prop) (fn : change A) : Prop :=
  forall d d' b a, Settled d -> fn d = Ok (d', b, a) -> Version d' = Version d /\ P d a (if b then d' else d).

Section Moves.
Context {A : Type} (P : environmentFileState -> A -> environmentFileState -> Prop).

Lemma transacted_moves (fn : change A) flt k k' r :
  moves P fn -> settled_disk k -> transacted fn flt k k' r ->
  match r with Ok a => P (catalog_of k) a (catalog_of k') | Err _ => catalog_of k' = catalog_of k end.
Proof.
  intros Hfn Hk [[(Hc & _) Hok]|(d & d' & a & Hr & Hf & _ & -> & ->)].
  - assert (catalog_of k' = catalog_of k) as Hsame by (unfold catalog_of; by rewrite Hc). destruct r as [a|e]; [|done].
    destruct (Hok a eq_refl) as (d & Hr & d' & Hf). rewrite settled_disk_read in Hr by done. injection Hr as <-.
    rewrite Hsame. by apply (Hfn _ d' false a); [apply settled_disk_catalog|].
  - rewrite settled_disk_read in Hr by done. injection Hr as <-.
    destruct (Hfn _ d' true a (settled_disk_catalog k Hk) Hf) as [HV HP]. unfold written. simpl.
    rewrite with_Version_same; [done|]. rewrite HV. by apply settled_disk_catalog.
Qed.

Lemma Moves_locked (fn : change A) : moves P fn -> Moves P (lockedTransaction fn).
Proof. intros H flt k k' r Hk Hf. eapply transacted_moves; [done..|]. by eapply lockedTransaction_cases. Qed.

Lemma Moves_catalog (fn : change A) : moves P fn -> Moves P (catalogTransaction fn).
Proof. intros H flt k k' r Hk Hf. eapply transacted_moves; [done..|]. by eapply catalogTransaction_cases. Qed.

Lemma Moves_guard (b : bool) e (op : operation A) : (b = false -> Moves P op) -> Moves P (if b then refuse e else op).
Proof. destruct b; [intros _ flt k k' r Hk [= <- <-]; done|auto]. Qed.

Lemma Moves_checked (c : result unit) (op : operation A) :
  (c = Ok tt -> Moves P op) -> Moves P (match c with Ok _ => op | Err e => refuse e end).
Proof. destruct c as [[]|]; [auto|intros _ flt k k' r Hk [= <- <-]; done]. Qed.

End Moves.

Lemma Moves_forget {A} P (op : operation A) : Moves (fun d _ d' => P d d') op -> Moves (fun d _ d' => P d d') (forget op).
Proof. intros H flt k k' r Hk [= <- <-]. destruct (op flt k) as [k1 r1] eqn:E. specialize (H flt k k1 r1 Hk E). by destruct r1. Qed.

(** Entries of other names are left alone, and no copy of an area starts. *)
Definition others_kept (n : string) (d d' : environmentFileState) : Prop :=
  (forall m, m <> n -> Leases d' !! m = Leases d !! m /\ Environments d' !! m = Environments d !! m) /\
  (forall id_ r, PersistentResources d' !! id_ = Some r -> PersistentResources d !! id_ = Some r \/ res_State r = "planned").

(** Nothing that belongs to an entry changes. *)
Definition entries_same (d d' : environmentFileState) : Prop :=
  Leases d' = Leases d /\ Environments d' = Environments d /\ PersistentResources d' = PersistentResources d.

Lemma entries_same_kept n d d' : entries_same d d' -> others_kept n d d' /\ forall refs lost, slot_le (slot_of d refs lost n) (slot_of d' refs lost n).
Proof.
  intros (H1 & H2 & H3). split; [split; [intros; by rewrite H1, H2|intros id_ r; rewrite H3; by left]|].
  intros refs lost. apply slot_of_same; [by rewrite H1|by rewrite H2|]. apply idle_same; [by rewrite H1|done].
Qed.

Lemma others_kept_refl n d : others_kept n d d.
Proof. split; [done|by left]. Qed.
#[export] Hint Resolve others_kept_refl : catalog.

(** ** Plain operations *)

Lemma mutateSnapshot_same id_ fn : Moves (fun d _ d' => entries_same d d') (mutateSnapshot id_ fn).
Proof.
  apply Moves_catalog. intros d d' b a _ Hf. unfold mutateSnapshot_change in Hf.
  destruct (Snapshots d !! id_) as [v|]; [|done]. apply bind_ok in Hf as (v' & _ & Hf). apply bind_unit_ok in Hf as [_ [= <- <- <-]].
  done.
Qed.

Lemma mutateRestore_same id_ fn : Moves (fun d _ d' => entries_same d d') (mutateRestore id_ fn).
Proof.
  apply Moves_catalog. intros d d' b a _ Hf. unfold mutateRestore_change in Hf.
  destruct (Restores d !! id_) as [v|]; [|done]. apply bind_ok in Hf as (v' & _ & Hf). apply bind_unit_ok in Hf as [_ [= <- <- <-]].
  done.
Qed.

Lemma plain_same op : plain_op op = true -> Moves (fun d _ d' => entries_same d d') (run op).
Proof.
  destruct op; try done; intros _; apply Moves_forget;
    first [apply mutateSnapshot_same | apply mutateRestore_same | idtac].
  - do 2 (apply Moves_guard; intros _). apply Moves_catalog. intros d d' b a _ Hf. unfold BeginSnapshot_change in Hf.
    apply reject_ok in Hf as [_ Hf]. destruct (Environments d !! _); [|done]. rewrite !reject_ok in Hf.
    by destruct Hf as (_ & _ & _ & _ & [= <- <- <-]).
  - apply Moves_catalog. intros d d' b a _ Hf. unfold BeginSnapshotDelete_change in Hf. rewrite !reject_ok in Hf.
    destruct Hf as (_ & _ & _ & _ & Hf). destruct (Snapshots d !! id); [|done]. by injection Hf as <- <- <-.
  - apply Moves_catalog. intros d d' b a _ Hf. unfold FinalizeSnapshotDelete_change in Hf. destruct (Snapshots d !! id); [|done].
    rewrite !reject_ok in Hf. by destruct Hf as (_ & _ & [= <- <- <-]).
  - apply Moves_catalog. intros d d' b a _ Hf. unfold FinalizeRestoreCleanup_change in Hf. destruct (Restores d !! id); [|done].
    rewrite !reject_ok in Hf. by destruct Hf as (_ & _ & [= <- <- <-]).
  - apply Moves_catalog. intros d d' b a _ Hf. unfold FinalizeOwnedWorkspaceCleanup_change in Hf.
    destruct (OwnedWorkspaceCleanup d !! name); [|by injection Hf as <- <- <-].
    rewrite reject_ok in Hf. by destruct Hf as (_ & [= <- <- <-]).
Qed.

(** ** Transitions of an entry *)

Definition transition (n : string) (op : store_op) (d d' : environmentFileState) : Prop :=
  others_kept n d d' /\ forall refs lost, op_step op (slot_of d refs lost n) (slot_of d' refs lost n).

Lemma others_kept_put n d lease :
  lease_EnvironmentID lease = n -> others_kept n d (put_lease lease d).
Proof. intros <-. split; [intros m Hm; simpl; by rewrite lookup_insert_ne|by left]. Qed.

Lemma reserve_plans_planned lease pairs : forall d d',
  range_loop (reserve_plan lease) pairs d = Ok d' ->
  Version d' = Version d /\ Leases d' = Leases d /\ Environments d' = Environments d /\
  forall id_ r, PersistentResources d' !! id_ = Some r -> PersistentResources d !! id_ = Some r \/ res_State r = "planned".
Proof.
  induction pairs as [|p pairs IH]; intros d d' Hf; simpl in Hf; [injection Hf as <-; split_and!; auto|].
  destruct (reserve_plan lease p d) as [d1|] eqn:Hp; [|done]. destruct (IH d1 d' Hf) as (E1 & E2 & E3 & E4).
  assert (d1 = put_resource (plan_Resource p.1) d /\ res_State (plan_Resource p.1) = "planned") as [-> Hst].
  { unfold reserve_plan in Hp. apply reject_ok in Hp as [Hg Hp]. apply bind_unit_ok in Hp as [_ Hp]. rewrite !reject_ok in Hp.
    destruct Hp as (_ & _ & _ & Hp). bool_hyps. split; [|done]. destruct (_ != _); [|by injection Hp as <-].
    destruct (PersistentResources d !! _) as [source|]; [|done]. apply reject_ok in Hp as [_ Hp].
    by apply reserve_copy_spec in Hp as [-> _]. }
  split_and!; [done..|]. intros id_ r Hr. destruct (E4 id_ r Hr) as [Hr1|]; [|by right]. simpl in Hr1.
  destruct (decide (id_ = res_ID (plan_Resource p.1))) as [->|Hne].
  - rewrite lookup_insert_eq in Hr1. injection Hr1 as <-. by right.
  - rewrite lookup_insert_ne in Hr1 by done. by left.
Qed.

Lemma beginEnvironmentCreate_transition op lease saved plans :
  (forall x y, op_step op x y = op_step (OpBeginEnvironmentCreate lease) x y) ->
  Moves (fun d _ d' => transition (lease_EnvironmentID lease) op d d') (beginEnvironmentCreate lease saved plans).
Proof.
  intros Hop. apply Moves_checked. intros Hv. apply Moves_locked. intros d d' b a _ Hf.
  assert (b = true) as -> by (unfold beginEnvironmentCreate_change in Hf; repeat first [apply bind_unit_ok in Hf as [_ Hf] |
    apply reject_ok in Hf as [_ Hf]]; by apply bind_ok in Hf as (? & _ & [= _ <- _])).
  apply begin_create_free in Hf as ((_ & He & Hl & _) & d1 & Hd1 & ->). unfold reserveEnvironmentResources in Hd1.
  apply reject_ok in Hd1 as [_ Hd1]. apply reserve_plans_planned in Hd1 as (E1 & E2 & E3 & E4). split; [done|]. split.
  - split; [|done]. intros m Hm. simpl. by rewrite lookup_insert_ne, E2, E3.
  - intros refs lost. rewrite Hop. simpl. split_and!; [done|done| |apply with_entry_of; simpl].
    + unfold validateEnvironmentCreateReservation in Hv. apply reject_ok in Hv as [Hv _]. by bool_hyps.
    + apply lookup_insert_eq.
    + by rewrite E3.
Qed.

Lemma same_reservation_absent l l' :
  validateSameLeaseReservation l l' = Ok tt -> lease_RuntimeAbsent l' = lease_RuntimeAbsent l.
Proof. by intros (_ & _ & _ & ?)%same_reservation. Qed.

Lemma RecordEnvironmentRuntime_transition lease :
  Moves (fun d _ d' => transition (lease_EnvironmentID lease) (OpRecordEnvironmentRuntime lease) d d') (RecordEnvironmentRuntime lease).
Proof.
  apply Moves_checked. intros _. apply Moves_locked. intros d d' b a _ Hf. unfold RecordEnvironmentRuntime_change in Hf.
  apply reject_ok in Hf as [He Hf]. destruct (Leases d !! lease_EnvironmentID lease) as [old|] eqn:Hl; [|done].
  apply bind_unit_ok in Hf as [Hs Hf]. apply reject_ok in Hf as [Hr [= <- <- <-]]. split; [done|].
  split; [by apply others_kept_put|]. intros refs lost. simpl. exists old. bool_hyps. split_and!; [done|done|by apply same_reservation_absent| |].
  - rewrite imp_guard, negb_true_iff, bool_decide_eq_false, negb_false_iff, bool_decide_eq_true in Hr.
    destruct (decide (lease_RuntimeRef old = "")); auto.
  - apply with_entry_of; simpl; [apply lookup_insert_eq|done].
Qed.

Lemma CommitEnvironmentCreate_transition environment lease :
  Moves (fun d _ d' => transition (env_Name environment) (OpCommitEnvironmentCreate environment lease) d d')
    (CommitEnvironmentCreate environment lease).
Proof.
  apply Moves_checked. intros Hc. apply Moves_locked. intros d d' b a _ Hf. unfold CommitEnvironmentCreate_change in Hf.
  unfold validateEnvironmentCreateCommit in Hc. rewrite !reject_ok in Hc. destruct Hc as (_ & _ & _ & Hm & _).
  apply negb_false_iff in Hm. assert (MatchesEnvironment (publishedLease lease) environment = true) as Hpub by done.
  apply matches_fields in Hm as (_ & _ & _ & _ & _ & _ & Href & _).
  destruct (Environments d !! env_Name environment) as [e|] eqn:He.
  - destruct (Leases d !! env_Name environment) as [l|] eqn:Hl; [|done]. destruct (_ && _) eqn:E; [|done]. injection Hf as <- <- <-.
    unfold Environment_Equal, Lease_Equal in E. bool_hyps. subst. split; [done|]. split; [auto with catalog|].
    intros refs lost. simpl. exists (publishedLease lease). split_and!; [done..|by apply with_entry_of].
  - destruct (Leases d !! env_Name environment) as [old|] eqn:Hl; [|done]. apply bind_unit_ok in Hf as [_ Hf].
    rewrite !reject_ok in Hf. destruct Hf as (_ & Hr & Hf). apply bind_unit_ok in Hf as [_ [= <- <- <-]]. bool_hyps. split; [done|].
    split; [split; [intros m Hmn; simpl; by rewrite !lookup_insert_ne|by left]|].
    intros refs lost. simpl. exists old. split_and!; [done..|]. apply with_entry_of; simpl; apply lookup_insert_eq.
Qed.

Lemma MarkEnvironmentRecoveryRequired_transition lease :
  Moves (fun d _ d' => transition (lease_EnvironmentID lease) (OpMarkEnvironmentRecoveryRequired lease) d d')
    (MarkEnvironmentRecoveryRequired lease).
Proof.
  apply Moves_guard. intros Harg. bool_hyps. apply Moves_locked. intros d d' b a _ Hf. unfold MarkEnvironmentRecoveryRequired_change in Hf.
  set (n := lease_EnvironmentID lease) in *. destruct (Leases d !! n) as [old|] eqn:Hl; [|done].
  apply bind_unit_ok in Hf as [Hs Hf]. apply reject_ok in Hf as [Hr [= <- <- <-]]. apply same_reservation_absent in Hs.
  set (l' := if _ && _ then _ else lease) in *.
  assert (lease_EnvironmentID l' = n /\ lease_State l' = WorkspaceLeaseCleanupRequired /\ lease_RuntimeAbsent l' = lease_RuntimeAbsent old /\
    lease_RuntimeRef l' = (if lease_RuntimeRef old == "" then lease_RuntimeRef lease else lease_RuntimeRef old)) as (L1 & L2 & L3 & L4).
  { unfold l' in *. clear l'. repeat case_bool_decide; simpl in *; naive_solver. }
  split; [done|]. split; [by apply others_kept_put|]. intros refs lost. simpl. exists old, l'. split_and!; [done..|].
  apply with_entry_of; simpl; [rewrite L1; apply lookup_insert_eq|done].
Qed.

Lemma FinalizeEnvironmentDelete_transition n :
  Moves (fun d _ d' => transition n (OpFinalizeEnvironmentDelete n) d d') (FinalizeEnvironmentDelete n).
Proof.
  apply Moves_guard. intros _. apply Moves_locked. intros d d' b a _ Hf. unfold FinalizeEnvironmentDelete_change in Hf.
  apply reject_ok in Hf as [_ Hf]. destruct (_ && _) eqn:E.
  { injection Hf as <- <- <-. bool_hyps. split; [done|]. split; [auto with catalog|]. intros refs lost. by apply with_entry_of. }
  apply bind_unit_ok in Hf as [_ Hf].
  assert (b = true /\ Version d' = Version d /\ PersistentResources d' = PersistentResources d /\
          Leases d' = delete n (Leases d) /\ Environments d' = delete n (Environments d)) as (-> & HV & HP & HL & HE).
  { injection Hf as <- <- _. destruct (LastOpened d == n); cbn;
      (destruct (Environments d !! n) as [e|]; [destruct (env_OwnedWorkspace e)|]); done. }
  split; [done|]. split.
  - split; [|intros id_ r; rewrite HP; by left]. intros m Hm. by rewrite HL, HE, !lookup_delete_ne.
  - intros refs lost. apply with_entry_of; [by rewrite HL, lookup_delete_eq|by rewrite HE, lookup_delete_eq].
Qed.

Lemma run_transition n op x : op_permitted n op x -> Moves (fun d _ d' => transition n op d d') (run op).
Proof.
  assert (plain_op op = true -> Moves (fun d _ d' => transition n op d d') (run op)) as Hplain.
  { intros Hp flt k k' r Hk Hr. specialize (plain_same op Hp flt k k' r Hk Hr). destruct r; [|done]. intros Hs.
    destruct (entries_same_kept n _ _ Hs) as [Ho Hle]. split; [done|]. intros refs lost. specialize (Hle refs lost). by destruct op. }
  destruct op; simpl; try exact Hplain.
  - intros [<- _]. apply Moves_forget. apply Moves_guard. intros _. by apply beginEnvironmentCreate_transition.
  - intros [<- _]. apply Moves_forget. apply Moves_guard. intros _. by apply beginEnvironmentCreate_transition.
  - intros [<- _]. apply Moves_forget. apply Moves_guard. intros _. by apply beginEnvironmentCreate_transition.
  - intros [<- _]. apply Moves_forget. do 2 (apply Moves_guard; intros _). by apply beginEnvironmentCreate_transition.
  - intros <-. apply Moves_forget, RecordEnvironmentRuntime_transition.
  - intros [<- _]. apply Moves_forget, CommitEnvironmentCreate_transition.
  - intros [<- _]. apply Moves_forget, MarkEnvironmentRecoveryRequired_transition.
  - intros ->. apply Moves_forget, FinalizeEnvironmentDelete_transition.
Qed.

(** What the service may ask for, its callers may promise. *)
Lemma permitted_contract n op refs lost d : op_permitted n op (slot_of d refs lost n) -> caller_contract op d.
Proof. destruct op; simpl; try done; [by intros [_ ?]..|]. by intros [-> ?]. Qed.

(** ** The store as a collaborator *)

(** The error value of a failed operation: the error or a wrapped one.  A store
    whose directory is not taken away under it reports no file as missing. *)
Definition answers {A} (a : answer A) (r : result A) : Prop :=
  match a, r with
  | inl v, Ok v' => v = v'
  | inr err, Err e => (err = Plain e \/ err = Wrapped (Plain e)) /\ e <> ErrNotExist
  | _, _ => False
  end.

(** Every entry after a call made for [n]. *)
Definition keeps_others (n : string) (d d' : environmentFileState) : Prop :=
  forall m refs lost, m <> n -> slot_le (slot_of d refs lost m) (slot_of d' refs lost m).

Lemma others_kept_slots n d d' : Settled d' -> others_kept n d d' -> keeps_others n d d'.
Proof.
  intros Hd [H1 H2] m refs lost Hm. destruct (H1 m Hm). apply slot_of_same; [done..|]. by apply idle_planned.
Qed.

Lemma store_mutates n c op refs lost flt k k' r a :
  settled_disk k -> op_permitted n op (slot_of (catalog_of k) refs lost n) -> run op flt k = (k', r) -> answers a r ->
  settled_disk k' /\ keeps_others n (catalog_of k) (catalog_of k') /\
  slot_step n (Mutate c op) a (slot_of (catalog_of k) refs lost n) (slot_of (catalog_of k') refs lost n).
Proof.
  intros Hk Hp Hr Ha. destruct (run_keeps op flt k k' r Hk (permitted_contract _ _ _ _ _ Hp) Hr) as [Hk' _].
  split; [done|]. pose proof (run_transition n op _ Hp flt k k' r Hk Hr) as Ht.
  destruct a as [[]|err], r as [[]|e]; simpl in Ha; try done.
  - destruct Ht as [Ho Hs]. split; [|apply Hs]. apply others_kept_slots; [by apply settled_disk_catalog|done].
  - simpl. rewrite Ht. split; [|done]. by intros m refs1 lost1 _.
Qed.

Lemma PrepareEnvironmentResourceDeletion_transition expected :
  Moves (fun d absent d' => others_kept (lease_EnvironmentID expected) d d' /\
    Leases d !! lease_EnvironmentID expected = Some expected /\ Leases d' !! lease_EnvironmentID expected = Some absent /\
    Environments d' = Environments d /\ lease_RuntimeAbsent absent = true /\ lease_RuntimeRef absent = lease_RuntimeRef expected)
    (PrepareEnvironmentResourceDeletion expected).
Proof.
  apply Moves_guard. intros _. apply Moves_catalog. intros d d' b a Hd Hf. unfold PrepareEnvironmentResourceDeletion_change in Hf.
  destruct (Leases d !! lease_EnvironmentID expected) as [l|] eqn:Hl; [|done]. rewrite !reject_ok in Hf. destruct Hf as (He & _ & Hf).
  unfold Lease_Equal in He. bool_hyps. subst l. destruct (lease_RuntimeAbsent expected) eqn:Hab; injection Hf as <- <- <-; (split; [done|]).
  - split_and!; try done. auto with catalog.
  - split_and!; try done; [|simpl; apply lookup_insert_eq]. split; [intros m Hm; simpl; by rewrite lookup_insert_ne|by left].
Qed.

Lemma store_prepares n c lease refs lost flt k k' r a :
  settled_disk k -> lease_EnvironmentID lease = n -> PrepareEnvironmentResourceDeletion lease flt k = (k', r) -> answers a r ->
  settled_disk k' /\ keeps_others n (catalog_of k) (catalog_of k') /\
  slot_step n (Prepare c lease) a (slot_of (catalog_of k) refs lost n) (slot_of (catalog_of k') refs lost n).
Proof.
  intros Hk <- Hr Ha. destruct (PrepareEnvironmentResourceDeletion_keeps lease flt k k' r Hk I Hr) as [Hk' _].
  split; [done|]. pose proof (PrepareEnvironmentResourceDeletion_transition lease flt k k' r Hk Hr) as Ht.
  destruct a as [absent|err], r as [absent'|e]; simpl in Ha; try done.
  - subst absent'. destruct Ht as (Ho & H1 & H2 & H3 & H4 & H5). split; [apply others_kept_slots; [by apply settled_disk_catalog|done]|].
    simpl. split_and!; [done..|]. apply with_entry_of; [done|by rewrite H3].
  - simpl. rewrite Ht. split; [|done]. by intros m refs1 lost1 _.
Qed.

(** ** Reads *)

Definition store_read (q : query) : operation (query_value q) :=
  match q with
  | QEnvironment name => GetEnvironment name
  | QLease name => GetWorkspaceLease name
  | QResource id_ => GetPersistentResource id_
  | QSnapshot id_ => GetSnapshot id_
  | QRestore id_ => GetSnapshotRestore id_
  | QLeases => ListWorkspaceLeases
  | QEnvironments => ListEnvironments
  | QSnapshots => ListSnapshots
  | QResources => ListPersistentResources
  | QOwnedCleanup name => OwnedWorkspaceCleanup_op name
  | QResourcesIdle name => CheckEnvironmentResourcesIdle name
  | QSnapshotIdle name => CheckSnapshotIdle name
  end.

(** A closure that is never dirty; [S] says what it returns. *)
Definition reading {A} (S : environmentFileState -> result A -> Prop) (op : operation A) : Prop :=
  forall flt k k' r, settled_disk k -> op flt k = (k', r) -> k' = k /\ (S (catalog_of k) r \/ r = Err ErrIO \/ r = Err ErrContext).

Lemma reading_locked {A} (S : environmentFileState -> result A -> Prop) (fn : change A) :
  (forall d, match fn d with Ok (_, b, a) => b = false /\ S d (Ok a) | Err e => S d (Err e) end) -> reading S (lockedTransaction fn).
Proof.
  intros Hfn flt k k' r Hk. unfold lockedTransaction. destruct (lock_fails flt); [intros [= <- <-]; auto|].
  rewrite settled_disk_read by done. specialize (Hfn (catalog_of k)). destruct (fn (catalog_of k)) as [[[d' b] a]|e].
  - destruct Hfn as [-> HS]. intros [= <- <-]. auto.
  - intros [= <- <-]. auto.
Qed.

Lemma reading_catalog {A} (S : environmentFileState -> result A -> Prop) (fn : change A) :
  (forall d, match fn d with Ok (_, b, a) => b = false /\ S d (Ok a) | Err e => S d (Err e) end) -> reading S (catalogTransaction fn).
Proof.
  intros Hfn flt k k' r Hk. unfold catalogTransaction. destruct (ctx_before flt); [intros [= <- <-]; auto|].
  destruct (lock_fails flt); [intros [= <- <-]; auto|].
  rewrite settled_disk_read by done. specialize (Hfn (catalog_of k)). destruct (fn (catalog_of k)) as [[[d' b] a]|e].
  - destruct Hfn as [-> HS]. intros [= <- <-]. auto.
  - intros [= <- <-]. auto.
Qed.

(** What the reads of an entry tell. *)
Definition read_of (q : query) (d : environmentFileState) : result (query_value q) -> Prop :=
  match q as q' return result (query_value q') -> Prop with
  | QEnvironment name => fun r => match Environments d !! name with Some e => r = Ok e | None => r = Err ErrNotFound end
  | QLease name => fun r => match Leases d !! name with Some l => r = Ok l | None => r = Err ErrNotFound end
  | QResourcesIdle name => fun r => r = Ok tt -> environmentResourcesBusy d name = false
  | _ => fun _ => True
  end.

Lemma ask_reads q : reading (fun d r => read_of q d r) (store_read q).
Proof.
  destruct q; simpl; first [apply reading_locked | apply reading_catalog | idtac].
  - intros d. by destruct (Environments d !! name).
  - intros d. by destruct (Leases d !! name).
  - intros flt k k' r Hk. unfold GetPersistentResource.
    destruct (ListPersistentResources flt k) as [k1 [l|e]] eqn:E;
      (assert (reading (fun _ _ => True) ListPersistentResources) as Hl by by apply reading_locked);
      destruct (Hl _ _ _ _ Hk E) as [-> _]; intros [= <- <-]; auto.
  - intros d. by destruct (Snapshots d !! id).
  - intros d. by destruct (Restores d !! id).
  - done.
  - done.
  - done.
  - done.
  - intros d. by destruct (OwnedWorkspaceCleanup d !! name).
  - intros d. by destruct (environmentResourcesBusy d name).
  - intros d. by destruct (snapshotBusy d name).
Qed.

Lemma store_answers n c q refs lost flt k k' r a :
  settled_disk k -> store_read q flt k = (k', r) -> answers a r ->
  k' = k /\ slot_step n (Ask c q) a (slot_of (catalog_of k) refs lost n) (slot_of (catalog_of k) refs lost n).
Proof.
  intros Hk Hr Ha. destruct (ask_reads q flt k k' r Hk Hr) as [-> HS]. split; [done|]. split; [done|].
  assert (forall err, isNotFound err = true -> a = inr err -> r = Err ErrNotFound) as Hnf.
  { intros err Hn ->. destruct r as [|e]; simpl in Ha; [done|]. destruct Ha as [[-> | ->] Hne]; unfold isNotFound in Hn; simpl in Hn;
      rewrite ?orb_true_iff, ?orb_false_r, ?bool_decide_eq_true in Hn; naive_solver. }
  destruct q; simpl; try done; intros ->; destruct a as [v|err]; try done.
  - destruct r as [v'|]; [|done]. simpl in Ha. subst v'. simpl in HS.
    destruct HS as [HS|[HS|HS]]; [|done..]. destruct (Environments (catalog_of k) !! n); by simplify_eq.
  - intros Hn. rewrite (Hnf err Hn eq_refl) in HS. simpl in HS.
    destruct HS as [HS|[HS|HS]]; [|done..]. by destruct (Environments (catalog_of k) !! n).
  - destruct r as [v'|]; [|done]. simpl in Ha. subst v'. simpl in HS.
    destruct HS as [HS|[HS|HS]]; [|done..]. destruct (Leases (catalog_of k) !! n); by simplify_eq.
  - intros Hn. rewrite (Hnf err Hn eq_refl) in HS. simpl in HS.
    destruct HS as [HS|[HS|HS]]; [|done..]. by destruct (Leases (catalog_of k) !! n).
  - destruct r as [[]|]; [|done]. simpl in HS. destruct HS as [HS|[HS|HS]]; [|done..]. intros l Hl. by apply (busy_idle _ n), HS.
Qed.

(** ** Durable identity *)

(** The identity of the lease is returned; a lease without one gets a new one. *)
Definition identity_moves (name : string) (d d' : environmentFileState) (id_ : string) : Prop :=
  exists l, Leases d !! name = Some l /\
    ((d' = d /\ lease_InstanceID l = id_) \/
     (lease_InstanceID l = "" /\ d' = with_Leases (<[name := lease_with_InstanceID id_ l]> (Leases d)) d)).

Lemma EnvironmentInstance_transition expected nonce flt k k' r :
  List.length nonce = 16%nat -> settled_disk k -> EnvironmentInstance expected nonce flt k = (k', r) ->
  match r with
  | Ok id_ => identity_moves (env_Name expected) (catalog_of k) (catalog_of k') id_
  | Err _ => catalog_of k' = catalog_of k
  end.
Proof.
  intros Hn Hk Hf. unfold EnvironmentInstance in Hf.
  destruct (lock_fails flt); [by injection Hf as <- <-|].
  destruct (committed k) as [| | |data] eqn:Hc; try (by injection Hf as <- <-).
  destruct (negb _); [by injection Hf as <- <-|].
  match type of Hf with match ?m with _ => _ end = _ => destruct m as [lease|e] eqn:Hm end; [|by injection Hf as <- <-].
  do 3 (apply bind_unit_ok in Hm as [_ Hm]).
  destruct (Environments data !! env_Name expected) as [current|] eqn:He; [|done]. apply reject_ok in Hm as [_ Hm].
  destruct (Leases data !! env_Name expected) as [l|] eqn:Hl; [|done]. apply reject_ok in Hm as [Hg Hm].
  apply bind_unit_ok in Hm as [_ [= <-]]. clear Hg.
  assert (catalog_of k = data) as Hcat by (unfold catalog_of; by rewrite Hc). pose proof (settled_disk_catalog k Hk) as Hd.
  case_bool_decide as Hi; [|destruct (negb _); injection Hf as <- <-; [done|exists l; rewrite Hcat; auto]].
  destruct (ctx_before flt); [by injection Hf as <- <-|].
  destruct (writeEnvironments _ _ k) as [k1 r1] eqn:Hw. simpl in Hf. rewrite (new_instance_valid _ Hn) in Hf.
  apply writeEnvironments_cases in Hw as [((Hsf & _) & e & ->)|(Hv & -> & ->)]; injection Hf as <- <-;
    [unfold catalog_of; by rewrite Hsf|].
  exists l. rewrite Hcat in *. split; [done|]. right. split; [done|].
  change (catalog_of (written ?d' k ?f)) with (with_Version environmentStateVersion d').
  rewrite with_Version_same; [done|]. apply Hd.
Qed.

Lemma store_identifies n environment nonce refs lost flt k k' r a :
  List.length nonce = 16%nat -> settled_disk k -> env_Name environment = n ->
  EnvironmentInstance environment nonce flt k = (k', r) -> answers a r ->
  settled_disk k' /\ keeps_others n (catalog_of k) (catalog_of k') /\
  slot_step n (InstanceOf environment) a (slot_of (catalog_of k) refs lost n) (slot_of (catalog_of k') refs lost n).
Proof.
  intros Hlen Hk <- Hr Ha. destruct (EnvironmentInstance_keeps environment nonce flt k k' r Hk I Hr) as [Hk' _]. split; [done|].
  pose proof (EnvironmentInstance_transition _ _ _ _ _ _ Hlen Hk Hr) as Ht.
  destruct a as [id_|err], r as [id'|e]; simpl in Ha; try done; [subst id'|rewrite Ht; split; [by intros m refs1 lost1 _|done]].
  destruct Ht as (l & Hl & [[-> Hi]|[Hi Hcat]]); [split; [by intros m refs1 lost1 _|left; split; [done|by exists l]]|]. split.
  - apply others_kept_slots; [by apply settled_disk_catalog|]. rewrite Hcat.
    split; [intros m Hm; simpl; by rewrite lookup_insert_ne|by left].
  - right. exists l. rewrite Hcat. simpl. split_and!; [done|done|apply lookup_insert_eq|done|by apply shrinks_natives|].
    intros Hidle l' Hl' a' Ha'. simpl in Hl'. rewrite lookup_insert_eq in Hl'. injection Hl' as <-. by apply (Hidle l).
Qed.
