(* ===== verification/WorkspaceSystem.v ===== *)
(** * The Workspace service at work

    Any number of calls of the exported methods of [src/internal/workspace], run
    call by call in any order over one catalog file, with the runtimes the
    provider has created.  The store is the one of [Store.v]: its operations run
    on the file with whatever faults.  The provider, the Workspace provider, the
    manager of data areas and the functions of the composition answer within
    their contracts ([slot_step]).  Other processes may do what leaves the
    entries alone. *)

From S2P Require Import Prelude GoText Core CoreChecks CoreProofs CatalogState CatalogChecks Catalog Resources Lifecycle Snapshots Runs.
From S2P Require Import CatalogSpec Settled Transactions LifecycleProofs ReservationProofs Store.
From S2P Require Import WorkspaceModel WorkspaceService WorkspaceAccess WorkspaceProtocol WorkspaceProofs WorkspaceLifecycle.
From S2P Require Import WorkspaceFrames WorkspaceStore.
From Stdlib Require Import Ascii String.
Open Scope string_scope.

(** ** The world *)

(** The disk of the catalog, the native runtimes that exist for each name, and
    those that were lost so far. *)
Record world := mkWorld { w_disk : disk; w_refs : string -> gset string; w_lost : string -> list string }.

Definition entry_at (w : world) (n : string) : slot := slot_of (catalog_of (w_disk w)) (w_refs w n) (w_lost w n) n.

(** A collaborator that keeps to its contract. *)
Definition collaborates (n : string) (e : effect) (a : reply e) (w w' : world) : Prop :=
  settled_disk (w_disk w') /\ slot_step n e a (entry_at w n) (entry_at w' n) /\ answer_contract e a /\
  forall m, m <> n -> slot_le (entry_at w m) (entry_at w' m).

(** An operation of the store. *)
Definition stores {A} (op : operation A) (a : answer A) (w w' : world) : Prop :=
  exists flt k r, op flt (w_disk w) = (k, r) /\ answers a r /\ w' = mkWorld k (w_refs w) (w_lost w).

(** One call made for the name [n]. *)
Definition world_step (n : string) (e : effect) : reply e -> world -> world -> Prop :=
  match e as e' return reply e' -> world -> world -> Prop with
  | Ask _ q => fun a => stores (store_read q) a
  | Mutate _ op => fun a => stores (run op) a
  | Prepare _ lease => fun a => stores (PrepareEnvironmentResourceDeletion lease) a
  | InstanceOf environment => fun a w w' => exists nonce, List.length nonce = 16%nat /\ stores (EnvironmentInstance environment nonce) a w w'
  | LockLifecycle _ _ | UnlockLifecycle _ _ => fun _ w w' => w' = w
  | e => fun a w w' => collaborates n e a w w'
  end.

Lemma entry_ok w n : settled_disk (w_disk w) -> slot_ok n (entry_at w n).
Proof. intros H. by apply slot_of_ok, settled_disk_catalog. Qed.

Lemma world_moves n e a w w' :
  settled_disk (w_disk w) -> is_lock n e = true \/ is_unlock n e = true \/ permitted n e (entry_at w n) ->
  world_step n e a w w' ->
  settled_disk (w_disk w') /\ slot_step n e a (entry_at w n) (entry_at w' n) /\ answer_contract e a /\
  forall m, m <> n -> slot_le (entry_at w m) (entry_at w' m).
Proof.
  intros Hd Hp. destruct e; try (by intros [? [? [? ?]]]); simpl in Hp;
    try (intros ->; by split_and!).
  - intros (flt & k & r & Hr & Ha & ->). destruct (store_answers n c q (w_refs w n) (w_lost w n) flt _ k r a Hd Hr Ha) as [-> Hst].
    split_and!; [done|exact Hst|done|done].
  - intros (flt & k & r & Hr & Ha & ->). destruct Hp as [|[|Hp]]; [done..|].
    destruct (store_mutates n c op (w_refs w n) (w_lost w n) flt _ k r a Hd Hp Hr Ha) as (H1 & H2 & H3). split_and!; [done..|].
    intros m Hm. by apply H2.
  - intros (flt & k & r & Hr & Ha & ->). destruct Hp as [|[|Hp]]; [done..|].
    destruct (store_prepares n c lease (w_refs w n) (w_lost w n) flt _ k r a Hd Hp Hr Ha) as (H1 & H2 & H3). split_and!; [done..|].
    intros m Hm. by apply H2.
  - intros (nonce & Hlen & flt & k & r & Hr & Ha & ->). destruct Hp as [|[|Hp]]; [done..|].
    destruct (store_identifies n environment nonce (w_refs w n) (w_lost w n) flt _ k r a Hlen Hd Hp Hr Ha) as (H1 & H2 & H3). split_and!; [done..|].
    intros m Hm. by apply H2.
Qed.

(** The calls of the store, the locks apart. *)
Definition of_store (e : effect) : bool :=
  match e with Ask _ _ | Mutate _ _ | Prepare _ _ | InstanceOf _ => true | _ => false end.
Definition is_ask (e : effect) : bool := match e with Ask _ _ => true | _ => false end.
Definition failed (e : effect) : reply e -> bool :=
  match e as e' return reply e' -> bool with
  | Ask _ _ | Mutate _ _ | Prepare _ _ | InstanceOf _ => fun a => match a with inl _ => false | inr _ => true end
  | _ => fun _ => false
  end.

(** The store leaves the runtimes alone, and a call that fails or reads leaves the
    catalog alone. *)
Lemma store_step n e a w w' :
  settled_disk (w_disk w) -> of_store e = true -> permitted n e (entry_at w n) -> world_step n e a w w' ->
  w_refs w' = w_refs w /\ w_lost w' = w_lost w /\
  (failed e a || is_ask e = true -> catalog_of (w_disk w') = catalog_of (w_disk w)).
Proof.
  intros Hd He Hp. destruct e; try discriminate He; simpl in Hp.
  - intros (flt & k & r & Hr & Ha & ->). by destruct (store_answers n c q (w_refs w n) (w_lost w n) flt _ k r a Hd Hr Ha) as [-> _].
  - intros (flt & k & r & Hr & Ha & ->). split_and!; [done..|]. pose proof (run_transition n op _ Hp flt _ k r Hd Hr) as Ht.
    by destruct a as [[]|err], r as [[]|e].
  - intros (flt & k & r & Hr & Ha & ->). split_and!; [done..|].
    pose proof (PrepareEnvironmentResourceDeletion_transition lease flt _ k r Hd Hr) as Ht. by destruct a as [absent|err], r as [absent'|e].
  - intros (nonce & Hlen & flt & k & r & Hr & Ha & ->). split_and!; [done..|].
    pose proof (EnvironmentInstance_transition environment nonce flt _ k r Hlen Hd Hr) as Ht. by destruct a as [id_|err], r as [id'|e].
Qed.

(** ** Methods and threads *)

Section System.
Context (s : WorkspaceService).

(** The exported methods, with what each promises of the entry of its name: its
    state when the lock of the name was taken, the result, and its state when the
    lock is released. *)
Inductive method (n : string) : forall R : Type, (slot -> R -> slot -> Prop) -> prog R -> Prop :=
| MCreate nonce spec : es_Name spec = n -> method n _ create_outcome (Create s nonce spec)
| MCreateFromArchive nonce spec source root limit : es_Name spec = n ->
    method n _ create_outcome (CreateFromArchive s nonce spec source root limit)
| MCreateFromArchiveWithData nonce spec source root limit inputs : es_Name spec = n ->
    method n _ create_outcome (CreateFromArchiveWithData s nonce spec source root limit inputs)
| MCreateFromSnapshot nonce spec id_ : es_Name spec = n -> method n _ create_outcome (CreateFromSnapshot s nonce spec id_)
| MDelete : method n _ delete_outcome (Delete s n)
| MDeleteUser force : method n _ delete_outcome (DeleteUser s n force)
| MDeleteTemporary work : method n _ delete_outcome (DeleteTemporary s n work)
| MDeleteRun instance : method n _ delete_outcome (DeleteRun s n instance)
| MGet : method n _ kept (Get n)
| MList : method n _ kept (List_environments s)
| MListManaged : method n _ kept (ListManagedWorkspaces s)
| MDeleteManaged work : method n _ kept (DeleteManagedWorkspace s work)
| MDeleteOwned work : method n _ kept (DeleteOwnedWorkspace s work)
| MStart : method n _ kept (Start s n)
| MStartForWorkspace expected : method n _ kept (StartForWorkspace s n expected)
| MStop : method n _ kept (Stop s n)
| MStopForWorkspace work : method n _ kept (StopForWorkspace s n work)
| MExec req : method n _ kept (Exec n req)
| MExecForWorkspace work req : method n _ kept (ExecForWorkspace n work req)
| MExecForResource instance resource req : method n _ kept (ExecForResource s n instance resource req)
| MExecRunStream instance req streams : method n _ kept (ExecRunStream s n instance req streams)
| MExecStream req streams : method n _ kept (ExecStream s n req streams)
| MExecUser req : method n _ kept (ExecUser s n req)
| MShellStream streams : method n _ kept (ShellStream s n streams)
| MWithClientAccess expected resume authorize : method n _ kept (WithClientAccess s n expected resume authorize)
| MCollect key : method n _ kept (CollectEnvironmentResource s n key)
| MEmpty expected : method n _ kept (EmptyEnvironmentResource s n expected)
| MCleanupRestored work remove : method n _ kept (CleanupRestoredData s work remove)
| MPublishTemporaryBase work base : method n _ kept (PublishTemporaryBase s n work base)
| MInspectSource : method n _ kept (InspectSnapshotSource s n)
| MCommit image : method n _ kept (Commit s n image)
| MCapture nonce : method n _ kept (CaptureSnapshot s nonce n)
| MCaptureStopped nonce : method n _ kept (CaptureStoppedSnapshot s nonce n)
| MCaptureForWorkspace nonce expected : method n _ kept (CaptureStoppedSnapshotForWorkspace s nonce n expected)
| MCaptureNamed nonce name : method n _ kept (CaptureNamedSnapshot s nonce n name)
| MDeleteSnapshot id_ : method n _ kept (DeleteSnapshot s id_)
| MReadSnapshot id_ consume : method n _ kept (ReadSnapshot s id_ consume)
| MListSnapshots name : method n _ kept (ListSnapshots_of s name)
| MInspectSnapshot id_ : method n _ kept (InspectSnapshot s id_)
| MCleanupRestore id_ : method n _ kept (CleanupLegacySnapshotRestore s id_).

Lemma method_ok n R P p : st_has_resources_idle s = true -> method n R P p -> wp n P p None.
Proof.
  intros Hidle Hm. destruct Hm.
  - by apply (Create_ok n s).
  - by apply (CreateFromArchiveWithData_ok n s).
  - by apply (CreateFromArchiveWithData_ok n s).
  - by apply (CreateFromSnapshot_ok n s).
  - by apply (deleteWithPolicy_ok n s).
  - by apply (deleteWithPolicy_ok n s).
  - unfold DeleteTemporary; stops; by apply (deleteWithPolicy_ok n s).
  - unfold DeleteRun; stops; by apply (deleteWithPolicy_ok n s).
  - apply Get_kept.
  - apply List_environments_kept.
  - apply ListManagedWorkspaces_kept.
  - apply DeleteManagedWorkspace_kept.
  - apply DeleteOwnedWorkspace_kept.
  - apply start_kept.
  - unfold StartForWorkspace; stops; apply start_kept.
  - apply stopForWorkspace_kept.
  - unfold StopForWorkspace; stops; apply stopForWorkspace_kept.
  - apply exec_kept.
  - unfold ExecForWorkspace; stops; apply exec_kept.
  - apply ExecForResource_kept.
  - apply ExecRunStream_kept.
  - apply ExecStream_kept.
  - apply ExecUser_kept.
  - apply ShellStream_kept.
  - apply WithClientAccess_kept.
  - apply CollectEnvironmentResource_kept.
  - apply EmptyEnvironmentResource_kept.
  - apply CleanupRestoredData_kept.
  - apply PublishTemporaryBase_kept.
  - apply InspectSnapshotSource_kept.
  - apply Commit_kept.
  - apply captureSnapshot_kept.
  - apply captureSnapshot_kept.
  - unfold CaptureStoppedSnapshotForWorkspace; stops; apply captureSnapshot_kept.
  - unfold CaptureNamedSnapshot; stops; apply captureSnapshot_kept.
  - apply DeleteSnapshot_kept.
  - apply ReadSnapshot_kept.
  - apply ListSnapshots_of_kept.
  - apply InspectSnapshot_kept.
  - apply CleanupLegacySnapshotRestore_kept.
Qed.

(** A call in progress; [th_since] is the entry when it took the lock it holds. *)
Record thread := mkThread {
  th_name : string;
  th_result : Type;
  th_post : slot -> th_result -> slot -> Prop;
  th_prog : prog th_result;
  th_since : option slot }.

Definition ghost_of (w : world) (th : thread) : ghost :=
  match th_since th with Some x0 => Some (x0, entry_at w (th_name th)) | None => None end.

(** Whether a call takes or releases the lock of the name of its thread. *)
Definition next_since (n : string) (e : effect) (a : reply e) (w' : world) (since : option slot) : option slot :=
  match since with
  | None => if is_lock n e && granted e a then Some (entry_at w' n) else None
  | Some x0 => if is_unlock n e then None else Some x0
  end.

(** The lock of a name is granted to one thread at a time. *)
Definition lock_free (ts : list thread) (n : string) : Prop :=
  forall i th, ts !! i = Some th -> th_name th = n -> th_since th = None.

(** The service starts a call, makes one call of a collaborator, or dies with all
    its calls; or another process acts. *)
Inductive sys_step : world * list thread -> world * list thread -> Prop :=
| step_start w ts n R P p : method n R P p -> sys_step (w, ts) (w, (ts ++ [mkThread n R P p None])%list)
| step_call w w' ts i n R P e k since a :
    ts !! i = Some (mkThread n R P (Do e k) since) ->
    (is_lock n e && granted e a = true -> lock_free ts n) ->
    world_step n e a w w' ->
    sys_step (w, ts) (w', <[i := mkThread n R P (k a) (next_since n e a w' since)]> ts)
| step_crash w ts : sys_step (w, ts) (w, [])
| step_other w w' ts :
    settled_disk (w_disk w') -> (forall n, slot_le (entry_at w n) (entry_at w' n)) -> sys_step (w, ts) (w', ts).

Inductive sys_reachable : world * list thread -> Prop :=
| sys_initial w : settled_disk (w_disk w) -> (forall n, w_refs w n = ∅) -> sys_reachable (w, [])
| sys_next x y : sys_reachable x -> sys_step x y -> sys_reachable y.

(** ** The invariant *)

Record sound (w : world) (ts : list thread) : Prop := {
  sound_disk : settled_disk (w_disk w);
  sound_inv : forall n, slot_inv (entry_at w n);
  sound_threads : forall i th, ts !! i = Some th -> wp (th_name th) (th_post th) (th_prog th) (ghost_of w th);
  sound_locks : forall i j th th', ts !! i = Some th -> ts !! j = Some th' -> th_name th = th_name th' ->
    th_since th <> None -> th_since th' <> None -> i = j }.

Lemma sound_good w ts n : sound w ts -> slot_good n (entry_at w n).
Proof. intros H. split; [apply entry_ok, H|apply H]. Qed.

Lemma wp_le {R} n (P : slot -> R -> slot -> Prop) p g h : wp n P p g -> ghost_le g h -> wp n P p h.
Proof.
  assert (forall h i, ghost_le g h -> ghost_le h i -> ghost_le g i) as Htrans.
  { destruct g as [[x0 x]|]; intros [[y0 y]|] [[z0 z]|]; simpl; try done. intros [-> Hy] [-> Hz]. split; [done|by transitivity y]. }
  destruct p; simpl; intros H Hle.
  - subst g. by destruct h.
  - intros i Hi Hg. apply H; [by apply (Htrans h)|done].
  - intros i Hi Hg. apply (H i); [by apply (Htrans h)|done].
Qed.

(** Entries that others leave alone. *)
Lemma sound_threads_le w w' (ts : list thread) th :
  (th_since th <> None -> slot_le (entry_at w (th_name th)) (entry_at w' (th_name th))) ->
  wp (th_name th) (th_post th) (th_prog th) (ghost_of w th) -> wp (th_name th) (th_post th) (th_prog th) (ghost_of w' th).
Proof.
  intros Hle H. eapply wp_le; [exact H|]. unfold ghost_of. destruct (th_since th); [|done]. split; [done|by apply Hle].
Qed.

Lemma sound_other w w' ts :
  sound w ts -> settled_disk (w_disk w') -> (forall n, slot_le (entry_at w n) (entry_at w' n)) -> sound w' ts.
Proof.
  intros Hs Hd Hle. split; [done| | |apply Hs].
  - intros n. eapply slot_inv_le; [apply Hs|done].
  - intros i th Hi. apply (sound_threads_le w w' ts); [done|]. by eapply sound_threads.
Qed.

Lemma sound_start w ts n R P p : st_has_resources_idle s = true -> sound w ts -> method n R P p -> sound w (ts ++ [mkThread n R P p None]).
Proof.
  intros Hidle Hs Hm.
  assert (forall i th, (ts ++ [mkThread n R P p None])%list !! i = Some th ->
    ts !! i = Some th \/ th = mkThread n R P p None) as Hin.
  { intros i th [Hi|[_ Hi]]%lookup_app_Some; [by left|right]. apply list_lookup_singleton_Some in Hi as [_ <-]. done. }
  split; [apply Hs..| |].
  - intros i th [Hi| ->]%Hin; [by eapply sound_threads|]. by apply method_ok.
  - intros i j th th' [Hi| ->]%Hin [Hj| ->]%Hin; try done. by eapply sound_locks.
Qed.

(** A call made without the lock moves no entry; one made with the lock moves the
    entry of the name by its contract, and keeps the runtimes owned. *)
Lemma call_moves w w' n R (P : slot -> R -> slot -> Prop) e k since a :
  settled_disk (w_disk w) -> slot_inv (entry_at w n) ->
  wp n P (Do e k) (ghost_of w (mkThread n R P (Do e k) since)) -> world_step n e a w w' ->
  settled_disk (w_disk w') /\ (forall m, m <> n -> slot_le (entry_at w m) (entry_at w' m)) /\ slot_inv (entry_at w' n) /\
  (since = None -> slot_le (entry_at w n) (entry_at w' n)) /\
  wp n P (k a) (ghost_of w' (mkThread n R P (k a) (next_since n e a w' since))).
Proof.
  intros Hd Hinv Hwp Hw. assert (slot_good n (entry_at w n)) as Hg by (split; [by apply entry_ok|done]).
  destruct (Hwp (ghost_of w (mkThread n R P (Do e k) since))) as (Hp & _ & Hnext).
  { unfold ghost_of. simpl. by destruct since. }
  { unfold ghost_of. simpl. by destruct since. }
  assert (is_lock n e = true \/ is_unlock n e = true \/ permitted n e (entry_at w n)) as Hperm.
  { unfold ghost_of, ghost_permitted in Hp. simpl in Hp. destruct since.
    - destruct (is_unlock n e); auto.
    - destruct (is_lock n e) eqn:El; [by left|]. destruct Hp. right. right. by apply quiet_permitted. }
  destruct (world_moves n e a w w' Hd Hperm Hw) as (Hd' & Hst & Ha & Hoth). split; [done|]. split; [done|].
  assert (slot_ok n (entry_at w' n)) as Hok' by by apply entry_ok.
  unfold ghost_of, ghost_step, ghost_permitted, next_since in *. simpl in *. destruct since as [x0|].
  - destruct (is_unlock n e) eqn:Eu.
    + assert (slot_le (entry_at w n) (entry_at w' n)) as Hle by (destruct e; try done).
      split; [by eapply slot_inv_le|]. split; [done|]. by apply (Hnext a None).
    + destruct (Hnext a (Some (x0, entry_at w' n))) as [Hi Hk]; [by eexists|done|done|]. split; [done|]. split; [done|]. by apply Hk.
  - assert (slot_le (entry_at w n) (entry_at w' n)) as Hle.
    { destruct (is_lock n e) eqn:El; [by destruct e|]. destruct Hp as [Hq _].
      by destruct (quiet_step n e a _ _ Hq Hst). }
    assert (slot_inv (entry_at w' n)) as Hi by by eapply slot_inv_le. split; [done|]. split; [done|].
    specialize (Hnext a). destruct (is_lock n e && granted e a).
    + by apply (Hnext (Some (entry_at w' n, entry_at w' n))); [eexists|..].
    + by apply (Hnext None).
Qed.

Lemma sound_call w w' ts i n R P e k since a :
  sound w ts -> ts !! i = Some (mkThread n R P (Do e k) since) ->
  (is_lock n e && granted e a = true -> lock_free ts n) -> world_step n e a w w' ->
  sound w' (<[i := mkThread n R P (k a) (next_since n e a w' since)]> ts).
Proof.
  intros Hs Hi Hfree Hw. pose proof (sound_threads _ _ Hs i _ Hi) as Hwp.
  destruct (call_moves w w' n R P e k since a (sound_disk _ _ Hs) (sound_inv _ _ Hs n) Hwp Hw) as (Hd & Hoth & Hinv & Hle & Hk).
  assert (forall j th, j <> i -> ts !! j = Some th -> th_name th = n -> since <> None -> th_since th = None) as Hexcl.
  { intros j th Hj Hth Hn Hsince. destruct (th_since th) eqn:Et; [|done]. exfalso. apply Hj.
    apply (sound_locks _ _ Hs j i th _ Hth Hi); simpl; congruence. }
  split; [done| | |].
  - intros m. destruct (decide (m = n)) as [->|Hm]; [done|]. eapply slot_inv_le; [apply Hs|by apply Hoth].
  - intros j th Hj. destruct (decide (j = i)) as [->|Hji].
    + rewrite list_lookup_insert_eq in Hj by (by eapply lookup_lt_Some). injection Hj as <-. exact Hk.
    + rewrite list_lookup_insert_ne in Hj by done. apply (sound_threads_le w w' ts); [|by eapply sound_threads].
      intros Ht. destruct (decide (th_name th = n)) as [Hn|Hn]; [|by apply Hoth].
      destruct since as [x0|]; [|rewrite Hn; by apply Hle]. exfalso. by apply Ht, (Hexcl j).
  - intros j1 j2 th1 th2 H1 H2 Hn Ht1 Ht2.
    assert (forall j th, j <> i -> ts !! j = Some th -> th_name th = n -> th_since th <> None ->
      next_since n e a w' since <> None -> False) as Hno.
    { intros j th Hj Hth Hnm Hst Hnew. apply Hst. destruct since as [x0|]; [by apply (Hexcl j)|]. simpl in Hnew.
      destruct (_ && _); [|done]. by apply (Hfree eq_refl j). }
    destruct (decide (j1 = i)) as [->|Hj1], (decide (j2 = i)) as [->|Hj2]; try done.
    + rewrite list_lookup_insert_eq in H1 by (by eapply lookup_lt_Some). injection H1 as <-.
      rewrite list_lookup_insert_ne in H2 by done. exfalso. by apply (Hno j2 th2).
    + rewrite list_lookup_insert_eq in H2 by (by eapply lookup_lt_Some). injection H2 as <-.
      rewrite list_lookup_insert_ne in H1 by done. exfalso. by apply (Hno j1 th1).
    + rewrite list_lookup_insert_ne in H1, H2 by done. by eapply sound_locks.
Qed.

Lemma sys_sound x : st_has_resources_idle s = true -> sys_reachable x -> sound x.1 x.2.
Proof.
  intros Hidle. induction 1 as [w Hd Hrefs|x y _ IH Hstep].
  - split; [done| |done|done]. intros n ref Hin. simpl in Hin. rewrite Hrefs in Hin. set_solver.
  - destruct Hstep; simpl in *; [by apply sound_start|by eapply sound_call| |by eapply sound_other].
    split; [apply IH|apply IH|done|done].
Qed.

End System.
