(* ===== verification/WorkspaceScenario.v ===== *)
(** * A concrete run of the Workspace service

    Collaborators that answer every call: the store on a disk without faults, a
    provider that creates one runtime and deletes what it is told to, a Workspace
    provider with one Workspace.  They keep to the contracts, so every state a
    call reaches with them is a state of the system; [drive] computes these
    states. *)

From S2P Require Import Prelude GoText Core CoreChecks CoreProofs CatalogState CatalogChecks Catalog Resources Lifecycle Snapshots Runs.
From S2P Require Import CatalogSpec Settled Transactions LifecycleProofs ReservationProofs Store Scenario.
From S2P Require Import WorkspaceModel WorkspaceService WorkspaceAccess WorkspaceProtocol WorkspaceProofs WorkspaceLifecycle.
From S2P Require Import WorkspaceFrames WorkspaceStore WorkspaceSystem.
From Stdlib Require Import Ascii String.
Open Scope string_scope.

Definition to_answer {A} (r : result A) : answer A := match r with Ok v => inl v | Err e => inr (Plain e) end.

(** [None] when a store reports a missing file, which this one never does. *)
Definition store_call {A} (w : world) (x : disk * result A) : option (answer A * world) :=
  match x.2 with
  | Err ErrNotExist => None
  | r => Some (to_answer r, mkWorld x.1 (w_refs w) (w_lost w))
  end.

Definition set_refs (n : string) (refs : gset string) (w : world) : world :=
  mkWorld (w_disk w) (fun m => if m == n then refs else w_refs w m) (w_lost w).

Definition tools_workspace : Workspace := mkWorkspace "workspace:tools" "/work/tools".
Definition tools_runtime : EnvironmentRuntime := mkRuntime "vm-tools" None zeroBudget.

(** The provider announces its runtime and returns it if the receipt was
    accepted. *)
Definition tools_creation : creation :=
  Receipt tools_runtime (fun err => Returned match err with None => inl tools_runtime | Some e => inr e end).

Definition announced_refs (known : option string * bool) : gset string :=
  match known.1 with Some ref => {[ ref ]} | None => ∅ end.

(** The runtimes after the creation returned: one that was deleted again when
    its receipt was refused. *)
Definition returned_refs (before : list (EnvironmentRuntime * option goerror)) (a : answer EnvironmentRuntime) : gset string :=
  match a, announced before with inl _, (Some ref, true) => {[ ref ]} | _, _ => ∅ end.

Definition handler (n : string) (e : effect) (w : world) : option (reply e * world) :=
  match e as e' return option (reply e' * world) with
  | LockLifecycle _ _ => Some (inl tt, w)
  | UnlockLifecycle _ _ => Some (tt, w)
  | Ask _ q => store_call w (store_read q noFaults (w_disk w))
  | Mutate _ op => store_call w (run op noFaults (w_disk w))
  | Prepare _ lease => store_call w (PrepareEnvironmentResourceDeletion lease noFaults (w_disk w))
  | InstanceOf environment => store_call w (EnvironmentInstance environment (nonce16 5) noFaults (w_disk w))
  | CtxErr => Some (inl tt, w)
  | Now => Some (1000%Z, w)
  | CreateEnvironment _ => Some (inl tools_runtime, set_refs n {[ rt_Ref tools_runtime ]} w)
  | CreateWith _ _ => Some (tools_creation, w)
  | ProviderCallsBack _ before created => Some (tt, set_refs n (announced_refs (announced (before ++ [(created, None)])%list)) w)
  | ProviderReturns _ before a => Some (tt, set_refs n (returned_refs before a) w)
  | DeleteEnvironment _ ref => Some (inl tt, set_refs n (w_refs w n ∖ {[ ref ]}) w)
  | InspectEnvironment _ => Some (inl (mkStatus false EnvironmentRunning), w)
  | StartEnvironment _ | StartEnvironmentWithResources _ _ | StopEnvironment _ | VerifyEnvironmentIdentity _ _ => Some (inl tt, w)
  | SupportsEnvironmentResources => Some (true, w)
  | Resolve _ => Some (inl tools_workspace, w)
  | CallerAuthorizes _ _ | CallerOperates _ _ => Some (inl tt, w)
  | _ => None
  end.

(** ** The collaborators keep to their contracts *)

Lemma set_refs_other n m refs w : m <> n -> entry_at (set_refs n refs w) m = entry_at w m.
Proof. intros H. unfold entry_at, set_refs. simpl. by rewrite bool_decide_eq_false_2. Qed.

Lemma set_refs_entry n refs w : entry_at (set_refs n refs w) n = slot_of (catalog_of (w_disk w)) refs (w_lost w n) n.
Proof. unfold entry_at, set_refs. simpl. by rewrite bool_decide_eq_true_2. Qed.

Lemma collaborates_quietly n e a w :
  settled_disk (w_disk w) -> slot_step n e a (entry_at w n) (entry_at w n) -> answer_contract e a -> collaborates n e a w w.
Proof. intros. by split_and!. Qed.

Lemma collaborates_refs n e a refs w :
  settled_disk (w_disk w) -> slot_step n e a (entry_at w n) (slot_of (catalog_of (w_disk w)) refs (w_lost w n) n) -> answer_contract e a ->
  collaborates n e a w (set_refs n refs w).
Proof.
  intros Hd Hst Ha. split_and!; [done|by rewrite set_refs_entry|done|]. intros m Hm. by rewrite set_refs_other.
Qed.

Lemma stored_stores {A} (op : operation A) w a w' : store_call w (op noFaults (w_disk w)) = Some (a, w') -> stores op a w w'.
Proof.
  unfold store_call. intros H. exists noFaults, (op noFaults (w_disk w)).1, (op noFaults (w_disk w)).2.
  split; [by destruct (op noFaults (w_disk w))|].
  destruct (op noFaults (w_disk w)).2 as [v|[]]; try done; injection H as <- <-; (split; [|done]); try done; (split; [by left|done]).
Qed.

Lemma handler_keeps n e w a w' : settled_disk (w_disk w) -> handler n e w = Some (a, w') -> world_step n e a w w'.
Proof.
  intros Hd. destruct e; simpl; try done; try (by apply stored_stores);
    try (intros [= <- <-]; done);
    try (intros [= <- <-]; by apply collaborates_quietly).
  - intros H. exists (nonce16 5). split; [done|]. by apply stored_stores.
  - intros [= <- <-]. apply collaborates_refs; [done| |done]. split; [done|]. unfold return_contract, only. simpl. set_solver.
  - intros [= <- <-]. apply collaborates_refs; [done| |done]. split; [done|].
    unfold callback_contract, announced_refs, only. destruct (announced _).1; set_solver.
  - intros [= <- <-]. apply collaborates_refs; [done| |done]. split; [done|].
    unfold return_contract, returned_refs, only. destruct a0, (announced before) as [[ref'|] []]; set_solver.
  - intros [= <- <-]. apply collaborates_refs; [done| |done]. split; [|set_solver]. split_and!; [done..| |done].
    exists []. split_and!; simpl; [by rewrite app_nil_r|set_solver|].
    intros x Hx. destruct (decide (x = ref)); set_solver.
Qed.

(** ** Driving one call *)

Fixpoint drive {R} (n : string) (fuel : nat) (p : prog R) (since : option slot) (w : world) : option (prog R * option slot * world) :=
  match fuel, p with
  | S fuel, Do e k =>
    match handler n e w with
    | Some (a, w') => drive n fuel (k a) (next_since n e a w' since) w'
    | None => None
    end
  | _, _ => Some (p, since, w)
  end.

Lemma drive_reachable s n R P fuel : forall (p : prog R) since w p' since' w',
  st_has_resources_idle s = true -> sys_reachable s (w, [mkThread n R P p since]) ->
  drive n fuel p since w = Some (p', since', w') -> sys_reachable s (w', [mkThread n R P p' since']).
Proof.
  induction fuel as [|fuel IH]; intros p since w p' since' w' Hidle Hr Hd; simpl in Hd; [by injection Hd as <- <- <-|].
  destruct p as [r|e k|]; [by injection Hd as <- <- <-| |by injection Hd as <- <- <-].
  destruct (handler n e w) as [[a w1]|] eqn:Eh; [|done]. eapply IH; [done| |exact Hd].
  pose proof (sys_sound s _ Hidle Hr) as Hs. eapply sys_next; [exact Hr|].
  change [mkThread n R P (k a) (next_since n e a w1 since)] with
    (<[0%nat := mkThread n R P (k a) (next_since n e a w1 since)]> [mkThread n R P (Do e k) since]).
  eapply step_call; [done| |eapply handler_keeps; [apply Hs|done]].
  intros Hlock j th Hj _. apply list_lookup_singleton_Some in Hj as [_ <-]. simpl. destruct since as [x0|]; [|done].
  exfalso. pose proof (sound_threads _ _ Hs 0%nat _ eq_refl) as Hwp. simpl in Hwp.
  destruct (Hwp (Some (x0, entry_at w n))) as (Hp & _ & _); [by split|by eapply sound_good|].
  apply andb_true_iff in Hlock as [Hl _]. by destruct e; simpl in *; try done; rewrite Hl in Hp.
Qed.

(** A new service starts a call where the last one was stopped. *)
Lemma method_reachable s n R P p w ts :
  sys_reachable s (w, ts) -> method s n R P p -> sys_reachable s (w, [mkThread n R P p None]).
Proof.
  intros Hr Hm. eapply (sys_next s (w, [])); [eapply sys_next; [exact Hr|apply step_crash]|]. by apply (step_start s w []).
Qed.

(** ** One creation and one deletion *)

Definition tools_service : WorkspaceService := {|
  rt_has_receipt := true; rt_has_snapshot_creation := false; rt_has_archive := false; rt_has_inspect := true; rt_has_stop := true;
  rt_has_start := true; rt_has_start_resources := false; rt_has_verify := true; rt_has_supports := false; rt_has_stream := false;
  rt_has_shell := false; rt_has_publish := false; rt_has_commit := false; rt_has_snapshots := false; rt_has_snapshot_image := false;
  rt_has_snapshot_inspect := false; rt_has_restore := false;
  st_has_resources := true; st_has_snapshot_creation := false; st_has_saved_resources := false; st_has_resource_catalog := true;
  st_has_owned_cleanup := true; st_has_resources_idle := true; st_has_snapshot_idle := true; st_has_instance := true;
  st_has_leases := true; st_has_environments := true; st_has_managed := true; st_has_snapshots := true; st_has_get_snapshot := true;
  st_has_list_snapshots := true; st_has_snapshot_image := false; st_has_restores := true;
  pv_has_list := false; pv_has_delete := false;
  environmentResources := None; has_selectEnvironmentResources := false; has_defaultResource := false;
  has_deleteWorkspaceResource := false; has_checkSnapshotName := false |}.

Definition tools_spec : EnvironmentSpec :=
  mkSpec false false "" "" "" "" None false "" zeroRef "tools" "/work/tools" "" "" zeroBudget.

Definition empty_world : world := mkWorld emptyDisk (fun _ => ∅) (fun _ => []).

Definition create_run (fuel : nat) := drive "tools" fuel (Create tools_service (nonce16 1) tools_spec) None empty_world.

(** The program has come to the release of the lock of the name. *)
Definition releasing {R} (n : string) (p : prog R) : bool := match p with Do e _ => is_unlock n e | _ => false end.

Lemma empty_reachable s : sys_reachable s (empty_world, []).
Proof. apply sys_initial; [|done]. repeat split; [by left|done]. Qed.

Lemma create_run_reachable fuel p since w :
  create_run fuel = Some (p, since, w) ->
  sys_reachable tools_service (w, [mkThread "tools" (answer Environment) create_outcome p since]).
Proof.
  intros H. eapply drive_reachable; [done| |exact H]. eapply method_reachable; [apply empty_reachable|]. by apply MCreate.
Qed.

Definition created_world : world := match create_run 20 with Some (_, _, w) => w | None => empty_world end.

Lemma created_reachable : exists ts, sys_reachable tools_service (created_world, ts).
Proof.
  unfold created_world. destruct (create_run 20) as [[[p since] w]|] eqn:E; [|by exists []; apply empty_reachable].
  eexists. by eapply create_run_reachable.
Qed.

Definition later_run {R} (fuel : nat) (p : prog R) := drive "tools" fuel p None created_world.

Lemma later_run_reachable {R} (P : slot -> R -> slot -> Prop) p fuel p' since w :
  method tools_service "tools" R P p -> later_run fuel p = Some (p', since, w) ->
  sys_reachable tools_service (w, [mkThread "tools" R P p' since]).
Proof.
  intros Hm H. destruct created_reachable as [ts Hts]. eapply drive_reachable; [done| |exact H]. by eapply method_reachable.
Qed.
