(* ===== verification/WorkspaceProperties.v ===== *)
(** * Properties of the Workspace service

    The service, the store it drives and collaborators that keep to their
    contracts, as one system in which any number of calls interleave and the
    service may die at any point. *)

From S2P Require Import Prelude GoText Core CoreChecks CoreProofs CatalogState CatalogChecks Catalog Resources Lifecycle Snapshots Runs.
From S2P Require Import CatalogSpec Settled Transactions LifecycleProofs ReservationProofs Store Scenario.
From S2P Require Import WorkspaceModel WorkspaceService WorkspaceAccess WorkspaceProtocol WorkspaceProofs WorkspaceLifecycle.
From S2P Require Import WorkspaceFrames WorkspaceStore WorkspaceSystem WorkspaceScenario.
From Stdlib Require Import Ascii String.
Open Scope string_scope.

(** A thread about to release the lock of its name has its result, and what its
    method promises holds. *)
Lemma releasing_post s w ts i n R P e k x0 :
  st_has_resources_idle s = true -> sys_reachable s (w, ts) ->
  ts !! i = Some (mkThread n R P (Do e k) (Some x0)) -> is_unlock n e = true ->
  exists r, (forall a, outside n (fun r' => r' = r) (k a)) /\ P x0 r (entry_at w n).
Proof.
  intros Hidle Hr Hi Hu. pose proof (sys_sound s _ Hidle Hr) as Hs. pose proof (sound_threads _ _ Hs i _ Hi) as Hwp. simpl in Hwp.
  destruct (Hwp (Some (x0, entry_at w n))) as (_ & Hpost & _); [done|by eapply sound_good|].
  destruct (Hpost Hu) as (r & y0 & y & [= <- <-] & Hk & HP). eauto.
Qed.

(** The lease, the Environment and the runtimes of the name are those of [x0]: a
    runtime that existed then still exists, unless something other than a deletion
    the service asked for has removed it since, and there is no new one. *)
Definition runtimes_kept (x0 : slot) (w : world) (n : string) : Prop :=
  exists gone, w_lost w n = (sl_lost x0 ++ gone)%list /\ w_refs w n ⊆ sl_refs x0 /\
    sl_refs x0 ⊆ w_refs w n ∪ list_to_set gone.
Definition as_before (x0 : slot) (w : world) (n : string) : Prop :=
  Leases (catalog_of (w_disk w)) !! n = sl_lease x0 /\ Environments (catalog_of (w_disk w)) !! n = sl_env x0 /\
  runtimes_kept x0 w n.

Lemma shrinks_kept x0 w n : shrinks x0 (entry_at w n) -> runtimes_kept x0 w n.
Proof. intros (gone & E & H1 & H2). exists gone. split_and!; [done..|]. simpl in H2. set_solver. Qed.

Lemma slot_le_before x0 w n : slot_le x0 (entry_at w n) -> as_before x0 w n.
Proof. intros (H1 & H2 & H3 & _). split_and!; [done..|by apply shrinks_kept]. Qed.

(** C2: Whatever calls of the service run concurrently, whatever the store and
    the collaborators answer within their contracts and wherever the service
    dies, every native runtime that exists belongs to a lease in the catalog that
    names it, or names none yet, and does not claim that it is absent: no runtime
    is ever orphaned. *)
Theorem no_orphan_runtime s w ts n ref :
  st_has_resources_idle s = true -> sys_reachable s (w, ts) -> ref ∈ w_refs w n ->
  exists lease, Leases (catalog_of (w_disk w)) !! n = Some lease /\ lease_RuntimeAbsent lease = false /\
    (lease_RuntimeRef lease = ref \/ lease_RuntimeRef lease = "").
Proof. intros Hidle Hr Href. exact (sound_inv _ _ (sys_sound s _ Hidle Hr) n ref Href). Qed.

(** The runtime exists before its receipt is recorded. *)
Lemma no_orphan_runtime_witness :
  exists w ts, sys_reachable tools_service (w, ts) /\ "vm-tools" ∈ w_refs w "tools" /\
    exists lease, Leases (catalog_of (w_disk w)) !! "tools" = Some lease /\ lease_RuntimeAbsent lease = false /\
      (lease_RuntimeRef lease = "vm-tools" \/ lease_RuntimeRef lease = "").
Proof.
  assert (match create_run 9 with Some (_, _, w) => bool_decide ("vm-tools" ∈ w_refs w "tools") | None => false end = true) as H
    by by vm_compute.
  destruct (create_run 9) as [[[p since] w]|] eqn:E; [|discriminate]. apply bool_decide_eq_true in H.
  pose proof (create_run_reachable 9 p since w E) as Hr. eexists w, _. split; [exact Hr|]. split; [exact H|].
  exact (no_orphan_runtime tools_service w _ "tools" "vm-tools" eq_refl Hr H).
Defined.



(** C5: When a deletion releases the lock of the name, either it succeeds and
    neither the Environment, nor its lease, nor a runtime is left; or it returns
    an error, and unless the error asks for recovery the lease, the Environment and
    the runtimes are those from before (no runtime is gone, except by something
    other than a deletion the service asked for) or everything is gone. *)
Theorem delete_removes_or_restores s w ts i n e k x0 :
  st_has_resources_idle s = true -> sys_reachable s (w, ts) ->
  ts !! i = Some (mkThread n (answer unit) delete_outcome (Do e k) (Some x0)) -> is_unlock n e = true ->
  exists r, (forall a, outside n (fun r' => r' = r) (k a)) /\
    let gone := Leases (catalog_of (w_disk w)) !! n = None /\ Environments (catalog_of (w_disk w)) !! n = None /\ w_refs w n = ∅ in
    match r with
    | inl _ => gone
    | inr err => errors_Is err ErrRecoveryRequired = false -> as_before x0 w n \/ gone
    end.
Proof.
  intros Hidle Hr Hi Hu. destruct (releasing_post s w ts i n _ _ e k x0 Hidle Hr Hi Hu) as (r & Hk & HP).
  exists r. split; [exact Hk|]. cbv zeta. destruct r as [[]|err]; simpl in HP; [exact HP|].
  intros Herr. assert (~ recovers err) as Hno by (unfold recovers; congruence).
  destruct (HP Hno) as [Hle|Hgone]; [left; by apply slot_le_before|by right].
Qed.

(** The deletion of the Environment of the scenario. *)
Lemma delete_removes_or_restores_witness :
  exists w x0 e k, sys_reachable tools_service (w, [mkThread "tools" (answer unit) delete_outcome (Do e k) (Some x0)]) /\
    is_unlock "tools" e = true /\
    exists r, (forall a, outside "tools" (fun r' => r' = r) (k a)) /\
    let gone := Leases (catalog_of (w_disk w)) !! "tools" = None /\ Environments (catalog_of (w_disk w)) !! "tools" = None /\
                w_refs w "tools" = ∅ in
    match r with
    | inl _ => gone
    | inr err => errors_Is err ErrRecoveryRequired = false -> as_before x0 w "tools" \/ gone
    end.
Proof.
  assert (match later_run 9 (Delete tools_service "tools") with Some (p, Some _, _) => releasing "tools" p | _ => false end = true) as H
    by by vm_compute.
  destruct (later_run 9 (Delete tools_service "tools")) as [[[p [x0|]] w]|] eqn:E; [|discriminate..].
  destruct p as [|e k|]; [discriminate| |discriminate].
  pose proof (later_run_reachable delete_outcome _ 9 _ _ _ (MDelete _ _) E) as Hr. exists w, x0, e, k.
  split; [exact Hr|]. split; [exact H|].
  exact (delete_removes_or_restores tools_service w _ 0 "tools" e k x0 eq_refl Hr eq_refl H).
Defined.

(** C14: Start, stop, execution, client access, data areas, images, snapshots and
    the other uses of an Environment leave its entry as it was when they took the
    lock of the name: the same Environment, the same runtimes (none is new, and
    none is gone except by something other than a deletion the service asked for),
    and the same lease, except that a lease without an identity may have got one. *)
Theorem use_leaves_entry s w ts i n R e k x0 :
  st_has_resources_idle s = true -> sys_reachable s (w, ts) ->
  ts !! i = Some (mkThread n R kept (Do e k) (Some x0)) -> is_unlock n e = true ->
  Environments (catalog_of (w_disk w)) !! n = sl_env x0 /\ runtimes_kept x0 w n /\
  (Leases (catalog_of (w_disk w)) !! n = sl_lease x0 \/
   exists l id_, sl_lease x0 = Some l /\ lease_InstanceID l = "" /\
     Leases (catalog_of (w_disk w)) !! n = Some (lease_with_InstanceID id_ l)).
Proof.
  intros Hidle Hr Hi Hu. destruct (releasing_post s w ts i n _ _ e k x0 Hidle Hr Hi Hu) as (r & _ & H1 & H2 & H3).
  split_and!; [done|by apply shrinks_kept|done].
Qed.

(** The start of the Environment of the scenario. *)
Lemma use_leaves_entry_witness :
  exists w x0, Environments (catalog_of (w_disk w)) !! "tools" = sl_env x0 /\ runtimes_kept x0 w "tools" /\
  (Leases (catalog_of (w_disk w)) !! "tools" = sl_lease x0 \/
   exists l id_, sl_lease x0 = Some l /\ lease_InstanceID l = "" /\
     Leases (catalog_of (w_disk w)) !! "tools" = Some (lease_with_InstanceID id_ l)).
Proof.
  assert (match later_run 6 (Start tools_service "tools") with Some (p, Some _, _) => releasing "tools" p | _ => false end = true) as H
    by by vm_compute.
  destruct (later_run 6 (Start tools_service "tools")) as [[[p [x0|]] w]|] eqn:E; [|discriminate..].
  destruct p as [|e k|]; [discriminate| |discriminate].
  pose proof (later_run_reachable kept _ 6 _ _ _ (MStart _ _) E) as Hr. exists w, x0.
  exact (use_leaves_entry tools_service w _ 0 "tools" _ e k x0 eq_refl Hr eq_refl H).
Defined.

(** No call of the service ever panics: every unchecked interface assertion
    is reached only after the branches that established it. *)
Theorem service_never_panics s w ts i n R P p since :
  st_has_resources_idle s = true -> sys_reachable s (w, ts) -> ts !! i = Some (mkThread n R P p since) -> p <> Panic.
Proof.
  intros Hidle Hr Hi ->. pose proof (sys_sound s _ Hidle Hr) as Hs. pose proof (sound_threads _ _ Hs i _ Hi) as Hwp. simpl in Hwp.
  apply (Hwp (ghost_of w (mkThread n R P Panic since))); unfold ghost_of; simpl; destruct since; try done. by eapply sound_good.
Qed.

(** C13: The store implements its side of the protocol.  Whatever fails inside it,
    every call the service may make of it on behalf of a name (a read, a
    transition of the entry or another record, the preparation of the deletion of
    the areas, the issue of an identity) leaves a settled disk and the runtimes
    alone.  A call that fails, and a read, leaves the catalog as it was; otherwise
    the entry of the name moves by the step of the call; and the lease, the
    Environment and the idleness of every other name are left alone. *)
Theorem store_implements_protocol n e a w w' :
  settled_disk (w_disk w) -> of_store e = true -> permitted n e (entry_at w n) -> world_step n e a w w' ->
  settled_disk (w_disk w') /\ w_refs w' = w_refs w /\ w_lost w' = w_lost w /\
  (failed e a || is_ask e = true -> catalog_of (w_disk w') = catalog_of (w_disk w)) /\
  slot_step n e a (entry_at w n) (entry_at w' n) /\
  forall m, m <> n -> slot_le (entry_at w m) (entry_at w' m).
Proof.
  intros Hd He Hp Hw. destruct (world_moves n e a w w' Hd (or_intror (or_intror Hp)) Hw) as (H1 & H2 & _ & H3).
  destruct (store_step n e a w w' Hd He Hp Hw) as (H4 & H5 & H6). by split_and!.
Qed.

(** The reservation of the scenario, on a disk without a catalog. *)
Definition tools_lease : WorkspaceLease :=
  new_lease tools_spec (NewEnvironmentInstanceID (nonce16 1)) WorkspaceReadWrite tools_workspace zeroResource 1000.

Lemma store_implements_protocol_witness :
  exists w', world_step "tools" (Mutate Parent (OpBeginEnvironmentCreate tools_lease)) (inl tt) empty_world w' /\
    settled_disk (w_disk w') /\ op_step (OpBeginEnvironmentCreate tools_lease) (entry_at empty_world "tools") (entry_at w' "tools").
Proof.
  destruct (run (OpBeginEnvironmentCreate tools_lease) noFaults emptyDisk) as [k' r] eqn:E.
  assert (r = Ok tt) as -> by (change r with (k', r).2; rewrite <- E; by vm_compute).
  assert (settled_disk emptyDisk) as Hk by (repeat split; [by left|done]). exists (mkWorld k' (w_refs empty_world) (w_lost empty_world)).
  assert (world_step "tools" (Mutate Parent (OpBeginEnvironmentCreate tools_lease)) (inl tt) empty_world
    (mkWorld k' (w_refs empty_world) (w_lost empty_world))) as Hw
    by exact (ex_intro _ noFaults (ex_intro _ k' (ex_intro _ (Ok tt) (conj E (conj eq_refl eq_refl))))).
  destruct (store_implements_protocol "tools" (Mutate Parent (OpBeginEnvironmentCreate tools_lease)) (inl tt) empty_world _
    Hk eq_refl (conj eq_refl (List.Forall_nil _)) Hw) as (H1 & _ & _ & _ & H2 & _).
  exact (conj Hw (conj H1 H2)).
Defined.
